(** * upb/io/tokenizer.c: a shallow embedding and its verified properties

    The C tokenizer of upb is embedded function by function.

    Conventions of the embedding.
    - A [char] is a [Z] in [0, 256) (the byte value).  Every comparison the
      source makes on a [char] gives the same answer for a signed and for an
      unsigned [char], and [DigitValue] masks with [0xFF] itself.
    - A C string ([const char*]) handed to a literal parser is the list of
      the bytes in memory from the pointer on; the terminating NUL is the
      implicit [0] read past the end of the list (a [0] inside the list
      terminates the string as well, as it does in C).
    - [uint64_t] and [uint32_t] arithmetic is written with its wrap-around.
      The [int] counters [line] and [column] are 32 bits wide: their
      arithmetic is written with the two's-complement wrap-around
      ([wrap_int]); in C their overflow is undefined, and what is proved of
      the counters is stated for values below [INT_MAX].  Buffer positions
      and sizes are [Z]: buffers of 2^31 bytes are out of scope.
    - The host is little-endian, as [ghtonl] (an unconditional byte swap)
      assumes.
    - Functions with loops that are not structural take a [fuel] and return
      [None] when it runs out; termination is proved separately. *)

From Stdlib Require Import ZArith List Bool Lia Ascii.
From Stdlib Require String.
Import String.StringSyntax.
Import ListNotations.
Local Open Scope Z_scope.

(** ** Bytes and C strings *)

Definition char := Z.

(** The byte value of an ASCII character, for readable character constants. *)
Definition ch (a : ascii) : char := Z.of_N (N_of_ascii a).

(** The bytes of a string literal (Rocq string literals have no escapes: a
    backslash is a backslash). *)
Fixpoint bytes (s : String.string) : list char :=
  match s with
  | String.EmptyString => []
  | String.String a s' => ch a :: bytes s'
  end.
Arguments bytes s%_string_scope.

(** [text[i]] for a C string: the NUL terminator is read past the end. *)
Definition at_ (text : list char) (i : Z) : char :=
  if i <? 0 then 0 else nth (Z.to_nat i) text 0.

(** [strlen]: the number of bytes before the first NUL. *)
Fixpoint strlen (text : list char) : Z :=
  match text with
  | [] => 0
  | c :: rest => if c =? 0 then 0 else 1 + strlen rest
  end.

Definition UINT64_MAX : Z := 18446744073709551615.
Definition wrap64 (x : Z) : Z := x mod 2 ^ 64.
Definition wrap32 (x : Z) : Z := x mod 2 ^ 32.

(** [int] is 32 bits wide.  The additions and subtractions the code makes on
    its [int] counters are embedded with the two's-complement wrap-around of
    the machine.  (In C the overflow of an [int] is undefined: the properties
    of the counters are stated for values that stay within [INT_MIN] and
    [INT_MAX], where no overflow occurs.) *)
Definition INT_MAX : Z := 2147483647.
Definition INT_MIN : Z := -2147483648.
Definition wrap_int (x : Z) : Z := (x + 2 ^ 31) mod 2 ^ 32 - 2 ^ 31.

(** ** Character classes (the CHARACTER_CLASS macro instances) *)

Definition Whitespace (c : char) : bool :=
  (c =? 32) || (c =? 10) || (c =? 9) || (c =? 13) || (c =? 11) || (c =? 12).

Definition WhitespaceNoNewline (c : char) : bool :=
  (c =? 32) || (c =? 9) || (c =? 13) || (c =? 11) || (c =? 12).

Definition Unprintable (c : char) : bool := (c <? 32) && (0 <? c).

Definition Digit (c : char) : bool := (48 <=? c) && (c <=? 57).

Definition OctalDigit (c : char) : bool := (48 <=? c) && (c <=? 55).

Definition HexDigit (c : char) : bool :=
  ((48 <=? c) && (c <=? 57)) || ((97 <=? c) && (c <=? 102)) ||
  ((65 <=? c) && (c <=? 70)).

Definition Letter (c : char) : bool :=
  ((97 <=? c) && (c <=? 122)) || ((65 <=? c) && (c <=? 90)) || (c =? 95).

Definition Alphanumeric (c : char) : bool :=
  ((97 <=? c) && (c <=? 122)) || ((65 <=? c) && (c <=? 90)) ||
  ((48 <=? c) && (c <=? 57)) || (c =? 95).

Definition Escape (c : char) : bool :=
  (c =? 97) || (c =? 98) || (c =? 102) || (c =? 110) || (c =? 114) ||
  (c =? 116) || (c =? 118) || (c =? 92) || (c =? 63) || (c =? 39) ||
  (c =? 34).

Definition kTabWidth : Z := 8.

(** ** The digit table *)

Definition kAsciiToInt : list Z :=
  [ 36; 36; 36; 36; 36; 36; 36; 36; 36; 36; 36; 36; 36; 36; 36; 36;
    36; 36; 36; 36; 36; 36; 36; 36; 36; 36; 36; 36; 36; 36; 36; 36;
    36; 36; 36; 36; 36; 36; 36; 36; 36; 36; 36; 36; 36; 36; 36; 36;
    0;  1;  2;  3;  4;  5;  6;  7;  8;  9;
    36; 36; 36; 36; 36; 36; 36;
    10; 11; 12; 13; 14; 15; 16; 17; 18; 19; 20; 21; 22; 23; 24; 25;
    26; 27; 28; 29; 30; 31; 32; 33; 34; 35;
    36; 36; 36; 36; 36; 36;
    10; 11; 12; 13; 14; 15; 16; 17; 18; 19; 20; 21; 22; 23; 24; 25;
    26; 27; 28; 29; 30; 31; 32; 33; 34; 35;
    36; 36; 36; 36; 36;
    36; 36; 36; 36; 36; 36; 36; 36; 36; 36; 36; 36; 36; 36; 36; 36;
    36; 36; 36; 36; 36; 36; 36; 36; 36; 36; 36; 36; 36; 36; 36; 36;
    36; 36; 36; 36; 36; 36; 36; 36; 36; 36; 36; 36; 36; 36; 36; 36;
    36; 36; 36; 36; 36; 36; 36; 36; 36; 36; 36; 36; 36; 36; 36; 36;
    36; 36; 36; 36; 36; 36; 36; 36; 36; 36; 36; 36; 36; 36; 36; 36;
    36; 36; 36; 36; 36; 36; 36; 36; 36; 36; 36; 36; 36; 36; 36; 36;
    36; 36; 36; 36; 36; 36; 36; 36; 36; 36; 36; 36; 36; 36; 36; 36;
    36; 36; 36; 36; 36; 36; 36; 36; 36; 36; 36; 36; 36; 36; 36; 36 ].

Definition ghtonl (host_int : Z) : Z :=
  Z.lor (Z.lor (Z.lor (wrap32 (Z.shiftl (Z.land host_int 255) 24))
                      (wrap32 (Z.shiftl (Z.land host_int 65280) 8)))
               (Z.shiftr (Z.land host_int 16711680) 8))
        (Z.shiftr (Z.land host_int 4278190080) 24).

Definition DigitValue (digit : char) : Z :=
  nth (Z.to_nat (Z.land digit 255)) kAsciiToInt 36.

Definition TranslateEscape (c : char) : char :=
  if c =? 97 then 7            (* 'a' -> '\a' *)
  else if c =? 98 then 8       (* 'b' -> '\b' *)
  else if c =? 102 then 12     (* 'f' -> '\f' *)
  else if c =? 110 then 10     (* 'n' -> '\n' *)
  else if c =? 114 then 13     (* 'r' -> '\r' *)
  else if c =? 116 then 9      (* 't' -> '\t' *)
  else if c =? 118 then 11     (* 'v' -> '\v' *)
  else if c =? 92 then 92      (* backslash *)
  else if c =? 63 then 63      (* '?' *)
  else if c =? 39 then 39      (* single quote *)
  else if c =? 34 then 34      (* double quote *)
  else 63.                     (* default: '?' *)

(** ** upb_Parse_Integer *)

(** The first loop: skips the leading zeros and seeds [result] with the first
    non-zero digit.  [None] is [return false]; otherwise the pointer after
    the loop and [result]. *)
Fixpoint Parse_Integer_seed (base : Z) (ptr : list char)
  : option (list char * Z) :=
  match ptr with
  | [] => Some ([], 0)
  | c :: rest =>
      if c =? 0 then Some (ptr, 0)
      else
        let digit := DigitValue c in
        if digit >=? base then None
        else if negb (digit =? 0) then Some (rest, digit)
        else Parse_Integer_seed base rest
  end.

(** The second loop: multiply and add with both overflow checks. *)
Fixpoint Parse_Integer_accum (base overflow_if_mul_base : Z)
    (ptr : list char) (result : Z) : option Z :=
  match ptr with
  | [] => Some result
  | c :: rest =>
      if c =? 0 then Some result
      else
        let digit := DigitValue c in
        if (digit <? 0) || (digit >=? base) then None
        else if result >=? overflow_if_mul_base then None
        else
          let result' := wrap64 (result * base + digit) in
          if result' <? base then None
          else Parse_Integer_accum base overflow_if_mul_base rest result'
  end.

(** The prefix inspection: the base, its overflow bound and the pointer to
    the first digit. *)
Definition Parse_Integer_prefix (text : list char) : Z * Z * list char :=
  if at_ text 0 =? ch "0" then
    if (at_ text 1 =? ch "x") || (at_ text 1 =? ch "X")
    then (16, UINT64_MAX / 16 + 1, skipn 2 text)
    else (8, UINT64_MAX / 8 + 1, text)
  else (10, UINT64_MAX / 10 + 1, text).

(** [Some v] is [return true] with [*output = v]; [None] is [return false]. *)
Definition upb_Parse_Integer (text : list char) (max_value : Z) : option Z :=
  let '(base, overflow_if_mul_base, ptr) := Parse_Integer_prefix text in
  match Parse_Integer_seed base ptr with
  | None => None
  | Some (ptr', result) =>
      match Parse_Integer_accum base overflow_if_mul_base ptr' result with
      | None => None
      | Some result' =>
          if result' >? max_value then None else Some result'
      end
  end.


(** ** String literal decoding: AppendUTF8, ReadHexDigits, FetchUnicodePoint *)

(** The four bytes of a [uint32_t] as they lie in (little-endian) memory. *)
Definition memory_bytes32 (x : Z) : list char :=
  [ Z.land x 255; Z.land (Z.shiftr x 8) 255;
    Z.land (Z.shiftr x 16) 255; Z.land (Z.shiftr x 24) 255 ].

(** One lowercase hexadecimal digit, as [printf]'s [%x] prints it. *)
Definition hex_digit_char (d : Z) : char :=
  if d <? 10 then ch "0" + d else ch "a" + (d - 10).

(** [snprintf(temp, sizeof temp, "\\U%08x", code_point)] for a [uint32_t]:
    a backslash, [U] and eight zero-padded lowercase hex digits. *)
Definition snprintf_U08x (code_point : Z) : list char :=
  [ 92; ch "U" ] ++
  map (fun k => hex_digit_char (Z.land (Z.shiftr code_point (4 * k)) 15))
      [7; 6; 5; 4; 3; 2; 1; 0].

(** Modelled from the spec: the string buffer ([upb_String], declared in
    upb/io/string.h, which is not among the sources) is a dynamic byte
    vector; it is embedded as the list of its bytes. *)
Definition upb_String := list char.
Definition upb_String_Append (s : upb_String) (data : list char) : upb_String :=
  s ++ data.
Definition upb_String_PushBack (s : upb_String) (c : char) : upb_String :=
  s ++ [c].
Definition upb_String_Clear (s : upb_String) : upb_String := [].
Definition upb_String_Assign (s : upb_String) (data : list char) : upb_String :=
  data.
Definition upb_String_Copy (des src : upb_String) : upb_String := src.
Definition upb_String_Size (s : upb_String) : Z := Z.of_nat (length s).
Definition upb_String_Erase (s : upb_String) (pos len : Z) : upb_String :=
  firstn (Z.to_nat pos) s ++ skipn (Z.to_nat (pos + len)) s.

Definition AppendUTF8 (code_point : Z) (output : upb_String) : upb_String :=
  let emit (tmp len : Z) :=
    upb_String_Append output
      (skipn (Z.to_nat (4 - len)) (memory_bytes32 (ghtonl tmp))) in
  if code_point <=? 0x7f then emit code_point 1
  else if code_point <=? 0x07ff then
    emit (Z.lor (Z.lor 0x0000c080
                       (wrap32 (Z.shiftl (Z.land code_point 0x07c0) 2)))
                (Z.land code_point 0x003f)) 2
  else if code_point <=? 0xffff then
    emit (Z.lor (Z.lor (Z.lor 0x00e08080
                              (wrap32 (Z.shiftl (Z.land code_point 0xf000) 4)))
                       (wrap32 (Z.shiftl (Z.land code_point 0x0fc0) 2)))
                (Z.land code_point 0x003f)) 3
  else if code_point <=? 0x10ffff then
    emit (Z.lor (Z.lor (Z.lor (Z.lor 0xf0808080
                 (wrap32 (Z.shiftl (Z.land code_point 0x1c0000) 6)))
                 (wrap32 (Z.shiftl (Z.land code_point 0x03f000) 4)))
                 (wrap32 (Z.shiftl (Z.land code_point 0x000fc0) 2)))
                (Z.land code_point 0x003f)) 4
  else upb_String_Append output (snprintf_U08x code_point).

(** The loop of [ReadHexDigits]: [n] bytes are still to be read at [ptr]. *)
Fixpoint ReadHexDigits_loop (text : list char) (ptr : Z) (n : nat)
    (result : Z) : bool * Z :=
  match n with
  | O => (true, result)
  | S n' =>
      if at_ text ptr =? 0 then (false, result)
      else ReadHexDigits_loop text (ptr + 1) n'
             (wrap32 (wrap32 (Z.shiftl result 4) + DigitValue (at_ text ptr)))
  end.

(** Returns the flag and the final content of [*result]. *)
Definition ReadHexDigits (text : list char) (ptr len : Z) : bool * Z :=
  if len =? 0 then (false, 0)
  else ReadHexDigits_loop text ptr (Z.to_nat len) 0.

Definition kMinHeadSurrogate : Z := 0xd800.
Definition kMaxHeadSurrogate : Z := 0xdc00.
Definition kMinTrailSurrogate : Z := 0xdc00.
Definition kMaxTrailSurrogate : Z := 0xe000.

Definition IsHeadSurrogate (code_point : Z) : bool :=
  (code_point >=? kMinHeadSurrogate) && (code_point <? kMaxHeadSurrogate).

Definition IsTrailSurrogate (code_point : Z) : bool :=
  (code_point >=? kMinTrailSurrogate) && (code_point <? kMaxTrailSurrogate).

(** The two [UPB_ASSERT]s hold at the only call site and are not embedded. *)
Definition AssembleUTF16 (head_surrogate trail_surrogate : Z) : Z :=
  wrap32 (0x10000 +
          Z.lor (wrap32 (Z.shiftl (wrap32 (head_surrogate - kMinHeadSurrogate)) 10))
                (wrap32 (trail_surrogate - kMinTrailSurrogate))).

Definition UnicodeLength (key : char) : Z :=
  if key =? ch "u" then 4 else if key =? ch "U" then 8 else 0.

(** [ptr] is an index into [text]; the result is the returned pointer and
    the final content of [*code_point]. *)
Definition FetchUnicodePoint (text : list char) (ptr : Z) : Z * Z :=
  let p := ptr in
  let len := UnicodeLength (at_ text p) in
  let p := p + 1 in
  let '(ok, code_point) := ReadHexDigits text p len in
  if negb ok then (ptr, code_point)
  else
    let p := p + len in
    if IsHeadSurrogate code_point && (at_ text p =? 92) &&
       (at_ text (p + 1) =? ch "u")
    then
      let '(ok2, trail_surrogate) := ReadHexDigits text (p + 2) 4 in
      if ok2 && IsTrailSurrogate trail_surrogate
      then (p + 6, AssembleUTF16 code_point trail_surrogate)
      else (p, code_point)
    else (p, code_point).

(** One iteration of the [for] loop of [upb_Parse_StringAppend] at a
    non-NUL [*ptr]: the pointer before the loop's [ptr++] and the output. *)
Definition StringAppend_step (text : list char) (ptr : Z)
    (output : upb_String) : Z * upb_String :=
  if (at_ text ptr =? 92) && negb (at_ text (ptr + 1) =? 0) then
    let ptr := ptr + 1 in
    if OctalDigit (at_ text ptr) then
      let code := DigitValue (at_ text ptr) in
      let '(ptr, code) :=
        if OctalDigit (at_ text (ptr + 1))
        then (ptr + 1, code * 8 + DigitValue (at_ text (ptr + 1)))
        else (ptr, code) in
      let '(ptr, code) :=
        if OctalDigit (at_ text (ptr + 1))
        then (ptr + 1, code * 8 + DigitValue (at_ text (ptr + 1)))
        else (ptr, code) in
      (ptr, upb_String_PushBack output (code mod 256))
    else if at_ text ptr =? ch "x" then
      let code := 0 in
      let '(ptr, code) :=
        if HexDigit (at_ text (ptr + 1))
        then (ptr + 1, DigitValue (at_ text (ptr + 1)))
        else (ptr, code) in
      let '(ptr, code) :=
        if HexDigit (at_ text (ptr + 1))
        then (ptr + 1, code * 16 + DigitValue (at_ text (ptr + 1)))
        else (ptr, code) in
      (ptr, upb_String_PushBack output (code mod 256))
    else if (at_ text ptr =? ch "u") || (at_ text ptr =? ch "U") then
      let '(end_, unicode) := FetchUnicodePoint text ptr in
      if end_ =? ptr
      then (ptr, upb_String_PushBack output (at_ text ptr))
      else (end_ - 1, AppendUTF8 unicode output)
    else (ptr, upb_String_PushBack output (TranslateEscape (at_ text ptr)))
  else if (at_ text ptr =? at_ text 0) && (at_ text (ptr + 1) =? 0) then
    (ptr, output)
  else (ptr, upb_String_PushBack output (at_ text ptr)).

Fixpoint StringAppend_loop (fuel : nat) (text : list char) (ptr : Z)
    (output : upb_String) : option upb_String :=
  if at_ text ptr =? 0 then Some output
  else
    match fuel with
    | O => None
    | S fuel' =>
        let '(ptr', output') := StringAppend_step text ptr output in
        StringAppend_loop fuel' text (ptr' + 1) output'
    end.

(** [None] only if the loop ran out of fuel, which [StringAppend_total]
    excludes.  For an empty [text] the source prints a message, asserts and
    returns; the release build ([UPB_ASSERT] compiled out) is embedded. *)
Definition upb_Parse_StringAppend (text : list char) (output : upb_String)
  : option upb_String :=
  let size := strlen text in
  if size =? 0 then Some output
  else StringAppend_loop (Z.to_nat size) text 1 output.

(** ** upb_Tokenizer_IsIdentifier *)

Fixpoint AllInClass_loop (f : char -> bool) (text : list char) (i : Z)
    (n : nat) : bool :=
  match n with
  | O => true
  | S n' => if negb (f (at_ text i)) then false
            else AllInClass_loop f text (i + 1) n'
  end.

Definition AllInClass (f : char -> bool) (text : list char) (size : Z) : bool :=
  AllInClass_loop f text 0 (Z.to_nat size).

Definition upb_Tokenizer_IsIdentifier (text : list char) (size : Z) : bool :=
  if size =? 0 then false
  else if negb (Letter (at_ text 0)) then false
  else if negb (AllInClass Alphanumeric (skipn 1 text) (size - 1)) then false
  else true.

(** ** Tokens and the tokenizer state *)

Inductive upb_TokenType : Type :=
| UPB_TOKENTYPE_START
| UPB_TOKENTYPE_END
| UPB_TOKENTYPE_IDENTIFIER
| UPB_TOKENTYPE_INTEGER
| UPB_TOKENTYPE_FLOAT
| UPB_TOKENTYPE_STRING
| UPB_TOKENTYPE_SYMBOL
| UPB_TOKENTYPE_WHITESPACE
| UPB_TOKENTYPE_NEWLINE.

Inductive upb_CommentStyle : Type :=
| UPB_COMMENT_STYLE_CPP
| UPB_COMMENT_STYLE_SH.

Inductive NextCommentStatus : Type :=
| LINE_COMMENT
| BLOCK_COMMENT
| SLASH_NOT_COMMENT
| NO_COMMENT.

(** The message texts the tokenizer passes to the error collector, one
    constructor per string literal of the source. *)
Inductive error_message : Type :=
| MsgUnexpectedEndOfString        (* Unexpected end of string. *)
| MsgStringCrossesLine            (* String literals cannot cross line boundaries. *)
| MsgExpectedHexDigits            (* Expected hex digits for escape sequence. *)
| MsgExpectedFourHexDigits        (* Expected four hex digits for \u escape sequence. *)
| MsgExpectedEightHexDigits       (* Expected eight hex digits up to 10ffff for \U escape sequence *)
| MsgInvalidEscape                (* Invalid escape sequence in string literal. *)
| MsgHexDigitsAfter0x             (* "0x" must be followed by hex digits. *)
| MsgLeadingZeroOctal             (* Numbers starting with leading zero must be in octal. *)
| MsgExponentRequired             (* "e" must be followed by exponent. *)
| MsgNeedSpaceAfterNumber         (* Need space between number and identifier. *)
| MsgSecondDecimalPoint           (* Already saw decimal point or exponent; can't have another one. *)
| MsgHexOctalMustBeIntegers       (* Hex and octal numbers must be integers. *)
| MsgNestedBlockComment           (* "/*" inside block comment.  Block comments cannot be nested. *)
| MsgEofInBlockComment            (* End-of-file inside block comment. *)
| MsgCommentStartedHere           (*   Comment started here. *)
| MsgInvalidControlCharacters     (* Invalid control characters encountered in text. *)
| MsgNeedSpaceBeforeDecimalPoint  (* Need space between identifier and decimal point. *)
| MsgNonAsciiCodepoint (code : Z) (* Interpreting non ascii codepoint %d. *).

(** One call of [error_collector->AddError(line, column, message, context)]. *)
Record reported_error : Type := mkError {
  err_line : Z;
  err_column : Z;
  err_message : error_message
}.

(** What [record_target] may point to: [&t->current.text] or the [content]
    string a comment consumer was given. *)
Inductive record_target_ptr : Type :=
| CurrentText
| ContentString.

Record upb_Token : Type := mkToken {
  tok_type : upb_TokenType;
  tok_line : Z;
  tok_column : Z;
  tok_end_column : Z;
  tok_text : list char
}.

Definition set_tok_type (v : upb_TokenType) (k : upb_Token) : upb_Token :=
  mkToken v (tok_line k) (tok_column k) (tok_end_column k) (tok_text k).

Definition set_tok_line (v : Z) (k : upb_Token) : upb_Token :=
  mkToken (tok_type k) v (tok_column k) (tok_end_column k) (tok_text k).

Definition set_tok_column (v : Z) (k : upb_Token) : upb_Token :=
  mkToken (tok_type k) (tok_line k) v (tok_end_column k) (tok_text k).

Definition set_tok_end_column (v : Z) (k : upb_Token) : upb_Token :=
  mkToken (tok_type k) (tok_line k) (tok_column k) v (tok_text k).

Definition set_tok_text (v : list char) (k : upb_Token) : upb_Token :=
  mkToken (tok_type k) (tok_line k) (tok_column k) (tok_end_column k) v.

Record upb_Tokenizer : Type := mkTokenizer {
  current : upb_Token;
  previous : upb_Token;
  input : list (list char);
  error_collector : list reported_error;
  current_char : char;
  buffer : list char;
  buffer_size : Z;
  buffer_pos : Z;
  read_error : bool;
  line : Z;
  column : Z;
  record_target : option record_target_ptr;
  record_start : Z;
  content : list char;
  allow_f_after_float : bool;
  comment_style : upb_CommentStyle;
  require_space_after_number : bool;
  allow_multiline_strings : bool;
  report_whitespace : bool;
  report_newlines : bool
}.

Definition set_current (v : upb_Token) (t : upb_Tokenizer) : upb_Tokenizer :=
  mkTokenizer v (previous t) (input t) (error_collector t) (current_char t)
    (buffer t) (buffer_size t) (buffer_pos t) (read_error t) (line t)
    (column t) (record_target t) (record_start t) (content t)
    (allow_f_after_float t) (comment_style t) (require_space_after_number t)
    (allow_multiline_strings t) (report_whitespace t) (report_newlines t).

Definition set_previous (v : upb_Token) (t : upb_Tokenizer) : upb_Tokenizer :=
  mkTokenizer (current t) v (input t) (error_collector t) (current_char t)
    (buffer t) (buffer_size t) (buffer_pos t) (read_error t) (line t)
    (column t) (record_target t) (record_start t) (content t)
    (allow_f_after_float t) (comment_style t) (require_space_after_number t)
    (allow_multiline_strings t) (report_whitespace t) (report_newlines t).

Definition set_input (v : list (list char)) (t : upb_Tokenizer) : upb_Tokenizer :=
  mkTokenizer (current t) (previous t) v (error_collector t) (current_char t)
    (buffer t) (buffer_size t) (buffer_pos t) (read_error t) (line t)
    (column t) (record_target t) (record_start t) (content t)
    (allow_f_after_float t) (comment_style t) (require_space_after_number t)
    (allow_multiline_strings t) (report_whitespace t) (report_newlines t).

Definition set_error_collector (v : list reported_error) (t : upb_Tokenizer) : upb_Tokenizer :=
  mkTokenizer (current t) (previous t) (input t) v (current_char t)
    (buffer t) (buffer_size t) (buffer_pos t) (read_error t) (line t)
    (column t) (record_target t) (record_start t) (content t)
    (allow_f_after_float t) (comment_style t) (require_space_after_number t)
    (allow_multiline_strings t) (report_whitespace t) (report_newlines t).

Definition set_current_char (v : char) (t : upb_Tokenizer) : upb_Tokenizer :=
  mkTokenizer (current t) (previous t) (input t) (error_collector t) v
    (buffer t) (buffer_size t) (buffer_pos t) (read_error t) (line t)
    (column t) (record_target t) (record_start t) (content t)
    (allow_f_after_float t) (comment_style t) (require_space_after_number t)
    (allow_multiline_strings t) (report_whitespace t) (report_newlines t).

Definition set_buffer (v : list char) (t : upb_Tokenizer) : upb_Tokenizer :=
  mkTokenizer (current t) (previous t) (input t) (error_collector t)
    (current_char t) v (buffer_size t) (buffer_pos t) (read_error t) (line t)
    (column t) (record_target t) (record_start t) (content t)
    (allow_f_after_float t) (comment_style t) (require_space_after_number t)
    (allow_multiline_strings t) (report_whitespace t) (report_newlines t).

Definition set_buffer_size (v : Z) (t : upb_Tokenizer) : upb_Tokenizer :=
  mkTokenizer (current t) (previous t) (input t) (error_collector t)
    (current_char t) (buffer t) v (buffer_pos t) (read_error t) (line t)
    (column t) (record_target t) (record_start t) (content t)
    (allow_f_after_float t) (comment_style t) (require_space_after_number t)
    (allow_multiline_strings t) (report_whitespace t) (report_newlines t).

Definition set_buffer_pos (v : Z) (t : upb_Tokenizer) : upb_Tokenizer :=
  mkTokenizer (current t) (previous t) (input t) (error_collector t)
    (current_char t) (buffer t) (buffer_size t) v (read_error t) (line t)
    (column t) (record_target t) (record_start t) (content t)
    (allow_f_after_float t) (comment_style t) (require_space_after_number t)
    (allow_multiline_strings t) (report_whitespace t) (report_newlines t).

Definition set_read_error (v : bool) (t : upb_Tokenizer) : upb_Tokenizer :=
  mkTokenizer (current t) (previous t) (input t) (error_collector t)
    (current_char t) (buffer t) (buffer_size t) (buffer_pos t) v (line t)
    (column t) (record_target t) (record_start t) (content t)
    (allow_f_after_float t) (comment_style t) (require_space_after_number t)
    (allow_multiline_strings t) (report_whitespace t) (report_newlines t).

Definition set_line (v : Z) (t : upb_Tokenizer) : upb_Tokenizer :=
  mkTokenizer (current t) (previous t) (input t) (error_collector t)
    (current_char t) (buffer t) (buffer_size t) (buffer_pos t) (read_error t)
    v (column t) (record_target t) (record_start t) (content t)
    (allow_f_after_float t) (comment_style t) (require_space_after_number t)
    (allow_multiline_strings t) (report_whitespace t) (report_newlines t).

Definition set_column (v : Z) (t : upb_Tokenizer) : upb_Tokenizer :=
  mkTokenizer (current t) (previous t) (input t) (error_collector t)
    (current_char t) (buffer t) (buffer_size t) (buffer_pos t) (read_error t)
    (line t) v (record_target t) (record_start t) (content t)
    (allow_f_after_float t) (comment_style t) (require_space_after_number t)
    (allow_multiline_strings t) (report_whitespace t) (report_newlines t).

Definition set_record_target (v : option record_target_ptr) (t : upb_Tokenizer) : upb_Tokenizer :=
  mkTokenizer (current t) (previous t) (input t) (error_collector t)
    (current_char t) (buffer t) (buffer_size t) (buffer_pos t) (read_error t)
    (line t) (column t) v (record_start t) (content t)
    (allow_f_after_float t) (comment_style t) (require_space_after_number t)
    (allow_multiline_strings t) (report_whitespace t) (report_newlines t).

Definition set_record_start (v : Z) (t : upb_Tokenizer) : upb_Tokenizer :=
  mkTokenizer (current t) (previous t) (input t) (error_collector t)
    (current_char t) (buffer t) (buffer_size t) (buffer_pos t) (read_error t)
    (line t) (column t) (record_target t) v (content t)
    (allow_f_after_float t) (comment_style t) (require_space_after_number t)
    (allow_multiline_strings t) (report_whitespace t) (report_newlines t).

Definition set_content (v : list char) (t : upb_Tokenizer) : upb_Tokenizer :=
  mkTokenizer (current t) (previous t) (input t) (error_collector t)
    (current_char t) (buffer t) (buffer_size t) (buffer_pos t) (read_error t)
    (line t) (column t) (record_target t) (record_start t) v
    (allow_f_after_float t) (comment_style t) (require_space_after_number t)
    (allow_multiline_strings t) (report_whitespace t) (report_newlines t).

Definition set_allow_f_after_float (v : bool) (t : upb_Tokenizer) : upb_Tokenizer :=
  mkTokenizer (current t) (previous t) (input t) (error_collector t)
    (current_char t) (buffer t) (buffer_size t) (buffer_pos t) (read_error t)
    (line t) (column t) (record_target t) (record_start t) (content t) v
    (comment_style t) (require_space_after_number t)
    (allow_multiline_strings t) (report_whitespace t) (report_newlines t).

Definition set_comment_style (v : upb_CommentStyle) (t : upb_Tokenizer) : upb_Tokenizer :=
  mkTokenizer (current t) (previous t) (input t) (error_collector t)
    (current_char t) (buffer t) (buffer_size t) (buffer_pos t) (read_error t)
    (line t) (column t) (record_target t) (record_start t) (content t)
    (allow_f_after_float t) v (require_space_after_number t)
    (allow_multiline_strings t) (report_whitespace t) (report_newlines t).

Definition set_require_space_after_number (v : bool) (t : upb_Tokenizer) : upb_Tokenizer :=
  mkTokenizer (current t) (previous t) (input t) (error_collector t)
    (current_char t) (buffer t) (buffer_size t) (buffer_pos t) (read_error t)
    (line t) (column t) (record_target t) (record_start t) (content t)
    (allow_f_after_float t) (comment_style t) v (allow_multiline_strings t)
    (report_whitespace t) (report_newlines t).

Definition set_allow_multiline_strings (v : bool) (t : upb_Tokenizer) : upb_Tokenizer :=
  mkTokenizer (current t) (previous t) (input t) (error_collector t)
    (current_char t) (buffer t) (buffer_size t) (buffer_pos t) (read_error t)
    (line t) (column t) (record_target t) (record_start t) (content t)
    (allow_f_after_float t) (comment_style t) (require_space_after_number t)
    v (report_whitespace t) (report_newlines t).

Definition set_report_whitespace (v : bool) (t : upb_Tokenizer) : upb_Tokenizer :=
  mkTokenizer (current t) (previous t) (input t) (error_collector t)
    (current_char t) (buffer t) (buffer_size t) (buffer_pos t) (read_error t)
    (line t) (column t) (record_target t) (record_start t) (content t)
    (allow_f_after_float t) (comment_style t) (require_space_after_number t)
    (allow_multiline_strings t) v (report_newlines t).

Definition set_report_newlines (v : bool) (t : upb_Tokenizer) : upb_Tokenizer :=
  mkTokenizer (current t) (previous t) (input t) (error_collector t)
    (current_char t) (buffer t) (buffer_size t) (buffer_pos t) (read_error t)
    (line t) (column t) (record_target t) (record_start t) (content t)
    (allow_f_after_float t) (comment_style t) (require_space_after_number t)
    (allow_multiline_strings t) (report_whitespace t) v.

Definition upb_Token_Init : upb_Token :=
  mkToken UPB_TOKENTYPE_START 0 0 0 [].

Definition upb_Token_Copy (des src : upb_Token) : upb_Token :=
  set_tok_end_column (tok_end_column src)
    (set_tok_column (tok_column src)
      (set_tok_line (tok_line src)
        (set_tok_type (tok_type src)
          (set_tok_text (upb_String_Copy (tok_text des) (tok_text src)) des)))).

(** *** Option setters and getters *)

Definition upb_Tokenizer_SetAllowFAfterFloat (t : upb_Tokenizer) (allow : bool) :=
  set_allow_f_after_float allow t.

Definition upb_Tokenizer_SetCommentStyle (t : upb_Tokenizer)
    (style : upb_CommentStyle) :=
  set_comment_style style t.

Definition upb_Tokenizer_SetRequireSpaceAfterNumber (t : upb_Tokenizer)
    (require : bool) :=
  set_require_space_after_number require t.

Definition upb_Tokenizer_SetAllowMultilineStrings (t : upb_Tokenizer)
    (allow : bool) :=
  set_allow_multiline_strings allow t.

Definition upb_Tokenizer_ReportWhitespace (t : upb_Tokenizer) : bool :=
  report_whitespace t.

Definition upb_Tokenizer_SetReportWhitespace (t : upb_Tokenizer)
    (report : bool) : upb_Tokenizer :=
  let t := set_report_whitespace report t in
  set_report_newlines (report_newlines t && report) t.

Definition upb_Tokenizer_ReportNewlines (t : upb_Tokenizer) : bool :=
  report_newlines t.

Definition upb_Tokenizer_SetReportNewlines (t : upb_Tokenizer)
    (report : bool) : upb_Tokenizer :=
  let t := set_report_newlines report t in
  set_report_whitespace (report_whitespace t || report) t.

(** *** The buffered reader *)

(** [error_collector->AddError(line, column, message, context)]: the
    collector is external; the reports are kept in order. *)
Definition ReportError (line column : Z) (message : error_message)
    (t : upb_Tokenizer) : upb_Tokenizer :=
  set_error_collector (error_collector t ++ [mkError line column message]) t.

Definition AddError (message : error_message) (t : upb_Tokenizer)
  : upb_Tokenizer :=
  ReportError (line t) (column t) message t.

(** Modelled from the spec: the chunked byte source
    ([upb_ZeroCopyInputStream], declared in upb/io/zero_copy_input_stream.h,
    which is not among the sources).  [Next] returns the next readable window
    and its size; size 0 means end of stream or error.  The stream is the
    list of the chunks it will still deliver. *)
Definition upb_ZeroCopyInputStream_Next (input : list (list char))
  : list char * Z * list (list char) :=
  match input with
  | [] => ([], 0, [])
  | data :: rest => (data, Z.of_nat (length data), rest)
  end.

(** Modelled from the spec: [BackUp(count)] ungets the last [count] bytes of
    the most recent chunk, here given as the bytes themselves. *)
Definition upb_ZeroCopyInputStream_BackUp (input : list (list char))
    (unread : list char) : list (list char) :=
  unread :: input.

(** [len] bytes of memory from [buf + start]. *)
Definition mem_range (buf : list char) (start len : Z) : list char :=
  firstn (Z.to_nat len) (skipn (Z.to_nat start) buf).

(** [upb_String_Append(t->record_target, data, len)].  With a NULL target
    the source would dereference NULL; no caller does, and the embedding
    leaves the state alone. *)
Definition append_to_record_target (data : list char) (t : upb_Tokenizer)
  : upb_Tokenizer :=
  match record_target t with
  | Some CurrentText =>
      set_current
        (set_tok_text (upb_String_Append (tok_text (current t)) data)
                      (current t)) t
  | Some ContentString => set_content (upb_String_Append (content t) data) t
  | None => t
  end.

Definition Refresh (t : upb_Tokenizer) : upb_Tokenizer :=
  if read_error t then set_current_char 0 t
  else
    (* [record_start] is an int compared with a size_t *)
    let t :=
      if (match record_target t with Some _ => true | None => false end) &&
         (wrap64 (record_start t) <? buffer_size t)
      then
        set_record_start 0
          (append_to_record_target
             (mem_range (buffer t) (record_start t)
                        (buffer_size t - record_start t)) t)
      else t in
    let t := set_buffer_pos 0 (set_buffer [] t) in
    let '(data, size, input') := upb_ZeroCopyInputStream_Next (input t) in
    let t := set_buffer_size size (set_input input' t) in
    if buffer_size t >? 0 then
      set_current_char (at_ data 0) (set_buffer data t)
    else
      set_current_char 0 (set_read_error true (set_buffer_size 0 t)).

(** [line] and [column] are [int] counters. *)
Definition NextChar (t : upb_Tokenizer) : upb_Tokenizer :=
  let t :=
    if current_char t =? 10 then set_column 0 (set_line (wrap_int (line t + 1)) t)
    else if current_char t =? 9 then
      set_column
        (wrap_int (column t + (kTabWidth - Z.rem (column t) kTabWidth))) t
    else set_column (wrap_int (column t + 1)) t in
  let t := set_buffer_pos (buffer_pos t + 1) t in
  if buffer_pos t <? buffer_size t
  then set_current_char (at_ (buffer t) (buffer_pos t)) t
  else Refresh t.

Definition RecordTo (target : record_target_ptr) (t : upb_Tokenizer)
  : upb_Tokenizer :=
  set_record_start (buffer_pos t) (set_record_target (Some target) t).

Definition StopRecording (t : upb_Tokenizer) : upb_Tokenizer :=
  let t :=
    append_to_record_target
      (mem_range (buffer t) (record_start t) (buffer_pos t - record_start t))
      t in
  set_record_start (-1) (set_record_target None t).

Definition StartToken (t : upb_Tokenizer) : upb_Tokenizer :=
  let t := set_current (set_tok_type UPB_TOKENTYPE_START (current t)) t in
  let t :=
    set_current
      (set_tok_text (upb_String_Clear (tok_text (current t))) (current t)) t in
  let t := set_current (set_tok_line (line t) (current t)) t in
  let t := set_current (set_tok_column (column t) (current t)) t in
  RecordTo CurrentText t.

Definition EndToken (t : upb_Tokenizer) : upb_Tokenizer :=
  let t := StopRecording t in
  set_current (set_tok_end_column (column t) (current t)) t.

(** *** The scanner monad: state passing, [None] when the fuel is used up *)

Definition M (A : Type) : Type := upb_Tokenizer -> option (A * upb_Tokenizer).

Definition ret {A : Type} (a : A) : M A := fun t => Some (a, t).

Definition bind {A B : Type} (m : M A) (k : A -> M B) : M B :=
  fun t => match m t with
           | Some (a, t') => k a t'
           | None => None
           end.

Definition out_of_fuel {A : Type} : M A := fun _ => None.

(** A state update as a statement. *)
Definition lift (f : upb_Tokenizer -> upb_Tokenizer) : M unit :=
  fun t => Some (tt, f t).

(** Reading a field or an expression over the state. *)
Definition gets {A : Type} (f : upb_Tokenizer -> A) : M A :=
  fun t => Some (f t, t).

Notation "x <- c1 ;; c2" := (bind c1 (fun x => c2))
  (at level 61, c1 at next level, right associativity).
Notation "c1 ;; c2" := (bind c1 (fun _ => c2))
  (at level 61, right associativity).

(** C's short-circuit [||] and [&&] over effectful operands. *)
Definition orM (a b : M bool) : M bool :=
  x <- a ;; if x then ret true else b.

Definition andM (a b : M bool) : M bool :=
  x <- a ;; if x then b else ret false.

Definition notM (a : M bool) : M bool :=
  x <- a ;; ret (negb x).

(** [if (c) s], with and without the state. *)
Definition when (c : bool) (s : M unit) : M unit :=
  if c then s else ret tt.

Definition LookingAt (f : char -> bool) : M bool :=
  gets (fun t => f (current_char t)).

Definition TryConsumeOne (f : char -> bool) : M bool :=
  fun t => if f (current_char t) then Some (true, NextChar t)
           else Some (false, t).

Definition TryConsume (c : char) : M bool :=
  fun t => if current_char t =? c then Some (true, NextChar t)
           else Some (false, t).

Fixpoint ConsumeZeroOrMore (fuel : nat) (f : char -> bool) : M unit :=
  match fuel with
  | O => out_of_fuel
  | S fuel' =>
      c <- gets current_char ;;
      if f c then lift NextChar ;; ConsumeZeroOrMore fuel' f
      else ret tt
  end.

(** The [do ... while] of [ConsumeOneOrMore]. *)
Fixpoint ConsumeOneOrMore_loop (fuel : nat) (f : char -> bool) : M unit :=
  match fuel with
  | O => out_of_fuel
  | S fuel' =>
      lift NextChar ;;
      c <- gets current_char ;;
      if f c then ConsumeOneOrMore_loop fuel' f else ret tt
  end.

Definition ConsumeOneOrMore (fuel : nat) (f : char -> bool)
    (err_msg : error_message) : M unit :=
  c <- gets current_char ;;
  if negb (f c) then lift (AddError err_msg)
  else ConsumeOneOrMore_loop fuel f.

(** *** Sub-consumers *)

(** The body of [case '\\'] in [ConsumeString], after its [NextChar]. *)
Definition ConsumeString_escape : M unit :=
  e <- TryConsumeOne Escape ;;
  if e then ret tt
  else
    o <- TryConsumeOne OctalDigit ;;
    if o then ret tt
    else
      x <- TryConsume (ch "x") ;;
      if x then
        bad <- notM (TryConsumeOne HexDigit) ;;
        when bad (lift (AddError MsgExpectedHexDigits))
      else
        u <- TryConsume (ch "u") ;;
        if u then
          bad <- orM (notM (TryConsumeOne HexDigit))
                 (orM (notM (TryConsumeOne HexDigit))
                 (orM (notM (TryConsumeOne HexDigit))
                      (notM (TryConsumeOne HexDigit)))) ;;
          when bad (lift (AddError MsgExpectedFourHexDigits))
        else
          U <- TryConsume (ch "U") ;;
          if U then
            bad <- orM (notM (TryConsume (ch "0")))
                   (orM (notM (TryConsume (ch "0")))
                   (orM (notM (orM (TryConsume (ch "0")) (TryConsume (ch "1"))))
                   (orM (notM (TryConsumeOne HexDigit))
                   (orM (notM (TryConsumeOne HexDigit))
                   (orM (notM (TryConsumeOne HexDigit))
                   (orM (notM (TryConsumeOne HexDigit))
                        (notM (TryConsumeOne HexDigit)))))))) ;;
            when bad (lift (AddError MsgExpectedEightHexDigits))
          else lift (AddError MsgInvalidEscape).

Fixpoint ConsumeString (fuel : nat) (delimiter : char) : M unit :=
  match fuel with
  | O => out_of_fuel
  | S fuel' =>
      c <- gets current_char ;;
      if c =? 0 then lift (AddError MsgUnexpectedEndOfString)
      else if c =? 10 then
        allow <- gets allow_multiline_strings ;;
        if negb allow then lift (AddError MsgStringCrossesLine)
        else lift NextChar ;; ConsumeString fuel' delimiter
      else if c =? 92 then
        lift NextChar ;;
        ConsumeString_escape ;;
        ConsumeString fuel' delimiter
      else if c =? delimiter then lift NextChar
      else lift NextChar ;; ConsumeString fuel' delimiter
  end.

Definition ConsumeNumber (fuel : nat) (started_with_zero started_with_dot : bool)
  : M upb_TokenType :=
  hex <- (if started_with_zero
          then orM (TryConsume (ch "x")) (TryConsume (ch "X"))
          else ret false) ;;
  is_float <-
    (if hex then
       ConsumeOneOrMore fuel HexDigit MsgHexDigitsAfter0x ;;
       ret false
     else
       oct <- (if started_with_zero then LookingAt Digit else ret false) ;;
       if oct then
         ConsumeZeroOrMore fuel OctalDigit ;;
         d <- LookingAt Digit ;;
         when d (lift (AddError MsgLeadingZeroOctal) ;;
                 ConsumeZeroOrMore fuel Digit) ;;
         ret false
       else
         is_float <-
           (if started_with_dot then
              ConsumeZeroOrMore fuel Digit ;; ret true
            else
              ConsumeZeroOrMore fuel Digit ;;
              dot <- TryConsume (ch ".") ;;
              if dot then ConsumeZeroOrMore fuel Digit ;; ret true
              else ret false) ;;
         e <- orM (TryConsume (ch "e")) (TryConsume (ch "E")) ;;
         is_float <-
           (if e then
              minus <- TryConsume (ch "-") ;;
              when (negb minus) (TryConsume (ch "+") ;; ret tt) ;;
              ConsumeOneOrMore fuel Digit MsgExponentRequired ;;
              ret true
            else ret is_float) ;;
         allow <- gets allow_f_after_float ;;
         f <- (if allow
               then orM (TryConsume (ch "f")) (TryConsume (ch "F"))
               else ret false) ;;
         ret (if f then true else is_float)) ;;
  letter <- LookingAt Letter ;;
  require <- gets require_space_after_number ;;
  (if letter && require then lift (AddError MsgNeedSpaceAfterNumber)
   else
     c <- gets current_char ;;
     if c =? ch "." then
       if is_float then lift (AddError MsgSecondDecimalPoint)
       else lift (AddError MsgHexOctalMustBeIntegers)
     else ret tt) ;;
  ret (if is_float then UPB_TOKENTYPE_FLOAT else UPB_TOKENTYPE_INTEGER).

(** The [while] of [ConsumeLineComment]. *)
Fixpoint ConsumeLineComment_loop (fuel : nat) : M unit :=
  match fuel with
  | O => out_of_fuel
  | S fuel' =>
      c <- gets current_char ;;
      if negb (c =? 0) && negb (c =? 10)
      then lift NextChar ;; ConsumeLineComment_loop fuel'
      else ret tt
  end.

(** [has_content] tells whether the [content] pointer is non-NULL; the
    string it points to is the [content] field of the state. *)
Definition ConsumeLineComment (fuel : nat) (has_content : bool) : M unit :=
  when has_content (lift (RecordTo ContentString)) ;;
  ConsumeLineComment_loop fuel ;;
  TryConsume 10 ;;
  when has_content (lift StopRecording).

(** The inner [while] of [ConsumeBlockComment]. *)
Fixpoint ConsumeBlockComment_skip (fuel : nat) : M unit :=
  match fuel with
  | O => out_of_fuel
  | S fuel' =>
      c <- gets current_char ;;
      if negb (c =? 0) && negb (c =? ch "*") && negb (c =? ch "/") &&
         negb (c =? 10)
      then lift NextChar ;; ConsumeBlockComment_skip fuel'
      else ret tt
  end.

(** The [while (true)] of [ConsumeBlockComment]. *)
Fixpoint ConsumeBlockComment_loop (fuel : nat) (has_content : bool)
    (start_line start_column : Z) : M unit :=
  match fuel with
  | O => out_of_fuel
  | S fuel' =>
      ConsumeBlockComment_skip fuel ;;
      newline <- TryConsume 10 ;;
      if newline then
        when has_content (lift StopRecording) ;;
        ConsumeZeroOrMore fuel WhitespaceNoNewline ;;
        closed <- andM (TryConsume (ch "*")) (TryConsume (ch "/")) ;;
        if closed then ret tt
        else
          when has_content (lift (RecordTo ContentString)) ;;
          ConsumeBlockComment_loop fuel' has_content start_line start_column
      else
        closed <- andM (TryConsume (ch "*")) (TryConsume (ch "/")) ;;
        if closed then
          when has_content
            (lift StopRecording ;;
             lift (fun t =>
                     set_content
                       (upb_String_Erase (content t)
                          (upb_String_Size (content t) - 2) 2) t))
        else
          nested <- andM (TryConsume (ch "/"))
                         (gets (fun t => current_char t =? ch "*")) ;;
          if nested then
            lift (AddError MsgNestedBlockComment) ;;
            ConsumeBlockComment_loop fuel' has_content start_line start_column
          else
            c <- gets current_char ;;
            if c =? 0 then
              lift (AddError MsgEofInBlockComment) ;;
              lift (ReportError start_line start_column MsgCommentStartedHere) ;;
              when has_content (lift StopRecording)
            else
              ConsumeBlockComment_loop fuel' has_content start_line start_column
  end.

Definition ConsumeBlockComment (fuel : nat) (has_content : bool) : M unit :=
  start_line <- gets line ;;
  start_column <- gets (fun t => wrap_int (column t - 2)) ;;
  when has_content (lift (RecordTo ContentString)) ;;
  ConsumeBlockComment_loop fuel has_content start_line start_column.

Definition TryConsumeCommentStart : M NextCommentStatus :=
  style <- gets comment_style ;;
  cpp <- (match style with
          | UPB_COMMENT_STYLE_CPP => TryConsume (ch "/")
          | _ => ret false
          end) ;;
  if cpp then
    line_comment <- TryConsume (ch "/") ;;
    if line_comment then ret LINE_COMMENT
    else
      block_comment <- TryConsume (ch "*") ;;
      if block_comment then ret BLOCK_COMMENT
      else
        lift (fun t =>
                set_current (set_tok_type UPB_TOKENTYPE_SYMBOL (current t)) t) ;;
        lift (fun t =>
                set_current
                  (set_tok_text
                     (upb_String_Assign (tok_text (current t)) [ch "/"])
                     (current t)) t) ;;
        lift (fun t => set_current (set_tok_line (line t) (current t)) t) ;;
        lift (fun t =>
                set_current
                  (set_tok_column (wrap_int (column t - 1)) (current t)) t) ;;
        lift (fun t =>
                set_current (set_tok_end_column (column t) (current t)) t) ;;
        ret SLASH_NOT_COMMENT
  else
    sh <- (match style with
           | UPB_COMMENT_STYLE_SH => TryConsume (ch "#")
           | _ => ret false
           end) ;;
    if sh then ret LINE_COMMENT else ret NO_COMMENT.

Definition set_current_type (ty : upb_TokenType) : M unit :=
  lift (fun t => set_current (set_tok_type ty (current t)) t).

Definition TryConsumeWhitespace (fuel : nat) : M bool :=
  newlines <- gets report_newlines ;;
  if newlines then
    ws <- TryConsumeOne WhitespaceNoNewline ;;
    if ws then
      ConsumeZeroOrMore fuel WhitespaceNoNewline ;;
      set_current_type UPB_TOKENTYPE_WHITESPACE ;;
      ret true
    else ret false
  else
    ws <- TryConsumeOne Whitespace ;;
    if ws then
      ConsumeZeroOrMore fuel Whitespace ;;
      set_current_type UPB_TOKENTYPE_WHITESPACE ;;
      gets report_whitespace
    else ret false.

Definition TryConsumeNewline : M bool :=
  whitespace <- gets report_whitespace ;;
  newlines <- gets report_newlines ;;
  if negb whitespace || negb newlines then ret false
  else
    nl <- TryConsume 10 ;;
    if nl then set_current_type UPB_TOKENTYPE_NEWLINE ;; ret true
    else ret false.

(** *** Accessors *)

Definition upb_Tokenizer_CurrentColumn (t : upb_Tokenizer) : Z :=
  tok_column (current t).
Definition upb_Tokenizer_CurrentEndColumn (t : upb_Tokenizer) : Z :=
  tok_end_column (current t).
Definition upb_Tokenizer_CurrentLine (t : upb_Tokenizer) : Z :=
  tok_line (current t).
Definition upb_Tokenizer_CurrentTextSize (t : upb_Tokenizer) : Z :=
  upb_String_Size (tok_text (current t)).
Definition upb_Tokenizer_CurrentTextData (t : upb_Tokenizer) : list char :=
  tok_text (current t).
Definition upb_Tokenizer_CurrentType (t : upb_Tokenizer) : upb_TokenType :=
  tok_type (current t).

Definition upb_Tokenizer_PreviousColumn (t : upb_Tokenizer) : Z :=
  tok_column (previous t).
Definition upb_Tokenizer_PreviousEndColumn (t : upb_Tokenizer) : Z :=
  tok_end_column (previous t).
Definition upb_Tokenizer_PreviousLine (t : upb_Tokenizer) : Z :=
  tok_line (previous t).
Definition upb_Tokenizer_PreviousTextSize (t : upb_Tokenizer) : Z :=
  upb_String_Size (tok_text (previous t)).
Definition upb_Tokenizer_PreviousTextData (t : upb_Tokenizer) : list char :=
  tok_text (previous t).
Definition upb_Tokenizer_PreviousType (t : upb_Tokenizer) : upb_TokenType :=
  tok_type (previous t).

(** *** upb_Tokenizer_Next *)

(** The statements after the [while] loop of [upb_Tokenizer_Next]. *)
Definition Next_eof : M bool :=
  set_current_type UPB_TOKENTYPE_END ;;
  lift (fun t =>
          set_current
            (set_tok_text (upb_String_Clear (tok_text (current t))) (current t))
            t) ;;
  lift (fun t => set_current (set_tok_line (line t) (current t)) t) ;;
  lift (fun t => set_current (set_tok_column (column t) (current t)) t) ;;
  lift (fun t => set_current (set_tok_end_column (column t) (current t)) t) ;;
  ret false.

(** The [while] that skips a run of control characters. *)
Fixpoint Next_skip_unprintable (fuel : nat) : M unit :=
  match fuel with
  | O => out_of_fuel
  | S fuel' =>
      more <- orM (TryConsumeOne Unprintable)
                  (andM (gets (fun t => negb (read_error t))) (TryConsume 0)) ;;
      if more then Next_skip_unprintable fuel' else ret tt
  end.

(** The [else] branch "Reading some sort of token", up to its [return true]. *)
Definition Next_token (fuel : nat) : M bool :=
  lift StartToken ;;
  (letter <- TryConsumeOne Letter ;;
   if letter then
     ConsumeZeroOrMore fuel Alphanumeric ;;
     set_current_type UPB_TOKENTYPE_IDENTIFIER
   else
     zero <- TryConsume (ch "0") ;;
     if zero then
       ty <- ConsumeNumber fuel true false ;;
       set_current_type ty
     else
       dot <- TryConsume (ch ".") ;;
       if dot then
         digit <- TryConsumeOne Digit ;;
         if digit then
           lift (fun t =>
                   if (match tok_type (previous t) with
                       | UPB_TOKENTYPE_IDENTIFIER => true
                       | _ => false
                       end) &&
                      (tok_line (current t) =? tok_line (previous t)) &&
                      (tok_column (current t) =? tok_end_column (previous t))
                   then ReportError (line t) (wrap_int (column t - 2))
                          MsgNeedSpaceBeforeDecimalPoint t
                   else t) ;;
           ty <- ConsumeNumber fuel false true ;;
           set_current_type ty
         else set_current_type UPB_TOKENTYPE_SYMBOL
       else
         digit <- TryConsumeOne Digit ;;
         if digit then
           ty <- ConsumeNumber fuel false false ;;
           set_current_type ty
         else
           dquote <- TryConsume 34 ;;
           if dquote then
             ConsumeString fuel 34 ;;
             set_current_type UPB_TOKENTYPE_STRING
           else
             squote <- TryConsume 39 ;;
             if squote then
               ConsumeString fuel 39 ;;
               set_current_type UPB_TOKENTYPE_STRING
             else
               lift (fun t =>
                       if negb (Z.land (current_char t) 128 =? 0)
                       then ReportError (line t) (column t)
                              (MsgNonAsciiCodepoint (current_char t mod 256)) t
                       else t) ;;
               lift NextChar ;;
               set_current_type UPB_TOKENTYPE_SYMBOL) ;;
  lift EndToken ;;
  ret true.

(** The [while (!t->read_error)] loop followed by the EOF statements; the
    result is the value [upb_Tokenizer_Next] returns. *)
Fixpoint Next_loop (fuel : nat) : M bool :=
  fun t =>
    if read_error t then Next_eof t
    else
      match fuel with
      | O => None
      | S fuel' =>
          (lift StartToken ;;
           report_token <- orM (TryConsumeWhitespace fuel) TryConsumeNewline ;;
           lift EndToken ;;
           if report_token then ret true
           else
             status <- TryConsumeCommentStart ;;
             match status with
             | LINE_COMMENT =>
                 ConsumeLineComment fuel false ;; Next_loop fuel'
             | BLOCK_COMMENT =>
                 ConsumeBlockComment fuel false ;; Next_loop fuel'
             | SLASH_NOT_COMMENT => ret true
             | NO_COMMENT =>
                 eof <- gets read_error ;;
                 if eof then Next_eof
                 else
                   c <- gets current_char ;;
                   if Unprintable c || (c =? 0) then
                     lift (AddError MsgInvalidControlCharacters) ;;
                     lift NextChar ;;
                     Next_skip_unprintable fuel ;;
                     Next_loop fuel'
                   else Next_token fuel
             end) t
      end.

(** The number of bytes the reader can still consume. *)
Definition unread (t : upb_Tokenizer) : nat :=
  if read_error t then O
  else (Z.to_nat (buffer_size t - buffer_pos t) + length (concat (input t)))%nat.

(** [Some (b, t')]: the call returns [b] and leaves the tokenizer in [t'].
    Every loop of the scanner consumes a byte per iteration, so the number of
    unread bytes (plus one) is fuel enough: see [Next_total]. *)
Definition upb_Tokenizer_Next (t : upb_Tokenizer)
  : option (bool * upb_Tokenizer) :=
  (lift (fun t => set_previous (upb_Token_Copy (previous t) (current t)) t) ;;
   Next_loop (S (unread t))) t.

(** *** Construction and tear-down *)

(** [data]/[size] is the flat array, [input] the stream read after it.  The
    arena is not embedded (allocation does not fail). *)
Definition upb_Tokenizer_New (data : list char) (input : list (list char))
  : upb_Tokenizer :=
  let size := Z.of_nat (length data) in
  let t :=
    mkTokenizer upb_Token_Init upb_Token_Init input [] 0 data size 0 false
      0 0 None (-1) [] false UPB_COMMENT_STYLE_CPP true false false false in
  if negb (size =? 0) then set_current_char (at_ (buffer t) 0) t
  else Refresh t.

Definition upb_Tokenizer_Fini (t : upb_Tokenizer) : upb_Tokenizer :=
  if buffer_size t >? buffer_pos t then
    set_input
      (upb_ZeroCopyInputStream_BackUp (input t)
         (mem_range (buffer t) (buffer_pos t) (buffer_size t - buffer_pos t)))
      t
  else t.

(** Runs [upb_Tokenizer_Next] until it returns false and collects the
    tokens it produced (at most [n]). *)
Fixpoint tokens_of (n : nat) (t : upb_Tokenizer) : list upb_Token :=
  match n with
  | O => []
  | S n' =>
      match upb_Tokenizer_Next t with
      | Some (true, t') => current t' :: tokens_of n' t'
      | _ => []
      end
  end.

(** ** Specification-side definitions *)

(** The claim's reading of an integer literal: hex with a 0x/0X prefix, octal
    with a leading zero, decimal otherwise; the base and the digits. *)
Definition literal_base_digits (text : list char) : Z * list char :=
  match text with
  | c0 :: c1 :: digits =>
      if (c0 =? ch "0") && ((c1 =? ch "x") || (c1 =? ch "X")) then (16, digits)
      else if c0 =? ch "0" then (8, text)
      else (10, text)
  | c0 :: _ => if c0 =? ch "0" then (8, text) else (10, text)
  | [] => (10, text)
  end.

Definition literal_base (text : list char) : Z := fst (literal_base_digits text).
Definition literal_digits (text : list char) : list char :=
  snd (literal_base_digits text).

(** The exact (unbounded) numeric value of a digit string. *)
Definition digits_value (base : Z) (digits : list char) : Z :=
  fold_left (fun acc c => acc * base + DigitValue c) digits 0.

(** A C string without an inner NUL: the list is the whole string. *)
Definition nul_free (text : list char) : Prop := Forall (fun c => c <> 0) text.

(** The UTF-8 encoding of a code point up to 0x10FFFF (one to four bytes). *)
Definition utf8_encode (cp : Z) : list char :=
  if cp <=? 0x7F then [cp]
  else if cp <=? 0x7FF then [0xC0 + cp / 64; 0x80 + cp mod 64]
  else if cp <=? 0xFFFF then
    [0xE0 + cp / 4096; 0x80 + (cp / 64) mod 64; 0x80 + cp mod 64]
  else [0xF0 + cp / 262144; 0x80 + (cp / 4096) mod 64;
        0x80 + (cp / 64) mod 64; 0x80 + cp mod 64].

(** Byte [i] of [x], counted from the least significant one. *)
Definition byte_of (i x : Z) : Z := (x / 2 ^ (8 * i)) mod 256.

(** One step of the accumulation in [ReadHexDigits]. *)
Definition fold_digit (result : Z) (c : char) : Z :=
  wrap32 (wrap32 (Z.shiftl result 4) + DigitValue c).

(** The [n] bytes of [text] from index [p] on. *)
Definition window (text : list char) (p : Z) (n : nat) : list char :=
  map (fun i => at_ text (p + Z.of_nat i)) (seq 0 n).

(** [text] holds the bytes [s] from index [p] on. *)
Definition holds_at (text : list char) (p : Z) (s : list char) : Prop :=
  forall i, (i < length s)%nat -> at_ text (p + Z.of_nat i) = nth i s 0.

(** Two consecutive backslash-u escapes with four digits each. *)
Definition surrogate_pair_escape (h1 h2 h3 h4 l1 l2 l3 l4 : char) : list char :=
  [92; ch "u"; h1; h2; h3; h4; 92; ch "u"; l1; l2; l3; l4].

(** The ASCII letters and digits. *)
Definition ascii_alphanumeric (c : char) : bool :=
  ((48 <=? c) && (c <=? 57)) || ((65 <=? c) && (c <=? 90)) ||
  ((97 <=? c) && (c <=? 122)).

(** The string token texts of the spec's surrogate scenarios, quotes
    included: an unpaired head surrogate followed by zz, and the pair
    D83D DE00. *)
Definition unpaired_surrogate_text : list char :=
  34 :: 92 :: bytes "uD83Dzz" ++ [34].

Definition surrogate_pair_text : list char :=
  34 :: 92 :: bytes "uD83D" ++ 92 :: bytes "uDE00" ++ [34].

(** The string token text with a bare backslash-u in front of the pair
    D83D DE00, quotes included. *)
Definition bare_escape_pair_text : list char :=
  34 :: 92 :: ch "u" :: 92 :: bytes "uD83D" ++ 92 :: bytes "uDE00" ++ [34].

(** The test [FetchUnicodePoint] makes behind the digits of an escape with
    the value [v]: a head surrogate, followed at [p] by a backslash-u escape
    whose four bytes give a trail surrogate. *)
Definition pair_follows (text : list char) (p v : Z) : bool :=
  IsHeadSurrogate v && (at_ text p =? 92) && (at_ text (p + 1) =? ch "u") &&
  fst (ReadHexDigits text (p + 2) 4) &&
  IsTrailSurrogate (snd (ReadHexDigits text (p + 2) 4)).

(** [a] from index [pa] on holds the same bytes as [b] from index [pb] on. *)
Definition agree_from (a : list char) (pa : Z) (b : list char) (pb : Z) : Prop :=
  forall k, 0 <= k -> at_ a (pa + k) = at_ b (pb + k).

(** ** Invariants of the tokenizer state *)

(** The reader invariant of the spec: while no read error is latched, the
    position is inside the buffer and [current_char] is the byte there; once
    it is latched, the buffer is empty and [current_char] is NUL. *)
Definition wf (t : upb_Tokenizer) : Prop :=
  (read_error t = false ->
   0 <= buffer_pos t < buffer_size t /\
   buffer_size t = Z.of_nat (length (buffer t)) /\
   current_char t = at_ (buffer t) (buffer_pos t)) /\
  (read_error t = true ->
   current_char t = 0 /\ buffer_size t = 0 /\ 0 <= buffer_pos t).

(** [t'] has the reader fields of [t]. *)
Definition same_reader (t t' : upb_Tokenizer) : Prop :=
  read_error t' = read_error t /\ buffer t' = buffer t /\
  buffer_pos t' = buffer_pos t /\ buffer_size t' = buffer_size t /\
  current_char t' = current_char t /\ input t' = input t.

(** The invariant of the scanning loops: the reader invariant, at most [n]
    unread bytes, and the previous token [p]. *)
Definition good (n : nat) (p : upb_Token) (t : upb_Tokenizer) : Prop :=
  wf t /\ (unread t <= n)%nat /\ previous t = p.

(** [good] after at least one byte was consumed. *)
Definition consumed (n : nat) (p : upb_Token) (t : upb_Tokenizer) : Prop :=
  exists n', n = S n' /\ good n' p t.

(** Total correctness of a scanner computation: from a state in [P] it
    returns, with a result and a state in [Q]. *)
Definition runs {A : Type} (m : M A) (P : upb_Tokenizer -> Prop)
    (Q : A -> upb_Tokenizer -> Prop) : Prop :=
  forall t, P t -> exists a t', m t = Some (a, t') /\ Q a t'.

(** The text recorded so far for the current token: what was flushed into
    [current.text] and the part of the buffer since [record_start]. *)
Definition recorded_text (t : upb_Tokenizer) : list char :=
  tok_text (current t) ++
  mem_range (buffer t) (record_start t) (buffer_pos t - record_start t).

Definition recording (t : upb_Tokenizer) : Prop :=
  record_target t = Some CurrentText /\ 0 <= record_start t <= buffer_pos t.

(** What [upb_Tokenizer_Next] leaves in [current] at the end of input. *)
Definition end_token (t : upb_Tokenizer) : upb_Token :=
  mkToken UPB_TOKENTYPE_END (line t) (column t) (column t) [].


(** The shape of an identifier: a letter or underscore, then letters,
    digits and underscores. *)
Definition identifier_shape (text : list char) : Prop :=
  exists c cs, text = c :: cs /\ Letter c = true /\
               Forall (fun c => Alphanumeric c = true) cs.

(** The scanner computation [m] returns from every state of the loop
    invariant, keeps the invariant, and its result and final state satisfy [Q]. *)
Definition keeps {A : Type} (n : nat) (p : upb_Token) (m : M A)
    (Q : A -> upb_Tokenizer -> Prop) : Prop :=
  runs m (good n p) (fun a t' => good n p t' /\ Q a t').

(** A state update that leaves the reader and the previous token alone. *)
Definition frame (f : upb_Tokenizer -> upb_Tokenizer) : Prop :=
  forall t, same_reader t (f t) /\ previous (f t) = previous t.

Definition any {A : Type} : A -> upb_Tokenizer -> Prop := fun _ _ => True.

(** A current token of type IDENTIFIER has the shape of an identifier. *)
Definition identifier_ok (t : upb_Tokenizer) : Prop :=
  tok_type (current t) = UPB_TOKENTYPE_IDENTIFIER ->
  identifier_shape (tok_text (current t)).

(** What holds after [upb_Tokenizer_Next] returned [b]. *)
Definition next_post (b : bool) (t : upb_Tokenizer) : Prop :=
  (b = false -> read_error t = true /\ current t = end_token t) /\
  identifier_ok t.

(** The text and column of each token, for the column scenarios. *)
Definition text_and_column (k : upb_Token) : list char * Z :=
  (tok_text k, tok_column k).

(** Checking a decidable property on all 256 byte values. *)
Definition all_bytes (P : Z -> bool) : bool :=
  forallb (fun n => P (Z.of_nat n)) (seq 0 256).

(** A continuation byte of UTF-8. *)
Definition utf8_continuation (b : char) : bool := (0x80 <=? b) && (b <? 0xC0).

(** A decoder of one UTF-8 sequence, to state the round trip of
    [AppendUTF8]: the code point and the bytes after the sequence. *)
Definition utf8_decode (bs : list char) : option (Z * list char) :=
  match bs with
  | [] => None
  | b0 :: r0 =>
      if b0 <? 0x80 then Some (b0, r0)
      else if b0 <? 0xC0 then None
      else if b0 <? 0xE0 then
        match r0 with
        | b1 :: r1 =>
            if utf8_continuation b1
            then Some ((b0 - 0xC0) * 64 + (b1 - 0x80), r1)
            else None
        | _ => None
        end
      else if b0 <? 0xF0 then
        match r0 with
        | b1 :: b2 :: r2 =>
            if utf8_continuation b1 && utf8_continuation b2
            then Some (((b0 - 0xE0) * 64 + (b1 - 0x80)) * 64 + (b2 - 0x80), r2)
            else None
        | _ => None
        end
      else if b0 <? 0xF8 then
        match r0 with
        | b1 :: b2 :: b3 :: r3 =>
            if utf8_continuation b1 && utf8_continuation b2 && utf8_continuation b3
            then Some ((((b0 - 0xF0) * 64 + (b1 - 0x80)) * 64 + (b2 - 0x80)) * 64
                       + (b3 - 0x80), r3)
            else None
        | _ => None
        end
      else None
  end.

(** The UTF-16 surrogates of a code point above 0xFFFF. *)
Definition utf16_head (cp : Z) : Z := 0xD800 + (cp - 0x10000) / 1024.
Definition utf16_trail (cp : Z) : Z := 0xDC00 + (cp - 0x10000) mod 1024.


(** [upb_Parse_String] (inline in tokenizer.h): clears the output, then
    appends. *)
Definition upb_Parse_String (text : list char) (output : upb_String)
  : option upb_String :=
  upb_Parse_StringAppend text (upb_String_Clear output).

(** The body of a string token text without its closing quote: the last
    byte is dropped if it is the quote [q]. *)
Fixpoint drop_closing_quote (q : char) (body : list char) : list char :=
  match body with
  | [] => []
  | c :: rest =>
      match rest with
      | [] => if c =? q then [] else [c]
      | _ :: _ => c :: drop_closing_quote q rest
      end
  end.

(** The bytes the reader has not consumed yet: the rest of the buffer and
    the chunks the stream will still deliver. *)
Definition pending (t : upb_Tokenizer) : list char :=
  if read_error t then []
  else skipn (Z.to_nat (buffer_pos t)) (buffer t) ++ concat (input t).

(** The stream delivers no empty chunk ([Refresh] takes a chunk of size 0
    for the end of the stream). *)
Definition chunks_ok (t : upb_Tokenizer) : Prop :=
  Forall (fun chunk => chunk <> []) (input t).

(** The reader invariant with what the scanner theorems need besides: no
    empty chunk to come, and no buffer left once the read error is
    latched. *)
Definition reader_ok (t : upb_Tokenizer) : Prop :=
  wf t /\ chunks_ok t /\ (read_error t = true -> buffer t = []).

(** Every run of the scanner computation [m] relates the state before to
    the state after by [R]. *)
Definition steps (R : upb_Tokenizer -> upb_Tokenizer -> Prop) {A : Type}
    (m : M A) : Prop :=
  forall t a t', m t = Some (a, t') -> R t t'.

(** The shape of every run of [Next_token]: [StartToken], possibly the
    report of a non-ASCII byte, a first [NextChar], a computation related by
    [R], and [EndToken]. *)
Definition Next_token_split (R : upb_Tokenizer -> upb_Tokenizer -> Prop)
    (fuel : nat) : Prop :=
  forall t b t',
    Next_token fuel t = Some (b, t') ->
    b = true /\
    exists t0 t1,
      (t0 = StartToken t \/ exists l c m, t0 = ReportError l c m (StartToken t)) /\
      R (NextChar t0) t1 /\ t' = EndToken t1.

(** The shape of every run of the whitespace and newline test at the head
    of the loop of [upb_Tokenizer_Next]: a token is reported only after a
    first [NextChar] on a whitespace byte. *)
Definition whitespace_split (R : upb_Tokenizer -> upb_Tokenizer -> Prop)
    (fuel : nat) : Prop :=
  forall t report t',
    orM (TryConsumeWhitespace fuel) TryConsumeNewline t = Some (report, t') ->
    R t t' /\
    (report = true -> Whitespace (current_char t) = true /\ R (NextChar t) t').

(** What scanning leaves alone: the six options are unchanged, and the
    error reports of [t] are still there, in order, at the front of those
    of [t']. *)
Definition keeps_options_and_errors (t t' : upb_Tokenizer) : Prop :=
  (exists reported, error_collector t' = error_collector t ++ reported) /\
  allow_f_after_float t' = allow_f_after_float t /\
  comment_style t' = comment_style t /\
  require_space_after_number t' = require_space_after_number t /\
  allow_multiline_strings t' = allow_multiline_strings t /\
  report_whitespace t' = report_whitespace t /\
  report_newlines t' = report_newlines t.

(** [t'] is reached from [t] by consuming pending bytes. *)
Definition consumes (t t' : upb_Tokenizer) : Prop :=
  reader_ok t -> reader_ok t' /\ exists s, pending t = s ++ pending t'.

(** [t'] is reached from [t] by consuming pending bytes while the text of
    the current token is recorded: what was consumed is what was
    recorded. *)
Definition records (t t' : upb_Tokenizer) : Prop :=
  reader_ok t -> recording t ->
  reader_ok t' /\ recording t' /\
  exists s, pending t = s ++ pending t' /\ recorded_text t' = recorded_text t ++ s.

(** What a call of [upb_Tokenizer_Next] from [t] that returned [b] and left
    [t'] did to the input: it skipped some bytes, took the text of the
    current token from the bytes after them, and left the rest pending. *)
Definition token_from_input (t : upb_Tokenizer) (b : bool) (t' : upb_Tokenizer)
  : Prop :=
  reader_ok t' /\
  (exists skipped, pending t = skipped ++ tok_text (current t') ++ pending t') /\
  (b = true -> tok_text (current t') <> []) /\
  (b = false -> tok_text (current t') = [] /\ pending t' = []).

(** * Properties *)

(** ** Bytes and the digit table *)

Lemma all_bytes_spec (P : Z -> bool) :
  all_bytes P = true -> forall c, 0 <= c < 256 -> P c = true.
Proof.
  unfold all_bytes. rewrite forallb_forall. intros H c Hc.
  specialize (H (Z.to_nat c)). rewrite Z2Nat.id in H by lia.
  apply H, in_seq. lia.
Qed.

Lemma land_255_range (c : Z) : 0 <= Z.land c 255 < 256.
Proof.
  change 255 with (Z.ones 8). rewrite Z.land_ones by lia.
  apply Z.mod_pos_bound. lia.
Qed.

Lemma DigitValue_range (c : char) : 0 <= DigitValue c <= 36.
Proof.
  unfold DigitValue.
  assert (H : all_bytes (fun i => let d := nth (Z.to_nat i) kAsciiToInt 36 in
                                  (0 <=? d) && (d <=? 36)) = true)
    by (vm_compute; reflexivity).
  pose proof (all_bytes_spec _ H _ (land_255_range c)) as Hc.
  cbv zeta in Hc. apply andb_true_iff in Hc. lia.
Qed.

(** ** upb_Parse_Integer *)

Section ParseInteger.

Variable base : Z.
Hypothesis base_range : 2 <= base <= 36.

Let step (acc : Z) (c : char) : Z := acc * base + DigitValue c.

Lemma fold_step_ge (digits : list char) (acc : Z) :
  0 <= acc -> acc <= fold_left step digits acc.
Proof.
  revert acc. induction digits as [|c rest IH]; intros acc Hacc; simpl.
  - lia.
  - pose proof (DigitValue_range c) as Hd.
    assert (Hs : acc <= step acc c) by (unfold step; nia).
    specialize (IH (step acc c)). lia.
Qed.

Lemma fold_overflow (digits : list char) (result : Z) (c : char) :
  0 <= result -> UINT64_MAX < result * base + DigitValue c ->
  fold_left step digits (step result c) <= UINT64_MAX -> False.
Proof.
  intros Hr Hov Hfit.
  assert (Hge : step result c <= fold_left step digits (step result c)).
  { apply fold_step_ge. pose proof (DigitValue_range c). unfold step. nia. }
  assert (Hs : step result c = result * base + DigitValue c) by reflexivity.
  lia.
Qed.

(** The pre-multiplication check fires exactly when the product leaves the
    uint64 range. *)
Lemma mul_check_exact (result : Z) :
  0 <= result ->
  (result >=? UINT64_MAX / base + 1) = true <-> UINT64_MAX < result * base.
Proof.
  intros Hr. rewrite Z.geb_le.
  pose proof (Z.div_mod UINT64_MAX base ltac:(lia)) as Hdm.
  pose proof (Z.mod_pos_bound UINT64_MAX base ltac:(lia)) as Hm.
  split; intros H; nia.
Qed.

(** After a product that fits, the wrap check fires exactly when adding
    the digit leaves the uint64 range. *)
Lemma wrap_check_exact (result digit : Z) :
  1 <= result -> result * base <= UINT64_MAX -> 0 <= digit < base ->
  (wrap64 (result * base + digit) <? base) = true <->
  UINT64_MAX < result * base + digit.
Proof.
  intros Hr Hfit Hd. rewrite Z.ltb_lt. unfold wrap64, UINT64_MAX in *.
  change (2 ^ 64) with 18446744073709551616.
  destruct (Z_le_gt_dec (result * base + digit) 18446744073709551615) as [Hle|Hgt].
  - rewrite Z.mod_small by nia. nia.
  - replace (result * base + digit)
      with ((result * base + digit - 18446744073709551616)
            + 1 * 18446744073709551616) by lia.
    rewrite Z.mod_add by lia. rewrite Z.mod_small by lia. lia.
Qed.

Lemma accum_exact (digits : list char) :
  nul_free digits ->
  forall result v, 1 <= result <= UINT64_MAX ->
  Parse_Integer_accum base (UINT64_MAX / base + 1) digits result = Some v <->
  Forall (fun c => DigitValue c < base) digits /\
  fold_left step digits result <= UINT64_MAX /\
  v = fold_left step digits result.
Proof.
  induction 1 as [|c rest Hc Hrest IH]; intros result v Hr; simpl.
  - split.
    + intros [= <-]. repeat split; [constructor | lia].
    + intros (_ & _ & ->). reflexivity.
  - apply Z.eqb_neq in Hc. rewrite Hc.
    pose proof (DigitValue_range c) as Hd.
    destruct (DigitValue c <? 0) eqn:Hneg; [lia|]. simpl orb.
    destruct (DigitValue c >=? base) eqn:Hbig.
    { split; [discriminate|]. intros (Hall & _). inversion Hall; lia. }
    assert (Hlt : DigitValue c < base) by lia.
    destruct (result >=? UINT64_MAX / base + 1) eqn:Hmul.
    { apply mul_check_exact in Hmul; [|lia].
      split; [discriminate|]. intros (_ & Hfit & _).
      exfalso. apply (fold_overflow rest result c); [lia | nia | assumption]. }
    assert (Hprod : result * base <= UINT64_MAX).
    { destruct (Z_le_gt_dec (result * base) UINT64_MAX) as [|Hgt]; [assumption|].
      apply Z.gt_lt, mul_check_exact in Hgt; [congruence | lia]. }
    destruct (wrap64 (result * base + DigitValue c) <? base) eqn:Hwrap.
    { apply wrap_check_exact in Hwrap; [|lia..].
      split; [discriminate|]. intros (_ & Hfit & _).
      exfalso. apply (fold_overflow rest result c); [lia | assumption | assumption]. }
    assert (Hsum : result * base + DigitValue c <= UINT64_MAX).
    { destruct (Z_le_gt_dec (result * base + DigitValue c) UINT64_MAX)
        as [|Hgt]; [assumption|].
      apply Z.gt_lt, wrap_check_exact in Hgt; [congruence | lia..]. }
    assert (Heq : wrap64 (result * base + DigitValue c) = step result c).
    { unfold wrap64, step. apply Z.mod_small. unfold UINT64_MAX in *. nia. }
    rewrite Heq, IH by (unfold step; nia).
    split.
    + intros (Hall & Hfit & ->). repeat split; [constructor|..]; assumption.
    + intros (Hall & Hfit & ->). inversion Hall; subst. repeat split; assumption.
Qed.

Lemma seed_accum_exact (digits : list char) :
  nul_free digits ->
  forall v,
  match Parse_Integer_seed base digits with
  | None => None
  | Some (ptr, result) =>
      Parse_Integer_accum base (UINT64_MAX / base + 1) ptr result
  end = Some v <->
  Forall (fun c => DigitValue c < base) digits /\
  digits_value base digits <= UINT64_MAX /\
  v = digits_value base digits.
Proof.
  unfold digits_value. fold step.
  induction 1 as [|c rest Hc Hrest IH]; intros v; simpl.
  - split.
    + intros [= <-]. repeat split; [constructor | unfold UINT64_MAX; lia].
    + intros (_ & _ & ->). reflexivity.
  - pose proof Hc as Hc'. apply Z.eqb_neq in Hc'. rewrite Hc'.
    pose proof (DigitValue_range c) as Hd.
    destruct (DigitValue c >=? base) eqn:Hbig.
    { split; [discriminate|]. intros (Hall & _). inversion Hall; lia. }
    assert (Hlt : DigitValue c < base) by lia.
    destruct (DigitValue c =? 0) eqn:Hz; simpl negb; cbv iota.
    + apply Z.eqb_eq in Hz. rewrite IH.
      replace (step 0 c) with 0 by (unfold step; lia).
      split.
      * intros (Hall & Hfit & ->). repeat split; [constructor|..]; assumption.
      * intros (Hall & Hfit & ->). inversion Hall; subst. repeat split; assumption.
    + apply Z.eqb_neq in Hz.
      replace (step 0 c) with (DigitValue c) by (unfold step; lia).
      rewrite accum_exact by (assumption || unfold UINT64_MAX; lia).
      split.
      * intros (Hall & Hfit & ->). repeat split; [constructor|..]; assumption.
      * intros (Hall & Hfit & ->). inversion Hall; subst. repeat split; assumption.
Qed.

End ParseInteger.

Lemma Parse_Integer_prefix_literal (text : list char) :
  nul_free text ->
  Parse_Integer_prefix text =
  (literal_base text, UINT64_MAX / literal_base text + 1, literal_digits text).
Proof.
  unfold Parse_Integer_prefix, literal_base, literal_digits, literal_base_digits, at_.
  intros H. destruct text as [|c0 [|c1 rest]]; simpl.
  - reflexivity.
  - destruct (c0 =? ch "0"); reflexivity.
  - destruct (c0 =? ch "0"); simpl; [|reflexivity].
    destruct ((c1 =? ch "x") || (c1 =? ch "X")); reflexivity.
Qed.

Lemma literal_base_cases (text : list char) :
  literal_base text = 16 \/ literal_base text = 8 \/ literal_base text = 10.
Proof.
  unfold literal_base, literal_base_digits.
  destruct text as [|c0 [|c1 rest]]; simpl; auto.
  - destruct (c0 =? ch "0"); auto.
  - destruct (c0 =? ch "0"); simpl; auto.
    destruct ((c1 =? ch "x") || (c1 =? ch "X")); auto.
Qed.

Lemma literal_digits_nul_free (text : list char) :
  nul_free text -> nul_free (literal_digits text).
Proof.
  unfold literal_digits, literal_base_digits, nul_free.
  intros H. destruct text as [|c0 [|c1 rest]]; simpl; auto.
  - destruct (c0 =? ch "0"); auto.
  - destruct (c0 =? ch "0"); simpl; auto.
    destruct ((c1 =? ch "x") || (c1 =? ch "X")); simpl; auto.
    inversion H as [|? ? _ H']; inversion H'; assumption.
Qed.

(** C1.  For every integer literal text (decimal, hex with a 0x/0X prefix,
    octal with a leading zero) and every uint64 [max_value],
    [upb_Parse_Integer] returns true with output [v] exactly when every
    digit is valid for the inferred base, the exact value of the digits fits
    in a uint64 and is at most [max_value], and [v] is that value.  The three
    boundary literals of the spec evaluate as stated. *)
Theorem Parse_Integer_exact :
  (forall text max_value v,
      nul_free text -> 0 <= max_value <= UINT64_MAX ->
      upb_Parse_Integer text max_value = Some v <->
      Forall (fun c => DigitValue c < literal_base text) (literal_digits text) /\
      digits_value (literal_base text) (literal_digits text) <= UINT64_MAX /\
      digits_value (literal_base text) (literal_digits text) <= max_value /\
      v = digits_value (literal_base text) (literal_digits text)) /\
  upb_Parse_Integer (bytes "18446744073709551615") UINT64_MAX = Some (2 ^ 64 - 1) /\
  upb_Parse_Integer (bytes "18446744073709551616") UINT64_MAX = None /\
  upb_Parse_Integer (bytes "0xFFFFFFFFFFFFFFFF") UINT64_MAX = Some (2 ^ 64 - 1).
Proof.
  split; [|repeat split; vm_compute; reflexivity].
  intros text max_value v Hnul Hmax.
  unfold upb_Parse_Integer. rewrite Parse_Integer_prefix_literal by assumption.
  assert (Hbase : 2 <= literal_base text <= 36)
    by (destruct (literal_base_cases text) as [-> | [-> | ->]]; lia).
  pose proof (seed_accum_exact _ Hbase _ (literal_digits_nul_free _ Hnul)) as Hsa.
  destruct (Parse_Integer_seed (literal_base text) (literal_digits text))
    as [[ptr result]|].
  - destruct (Parse_Integer_accum (literal_base text)
                (UINT64_MAX / literal_base text + 1) ptr result) as [r|].
    + destruct (Hsa r) as [Hr _]. destruct (Hr eq_refl) as (Hall & Hfit & ->).
      destruct (digits_value (literal_base text) (literal_digits text) >? max_value)
        eqn:Hgt.
      * split; [discriminate|]. intros (_ & _ & Hle & _). lia.
      * split.
        -- intros [= <-]. repeat split; try assumption. lia.
        -- intros (_ & _ & _ & ->). reflexivity.
    + split; [discriminate|]. intros (Hall & Hfit & _ & Hv).
      specialize (Hsa v). destruct Hsa as [_ Hsa].
      discriminate Hsa. repeat split; assumption.
  - split; [discriminate|]. intros (Hall & Hfit & _ & Hv).
    specialize (Hsa v). destruct Hsa as [_ Hsa].
    discriminate Hsa. repeat split; assumption.
Qed.

Lemma Parse_Integer_exact_witness :
  upb_Parse_Integer (bytes "0x1F") 100 = Some 31.
Proof.
  apply (proj1 Parse_Integer_exact (bytes "0x1F") 100 31).
  - repeat constructor; discriminate.
  - unfold UINT64_MAX. lia.
  - repeat split; try (vm_compute; congruence).
    repeat constructor.
Defined.

(** ** The option setters *)

(** C7.  In every tokenizer state, [SetReportNewlines(t, true)] leaves both
    flags true, [SetReportWhitespace(t, false)] leaves both flags false, and
    after either setter, called with any argument, [report_newlines] implies
    [report_whitespace]. *)
Theorem report_setters_reestablish_invariant :
  forall (t : upb_Tokenizer) (report : bool),
    (report_newlines (upb_Tokenizer_SetReportNewlines t true) = true /\
     report_whitespace (upb_Tokenizer_SetReportNewlines t true) = true) /\
    (report_whitespace (upb_Tokenizer_SetReportWhitespace t false) = false /\
     report_newlines (upb_Tokenizer_SetReportWhitespace t false) = false) /\
    implb (report_newlines (upb_Tokenizer_SetReportNewlines t report))
          (report_whitespace (upb_Tokenizer_SetReportNewlines t report)) = true /\
    implb (report_newlines (upb_Tokenizer_SetReportWhitespace t report))
          (report_whitespace (upb_Tokenizer_SetReportWhitespace t report)) = true.
Proof.
  intros t report.
  unfold upb_Tokenizer_SetReportNewlines, upb_Tokenizer_SetReportWhitespace.
  simpl.
  destruct (report_whitespace t), (report_newlines t), report; repeat split.
Qed.

(** ** The bare hex prefix *)

Lemma ConsumeNumber_bare_hex (fuel : nat) (t : upb_Tokenizer) :
  current_char t = ch "x" \/ current_char t = ch "X" ->
  HexDigit (current_char (NextChar t)) = false ->
  exists ty t',
    ConsumeNumber fuel true false t = Some (ty, t') /\
    In (mkError (line (NextChar t)) (column (NextChar t)) MsgHexDigitsAfter0x)
       (error_collector t').
Proof.
  intros Hx Hhex.
  assert (Hhexp : orM (TryConsume (ch "x")) (TryConsume (ch "X")) t
                  = Some (true, NextChar t)).
  { unfold orM, bind, TryConsume, ret.
    destruct Hx as [Hx | Hx]; rewrite Hx.
    - rewrite Z.eqb_refl. reflexivity.
    - change (ch "X" =? ch "x") with false. cbv iota beta.
      rewrite Hx, Z.eqb_refl. reflexivity. }
  unfold ConsumeNumber. unfold bind at 1. rewrite Hhexp.
  unfold ConsumeOneOrMore, bind, gets, lift, ret, LookingAt. rewrite Hhex. simpl.
  set (t1 := AddError MsgHexDigitsAfter0x (NextChar t)).
  assert (Hin : In (mkError (line (NextChar t)) (column (NextChar t))
                            MsgHexDigitsAfter0x) (error_collector t1))
    by (simpl; apply in_or_app; right; left; reflexivity).
  destruct (Letter (current_char (NextChar t)) &&
            require_space_after_number (NextChar t)).
  - do 2 eexists. split; [reflexivity|].
    simpl. apply in_or_app. left. exact Hin.
  - cbv beta. destruct (current_char t1 =? ch ".").
    + do 2 eexists. split; [reflexivity|].
      simpl. apply in_or_app. left. exact Hin.
    + do 2 eexists. split; [reflexivity|]. exact Hin.
Qed.

(** C10.  [upb_Parse_Integer] on the bare prefix 0x (or 0X) returns true
    with output 0 for every uint64 [max_value].  The scanner emits such a
    token only with the error that 0x must be followed by hex digits:
    [ConsumeNumber] reports it whenever the byte after the x is no hex
    digit, and scanning the input 0x (or 0X) gives the INTEGER token with
    exactly that error. *)
Theorem Parse_Integer_bare_hex_prefix :
  (forall max_value, 0 <= max_value ->
     upb_Parse_Integer (bytes "0x") max_value = Some 0 /\
     upb_Parse_Integer (bytes "0X") max_value = Some 0) /\
  (forall fuel t,
     current_char t = ch "x" \/ current_char t = ch "X" ->
     HexDigit (current_char (NextChar t)) = false ->
     exists ty t',
       ConsumeNumber fuel true false t = Some (ty, t') /\
       In (mkError (line (NextChar t)) (column (NextChar t)) MsgHexDigitsAfter0x)
          (error_collector t')) /\
  (exists t',
     upb_Tokenizer_Next (upb_Tokenizer_New (bytes "0x") []) = Some (true, t') /\
     current t' = mkToken UPB_TOKENTYPE_INTEGER 0 0 2 (bytes "0x") /\
     error_collector t' = [mkError 0 2 MsgHexDigitsAfter0x]) /\
  (exists t',
     upb_Tokenizer_Next (upb_Tokenizer_New (bytes "0X") []) = Some (true, t') /\
     current t' = mkToken UPB_TOKENTYPE_INTEGER 0 0 2 (bytes "0X") /\
     error_collector t' = [mkError 0 2 MsgHexDigitsAfter0x]).
Proof.
  split; [|split; [|split]].
  - intros max_value Hmax.
    assert (H : forall text, text = bytes "0x" \/ text = bytes "0X" ->
                upb_Parse_Integer text max_value
                = if 0 >? max_value then None else Some 0)
      by (intros text [-> | ->]; reflexivity).
    rewrite !H by auto.
    destruct (0 >? max_value) eqn:Hgt; [lia | split; reflexivity].
  - exact ConsumeNumber_bare_hex.
  - eexists. split; [vm_compute; reflexivity|]. split; reflexivity.
  - eexists. split; [vm_compute; reflexivity|]. split; reflexivity.
Qed.

Lemma Parse_Integer_bare_hex_prefix_witness :
  upb_Parse_Integer (bytes "0x") 7 = Some 0 /\
  upb_Parse_Integer (bytes "0X") 7 = Some 0.
Proof.
  apply (proj1 Parse_Integer_bare_hex_prefix 7). lia.
Defined.

(** ** Bit-level facts and AppendUTF8 *)

Lemma land_shifted_ones (x w s : Z) :
  0 <= s ->
  Z.land x (Z.shiftl (Z.ones w) s) = (Z.land (Z.shiftr x s) (Z.ones w)) * 2 ^ s.
Proof.
  intros Hs. rewrite <- Z.shiftl_mul_pow2 by assumption.
  apply Z.bits_inj'. intros n Hn.
  rewrite Z.land_spec, !Z.shiftl_spec by assumption.
  destruct (Z.ltb_spec n s) as [Hlt | Hge].
  - rewrite !(Z.testbit_neg_r _ (n - s)) by lia. apply andb_false_r.
  - rewrite Z.land_spec, Z.shiftr_spec by lia.
    replace (n - s + s) with n by lia. reflexivity.
Qed.

Lemma lor_high_low (h l s : Z) :
  0 <= s -> 0 <= l < 2 ^ s -> Z.lor (h * 2 ^ s) l = h * 2 ^ s + l.
Proof.
  intros Hs Hl.
  assert (Hdisj : Z.land (h * 2 ^ s) l = 0).
  { apply Z.bits_inj'. intros n Hn. rewrite Z.land_spec, Z.bits_0.
    destruct (Z.ltb_spec n s) as [Hlt | Hge].
    - rewrite Z.mul_pow2_bits_low by assumption. reflexivity.
    - destruct (Z.eq_dec l 0) as [-> | Hnz].
      + rewrite Z.bits_0. apply andb_false_r.
      + assert (Hlog : Z.log2 l < s) by (apply Z.log2_lt_pow2; lia).
        rewrite (Z.bits_above_log2 l n) by lia.
        apply andb_false_r. }
  rewrite <- Z.lxor_lor by assumption. symmetry. apply Z.add_nocarry_lxor. assumption.
Qed.

Lemma byte_of_lor (i x y : Z) :
  0 <= i -> byte_of i (Z.lor x y) = Z.lor (byte_of i x) (byte_of i y).
Proof.
  intros Hi. unfold byte_of.
  rewrite <- !Z.shiftr_div_pow2 by lia.
  change 256 with (2 ^ 8). rewrite <- !Z.land_ones by lia.
  rewrite Z.shiftr_lor. apply Z.land_lor_distr_l.
Qed.

Lemma byte_of_shifted (i j f : Z) :
  0 <= i <= 3 -> 0 <= j <= 3 -> 0 <= f < 256 ->
  byte_of i (f * 2 ^ (8 * j)) = if i =? j then f else 0.
Proof.
  intros Hi Hj Hf. unfold byte_of.
  assert (Ei : i = 0 \/ i = 1 \/ i = 2 \/ i = 3) by lia.
  assert (Ej : j = 0 \/ j = 1 \/ j = 2 \/ j = 3) by lia.
  destruct Ei as [-> | [-> | [-> | ->]]], Ej as [-> | [-> | [-> | ->]]];
    match goal with
    | |- context [?a =? ?b] =>
        let v := eval vm_compute in (a =? b) in change (a =? b) with v
    end; cbv iota;
    repeat match goal with
           | |- context [2 ^ ?k] =>
               let v := eval vm_compute in (2 ^ k) in change (2 ^ k) with v
           end; Z.div_mod_to_equations; lia.
Qed.

Lemma wrap32_small (x : Z) : 0 <= x < 2 ^ 32 -> wrap32 x = x.
Proof. intros H. apply Z.mod_small. assumption. Qed.

Lemma memory_bytes32_bytes (g : Z) :
  memory_bytes32 g = [byte_of 0 g; byte_of 1 g; byte_of 2 g; byte_of 3 g].
Proof.
  unfold memory_bytes32, byte_of.
  change 255 with (Z.ones 8). rewrite !Z.land_ones, !Z.shiftr_div_pow2 by lia.
  change (2 ^ (8 * 0)) with 1. rewrite Z.div_1_r. reflexivity.
Qed.

(** What lies in memory after [ghtonl]: the big-endian bytes. *)
Lemma memory_bytes32_ghtonl (x : Z) :
  memory_bytes32 (ghtonl x) = [byte_of 3 x; byte_of 2 x; byte_of 1 x; byte_of 0 x].
Proof.
  assert (H0 : wrap32 (Z.shiftl (Z.land x 255) 24) = byte_of 0 x * 2 ^ (8 * 3)).
  { change 255 with (Z.ones 8). rewrite Z.land_ones, Z.shiftl_mul_pow2 by lia.
    unfold byte_of, wrap32. change (2 ^ (8 * 0)) with 1. rewrite Z.div_1_r.
    change (2 ^ 8) with 256. change (2 ^ (8 * 3)) with (2 ^ 24).
    apply Z.mod_small. change (2 ^ 24) with 16777216. change (2 ^ 32) with 4294967296.
    Z.div_mod_to_equations; lia. }
  assert (H1 : wrap32 (Z.shiftl (Z.land x 65280) 8) = byte_of 1 x * 2 ^ (8 * 2)).
  { change 65280 with (Z.shiftl (Z.ones 8) 8).
    rewrite land_shifted_ones, Z.land_ones, Z.shiftr_div_pow2, Z.shiftl_mul_pow2 by lia.
    unfold byte_of, wrap32. change (8 * 1) with 8. change (2 ^ 8) with 256.
    change (2 ^ (8 * 2)) with 65536. change (2 ^ 32) with 4294967296.
    rewrite Z.mod_small; Z.div_mod_to_equations; lia. }
  assert (H2 : Z.shiftr (Z.land x 16711680) 8 = byte_of 2 x * 2 ^ (8 * 1)).
  { change 16711680 with (Z.shiftl (Z.ones 8) 16).
    rewrite land_shifted_ones, Z.land_ones, !Z.shiftr_div_pow2 by lia.
    unfold byte_of. change (8 * 2) with 16. change (8 * 1) with 8.
    change (2 ^ 8) with 256. change (2 ^ 16) with 65536.
    Z.div_mod_to_equations; lia. }
  assert (H3 : Z.shiftr (Z.land x 4278190080) 24 = byte_of 3 x * 2 ^ (8 * 0)).
  { change 4278190080 with (Z.shiftl (Z.ones 8) 24).
    rewrite land_shifted_ones, Z.land_ones, !Z.shiftr_div_pow2 by lia.
    unfold byte_of. change (8 * 3) with 24. change (2 ^ (8 * 0)) with 1.
    change (2 ^ 8) with 256. change (2 ^ 24) with 16777216.
    Z.div_mod_to_equations; lia. }
  assert (Hb : forall i, 0 <= byte_of i x < 256)
    by (intros i; apply Z.mod_pos_bound; lia).
  rewrite memory_bytes32_bytes. unfold ghtonl. rewrite H0, H1, H2, H3.
  assert (E : forall i, 0 <= i <= 3 ->
    byte_of i (Z.lor (Z.lor (Z.lor (byte_of 0 x * 2 ^ (8 * 3)) (byte_of 1 x * 2 ^ (8 * 2)))
                    (byte_of 2 x * 2 ^ (8 * 1))) (byte_of 3 x * 2 ^ (8 * 0)))
    = byte_of (3 - i) x).
  { intros i Hi. rewrite !byte_of_lor, !byte_of_shifted by (auto; lia).
    assert (Ei : i = 0 \/ i = 1 \/ i = 2 \/ i = 3) by lia.
    destruct Ei as [-> | [-> | [-> | ->]]]; cbn [Z.eqb Pos.eqb Z.sub Z.add Z.opp Z.pos_sub Pos.pred_double];
      rewrite ?Z.lor_0_r, ?Z.lor_0_l; reflexivity. }
  rewrite !E by lia. reflexivity.
Qed.

Lemma field_shift (cp w s k : Z) :
  0 <= s -> 0 <= k -> 0 <= w -> s + k + w <= 32 ->
  wrap32 (Z.shiftl (Z.land cp (Z.shiftl (Z.ones w) s)) k)
  = ((cp / 2 ^ s) mod 2 ^ w) * 2 ^ (s + k).
Proof.
  intros Hs Hk Hw Hfit.
  rewrite land_shifted_ones, Z.land_ones, Z.shiftr_div_pow2, Z.shiftl_mul_pow2 by lia.
  rewrite <- Z.mul_assoc, <- Z.pow_add_r by lia.
  apply wrap32_small.
  pose proof (Z.mod_pos_bound (cp / 2 ^ s) (2 ^ w) ltac:(lia)) as Hf.
  assert (Hp : 0 < 2 ^ (s + k)) by lia.
  split; [nia|].
  apply Z.lt_le_trans with (2 ^ w * 2 ^ (s + k)); [nia|].
  rewrite <- Z.pow_add_r by lia. apply Z.pow_le_mono_r; lia.
Qed.

Lemma emitted_bytes (tmp len : Z) :
  skipn (Z.to_nat (4 - len)) (memory_bytes32 (ghtonl tmp))
  = skipn (Z.to_nat (4 - len)) [byte_of 3 tmp; byte_of 2 tmp; byte_of 1 tmp; byte_of 0 tmp].
Proof. rewrite memory_bytes32_ghtonl. reflexivity. Qed.

Lemma byte_of_low (i f : Z) :
  0 <= i <= 3 -> 0 <= f < 256 -> byte_of i f = if i =? 0 then f else 0.
Proof.
  intros Hi Hf. rewrite <- (byte_of_shifted i 0 f) by lia.
  change (2 ^ (8 * 0)) with 1. rewrite Z.mul_1_r. reflexivity.
Qed.

Ltac eval_bytes :=
  rewrite ?byte_of_lor by lia; rewrite ?byte_of_shifted by lia;
  rewrite ?byte_of_low by lia;
  repeat match goal with
         | |- context [?a =? ?b] =>
             let v := eval vm_compute in (a =? b) in change (a =? b) with v
         end;
  cbv iota; rewrite ?Z.lor_0_r, ?Z.lor_0_l.

(** [AppendUTF8] appends the UTF-8 encoding of every code point up to
    0x10FFFF. *)
Lemma AppendUTF8_encodes (cp : Z) (out : list char) :
  0 <= cp <= 0x10FFFF -> AppendUTF8 cp out = out ++ utf8_encode cp.
Proof.
  intros Hcp. unfold AppendUTF8, utf8_encode, upb_String_Append.
  destruct (cp <=? 0x7f) eqn:H1.
  { rewrite emitted_bytes. change (Z.to_nat (4 - 1)) with 3%nat. cbv [skipn].
    unfold byte_of.
    change (2 ^ (8 * 0)) with 1. rewrite Z.div_1_r, Z.mod_small by lia. reflexivity. }
  destruct (cp <=? 0x07ff) eqn:H2.
  { rewrite emitted_bytes. change (Z.to_nat (4 - 2)) with 2%nat. cbv [skipn].
    change 0x07c0 with (Z.shiftl (Z.ones 5) 6). rewrite field_shift by lia.
    change 0x003f with (Z.ones 6). rewrite Z.land_ones by lia.
    change 0x0000c080 with (Z.lor (0xC0 * 2 ^ (8 * 1)) (0x80 * 2 ^ (8 * 0))).
    change (2 ^ (6 + 2)) with (2 ^ (8 * 1)).
    set (a := (cp / 2 ^ 6) mod 2 ^ 5). set (b := cp mod 2 ^ 6).
    assert (Ha : 0 <= a < 32) by (apply Z.mod_pos_bound; lia).
    assert (Hb : 0 <= b < 64) by (apply Z.mod_pos_bound; lia).
    f_equal. f_equal; [|f_equal]; eval_bytes.
    - change 192 with (6 * 2 ^ 5). rewrite lor_high_low by (change (2 ^ 5) with 32; lia).
      subst a. change (2 ^ 6) with 64. change (2 ^ 5) with 32.
      Z.div_mod_to_equations; lia.
    - change 128 with (2 * 2 ^ 6). rewrite lor_high_low by (change (2 ^ 6) with 64; lia).
      subst b. reflexivity. }
  destruct (cp <=? 0xffff) eqn:H3.
  { rewrite emitted_bytes. change (Z.to_nat (4 - 3)) with 1%nat. cbv [skipn].
    change 0xf000 with (Z.shiftl (Z.ones 4) 12). rewrite field_shift by lia.
    change 0x0fc0 with (Z.shiftl (Z.ones 6) 6). rewrite field_shift by lia.
    change 0x003f with (Z.ones 6). rewrite Z.land_ones by lia.
    change 0x00e08080
      with (Z.lor (Z.lor (0xE0 * 2 ^ (8 * 2)) (0x80 * 2 ^ (8 * 1))) (0x80 * 2 ^ (8 * 0))).
    change (2 ^ (12 + 4)) with (2 ^ (8 * 2)). change (2 ^ (6 + 2)) with (2 ^ (8 * 1)).
    set (a := (cp / 2 ^ 12) mod 2 ^ 4). set (b := (cp / 2 ^ 6) mod 2 ^ 6).
    set (c := cp mod 2 ^ 6).
    assert (Ha : 0 <= a < 16) by (apply Z.mod_pos_bound; lia).
    assert (Hb : 0 <= b < 64) by (apply Z.mod_pos_bound; lia).
    assert (Hc : 0 <= c < 64) by (apply Z.mod_pos_bound; lia).
    f_equal. f_equal; [|f_equal; [|f_equal]]; eval_bytes.
    - change 224 with (14 * 2 ^ 4). rewrite lor_high_low by (change (2 ^ 4) with 16; lia).
      subst a. change (2 ^ 12) with 4096. change (2 ^ 4) with 16.
      Z.div_mod_to_equations; lia.
    - change 128 with (2 * 2 ^ 6). rewrite lor_high_low by (change (2 ^ 6) with 64; lia).
      subst b. reflexivity.
    - change 128 with (2 * 2 ^ 6). rewrite lor_high_low by (change (2 ^ 6) with 64; lia).
      subst c. reflexivity. }
  destruct (cp <=? 0x10ffff) eqn:H4; [|lia].
  rewrite emitted_bytes. change (Z.to_nat (4 - 4)) with 0%nat. cbv [skipn].
  change 0x1c0000 with (Z.shiftl (Z.ones 3) 18). rewrite field_shift by lia.
  change 0x03f000 with (Z.shiftl (Z.ones 6) 12). rewrite field_shift by lia.
  change 0x000fc0 with (Z.shiftl (Z.ones 6) 6). rewrite field_shift by lia.
  change 0x003f with (Z.ones 6). rewrite Z.land_ones by lia.
  change 0xf0808080
    with (Z.lor (Z.lor (Z.lor (0xF0 * 2 ^ (8 * 3)) (0x80 * 2 ^ (8 * 2)))
                       (0x80 * 2 ^ (8 * 1))) (0x80 * 2 ^ (8 * 0))).
  change (2 ^ (18 + 6)) with (2 ^ (8 * 3)).
  change (2 ^ (12 + 4)) with (2 ^ (8 * 2)). change (2 ^ (6 + 2)) with (2 ^ (8 * 1)).
  set (a := (cp / 2 ^ 18) mod 2 ^ 3). set (b := (cp / 2 ^ 12) mod 2 ^ 6).
  set (c := (cp / 2 ^ 6) mod 2 ^ 6). set (d := cp mod 2 ^ 6).
  assert (Ha : 0 <= a < 8) by (apply Z.mod_pos_bound; lia).
  assert (Hb : 0 <= b < 64) by (apply Z.mod_pos_bound; lia).
  assert (Hc : 0 <= c < 64) by (apply Z.mod_pos_bound; lia).
  assert (Hd : 0 <= d < 64) by (apply Z.mod_pos_bound; lia).
  f_equal. f_equal; [|f_equal; [|f_equal; [|f_equal]]]; eval_bytes.
  - change 240 with (15 * 2 ^ 4). rewrite lor_high_low by (change (2 ^ 4) with 16; lia).
    subst a. change (2 ^ 18) with 262144. change (2 ^ 3) with 8.
    Z.div_mod_to_equations; lia.
  - change 128 with (2 * 2 ^ 6). rewrite lor_high_low by (change (2 ^ 6) with 64; lia).
    subst b. reflexivity.
  - change 128 with (2 * 2 ^ 6). rewrite lor_high_low by (change (2 ^ 6) with 64; lia).
    subst c. reflexivity.
  - change 128 with (2 * 2 ^ 6). rewrite lor_high_low by (change (2 ^ 6) with 64; lia).
    subst d. reflexivity.
Qed.

(** ** ReadHexDigits and FetchUnicodePoint *)

Lemma window_S (text : list char) (p : Z) (n : nat) :
  window text p (S n) = at_ text p :: window text (p + 1) n.
Proof.
  unfold window. rewrite <- cons_seq, <- seq_shift, map_cons, map_map.
  f_equal.
  - f_equal. lia.
  - apply map_ext. intros i. f_equal. lia.
Qed.

Lemma ReadHexDigits_loop_flag (text : list char) (n : nat) :
  forall p r,
    fst (ReadHexDigits_loop text p n r) = true <->
    (forall i, 0 <= i < Z.of_nat n -> at_ text (p + i) <> 0).
Proof.
  induction n as [|n IH]; intros p r; simpl ReadHexDigits_loop.
  - split; [intros _ i Hi; lia | reflexivity].
  - destruct (at_ text p =? 0) eqn:E.
    + apply Z.eqb_eq in E. split; [discriminate|].
      intros H. exfalso. apply (H 0); [lia|]. rewrite Z.add_0_r. exact E.
    + apply Z.eqb_neq in E. rewrite IH. split.
      * intros H i Hi. destruct (Z.eq_dec i 0) as [-> | Hnz].
        -- rewrite Z.add_0_r. exact E.
        -- replace (p + i) with (p + 1 + (i - 1)) by lia. apply H. lia.
      * intros H i Hi. replace (p + 1 + i) with (p + (i + 1)) by lia.
        apply H. lia.
Qed.

Lemma ReadHexDigits_loop_value (text : list char) (n : nat) :
  forall p r,
    fst (ReadHexDigits_loop text p n r) = true ->
    snd (ReadHexDigits_loop text p n r) = fold_left fold_digit (window text p n) r.
Proof.
  induction n as [|n IH]; intros p r; simpl ReadHexDigits_loop.
  - reflexivity.
  - rewrite window_S. destruct (at_ text p =? 0); [discriminate|].
    intros H. rewrite IH by assumption. reflexivity.
Qed.

Lemma holds_at_window (text : list char) (p : Z) (s : list char) :
  holds_at text p s -> window text p (length s) = s.
Proof.
  revert p. induction s as [|c s IH]; intros p H.
  - reflexivity.
  - simpl length. rewrite window_S. f_equal.
    + specialize (H 0%nat ltac:(simpl; lia)). simpl in H.
      rewrite Z.add_0_r in H. exact H.
    + apply IH. intros i Hi.
      specialize (H (S i) ltac:(simpl; lia)). simpl nth in H.
      rewrite <- H. f_equal. lia.
Qed.

Lemma holds_at_app (text : list char) (p : Z) (a b : list char) :
  holds_at text p (a ++ b) ->
  holds_at text p a /\ holds_at text (p + Z.of_nat (length a)) b.
Proof.
  intros H. split; intros i Hi.
  - rewrite H by (rewrite length_app; lia). apply app_nth1. assumption.
  - replace (p + Z.of_nat (length a) + Z.of_nat i)
      with (p + Z.of_nat (length a + i)) by lia.
    rewrite H by (rewrite length_app; lia).
    rewrite app_nth2 by lia. f_equal. lia.
Qed.

Lemma holds_at_nonzero (text : list char) (p : Z) (s : list char) :
  holds_at text p s -> Forall (fun c => c <> 0) s ->
  forall i, 0 <= i < Z.of_nat (length s) -> at_ text (p + i) <> 0.
Proof.
  intros H Hnz i Hi. replace i with (Z.of_nat (Z.to_nat i)) by lia.
  rewrite H by lia. rewrite Forall_forall in Hnz. apply Hnz, nth_In. lia.
Qed.

Lemma HexDigit_nonzero (c : char) : HexDigit c = true -> c <> 0.
Proof. intros H ->. discriminate H. Qed.

Lemma fold_digit_small (r : Z) (c : char) :
  0 <= r < 2 ^ 27 -> fold_digit r c = r * 16 + DigitValue c.
Proof.
  intros Hr. pose proof (DigitValue_range c) as Hd.
  unfold fold_digit. rewrite Z.shiftl_mul_pow2 by lia. change (2 ^ 4) with 16.
  change (2 ^ 27) with 134217728 in Hr.
  rewrite (wrap32_small (r * 16)) by (change (2 ^ 32) with 4294967296; lia).
  apply wrap32_small. change (2 ^ 32) with 4294967296. lia.
Qed.

(** Four bytes read by [ReadHexDigits] give the base-16 value of their
    digit values. *)
Lemma fold_digit_four (h1 h2 h3 h4 : char) :
  fold_left fold_digit [h1; h2; h3; h4] 0 = digits_value 16 [h1; h2; h3; h4].
Proof.
  unfold digits_value. simpl fold_left.
  pose proof (DigitValue_range h1). pose proof (DigitValue_range h2).
  pose proof (DigitValue_range h3). pose proof (DigitValue_range h4).
  rewrite (fold_digit_small 0) by (change (2 ^ 27) with 134217728; lia).
  rewrite (fold_digit_small (0 * 16 + _)) by (change (2 ^ 27) with 134217728; lia).
  rewrite (fold_digit_small ((0 * 16 + _) * 16 + _))
    by (change (2 ^ 27) with 134217728; lia).
  rewrite fold_digit_small by (change (2 ^ 27) with 134217728; lia).
  reflexivity.
Qed.

Lemma ReadHexDigits_four (text : list char) (p : Z) (h1 h2 h3 h4 : char) :
  holds_at text p [h1; h2; h3; h4] ->
  Forall (fun c => c <> 0) [h1; h2; h3; h4] ->
  ReadHexDigits text p 4 = (true, digits_value 16 [h1; h2; h3; h4]).
Proof.
  intros H Hnz. unfold ReadHexDigits. change (4 =? 0) with false. cbv iota.
  change (Z.to_nat 4) with (length [h1; h2; h3; h4]).
  assert (Hflag : fst (ReadHexDigits_loop text p (length [h1; h2; h3; h4]) 0) = true).
  { apply ReadHexDigits_loop_flag. apply holds_at_nonzero; assumption. }
  pose proof (ReadHexDigits_loop_value _ _ _ _ Hflag) as Hval.
  rewrite holds_at_window, fold_digit_four in Hval by assumption.
  destruct (ReadHexDigits_loop text p (length [h1; h2; h3; h4]) 0) as [b v].
  simpl in Hflag, Hval. subst. reflexivity.
Qed.

Lemma AssembleUTF16_value (hi lo : Z) :
  0xD800 <= hi <= 0xDBFF -> 0xDC00 <= lo <= 0xDFFF ->
  AssembleUTF16 hi lo = 0x10000 + Z.shiftl (hi - 0xD800) 10 + (lo - 0xDC00) /\
  0x10000 <= AssembleUTF16 hi lo <= 0x10FFFF.
Proof.
  intros Hhi Hlo. unfold AssembleUTF16, kMinHeadSurrogate, kMinTrailSurrogate.
  rewrite (wrap32_small (hi - 0xd800)) by (change (2 ^ 32) with 4294967296; lia).
  rewrite (wrap32_small (lo - 0xdc00)) by (change (2 ^ 32) with 4294967296; lia).
  rewrite Z.shiftl_mul_pow2 by lia.
  rewrite (wrap32_small ((hi - 0xd800) * 2 ^ 10))
    by (change (2 ^ 32) with 4294967296; change (2 ^ 10) with 1024; lia).
  rewrite lor_high_low by (change (2 ^ 10) with 1024; lia).
  change (2 ^ 10) with 1024.
  rewrite wrap32_small by (change (2 ^ 32) with 4294967296; lia).
  lia.
Qed.

(** At a head-surrogate escape followed by a trail-surrogate escape,
    [FetchUnicodePoint] (called on the first [u]) consumes both escapes and
    returns the assembled code point. *)
Lemma FetchUnicodePoint_pair (text : list char) (p : Z)
    (h1 h2 h3 h4 l1 l2 l3 l4 : char) :
  holds_at text p ([ch "u"; h1; h2; h3; h4] ++ [92; ch "u"] ++ [l1; l2; l3; l4]) ->
  Forall (fun c => c <> 0) [h1; h2; h3; h4] ->
  Forall (fun c => c <> 0) [l1; l2; l3; l4] ->
  0xD800 <= digits_value 16 [h1; h2; h3; h4] <= 0xDBFF ->
  0xDC00 <= digits_value 16 [l1; l2; l3; l4] <= 0xDFFF ->
  FetchUnicodePoint text p =
  (p + 11, AssembleUTF16 (digits_value 16 [h1; h2; h3; h4])
                         (digits_value 16 [l1; l2; l3; l4])).
Proof.
  intros H Hh Hl Hhi Hlo.
  change ([ch "u"; h1; h2; h3; h4] ++ [92; ch "u"] ++ [l1; l2; l3; l4])
    with ([ch "u"] ++ [h1; h2; h3; h4] ++ [92] ++ [ch "u"] ++ [l1; l2; l3; l4]) in H.
  apply holds_at_app in H. destruct H as [Hu H].
  apply holds_at_app in H. destruct H as [Hhd H].
  apply holds_at_app in H. destruct H as [Hb H].
  apply holds_at_app in H. destruct H as [Hu2 Hld].
  simpl length in *. change (Z.of_nat 1) with 1 in *. change (Z.of_nat 4) with 4 in *.
  specialize (Hu 0%nat ltac:(simpl; lia)). simpl in Hu. rewrite Z.add_0_r in Hu.
  specialize (Hb 0%nat ltac:(simpl; lia)). simpl in Hb.
  specialize (Hu2 0%nat ltac:(simpl; lia)). simpl in Hu2.
  replace (p + 1 + 4 + 0) with (p + 1 + 4) in Hb by lia.
  replace (p + 1 + 4 + 1 + 0) with (p + 1 + 4 + 1) in Hu2 by lia.
  replace (p + 1 + 4 + 1 + 1) with (p + 1 + 4 + 2) in Hld by lia.
  unfold FetchUnicodePoint. rewrite Hu. change (UnicodeLength (ch "u")) with 4.
  rewrite (ReadHexDigits_four _ _ _ _ _ _ Hhd Hh). cbv iota beta. simpl negb. cbv iota.
  rewrite Hb, Hu2.
  assert (Hhead : IsHeadSurrogate (digits_value 16 [h1; h2; h3; h4]) = true).
  { unfold IsHeadSurrogate, kMinHeadSurrogate, kMaxHeadSurrogate.
    apply andb_true_iff. split; [apply Z.geb_le | apply Z.ltb_lt]; lia. }
  assert (Htrail : IsTrailSurrogate (digits_value 16 [l1; l2; l3; l4]) = true).
  { unfold IsTrailSurrogate, kMinTrailSurrogate, kMaxTrailSurrogate.
    apply andb_true_iff. split; [apply Z.geb_le | apply Z.ltb_lt]; lia. }
  rewrite Hhead, !Z.eqb_refl. simpl andb. cbv iota.
  rewrite (ReadHexDigits_four _ _ _ _ _ _ Hld Hl). rewrite Htrail. simpl andb. cbv iota.
  f_equal. lia.
Qed.

(** ** upb_Parse_StringAppend *)

Lemma StringAppend_loop_S (fuel : nat) (text : list char) (ptr : Z)
    (output : upb_String) :
  StringAppend_loop (S fuel) text ptr output =
  if at_ text ptr =? 0 then Some output
  else StringAppend_loop fuel text
         (fst (StringAppend_step text ptr output) + 1)
         (snd (StringAppend_step text ptr output)).
Proof.
  simpl. destruct (at_ text ptr =? 0); [reflexivity|].
  destruct (StringAppend_step text ptr output). reflexivity.
Qed.

Lemma at_nonneg (text : list char) (p : Z) : at_ text p <> 0 -> 0 <= p.
Proof.
  unfold at_. destruct (p <? 0) eqn:E; [congruence | lia].
Qed.

(** One iteration of the decoding loop at a surrogate pair of escapes. *)
Lemma StringAppend_step_pair (text : list char) (ptr : Z) (output : upb_String)
    (h1 h2 h3 h4 l1 l2 l3 l4 : char) :
  holds_at text ptr (surrogate_pair_escape h1 h2 h3 h4 l1 l2 l3 l4) ->
  Forall (fun c => HexDigit c = true) [h1; h2; h3; h4; l1; l2; l3; l4] ->
  0xD800 <= digits_value 16 [h1; h2; h3; h4] <= 0xDBFF ->
  0xDC00 <= digits_value 16 [l1; l2; l3; l4] <= 0xDFFF ->
  StringAppend_step text ptr output =
  (ptr + 11,
   output ++ utf8_encode (0x10000
                          + Z.shiftl (digits_value 16 [h1; h2; h3; h4] - 0xD800) 10
                          + (digits_value 16 [l1; l2; l3; l4] - 0xDC00))).
Proof.
  intros H Hhex Hhi Hlo.
  assert (Hnz : Forall (fun c => c <> 0) [h1; h2; h3; h4; l1; l2; l3; l4]).
  { eapply Forall_impl; [|exact Hhex]. intros c. apply HexDigit_nonzero. }
  change [h1; h2; h3; h4; l1; l2; l3; l4]
    with ([h1; h2; h3; h4] ++ [l1; l2; l3; l4]) in Hnz.
  apply Forall_app in Hnz. destruct Hnz as [Hh Hl].
  unfold surrogate_pair_escape in H.
  change [92; ch "u"; h1; h2; h3; h4; 92; ch "u"; l1; l2; l3; l4]
    with ([92] ++ ([ch "u"; h1; h2; h3; h4] ++ [92; ch "u"] ++ [l1; l2; l3; l4])) in H.
  apply holds_at_app in H. destruct H as [Hb Hrest].
  simpl length in Hrest. change (Z.of_nat 1) with 1 in Hrest.
  specialize (Hb 0%nat ltac:(simpl; lia)). simpl in Hb. rewrite Z.add_0_r in Hb.
  pose proof (Hrest 0%nat ltac:(simpl; lia)) as Hu. simpl in Hu.
  rewrite Z.add_0_r in Hu.
  pose proof (FetchUnicodePoint_pair _ _ _ _ _ _ _ _ _ _ Hrest Hh Hl Hhi Hlo) as Hf.
  destruct (AssembleUTF16_value _ _ Hhi Hlo) as [Hval Hrange].
  unfold StringAppend_step. rewrite Hb, Hu, Hf.
  change ((92 =? 92) && negb (ch "u" =? 0)) with true. cbv iota beta.
  change (OctalDigit (ch "u")) with false. cbv iota.
  change (ch "u" =? ch "x") with false. cbv iota.
  change ((ch "u" =? ch "u") || (ch "u" =? ch "U")) with true. cbv iota.
  replace (ptr + 1 + 11 =? ptr + 1) with false by (symmetry; apply Z.eqb_neq; lia).
  rewrite AppendUTF8_encodes by lia. rewrite Hval.
  f_equal. lia.
Qed.

(** The decoder only appends: what is already in the output is kept. *)
Lemma AppendUTF8_app (cp : Z) (out o : upb_String) :
  AppendUTF8 cp (out ++ o) = out ++ AppendUTF8 cp o.
Proof.
  unfold AppendUTF8, upb_String_Append.
  repeat match goal with |- context [if ?b then _ else _] => destruct b end;
    symmetry; apply app_assoc.
Qed.

Lemma StringAppend_step_app (text : list char) (ptr : Z) (out o : upb_String) :
  StringAppend_step text ptr (out ++ o) =
  (fst (StringAppend_step text ptr o), out ++ snd (StringAppend_step text ptr o)).
Proof.
  unfold StringAppend_step, upb_String_PushBack.
  repeat match goal with
         | |- context [if ?b then _ else _] => destruct b
         | |- context [let '(_, _) := ?x in _] => destruct x
         end;
    cbn [fst snd]; rewrite ?AppendUTF8_app, <- ?app_assoc; reflexivity.
Qed.

Lemma StringAppend_loop_app (fuel : nat) (text : list char) :
  forall ptr out o,
    StringAppend_loop fuel text ptr (out ++ o) =
    option_map (app out) (StringAppend_loop fuel text ptr o).
Proof.
  induction fuel as [|fuel IH]; intros ptr out o.
  - simpl. destruct (at_ text ptr =? 0); reflexivity.
  - rewrite !StringAppend_loop_S. destruct (at_ text ptr =? 0); [reflexivity|].
    rewrite StringAppend_step_app. cbn [fst snd]. apply IH.
Qed.

Lemma StringAppend_app (text : list char) (out o : upb_String) :
  upb_Parse_StringAppend text (out ++ o) =
  option_map (app out) (upb_Parse_StringAppend text o).
Proof.
  unfold upb_Parse_StringAppend. destruct (strlen text =? 0); [reflexivity|].
  apply StringAppend_loop_app.
Qed.

(** *** Termination of the decoding loop *)

Lemma strlen_cons (c : char) (rest : list char) :
  strlen (c :: rest) = if c =? 0 then 0 else 1 + strlen rest.
Proof. reflexivity. Qed.

Lemma strlen_nonneg (text : list char) : 0 <= strlen text.
Proof.
  induction text as [|c rest IH]; [simpl; lia|].
  rewrite strlen_cons. destruct (c =? 0); lia.
Qed.

Lemma at_strlen (text : list char) : at_ text (strlen text) = 0.
Proof.
  induction text as [|c rest IH]; [reflexivity|].
  rewrite strlen_cons.
  - destruct (c =? 0) eqn:E.
    + apply Z.eqb_eq in E. subst. reflexivity.
    + pose proof (strlen_nonneg rest) as Hn. unfold at_ in *.
      destruct (1 + strlen rest <? 0) eqn:E1; [lia|].
      destruct (strlen rest <? 0) eqn:E2; [lia|].
      replace (Z.to_nat (1 + strlen rest)) with (S (Z.to_nat (strlen rest))) by lia.
      exact IH.
Qed.

(** The pointer [FetchUnicodePoint] returns is its argument or lies behind
    a run of non-NUL bytes. *)
Lemma FetchUnicodePoint_bounds (text : list char) (p e cp : Z) :
  at_ text p <> 0 ->
  FetchUnicodePoint text p = (e, cp) ->
  e = p \/ (p < e /\ forall j, p <= j < e -> at_ text j <> 0).
Proof.
  intros Hp H. unfold FetchUnicodePoint in H.
  set (len := UnicodeLength (at_ text p)) in H.
  assert (Hlen : 0 <= len)
    by (subst len; unfold UnicodeLength;
        destruct (at_ text p =? ch "u"); [lia|];
        destruct (at_ text p =? ch "U"); lia).
  unfold ReadHexDigits at 1 in H.
  destruct (len =? 0) eqn:Elen; [left; simpl in H; congruence|].
  apply Z.eqb_neq in Elen.
  pose proof (ReadHexDigits_loop_flag text (Z.to_nat len) (p + 1) 0) as Hflag.
  destruct (ReadHexDigits_loop text (p + 1) (Z.to_nat len) 0) as [ok cp1].
  simpl fst in Hflag. destruct ok; simpl negb in H; cbv iota in H;
    [|left; congruence].
  destruct Hflag as [Hflag _]. specialize (Hflag eq_refl).
  assert (Hwin : forall j, p <= j < p + 1 + len -> at_ text j <> 0).
  { intros j Hj. destruct (Z.eq_dec j p) as [-> | Hne]; [assumption|].
    replace j with (p + 1 + (j - (p + 1))) by lia. apply Hflag. lia. }
  right.
  destruct (IsHeadSurrogate cp1 && (at_ text (p + 1 + len) =? 92) &&
            (at_ text (p + 1 + len + 1) =? ch "u")) eqn:Epair;
    [|injection H as <- <-; split; [lia | assumption]].
  apply andb_true_iff in Epair. destruct Epair as [Epair Eu].
  apply andb_true_iff in Epair. destruct Epair as [_ Eb].
  apply Z.eqb_eq in Eu, Eb.
  unfold ReadHexDigits in H. change (4 =? 0) with false in H. cbv iota in H.
  pose proof (ReadHexDigits_loop_flag text (Z.to_nat 4) (p + 1 + len + 2) 0) as Hflag2.
  destruct (ReadHexDigits_loop text (p + 1 + len + 2) (Z.to_nat 4) 0) as [ok2 trail].
  simpl fst in Hflag2.
  destruct (ok2 && IsTrailSurrogate trail) eqn:Eok;
    [|injection H as <- <-; split; [lia | assumption]].
  apply andb_true_iff in Eok. destruct Eok as [-> _].
  destruct Hflag2 as [Hflag2 _]. specialize (Hflag2 eq_refl).
  injection H as <- <-. split; [lia|]. intros j Hj.
  destruct (Z_lt_ge_dec j (p + 1 + len)) as [Hlow | Hhigh]; [apply Hwin; lia|].
  destruct (Z.eq_dec j (p + 1 + len)) as [-> | Hne1]; [rewrite Eb; discriminate|].
  destruct (Z.eq_dec j (p + 1 + len + 1)) as [-> | Hne2]; [rewrite Eu; discriminate|].
  replace j with (p + 1 + len + 2 + (j - (p + 1 + len + 2))) by lia.
  apply Hflag2. lia.
Qed.

Lemma OctalDigit_nonzero (c : char) : OctalDigit c = true -> c <> 0.
Proof. intros H ->. discriminate H. Qed.

(** One iteration moves the pointer forward over non-NUL bytes only. *)
Lemma StringAppend_step_bounds (text : list char) (ptr : Z) (output : upb_String)
    (ptr' : Z) (output' : upb_String) :
  at_ text ptr <> 0 ->
  StringAppend_step text ptr output = (ptr', output') ->
  ptr <= ptr' /\ forall j, ptr <= j <= ptr' -> at_ text j <> 0.
Proof.
  intros Hp H.
  assert (Hsame : forall j, ptr <= j <= ptr -> at_ text j <> 0)
    by (intros j Hj; replace j with ptr by lia; assumption).
  unfold StringAppend_step in H.
  destruct ((at_ text ptr =? 92) && negb (at_ text (ptr + 1) =? 0)) eqn:Eesc;
    [|destruct ((at_ text ptr =? at_ text 0) && (at_ text (ptr + 1) =? 0));
      injection H as <- <-; split; [lia | assumption | lia | assumption]].
  apply andb_true_iff in Eesc. destruct Eesc as [_ Enext].
  apply negb_true_iff, Z.eqb_neq in Enext.
  assert (Hone : forall j, ptr <= j <= ptr + 1 -> at_ text j <> 0).
  { intros j Hj. destruct (Z.eq_dec j ptr) as [-> | Hne]; [assumption|].
    replace j with (ptr + 1) by lia. assumption. }
  cbv zeta in H.
  destruct (OctalDigit (at_ text (ptr + 1))) eqn:Eoct.
  { destruct (OctalDigit (at_ text (ptr + 1 + 1))) eqn:E1.
    - apply OctalDigit_nonzero in E1.
      destruct (OctalDigit (at_ text (ptr + 1 + 1 + 1))) eqn:E2;
        injection H as <- <-.
      + apply OctalDigit_nonzero in E2. split; [lia|]. intros j Hj.
        destruct (Z.eq_dec j (ptr + 1 + 1 + 1)) as [-> | Hne1]; [assumption|].
        destruct (Z.eq_dec j (ptr + 1 + 1)) as [-> | Hne2]; [assumption|].
        apply Hone. lia.
      + split; [lia|]. intros j Hj.
        destruct (Z.eq_dec j (ptr + 1 + 1)) as [-> | Hne2]; [assumption|].
        apply Hone. lia.
    - rewrite E1 in H. injection H as <- <-. split; [lia | assumption]. }
  destruct (at_ text (ptr + 1) =? ch "x") eqn:Ex.
  { destruct (HexDigit (at_ text (ptr + 1 + 1))) eqn:E1.
    - apply HexDigit_nonzero in E1.
      destruct (HexDigit (at_ text (ptr + 1 + 1 + 1))) eqn:E2;
        injection H as <- <-.
      + apply HexDigit_nonzero in E2. split; [lia|]. intros j Hj.
        destruct (Z.eq_dec j (ptr + 1 + 1 + 1)) as [-> | Hne1]; [assumption|].
        destruct (Z.eq_dec j (ptr + 1 + 1)) as [-> | Hne2]; [assumption|].
        apply Hone. lia.
      + split; [lia|]. intros j Hj.
        destruct (Z.eq_dec j (ptr + 1 + 1)) as [-> | Hne2]; [assumption|].
        apply Hone. lia.
    - rewrite E1 in H. injection H as <- <-. split; [lia | assumption]. }
  destruct ((at_ text (ptr + 1) =? ch "u") || (at_ text (ptr + 1) =? ch "U"));
    [|injection H as <- <-; split; [lia | assumption]].
  destruct (FetchUnicodePoint text (ptr + 1)) as [end_ unicode] eqn:Ef.
  pose proof (FetchUnicodePoint_bounds _ _ _ _ Enext Ef) as Hf.
  destruct (end_ =? ptr + 1) eqn:Eend; injection H as <- <-;
    [split; [lia | assumption]|].
  apply Z.eqb_neq in Eend. destruct Hf as [Hf | [Hlt Hf]]; [contradiction|].
  split; [lia|]. intros j Hj.
  destruct (Z_le_gt_dec j (ptr + 1)) as [Hle | Hgt]; [apply Hone; lia | apply Hf; lia].
Qed.

Lemma StringAppend_loop_total (text : list char) (fuel : nat) :
  forall ptr output,
    0 <= ptr <= strlen text -> strlen text - ptr <= Z.of_nat fuel ->
    exists result, StringAppend_loop fuel text ptr output = Some result.
Proof.
  induction fuel as [|fuel IH]; intros ptr output Hptr Hfuel.
  - assert (ptr = strlen text) by lia. subst ptr.
    simpl. rewrite at_strlen. eexists. reflexivity.
  - rewrite StringAppend_loop_S.
    destruct (at_ text ptr =? 0) eqn:E; [eexists; reflexivity|].
    apply Z.eqb_neq in E.
    destruct (StringAppend_step text ptr output) as [ptr' output'] eqn:Estep.
    destruct (StringAppend_step_bounds _ _ _ _ _ E Estep) as [Hle Hnz].
    cbn [fst snd].
    assert (Hlt : ptr' < strlen text).
    { destruct (Z_lt_ge_dec ptr' (strlen text)) as [|Hge]; [assumption|].
      exfalso. apply (Hnz (strlen text)); [lia | apply at_strlen]. }
    apply IH; lia.
Qed.

(** [upb_Parse_StringAppend] returns on every text. *)
Lemma StringAppend_total (text : list char) (output : upb_String) :
  exists result, upb_Parse_StringAppend text output = Some result.
Proof.
  unfold upb_Parse_StringAppend. pose proof (strlen_nonneg text) as Hn.
  destruct (strlen text =? 0) eqn:E; [eexists; reflexivity|].
  apply Z.eqb_neq in E. apply StringAppend_loop_total; lia.
Qed.

(** ** The decoding loop reads forward only *)

Lemma agree_from_shift (a : list char) (pa : Z) (b : list char) (pb d : Z) :
  agree_from a pa b pb -> 0 <= d -> agree_from a (pa + d) b (pb + d).
Proof.
  intros H Hd k Hk. rewrite <- !Z.add_assoc. apply H. lia.
Qed.

Lemma agree_from_head (a : list char) (pa : Z) (b : list char) (pb : Z) :
  agree_from a pa b pb -> at_ a pa = at_ b pb.
Proof. intros H. specialize (H 0 ltac:(lia)). rewrite !Z.add_0_r in H. exact H. Qed.

Lemma at_app_r (pre rest : list char) (k : Z) :
  0 <= k -> at_ (pre ++ rest) (Z.of_nat (length pre) + k) = at_ rest k.
Proof.
  intros Hk. unfold at_.
  destruct (Z.ltb_spec (Z.of_nat (length pre) + k) 0); [lia|].
  destruct (Z.ltb_spec k 0); [lia|].
  replace (Z.to_nat (Z.of_nat (length pre) + k)) with (length pre + Z.to_nat k)%nat by lia.
  apply app_nth2_plus.
Qed.

(** Behind a prefix, a text reads as the text without that prefix. *)
Lemma agree_from_prefix (q : char) (pre rest : list char) :
  agree_from (q :: pre ++ rest) (1 + Z.of_nat (length pre)) (q :: rest) 1.
Proof.
  intros k Hk.
  pose proof (at_app_r (q :: pre) rest k Hk) as E1.
  pose proof (at_app_r [q] rest k Hk) as E2.
  cbn [length app] in E1, E2.
  replace (1 + Z.of_nat (length pre) + k) with (Z.of_nat (S (length pre)) + k) by lia.
  replace (1 + k) with (Z.of_nat 1 + k) by lia.
  rewrite E1, E2. reflexivity.
Qed.

Lemma holds_at_prefix (q : char) (pre s rest : list char) :
  holds_at (q :: pre ++ s ++ rest) (1 + Z.of_nat (length pre)) s.
Proof.
  intros i Hi.
  pose proof (at_app_r (q :: pre) (s ++ rest) (Z.of_nat i) ltac:(lia)) as E.
  cbn [length app] in E.
  replace (1 + Z.of_nat (length pre) + Z.of_nat i)
    with (Z.of_nat (S (length pre)) + Z.of_nat i) by lia.
  rewrite E. unfold at_. destruct (Z.ltb_spec (Z.of_nat i) 0); [lia|].
  rewrite Nat2Z.id. apply app_nth1. exact Hi.
Qed.

Lemma ReadHexDigits_loop_agree (a b : list char) (n : nat) :
  forall pa pb r,
    agree_from a pa b pb ->
    ReadHexDigits_loop a pa n r = ReadHexDigits_loop b pb n r.
Proof.
  induction n as [|n IH]; intros pa pb r H; [reflexivity|].
  cbn [ReadHexDigits_loop]. rewrite (agree_from_head _ _ _ _ H).
  destruct (at_ b pb =? 0); [reflexivity|].
  apply IH. apply agree_from_shift; [exact H | lia].
Qed.

Lemma ReadHexDigits_agree (a b : list char) (pa pb len : Z) :
  agree_from a pa b pb -> ReadHexDigits a pa len = ReadHexDigits b pb len.
Proof.
  intros H. unfold ReadHexDigits. destruct (len =? 0); [reflexivity|].
  apply ReadHexDigits_loop_agree. exact H.
Qed.

Lemma UnicodeLength_nonneg (key : char) : 0 <= UnicodeLength key.
Proof.
  unfold UnicodeLength. destruct (key =? ch "u"); [lia|].
  destruct (key =? ch "U"); lia.
Qed.

Lemma FetchUnicodePoint_agree (a b : list char) (pa pb : Z) :
  agree_from a pa b pb ->
  FetchUnicodePoint a pa =
  (pa + (fst (FetchUnicodePoint b pb) - pb), snd (FetchUnicodePoint b pb)).
Proof.
  intros H. unfold FetchUnicodePoint. cbv zeta.
  rewrite (agree_from_head _ _ _ _ H).
  set (len := UnicodeLength (at_ b pb)).
  pose proof (UnicodeLength_nonneg (at_ b pb)) as Hlen. fold len in Hlen.
  rewrite (ReadHexDigits_agree a b (pa + 1) (pb + 1) len)
    by (apply agree_from_shift; [exact H | lia]).
  destruct (ReadHexDigits b (pb + 1) len) as [ok cp].
  destruct ok; cbn [negb]; cbv iota; [|cbn [fst snd]; f_equal; lia].
  rewrite (agree_from_head a (pa + 1 + len) b (pb + 1 + len))
    by (rewrite <- !Z.add_assoc; apply agree_from_shift; [exact H | lia]).
  rewrite (agree_from_head a (pa + 1 + len + 1) b (pb + 1 + len + 1))
    by (rewrite <- !Z.add_assoc; apply agree_from_shift; [exact H | lia]).
  destruct (IsHeadSurrogate cp && (at_ b (pb + 1 + len) =? 92) &&
            (at_ b (pb + 1 + len + 1) =? ch "u"));
    [|cbn [fst snd]; f_equal; lia].
  rewrite (ReadHexDigits_agree a b (pa + 1 + len + 2) (pb + 1 + len + 2) 4)
    by (rewrite <- !Z.add_assoc; apply agree_from_shift; [exact H | lia]).
  destruct (ReadHexDigits b (pb + 1 + len + 2) 4) as [ok2 trail].
  destruct (ok2 && IsTrailSurrogate trail); cbn [fst snd]; f_equal; lia.
Qed.

Lemma StringAppend_step_agree (a b : list char) (pa pb : Z) (o : upb_String) :
  agree_from a pa b pb -> at_ a 0 = at_ b 0 ->
  StringAppend_step a pa o =
  (pa + (fst (StringAppend_step b pb o) - pb), snd (StringAppend_step b pb o)).
Proof.
  intros H H0.
  pose proof (agree_from_head _ _ _ _ H) as E0.
  pose proof (agree_from_head _ _ _ _ (agree_from_shift _ _ _ _ 1 H ltac:(lia))) as E1.
  pose proof (agree_from_head _ _ _ _ (agree_from_shift _ _ _ _ 2 H ltac:(lia))) as E2.
  pose proof (agree_from_head _ _ _ _ (agree_from_shift _ _ _ _ 3 H ltac:(lia))) as E3.
  replace (pa + 2) with (pa + 1 + 1) in E2 by lia.
  replace (pb + 2) with (pb + 1 + 1) in E2 by lia.
  replace (pa + 3) with (pa + 1 + 1 + 1) in E3 by lia.
  replace (pb + 3) with (pb + 1 + 1 + 1) in E3 by lia.
  pose proof (FetchUnicodePoint_agree a b (pa + 1) (pb + 1)
                (agree_from_shift _ _ _ _ 1 H ltac:(lia))) as EF.
  unfold StringAppend_step. cbv zeta. rewrite E0, E1, H0.
  destruct ((at_ b pb =? 92) && negb (at_ b (pb + 1) =? 0)).
  - destruct (OctalDigit (at_ b (pb + 1))).
    { rewrite E2. destruct (OctalDigit (at_ b (pb + 1 + 1))).
      - rewrite E3. destruct (OctalDigit (at_ b (pb + 1 + 1 + 1)));
          cbn [fst snd]; f_equal; lia.
      - rewrite E2. destruct (OctalDigit (at_ b (pb + 1 + 1)));
          cbn [fst snd]; f_equal; lia. }
    destruct (at_ b (pb + 1) =? ch "x").
    { rewrite E2. destruct (HexDigit (at_ b (pb + 1 + 1))).
      - rewrite E3. destruct (HexDigit (at_ b (pb + 1 + 1 + 1)));
          cbn [fst snd]; f_equal; lia.
      - rewrite E2. destruct (HexDigit (at_ b (pb + 1 + 1)));
          cbn [fst snd]; f_equal; lia. }
    destruct ((at_ b (pb + 1) =? ch "u") || (at_ b (pb + 1) =? ch "U"));
      [|cbn [fst snd]; f_equal; lia].
    rewrite EF. destruct (FetchUnicodePoint b (pb + 1)) as [e u]. cbn [fst snd].
    replace (pa + 1 + (e - (pb + 1)) =? pa + 1) with (e =? pb + 1)
      by (destruct (Z.eqb_spec e (pb + 1));
          [symmetry; apply Z.eqb_eq | symmetry; apply Z.eqb_neq]; lia).
    destruct (e =? pb + 1); cbn [fst snd]; f_equal; lia.
  - destruct ((at_ b pb =? at_ b 0) && (at_ b (pb + 1) =? 0));
      cbn [fst snd]; f_equal; lia.
Qed.

Lemma StringAppend_loop_agree (fuel : nat) (a b : list char) :
  forall pa pb o,
    agree_from a pa b pb -> at_ a 0 = at_ b 0 ->
    StringAppend_loop fuel a pa o = StringAppend_loop fuel b pb o.
Proof.
  induction fuel as [|fuel IH]; intros pa pb o H H0.
  - cbn [StringAppend_loop]. rewrite (agree_from_head _ _ _ _ H). reflexivity.
  - rewrite !StringAppend_loop_S. rewrite (agree_from_head _ _ _ _ H).
    destruct (Z.eqb_spec (at_ b pb) 0) as [|Hnz]; [reflexivity|].
    rewrite (StringAppend_step_agree a b pa pb o H H0). cbn [fst snd].
    destruct (StringAppend_step b pb o) as [pb' o'] eqn:Es. cbn [fst snd].
    destruct (StringAppend_step_bounds _ _ _ _ _ Hnz Es) as [Hle _].
    replace (pb' + 1) with (pb + (pb' - pb + 1)) by lia.
    replace (pa + (pb' - pb) + 1) with (pa + (pb' - pb + 1)) by lia.
    apply IH; [|exact H0]. apply agree_from_shift; [exact H | lia].
Qed.

(** More fuel does not change a result. *)
Lemma StringAppend_loop_fuel (text : list char) (f1 : nat) :
  forall f2 ptr o r,
    (f1 <= f2)%nat ->
    StringAppend_loop f1 text ptr o = Some r ->
    StringAppend_loop f2 text ptr o = Some r.
Proof.
  induction f1 as [|f1 IH]; intros f2 ptr o r Hle H.
  - cbn [StringAppend_loop] in H.
    destruct (at_ text ptr =? 0) eqn:E; [|discriminate H].
    destruct f2; cbn [StringAppend_loop]; rewrite E; exact H.
  - destruct f2 as [|f2]; [lia|]. rewrite StringAppend_loop_S in *.
    destruct (at_ text ptr =? 0); [exact H|].
    apply IH; [lia | exact H].
Qed.

(** [upb_Parse_StringAppend] is the decoding loop from index 1, with any
    fuel that lets the loop return. *)
Lemma StringAppend_by_loop (q : char) (body : list char) (o r : upb_String)
    (fuel : nat) :
  q <> 0 ->
  StringAppend_loop fuel (q :: body) 1 o = Some r ->
  upb_Parse_StringAppend (q :: body) o = Some r.
Proof.
  intros Hq H. destruct (StringAppend_total (q :: body) o) as (r' & E).
  rewrite E. unfold upb_Parse_StringAppend in E.
  assert (Hs : (strlen (q :: body) =? 0) = false).
  { rewrite strlen_cons. destruct (Z.eqb_spec q 0); [contradiction|].
    pose proof (strlen_nonneg body). apply Z.eqb_neq. lia. }
  rewrite Hs in E.
  pose proof (StringAppend_loop_fuel _ _ (Nat.max fuel (Z.to_nat (strlen (q :: body))))
                _ _ _ (Nat.le_max_l _ _) H) as H1.
  pose proof (StringAppend_loop_fuel _ _ (Nat.max fuel (Z.to_nat (strlen (q :: body))))
                _ _ _ (Nat.le_max_r _ _) E) as H2.
  congruence.
Qed.

Lemma StringAppend_as_loop (q : char) (body : list char) (o : upb_String) :
  q <> 0 ->
  exists fuel r,
    upb_Parse_StringAppend (q :: body) o = Some r /\
    forall fuel', (fuel <= fuel')%nat ->
                  StringAppend_loop fuel' (q :: body) 1 o = Some r.
Proof.
  intros Hq. destruct (StringAppend_total (q :: body) o) as (r & E).
  exists (Z.to_nat (strlen (q :: body))), r. split; [exact E|].
  intros fuel' Hle. unfold upb_Parse_StringAppend in E.
  assert (Hs : (strlen (q :: body) =? 0) = false).
  { rewrite strlen_cons. destruct (Z.eqb_spec q 0); [contradiction|].
    pose proof (strlen_nonneg body). apply Z.eqb_neq. lia. }
  rewrite Hs in E. exact (StringAppend_loop_fuel _ _ _ _ _ _ Hle E).
Qed.

(** The loop over bytes that are neither NUL nor a backslash, when a
    further byte follows them: they are copied. *)
Lemma StringAppend_loop_copies (text : list char) (s : list char) :
  forall ptr o fuel,
    holds_at text ptr s ->
    Forall (fun c => c <> 0 /\ c <> 92) s ->
    at_ text (ptr + Z.of_nat (length s)) <> 0 ->
    StringAppend_loop (length s + fuel) text ptr o =
    StringAppend_loop fuel text (ptr + Z.of_nat (length s)) (o ++ s).
Proof.
  induction s as [|c s IH]; intros ptr o fuel Hh Hs Hnext.
  - cbn [length Nat.add]. rewrite Z.add_0_r, app_nil_r. reflexivity.
  - destruct (Forall_inv Hs) as [C0 C92]. pose proof (Forall_inv_tail Hs) as Hs'.
    change (c :: s) with ([c] ++ s) in Hh.
    apply holds_at_app in Hh. destruct Hh as [Hc Hh].
    specialize (Hc 0%nat ltac:(cbn; lia)). cbn [nth] in Hc.
    rewrite Z.add_0_r in Hc. cbn [length] in Hh. change (Z.of_nat 1) with 1 in Hh.
    cbn [length Nat.add]. rewrite StringAppend_loop_S. rewrite Hc.
    destruct (Z.eqb_spec c 0); [contradiction|].
    assert (Hn1 : at_ text (ptr + 1) <> 0).
    { destruct s as [|d s].
      - cbn [length] in Hnext. exact Hnext.
      - specialize (Hh 0%nat ltac:(cbn; lia)). cbn [nth] in Hh.
        rewrite Z.add_0_r in Hh. rewrite Hh.
        apply (Forall_inv Hs'). }
    assert (Es : StringAppend_step text ptr o = (ptr, o ++ [c])).
    { unfold StringAppend_step. rewrite Hc.
      destruct (Z.eqb_spec c 92); [contradiction|]. cbn [andb].
      apply Z.eqb_neq in Hn1. rewrite Hn1, andb_false_r. reflexivity. }
    rewrite Es. cbn [fst snd].
    rewrite (IH (ptr + 1) (o ++ [c]) fuel Hh Hs')
      by (replace (ptr + 1 + Z.of_nat (length s))
            with (ptr + Z.of_nat (length (c :: s))) by (cbn [length]; lia);
          exact Hnext).
    rewrite <- app_assoc. cbn [app].
    replace (ptr + 1 + Z.of_nat (length s)) with (ptr + Z.of_nat (S (length s))) by lia.
    reflexivity.
Qed.

(** Decoding a text whose loop, after the bytes [pre] that are copied,
    makes one step over the bytes [esc]: the rest is decoded as a text of
    its own. *)
Lemma StringAppend_prefix_step (q : char) (pre esc post : list char)
    (o o' : upb_String) :
  q <> 0 ->
  Forall (fun c => c <> 0 /\ c <> 92) pre ->
  esc <> [] -> hd 0 esc <> 0 ->
  (forall out,
      StringAppend_step (q :: pre ++ esc ++ post) (1 + Z.of_nat (length pre)) out =
      (1 + Z.of_nat (length pre) + Z.of_nat (length esc) - 1, out ++ o')) ->
  upb_Parse_StringAppend (q :: pre ++ esc ++ post) o =
  upb_Parse_StringAppend (q :: post) (o ++ pre ++ o').
Proof.
  intros Hq Hpre Hne Hhd Hstep.
  destruct (StringAppend_as_loop q post (o ++ pre ++ o') Hq) as (fuel & r & E & Hloop).
  rewrite E. apply (StringAppend_by_loop q _ o r (length pre + S fuel) Hq).
  set (text := q :: pre ++ esc ++ post) in *.
  assert (Hesc : at_ text (1 + Z.of_nat (length pre)) = hd 0 esc).
  { pose proof (holds_at_prefix q pre esc post 0%nat) as H.
    destruct esc as [|e esc]; [contradiction|].
    specialize (H ltac:(cbn; lia)). cbn [nth] in H. rewrite Z.add_0_r in H. exact H. }
  rewrite (StringAppend_loop_copies text pre 1 o (S fuel)).
  - rewrite StringAppend_loop_S, Hesc.
    destruct (Z.eqb_spec (hd 0 esc) 0); [contradiction|].
    rewrite Hstep. cbn [fst snd].
    rewrite <- (Hloop fuel (Nat.le_refl _)).
    rewrite <- app_assoc.
    apply StringAppend_loop_agree; [|reflexivity].
    replace (1 + Z.of_nat (length pre) + Z.of_nat (length esc) - 1 + 1)
      with (1 + Z.of_nat (length (pre ++ esc))) by (rewrite length_app; lia).
    subst text. rewrite app_assoc. apply agree_from_prefix.
  - intros i Hi.
    pose proof (at_app_r [q] (pre ++ esc ++ post) (Z.of_nat i) ltac:(lia)) as H.
    cbn [length app] in H. change (Z.of_nat 1) with 1 in H. subst text.
    rewrite H. unfold at_. destruct (Z.ltb_spec (Z.of_nat i) 0); [lia|].
    rewrite Nat2Z.id. apply app_nth1. exact Hi.
  - exact Hpre.
  - rewrite Hesc. exact Hhd.
Qed.

(** The flag and the value of [ReadHexDigits] on a window without NUL. *)
Lemma ReadHexDigits_window (text : list char) (p len : Z) :
  0 < len ->
  (forall i, 0 <= i < len -> at_ text (p + i) <> 0) ->
  ReadHexDigits text p len =
  (true, fold_left fold_digit (window text p (Z.to_nat len)) 0).
Proof.
  intros Hlen Hall. unfold ReadHexDigits.
  destruct (Z.eqb_spec len 0); [lia|].
  assert (Hok : fst (ReadHexDigits_loop text p (Z.to_nat len) 0) = true)
    by (apply ReadHexDigits_loop_flag; intros i Hi; apply Hall; lia).
  pose proof (ReadHexDigits_loop_value _ _ _ _ Hok) as Hval.
  destruct (ReadHexDigits_loop text p (Z.to_nat len) 0) as [ok v].
  cbn [fst snd] in *. subst. reflexivity.
Qed.

Lemma UnicodeLength_key (key : char) :
  key = ch "u" \/ key = ch "U" ->
  0 < UnicodeLength key /\ key <> 0 /\ OctalDigit key = false /\
  (key =? ch "x") = false /\ (key =? ch "u") || (key =? ch "U") = true /\
  (UnicodeLength key = 4 \/ UnicodeLength key = 8).
Proof.
  intros [-> | ->]; repeat split; try discriminate; try reflexivity;
    [left | right]; reflexivity.
Qed.

(** A NUL in the window, or none. *)
Lemma window_NUL_dec (text : list char) (p : Z) (n : nat) :
  (forall i, 0 <= i < Z.of_nat n -> at_ text (p + i) <> 0) \/
  exists i, 0 <= i < Z.of_nat n /\ at_ text (p + i) = 0.
Proof.
  induction n as [|n [IH | (i & Hi & Hz)]].
  - left. intros i Hi. lia.
  - destruct (Z.eq_dec (at_ text (p + Z.of_nat n)) 0) as [Hz | Hnz].
    + right. exists (Z.of_nat n). split; [lia | assumption].
    + left. intros i Hi. destruct (Z.eq_dec i (Z.of_nat n)) as [-> | Hne];
        [assumption | apply IH; lia].
  - right. exists i. split; [lia | assumption].
Qed.

(** [FetchUnicodePoint] returns its argument exactly when a NUL lies in the
    window behind the key. *)
Lemma FetchUnicodePoint_NUL_iff (text : list char) (ptr : Z) :
  at_ text ptr = ch "u" \/ at_ text ptr = ch "U" ->
  (fst (FetchUnicodePoint text ptr) = ptr <->
   exists i, 0 <= i < UnicodeLength (at_ text ptr) /\ at_ text (ptr + 1 + i) = 0).
Proof.
  intros Hkey. destruct (UnicodeLength_key _ Hkey) as (Hlen & Hp & _).
  set (len := UnicodeLength (at_ text ptr)) in *.
  destruct (window_NUL_dec text (ptr + 1) (Z.to_nat len)) as [Hall | (i & Hi & Hz)].
  - assert (Hall' : forall i, 0 <= i < len -> at_ text (ptr + 1 + i) <> 0)
      by (intros i Hi; apply Hall; lia).
    split.
    + intros E. exfalso.
      unfold FetchUnicodePoint in E. cbv zeta in E. fold len in E.
      rewrite (ReadHexDigits_window _ _ _ Hlen Hall') in E.
      cbn [negb] in E. cbv iota in E.
      destruct (IsHeadSurrogate _ && (at_ text (ptr + 1 + len) =? 92) &&
                (at_ text (ptr + 1 + len + 1) =? ch "u")).
      * destruct (ReadHexDigits text (ptr + 1 + len + 2) 4) as [ok2 trail].
        destruct (ok2 && IsTrailSurrogate trail); cbn [fst] in E; lia.
      * cbn [fst] in E. lia.
    + intros (i & Hi & Hz). exfalso. exact (Hall' i Hi Hz).
  - split; [intros _; exists i; split; [lia | exact Hz]|]. intros _.
    unfold FetchUnicodePoint. cbv zeta. fold len.
    unfold ReadHexDigits at 1. destruct (Z.eqb_spec len 0); [lia|].
    pose proof (ReadHexDigits_loop_flag text (Z.to_nat len) (ptr + 1) 0) as Hflag.
    destruct (ReadHexDigits_loop text (ptr + 1) (Z.to_nat len) 0) as [ok cp].
    cbn [fst] in Hflag. destruct ok; [|reflexivity].
    exfalso. destruct Hflag as [Hflag _]. exact (Hflag eq_refl i Hi Hz).
Qed.

(** Without a NUL in the window, [FetchUnicodePoint] returns the folded
    value of the window with the pointer behind the window, or, where a
    trail surrogate escape follows a head surrogate, the assembled code
    point with the pointer behind both escapes. *)
Lemma FetchUnicodePoint_exact (text : list char) (ptr : Z) :
  at_ text ptr = ch "u" \/ at_ text ptr = ch "U" ->
  (forall i, 0 <= i < UnicodeLength (at_ text ptr) -> at_ text (ptr + 1 + i) <> 0) ->
  FetchUnicodePoint text ptr =
  let v := fold_left fold_digit
             (window text (ptr + 1) (Z.to_nat (UnicodeLength (at_ text ptr)))) 0 in
  let p := ptr + 1 + UnicodeLength (at_ text ptr) in
  if pair_follows text p v
  then (p + 6, AssembleUTF16 v (snd (ReadHexDigits text (p + 2) 4)))
  else (p, v).
Proof.
  intros Hkey Hall. destruct (UnicodeLength_key _ Hkey) as (Hlen & _).
  unfold FetchUnicodePoint, pair_follows. cbv zeta.
  rewrite (ReadHexDigits_window _ _ _ Hlen Hall). cbn [negb]. cbv iota.
  destruct (IsHeadSurrogate _ && (at_ text (ptr + 1 + UnicodeLength (at_ text ptr)) =? 92) &&
            (at_ text (ptr + 1 + UnicodeLength (at_ text ptr) + 1) =? ch "u"));
    [|reflexivity].
  cbn [andb].
  destruct (ReadHexDigits text (ptr + 1 + UnicodeLength (at_ text ptr) + 2) 4)
    as [ok2 trail].
  cbn [fst snd]. destruct (ok2 && IsTrailSurrogate trail); reflexivity.
Qed.

Lemma FetchUnicodePoint_value (text : list char) (ptr : Z) :
  at_ text ptr = ch "u" \/ at_ text ptr = ch "U" ->
  (forall i, 0 <= i < UnicodeLength (at_ text ptr) -> at_ text (ptr + 1 + i) <> 0) ->
  pair_follows text (ptr + 1 + UnicodeLength (at_ text ptr))
    (fold_left fold_digit
       (window text (ptr + 1) (Z.to_nat (UnicodeLength (at_ text ptr)))) 0) = false ->
  FetchUnicodePoint text ptr =
  (ptr + 1 + UnicodeLength (at_ text ptr),
   fold_left fold_digit
     (window text (ptr + 1) (Z.to_nat (UnicodeLength (at_ text ptr)))) 0).
Proof.
  intros Hkey Hall Hpair. rewrite (FetchUnicodePoint_exact _ _ Hkey Hall).
  cbv zeta. rewrite Hpair. reflexivity.
Qed.

Lemma pair_follows_agree (a b : list char) (pa pb v : Z) :
  agree_from a pa b pb -> pair_follows a pa v = pair_follows b pb v.
Proof.
  intros H. unfold pair_follows.
  rewrite (agree_from_head _ _ _ _ H).
  rewrite (agree_from_head _ _ _ _ (agree_from_shift _ _ _ _ 1 H ltac:(lia))).
  rewrite (ReadHexDigits_agree a b (pa + 2) (pb + 2) 4
             (agree_from_shift _ _ _ _ 2 H ltac:(lia))).
  reflexivity.
Qed.

(** The iteration of the decoding loop at a backslash followed by [u] or
    [U]: with a NUL in the window the key byte itself is appended and the
    loop goes on behind the key; otherwise what [AppendUTF8] gives for the
    folded value is appended and the loop goes on behind the window. *)
Lemma StringAppend_step_unicode_fallback (text : list char) (ptr : Z)
    (output : upb_String) :
  at_ text ptr = 92 ->
  at_ text (ptr + 1) = ch "u" \/ at_ text (ptr + 1) = ch "U" ->
  (exists i, 0 <= i < UnicodeLength (at_ text (ptr + 1)) /\
             at_ text (ptr + 1 + 1 + i) = 0) ->
  StringAppend_step text ptr output = (ptr + 1, output ++ [at_ text (ptr + 1)]).
Proof.
  intros Hb Hkey Hnul.
  destruct (UnicodeLength_key _ Hkey) as (_ & K0 & Koct & Kx & Ku & _).
  apply (FetchUnicodePoint_NUL_iff _ _ Hkey) in Hnul.
  unfold StringAppend_step. cbv zeta. rewrite Hb.
  apply Z.eqb_neq in K0. rewrite K0. cbn [negb andb Z.eqb Pos.eqb]. cbv iota.
  rewrite Koct, Kx, Ku.
  destruct (FetchUnicodePoint text (ptr + 1)) as [e cp]. cbn [fst] in Hnul.
  subst e. rewrite Z.eqb_refl. reflexivity.
Qed.

Lemma StringAppend_step_unicode_value (text : list char) (ptr : Z)
    (output : upb_String) :
  at_ text ptr = 92 ->
  at_ text (ptr + 1) = ch "u" \/ at_ text (ptr + 1) = ch "U" ->
  (forall i, 0 <= i < UnicodeLength (at_ text (ptr + 1)) ->
             at_ text (ptr + 1 + 1 + i) <> 0) ->
  pair_follows text (ptr + 1 + 1 + UnicodeLength (at_ text (ptr + 1)))
    (fold_left fold_digit
       (window text (ptr + 1 + 1) (Z.to_nat (UnicodeLength (at_ text (ptr + 1))))) 0)
  = false ->
  StringAppend_step text ptr output =
  (ptr + 1 + UnicodeLength (at_ text (ptr + 1)),
   AppendUTF8
     (fold_left fold_digit
        (window text (ptr + 1 + 1) (Z.to_nat (UnicodeLength (at_ text (ptr + 1))))) 0)
     output).
Proof.
  intros Hb Hkey Hall Hpair.
  destruct (UnicodeLength_key _ Hkey) as (Hlen & K0 & Koct & Kx & Ku & _).
  pose proof (FetchUnicodePoint_value _ _ Hkey Hall Hpair) as Hf.
  unfold StringAppend_step. cbv zeta. rewrite Hb.
  apply Z.eqb_neq in K0. rewrite K0. cbn [negb andb Z.eqb Pos.eqb]. cbv iota.
  rewrite Koct, Kx, Ku. rewrite Hf.
  destruct (Z.eqb_spec (ptr + 1 + 1 + UnicodeLength (at_ text (ptr + 1))) (ptr + 1));
    [lia|].
  f_equal. lia.
Qed.

(** Reading a text behind its first bytes. *)
Lemma at_behind (q : char) (pre rest : list char) (k : Z) :
  0 <= k -> at_ (q :: pre ++ rest) (1 + Z.of_nat (length pre) + k) = at_ rest k.
Proof.
  intros Hk. pose proof (at_app_r (q :: pre) rest k Hk) as E.
  cbn [length app] in E.
  replace (1 + Z.of_nat (length pre) + k) with (Z.of_nat (S (length pre)) + k) by lia.
  exact E.
Qed.

Lemma at_list (s : list char) (i : nat) : at_ s (Z.of_nat i) = nth i s 0.
Proof.
  unfold at_. destruct (Z.ltb_spec (Z.of_nat i) 0); [lia|]. rewrite Nat2Z.id.
  reflexivity.
Qed.

Lemma window_list (win post : list char) :
  window (win ++ post) 0 (length win) = win.
Proof.
  apply holds_at_window. intros i Hi. rewrite Z.add_0_l, at_list.
  apply app_nth1. exact Hi.
Qed.

Lemma window_agree (a b : list char) (pa pb : Z) (n : nat) :
  agree_from a pa b pb -> window a pa n = window b pb n.
Proof.
  intros H. unfold window. apply map_ext. intros i. apply H. lia.
Qed.

Lemma agree_from_behind (q : char) (pre rest : list char) :
  agree_from (q :: pre ++ rest) (1 + Z.of_nat (length pre)) rest 0.
Proof. intros k Hk. rewrite Z.add_0_l. apply at_behind. exact Hk. Qed.

(** A text that ends with its first byte decodes to nothing more. *)
Lemma StringAppend_closing_quote (q : char) (o : upb_String) :
  q <> 0 -> upb_Parse_StringAppend [q; q] o = Some o.
Proof.
  intros Hq. apply Z.eqb_neq in Hq.
  unfold upb_Parse_StringAppend. rewrite !strlen_cons, Hq.
  change (strlen []) with 0. change (1 + (1 + 0) =? 0) with false. cbv iota.
  change (Z.to_nat (1 + (1 + 0))) with 2%nat.
  assert (Es : StringAppend_step [q; q] 1 o = (1, o)).
  { unfold StringAppend_step. change (at_ [q; q] 1) with q.
    change (at_ [q; q] (1 + 1)) with 0. change (at_ [q; q] 0) with q.
    rewrite (Z.eqb_refl q). change (0 =? 0) with true.
    cbn [negb andb]. rewrite andb_false_r. reflexivity. }
  rewrite StringAppend_loop_S. change (at_ [q; q] 1) with q. rewrite Hq, Es.
  cbn [fst snd]. rewrite StringAppend_loop_S.
  change (at_ [q; q] (1 + 1)) with 0. reflexivity.
Qed.

(** The decoded rest of a text is appended to what the output holds. *)
Lemma StringAppend_rest (text : list char) (o : upb_String) :
  exists rest,
    upb_Parse_StringAppend text [] = Some rest /\
    upb_Parse_StringAppend text o = Some (o ++ rest).
Proof.
  destruct (StringAppend_total text []) as (rest & E). exists rest.
  split; [exact E|]. rewrite <- (app_nil_r o) at 1.
  rewrite StringAppend_app, E. reflexivity.
Qed.

(** A surrogate pair behind bytes without backslash, in a whole text. *)
Lemma StringAppend_pair_in_text (q : char) (pre post : list char)
    (output : upb_String) (h1 h2 h3 h4 l1 l2 l3 l4 : char) :
  q <> 0 -> Forall (fun c => c <> 0 /\ c <> 92) pre ->
  Forall (fun c => HexDigit c = true) [h1; h2; h3; h4; l1; l2; l3; l4] ->
  0xD800 <= digits_value 16 [h1; h2; h3; h4] <= 0xDBFF ->
  0xDC00 <= digits_value 16 [l1; l2; l3; l4] <= 0xDFFF ->
  upb_Parse_StringAppend
    (q :: pre ++ surrogate_pair_escape h1 h2 h3 h4 l1 l2 l3 l4 ++ post) output =
  upb_Parse_StringAppend (q :: post)
    (output ++ pre ++
     utf8_encode (0x10000
                  + Z.shiftl (digits_value 16 [h1; h2; h3; h4] - 0xD800) 10
                  + (digits_value 16 [l1; l2; l3; l4] - 0xDC00))).
Proof.
  intros Hq Hpre Hhex Hhi Hlo.
  apply StringAppend_prefix_step; try assumption.
  - discriminate.
  - discriminate.
  - intros out.
    rewrite (StringAppend_step_pair _ _ out _ _ _ _ _ _ _ _
               (holds_at_prefix q pre _ post) Hhex Hhi Hlo).
    f_equal. unfold surrogate_pair_escape. cbn [length]. lia.
Qed.

(** A backslash, a key byte and what follows, behind [pre] in a text. *)
Lemma escape_in_text (q : char) (pre : list char) (key : char) (tail : list char) :
  at_ (q :: pre ++ [92; key] ++ tail) (1 + Z.of_nat (length pre)) = 92 /\
  at_ (q :: pre ++ [92; key] ++ tail) (1 + Z.of_nat (length pre) + 1) = key /\
  agree_from (q :: pre ++ [92; key] ++ tail) (1 + Z.of_nat (length pre) + 1 + 1) tail 0.
Proof.
  pose proof (holds_at_prefix q pre [92; key] tail) as H.
  pose proof (H 0%nat ltac:(cbn; lia)) as H0.
  pose proof (H 1%nat ltac:(cbn; lia)) as H1.
  cbn [nth] in H0, H1. rewrite Z.add_0_r in H0. change (Z.of_nat 1) with 1 in H1.
  split; [exact H0|]. split; [exact H1|].
  intros k Hk. rewrite Z.add_0_l.
  pose proof (at_behind q (pre ++ [92; key]) tail k Hk) as E.
  rewrite <- app_assoc in E. rewrite length_app in E. cbn [length] in E.
  rewrite <- E. f_equal. lia.
Qed.

(** The fallback in a whole text: with a NUL in the window, the key byte is
    appended as it is and decoding goes on right behind it. *)
Lemma StringAppend_unicode_fallback_in_text (q : char) (pre : list char)
    (key : char) (tail : list char) (output : upb_String) :
  q <> 0 -> Forall (fun c => c <> 0 /\ c <> 92) pre ->
  key = ch "u" \/ key = ch "U" ->
  (exists i, 0 <= i < UnicodeLength key /\ at_ tail i = 0) ->
  upb_Parse_StringAppend (q :: pre ++ [92; key] ++ tail) output =
  upb_Parse_StringAppend (q :: tail) (output ++ pre ++ [key]).
Proof.
  intros Hq Hpre Hkey (i & Hi & Hz).
  destruct (escape_in_text q pre key tail) as (Eb & Ek & Ha).
  apply (StringAppend_prefix_step q pre [92; key] tail output [key] Hq Hpre);
    [discriminate | discriminate |].
  intros out.
  assert (Hk : at_ (q :: pre ++ [92; key] ++ tail) (1 + Z.of_nat (length pre) + 1)
               = ch "u" \/
               at_ (q :: pre ++ [92; key] ++ tail) (1 + Z.of_nat (length pre) + 1)
               = ch "U") by (rewrite Ek; exact Hkey).
  assert (Hn : exists i,
             0 <= i < UnicodeLength
                        (at_ (q :: pre ++ [92; key] ++ tail)
                             (1 + Z.of_nat (length pre) + 1)) /\
             at_ (q :: pre ++ [92; key] ++ tail)
                 (1 + Z.of_nat (length pre) + 1 + 1 + i) = 0).
  { rewrite Ek. exists i. split; [exact Hi|].
    rewrite (Ha i ltac:(lia)). rewrite Z.add_0_l. exact Hz. }
  pose proof (StringAppend_step_unicode_fallback _ _ out Eb Hk Hn) as Hs.
  rewrite Ek in Hs. etransitivity; [exact Hs|].
  f_equal. cbn [length]. lia.
Qed.

(** The folded value in a whole text: without a NUL in the window, and
    unless a trail surrogate escape follows a head surrogate, what
    [AppendUTF8] gives for the folded value of the window is appended and
    decoding goes on behind the window. *)
Lemma StringAppend_unicode_value_in_text (q : char) (pre : list char)
    (key : char) (win post : list char) (output : upb_String) :
  q <> 0 -> Forall (fun c => c <> 0 /\ c <> 92) pre ->
  key = ch "u" \/ key = ch "U" ->
  Z.of_nat (length win) = UnicodeLength key -> nul_free win ->
  pair_follows post 0 (fold_left fold_digit win 0) = false ->
  upb_Parse_StringAppend (q :: pre ++ [92; key] ++ win ++ post) output =
  upb_Parse_StringAppend (q :: post)
    (output ++ pre ++ AppendUTF8 (fold_left fold_digit win 0) []).
Proof.
  intros Hq Hpre Hkey Hlen Hwin Hpair.
  destruct (escape_in_text q pre key (win ++ post)) as (Eb & Ek & Ha).
  set (text := q :: pre ++ [92; key] ++ win ++ post) in *.
  set (ptr := 1 + Z.of_nat (length pre)) in *.
  assert (Ewin : window text (ptr + 1 + 1) (Z.to_nat (UnicodeLength key)) = win).
  { rewrite (window_agree _ _ _ _ _ Ha), <- Hlen, Nat2Z.id. apply window_list. }
  assert (Hpost : agree_from text (ptr + 1 + 1 + UnicodeLength key) post 0).
  { intros k Hk. rewrite <- Z.add_assoc.
    rewrite (Ha (UnicodeLength key + k)) by (rewrite <- Hlen; lia).
    rewrite !Z.add_0_l, <- Hlen. apply at_app_r. exact Hk. }
  subst text.
  change (q :: pre ++ [92; key] ++ win ++ post)
    with (q :: pre ++ ([92; key] ++ win) ++ post).
  apply (StringAppend_prefix_step q pre ([92; key] ++ win) post output
           (AppendUTF8 (fold_left fold_digit win 0) []) Hq Hpre);
    [discriminate | discriminate |].
  intros out.
  assert (Hk : at_ (q :: pre ++ [92; key] ++ win ++ post) (ptr + 1) = ch "u" \/
               at_ (q :: pre ++ [92; key] ++ win ++ post) (ptr + 1) = ch "U")
    by (rewrite Ek; exact Hkey).
  assert (Hn : forall i,
             0 <= i < UnicodeLength
                        (at_ (q :: pre ++ [92; key] ++ win ++ post) (ptr + 1)) ->
             at_ (q :: pre ++ [92; key] ++ win ++ post) (ptr + 1 + 1 + i) <> 0).
  { rewrite Ek. intros i Hi. rewrite (Ha i ltac:(lia)), Z.add_0_l.
    replace i with (Z.of_nat (Z.to_nat i)) by lia. rewrite at_list.
    rewrite app_nth1 by lia.
    unfold nul_free in Hwin. rewrite Forall_forall in Hwin.
    apply Hwin, nth_In. lia. }
  assert (Hp : pair_follows (q :: pre ++ [92; key] ++ win ++ post)
                 (ptr + 1 + 1 +
                  UnicodeLength (at_ (q :: pre ++ [92; key] ++ win ++ post) (ptr + 1)))
                 (fold_left fold_digit
                    (window (q :: pre ++ [92; key] ++ win ++ post) (ptr + 1 + 1)
                       (Z.to_nat
                          (UnicodeLength
                             (at_ (q :: pre ++ [92; key] ++ win ++ post)
                                  (ptr + 1))))) 0) = false)
    by (rewrite Ek, Ewin, (pair_follows_agree _ _ _ _ _ Hpost); exact Hpair).
  pose proof (StringAppend_step_unicode_value _ _ out Eb Hk Hn Hp) as Hs.
  rewrite Ek, Ewin in Hs. etransitivity; [exact Hs|].
  rewrite <- (app_nil_r out) at 1. rewrite AppendUTF8_app.
  f_equal. rewrite length_app. cbn [length]. subst ptr. unfold char in *. lia.
Qed.

(** ** The claims on string literals *)

(** C3, amended.  Whenever the decoding loop of [upb_Parse_StringAppend]
    stands at a backslash-u escape whose four hex digits form a head
    surrogate, directly followed by a backslash-u escape whose four hex
    digits form a trail surrogate, that iteration consumes both escapes and
    appends the UTF-8 encoding of
    0x10000 + ((hi - 0xD800) << 10) + (lo - 0xDC00).  The loop stands there
    in every text in which only bytes other than NUL and backslash precede
    the pair: whatever follows the pair, the call appends those bytes, then
    the encoding of the reassembled code point, then what the rest of the
    text decodes to; with only the closing quote behind the pair nothing
    more is appended; and the pair D83D DE00 gives the four bytes
    F0 9F 98 80. *)
Theorem StringAppend_surrogate_pair :
  (forall text ptr output h1 h2 h3 h4 l1 l2 l3 l4,
      holds_at text ptr (surrogate_pair_escape h1 h2 h3 h4 l1 l2 l3 l4) ->
      Forall (fun c => HexDigit c = true) [h1; h2; h3; h4; l1; l2; l3; l4] ->
      0xD800 <= digits_value 16 [h1; h2; h3; h4] <= 0xDBFF ->
      0xDC00 <= digits_value 16 [l1; l2; l3; l4] <= 0xDFFF ->
      StringAppend_step text ptr output =
      (ptr + 11,
       output ++
       utf8_encode (0x10000
                    + Z.shiftl (digits_value 16 [h1; h2; h3; h4] - 0xD800) 10
                    + (digits_value 16 [l1; l2; l3; l4] - 0xDC00)))) /\
  (forall (quote : char) (pre post : list char) (output : upb_String)
          (h1 h2 h3 h4 l1 l2 l3 l4 : char),
      quote <> 0 ->
      Forall (fun c => c <> 0 /\ c <> 92) pre ->
      Forall (fun c => HexDigit c = true) [h1; h2; h3; h4; l1; l2; l3; l4] ->
      0xD800 <= digits_value 16 [h1; h2; h3; h4] <= 0xDBFF ->
      0xDC00 <= digits_value 16 [l1; l2; l3; l4] <= 0xDFFF ->
      exists rest,
        upb_Parse_StringAppend (quote :: post) [] = Some rest /\
        upb_Parse_StringAppend
          (quote :: pre ++ surrogate_pair_escape h1 h2 h3 h4 l1 l2 l3 l4 ++ post)
          output =
        Some (output ++ pre ++
              utf8_encode (0x10000
                           + Z.shiftl (digits_value 16 [h1; h2; h3; h4] - 0xD800) 10
                           + (digits_value 16 [l1; l2; l3; l4] - 0xDC00)) ++
              rest)) /\
  (forall (quote : char) (pre : list char) (output : upb_String)
          (h1 h2 h3 h4 l1 l2 l3 l4 : char),
      quote <> 0 ->
      Forall (fun c => c <> 0 /\ c <> 92) pre ->
      Forall (fun c => HexDigit c = true) [h1; h2; h3; h4; l1; l2; l3; l4] ->
      0xD800 <= digits_value 16 [h1; h2; h3; h4] <= 0xDBFF ->
      0xDC00 <= digits_value 16 [l1; l2; l3; l4] <= 0xDFFF ->
      upb_Parse_StringAppend
        (quote :: pre ++ surrogate_pair_escape h1 h2 h3 h4 l1 l2 l3 l4 ++ [quote])
        output =
      Some (output ++ pre ++
            utf8_encode (0x10000
                         + Z.shiftl (digits_value 16 [h1; h2; h3; h4] - 0xD800) 10
                         + (digits_value 16 [l1; l2; l3; l4] - 0xDC00)))) /\
  upb_Parse_StringAppend surrogate_pair_text [] = Some [0xF0; 0x9F; 0x98; 0x80].
Proof.
  split; [exact StringAppend_step_pair | split; [|split; [|vm_compute; reflexivity]]].
  - intros quote pre post output h1 h2 h3 h4 l1 l2 l3 l4 Hq Hpre Hhex Hhi Hlo.
    destruct (StringAppend_rest (quote :: post)
                (output ++ pre ++
                 utf8_encode (0x10000
                              + Z.shiftl (digits_value 16 [h1; h2; h3; h4] - 0xD800) 10
                              + (digits_value 16 [l1; l2; l3; l4] - 0xDC00))))
      as (rest & E1 & E2).
    exists rest. split; [exact E1|].
    etransitivity;
      [exact (StringAppend_pair_in_text quote pre post output _ _ _ _ _ _ _ _
                Hq Hpre Hhex Hhi Hlo)|].
    rewrite E2. rewrite <- !app_assoc. reflexivity.
  - intros quote pre output h1 h2 h3 h4 l1 l2 l3 l4 Hq Hpre Hhex Hhi Hlo.
    etransitivity;
      [exact (StringAppend_pair_in_text quote pre [quote] output _ _ _ _ _ _ _ _
                Hq Hpre Hhex Hhi Hlo)|].
    apply StringAppend_closing_quote. exact Hq.
Qed.

Lemma StringAppend_surrogate_pair_witness :
  exists rest,
    upb_Parse_StringAppend (34 :: bytes "b" ++ [34]) [] = Some rest /\
    upb_Parse_StringAppend
      (34 :: bytes "a" ++
       surrogate_pair_escape (ch "D") (ch "8") (ch "3") (ch "D")
                             (ch "D") (ch "E") (ch "0") (ch "0") ++
       bytes "b" ++ [34]) [] =
    Some ([] ++ bytes "a" ++
          utf8_encode (0x10000
                       + Z.shiftl (digits_value 16 (bytes "D83D") - 0xD800) 10
                       + (digits_value 16 (bytes "DE00") - 0xDC00)) ++
          rest).
Proof.
  apply (proj1 (proj2 StringAppend_surrogate_pair) 34 (bytes "a") (bytes "b" ++ [34]) []
           (ch "D") (ch "8") (ch "3") (ch "D") (ch "D") (ch "E") (ch "0") (ch "0")).
  - discriminate.
  - repeat constructor; discriminate.
  - repeat constructor.
  - vm_compute. split; discriminate.
  - vm_compute. split; discriminate.
Defined.

(** C3 as stated fails: a text may contain such a pair where the loop never
    stands.  The scanner returns the text with a bare backslash-u in front
    of the pair D83D DE00 as one STRING token; the bare escape takes the
    backslash, the u and the digits D8 of the pair as its four digits, and
    the bytes appended are F0 A5 BB 98, then 3 and D, then ED B8 80 for the
    lone DE00: the encoding F0 9F 98 80 of the pair's code point is not
    among them. *)
Lemma StringAppend_contained_pair_not_reassembled :
  (exists t',
      upb_Tokenizer_Next (upb_Tokenizer_New bare_escape_pair_text []) = Some (true, t') /\
      tok_type (current t') = UPB_TOKENTYPE_STRING /\
      tok_text (current t') = bare_escape_pair_text) /\
  bare_escape_pair_text =
  [34; 92; ch "u"] ++
  surrogate_pair_escape (ch "D") (ch "8") (ch "3") (ch "D")
                        (ch "D") (ch "E") (ch "0") (ch "0") ++ [34] /\
  Forall (fun c => HexDigit c = true) (bytes "D83DDE00") /\
  digits_value 16 (bytes "D83D") = 0xD83D /\
  digits_value 16 (bytes "DE00") = 0xDE00 /\
  utf8_encode (0x10000 + Z.shiftl (0xD83D - 0xD800) 10 + (0xDE00 - 0xDC00)) =
  [0xF0; 0x9F; 0x98; 0x80] /\
  upb_Parse_StringAppend bare_escape_pair_text [] =
  Some [0xF0; 0xA5; 0xBB; 0x98; 0x33; 0x44; 0xED; 0xB8; 0x80] /\
  ~ (exists a b,
        [0xF0; 0xA5; 0xBB; 0x98; 0x33; 0x44; 0xED; 0xB8; 0x80] =
        a ++ [0xF0; 0x9F; 0x98; 0x80] ++ b).
Proof.
  split; [eexists; split; [vm_compute; reflexivity | split; reflexivity]|].
  split; [reflexivity|]. split; [repeat constructor|].
  split; [vm_compute; reflexivity|]. split; [vm_compute; reflexivity|].
  split; [vm_compute; reflexivity|]. split; [vm_compute; reflexivity|].
  intros (a & b & H).
  do 10 (destruct a as [|? a]; [cbn [app] in H; congruence|]).
  cbn [app] in H. congruence.
Qed.

(** C2 as stated fails: on the text with the unpaired head surrogate D83D
    followed by zz the appended bytes are ED A0 BD 7A 7A, not the seven
    bytes u D 8 3 D z z. *)
Lemma StringAppend_unpaired_surrogate_not_literal :
  upb_Parse_StringAppend unpaired_surrogate_text [] = Some [0xED; 0xA0; 0xBD; 122; 122] /\
  upb_Parse_StringAppend unpaired_surrogate_text [] <> Some (bytes "uD83Dzz").
Proof.
  assert (H : upb_Parse_StringAppend unpaired_surrogate_text []
              = Some [0xED; 0xA0; 0xBD; 122; 122]) by (vm_compute; reflexivity).
  split; [exact H|]. rewrite H. discriminate.
Qed.

(** C2, amended.  On the text with the unpaired head surrogate D83D followed
    by zz, [FetchUnicodePoint] succeeds (it returns a pointer behind the four
    digits, with the lone surrogate as the code point), so the fallback of
    pushing the [u] byte is not taken: the call returns, and what it appends
    is the three-byte encoding ED A0 BD of the lone surrogate followed by
    zz. *)
Theorem StringAppend_unpaired_surrogate :
  forall output,
    FetchUnicodePoint unpaired_surrogate_text 2 = (7, 0xD83D) /\
    upb_Parse_StringAppend unpaired_surrogate_text output =
    Some (output ++ [0xED; 0xA0; 0xBD; ch "z"; ch "z"]).
Proof.
  intros output. split; [vm_compute; reflexivity|].
  rewrite <- (app_nil_r output) at 1. rewrite StringAppend_app.
  replace (upb_Parse_StringAppend unpaired_surrogate_text [])
    with (Some [0xED; 0xA0; 0xBD; ch "z"; ch "z"]) by (vm_compute; reflexivity).
  reflexivity.
Qed.

(** C9.  Called on a [u] or [U], [FetchUnicodePoint] returns its argument
    exactly when one of the 4 (resp. 8) following bytes is NUL, and then
    [upb_Parse_StringAppend] appends the key byte itself and goes on right
    behind it.  Otherwise every byte of that window is accepted: the value
    read is the fold of [(result << 4) + DigitValue c] over the window,
    whatever the bytes are; [FetchUnicodePoint] returns it with the pointer
    behind the window (or, where a trail surrogate escape follows a head
    surrogate, the assembled code point with the pointer behind both), and
    [upb_Parse_StringAppend] appends what [AppendUTF8] gives for it and goes
    on behind the window.  The digit value of a byte is at most 36, and it
    is 36 exactly for the bytes that are no ASCII letter or digit (letters
    reach 35). *)
Theorem FetchUnicodePoint_fails_only_on_NUL :
  (forall text ptr,
      at_ text ptr = ch "u" \/ at_ text ptr = ch "U" ->
      (fst (FetchUnicodePoint text ptr) = ptr <->
       exists i, 0 <= i < UnicodeLength (at_ text ptr) /\
                 at_ text (ptr + 1 + i) = 0) /\
      ((forall i, 0 <= i < UnicodeLength (at_ text ptr) ->
                  at_ text (ptr + 1 + i) <> 0) ->
       ReadHexDigits text (ptr + 1) (UnicodeLength (at_ text ptr)) =
       (true, fold_left fold_digit
                (window text (ptr + 1) (Z.to_nat (UnicodeLength (at_ text ptr)))) 0) /\
       FetchUnicodePoint text ptr =
       (let v := fold_left fold_digit
                   (window text (ptr + 1)
                      (Z.to_nat (UnicodeLength (at_ text ptr)))) 0 in
        let p := ptr + 1 + UnicodeLength (at_ text ptr) in
        if pair_follows text p v
        then (p + 6, AssembleUTF16 v (snd (ReadHexDigits text (p + 2) 4)))
        else (p, v)))) /\
  (forall text ptr output,
      at_ text ptr = 92 ->
      at_ text (ptr + 1) = ch "u" \/ at_ text (ptr + 1) = ch "U" ->
      ((exists i, 0 <= i < UnicodeLength (at_ text (ptr + 1)) /\
                  at_ text (ptr + 1 + 1 + i) = 0) ->
       StringAppend_step text ptr output =
       (ptr + 1, output ++ [at_ text (ptr + 1)])) /\
      ((forall i, 0 <= i < UnicodeLength (at_ text (ptr + 1)) ->
                  at_ text (ptr + 1 + 1 + i) <> 0) ->
       pair_follows text (ptr + 1 + 1 + UnicodeLength (at_ text (ptr + 1)))
         (fold_left fold_digit
            (window text (ptr + 1 + 1)
               (Z.to_nat (UnicodeLength (at_ text (ptr + 1))))) 0) = false ->
       StringAppend_step text ptr output =
       (ptr + 1 + UnicodeLength (at_ text (ptr + 1)),
        AppendUTF8
          (fold_left fold_digit
             (window text (ptr + 1 + 1)
                (Z.to_nat (UnicodeLength (at_ text (ptr + 1))))) 0)
          output))) /\
  (forall (quote : char) (pre : list char) (key : char) (tail : list char)
          (output : upb_String),
      quote <> 0 -> Forall (fun c => c <> 0 /\ c <> 92) pre ->
      key = ch "u" \/ key = ch "U" ->
      (exists i, 0 <= i < UnicodeLength key /\ at_ tail i = 0) ->
      exists rest,
        upb_Parse_StringAppend (quote :: tail) [] = Some rest /\
        upb_Parse_StringAppend (quote :: pre ++ [92; key] ++ tail) output =
        Some (output ++ pre ++ [key] ++ rest)) /\
  (forall (quote : char) (pre : list char) (key : char) (win post : list char)
          (output : upb_String),
      quote <> 0 -> Forall (fun c => c <> 0 /\ c <> 92) pre ->
      key = ch "u" \/ key = ch "U" ->
      Z.of_nat (length win) = UnicodeLength key -> nul_free win ->
      pair_follows post 0 (fold_left fold_digit win 0) = false ->
      exists rest,
        upb_Parse_StringAppend (quote :: post) [] = Some rest /\
        upb_Parse_StringAppend (quote :: pre ++ [92; key] ++ win ++ post) output =
        Some (output ++ pre ++ AppendUTF8 (fold_left fold_digit win 0) [] ++ rest)) /\
  (forall c, 0 <= DigitValue c <= 36 /\
             (0 <= c < 256 ->
              (DigitValue c = 36 <-> ascii_alphanumeric c = false) /\
              (Letter c = true -> c <> ch "_" -> 10 <= DigitValue c <= 35))) /\
  FetchUnicodePoint (bytes "uzz_!") 0 = (5, ((35 * 16 + 35) * 16 + 36) * 16 + 36) /\
  FetchUnicodePoint (bytes "Uzzzzzzzz") 0 = (9, 0x55555553) /\
  upb_Parse_StringAppend (34 :: 92 :: bytes "u12" ++ [34]) [] = Some (bytes "u12").
Proof.
  split; [|split; [|split; [|split; [|split;
    [|split; [|split]; vm_compute; reflexivity]]]]].
  - intros text ptr Hkey. split; [apply FetchUnicodePoint_NUL_iff; exact Hkey|].
    intros Hall. destruct (UnicodeLength_key _ Hkey) as (Hlen & _).
    split; [apply ReadHexDigits_window; assumption|].
    apply FetchUnicodePoint_exact; assumption.
  - intros text ptr output Hb Hkey. split.
    + apply StringAppend_step_unicode_fallback; assumption.
    + apply StringAppend_step_unicode_value; assumption.
  - intros quote pre key tail output Hq Hpre Hkey Hnul.
    destruct (StringAppend_rest (quote :: tail) (output ++ pre ++ [key]))
      as (rest & E1 & E2).
    exists rest. split; [exact E1|].
    etransitivity;
      [exact (StringAppend_unicode_fallback_in_text quote pre key tail output
                Hq Hpre Hkey Hnul)|].
    rewrite E2, <- !app_assoc. reflexivity.
  - intros quote pre key win post output Hq Hpre Hkey Hlen Hwin Hpair.
    destruct (StringAppend_rest (quote :: post)
                (output ++ pre ++ AppendUTF8 (fold_left fold_digit win 0) []))
      as (rest & E1 & E2).
    exists rest. split; [exact E1|].
    etransitivity;
      [exact (StringAppend_unicode_value_in_text quote pre key win post output
                Hq Hpre Hkey Hlen Hwin Hpair)|].
    rewrite E2, <- !app_assoc. reflexivity.
  - intros c. split; [apply DigitValue_range|]. intros Hc.
    assert (H : all_bytes (fun c =>
                  (Bool.eqb (DigitValue c =? 36) (negb (ascii_alphanumeric c))) &&
                  (implb (Letter c && negb (c =? ch "_"))
                         ((10 <=? DigitValue c) && (DigitValue c <=? 35)))) = true)
      by (vm_compute; reflexivity).
    pose proof (all_bytes_spec _ H c Hc) as Hb. cbv beta in Hb.
    apply andb_true_iff in Hb. destruct Hb as [Hb1 Hb2].
    apply Bool.eqb_prop in Hb1. split.
    + split.
      * intros E. apply Z.eqb_eq in E. rewrite E in Hb1.
        symmetry in Hb1. apply negb_true_iff in Hb1. exact Hb1.
      * intros E. rewrite E in Hb1. apply Z.eqb_eq. exact Hb1.
    + intros HL Hu. rewrite HL in Hb2.
      replace (c =? ch "_") with false in Hb2 by (symmetry; apply Z.eqb_neq; exact Hu).
      simpl in Hb2. apply andb_true_iff in Hb2. lia.
Qed.

Lemma FetchUnicodePoint_fails_only_on_NUL_witness :
  exists rest,
    upb_Parse_StringAppend (34 :: bytes "12" ++ [34]) [] = Some rest /\
    upb_Parse_StringAppend
      (34 :: bytes "a" ++ [92; ch "u"] ++ bytes "12" ++ [34]) [] =
    Some ([] ++ bytes "a" ++ [ch "u"] ++ rest).
Proof.
  apply (proj1 (proj2 (proj2 FetchUnicodePoint_fails_only_on_NUL))
           34 (bytes "a") (ch "u") (bytes "12" ++ [34]) []).
  - discriminate.
  - repeat constructor; discriminate.
  - left. reflexivity.
  - exists 3. split; [vm_compute; split; [discriminate | reflexivity] | reflexivity].
Defined.

(** ** The buffered reader *)

(** Reduces the field accessors over the field updates. *)
Ltac reduce_state :=
  cbv beta iota zeta delta
    [ set_current set_previous set_input set_error_collector
      set_current_char set_buffer set_buffer_size set_buffer_pos
      set_read_error set_line set_column set_record_target set_record_start
      set_content set_allow_f_after_float set_comment_style
      set_require_space_after_number set_allow_multiline_strings
      set_report_whitespace set_report_newlines current previous input
      error_collector current_char buffer buffer_size buffer_pos read_error
      line column record_target record_start content allow_f_after_float
      comment_style require_space_after_number allow_multiline_strings
      report_whitespace report_newlines set_tok_type set_tok_line
      set_tok_column set_tok_end_column set_tok_text tok_type tok_line
      tok_column tok_end_column tok_text ].

Ltac reduce_state_in H :=
  cbv beta iota zeta delta
    [ set_current set_previous set_input set_error_collector
      set_current_char set_buffer set_buffer_size set_buffer_pos
      set_read_error set_line set_column set_record_target set_record_start
      set_content set_allow_f_after_float set_comment_style
      set_require_space_after_number set_allow_multiline_strings
      set_report_whitespace set_report_newlines current previous input
      error_collector current_char buffer buffer_size buffer_pos read_error
      line column record_target record_start content allow_f_after_float
      comment_style require_space_after_number allow_multiline_strings
      report_whitespace report_newlines set_tok_type set_tok_line
      set_tok_column set_tok_end_column set_tok_text tok_type tok_line
      tok_column tok_end_column tok_text ] in H.

Ltac split_cases :=
  repeat match goal with
         | |- context [if ?b then _ else _] => destruct b eqn:?
         | |- context [match ?x with _ => _ end] => destruct x eqn:?
         end.

Lemma Refresh_position (t : upb_Tokenizer) :
  line (Refresh t) = line t /\ column (Refresh t) = column t /\
  previous (Refresh t) = previous t.
Proof.
  destruct t as [? ? inp ? ? ? ? ? eof ? ? target ? ? ? ? ? ? ? ?].
  destruct inp as [|data rest], target as [[|]|], eof;
    unfold Refresh, append_to_record_target, upb_ZeroCopyInputStream_Next;
    reduce_state; split_cases; reduce_state; repeat split.
Qed.

Lemma NextChar_previous (t : upb_Tokenizer) : previous (NextChar t) = previous t.
Proof.
  unfold NextChar. cbv zeta.
  match goal with
  | |- context [if ?c then set_current_char ?x ?t1 else Refresh ?t2] =>
      destruct c; [|rewrite (proj2 (proj2 (Refresh_position t2)))]
  end;
    destruct (current_char t =? 10); try destruct (current_char t =? 9); reflexivity.
Qed.

Lemma wrap_int_small (x : Z) : INT_MIN <= x <= INT_MAX -> wrap_int x = x.
Proof.
  unfold wrap_int, INT_MIN, INT_MAX. intros H.
  rewrite Z.mod_small by (change (2 ^ 31) with 2147483648;
                          change (2 ^ 32) with 4294967296; lia).
  lia.
Qed.

Lemma wrap_int_range (x : Z) : INT_MIN <= wrap_int x <= INT_MAX.
Proof.
  unfold wrap_int, INT_MIN, INT_MAX.
  pose proof (Z.mod_pos_bound (x + 2 ^ 31) (2 ^ 32) ltac:(reflexivity)) as H.
  change (2 ^ 31) with 2147483648 in *. change (2 ^ 32) with 4294967296 in *. lia.
Qed.

Lemma wrap_int_add_l (a b : Z) : wrap_int (wrap_int a + b) = wrap_int (a + b).
Proof.
  unfold wrap_int. f_equal.
  replace ((a + 2 ^ 31) mod 2 ^ 32 - 2 ^ 31 + b + 2 ^ 31)
    with ((a + 2 ^ 31) mod 2 ^ 32 + b) by lia.
  replace (a + b + 2 ^ 31) with ((a + 2 ^ 31) + b) by lia.
  apply Z.add_mod_idemp_l. discriminate.
Qed.

Lemma NextChar_line_column (t : upb_Tokenizer) :
  line (NextChar t) =
  (if current_char t =? 10 then wrap_int (line t + 1) else line t) /\
  column (NextChar t) =
  (if current_char t =? 10 then 0
   else if current_char t =? 9
        then wrap_int (column t + (kTabWidth - Z.rem (column t) kTabWidth))
        else wrap_int (column t + 1)).
Proof.
  unfold NextChar. cbv zeta.
  match goal with
  | |- context [if ?c then set_current_char ?x ?t1 else Refresh ?t2] =>
      destruct c;
      [|rewrite (proj1 (Refresh_position t2)), (proj1 (proj2 (Refresh_position t2)))]
  end;
    destruct (current_char t =? 10); try destruct (current_char t =? 9);
    split; reflexivity.
Qed.

Lemma firstn_snoc (l : list char) (k : nat) :
  (k < length l)%nat -> firstn (S k) l = firstn k l ++ [nth k l 0].
Proof.
  revert k. induction l as [|x l IH]; intros k Hk; simpl in Hk; [lia|].
  destruct k as [|k]; [reflexivity|].
  simpl. f_equal. apply IH. lia.
Qed.

Lemma mem_range_snoc (buf : list char) (start pos : Z) :
  0 <= start <= pos -> pos < Z.of_nat (length buf) ->
  mem_range buf start (pos + 1 - start) =
  mem_range buf start (pos - start) ++ [at_ buf pos].
Proof.
  intros Hs Hp. unfold mem_range, at_.
  destruct (pos <? 0) eqn:E; [lia|].
  replace (Z.to_nat (pos + 1 - start)) with (S (Z.to_nat (pos - start))) by lia.
  rewrite firstn_snoc by (rewrite length_skipn; lia).
  rewrite nth_skipn. do 3 f_equal. lia.
Qed.

(** *** Operations that leave the reader alone *)

Lemma same_reader_refl (t : upb_Tokenizer) : same_reader t t.
Proof. repeat split. Qed.

Lemma same_reader_trans (t1 t2 t3 : upb_Tokenizer) :
  same_reader t1 t2 -> same_reader t2 t3 -> same_reader t1 t3.
Proof.
  unfold same_reader. intros (a1 & a2 & a3 & a4 & a5 & a6) (b1 & b2 & b3 & b4 & b5 & b6).
  repeat split; congruence.
Qed.

Lemma same_reader_wf (t t' : upb_Tokenizer) : same_reader t t' -> wf t -> wf t'.
Proof.
  unfold same_reader, wf. intros (a1 & a2 & a3 & a4 & a5 & a6) [H1 H2].
  rewrite a1, a2, a3, a4, a5. split; assumption.
Qed.

Lemma same_reader_unread (t t' : upb_Tokenizer) :
  same_reader t t' -> unread t' = unread t.
Proof.
  unfold same_reader, unread. intros (a1 & a2 & a3 & a4 & a5 & a6).
  rewrite a1, a3, a4, a6. reflexivity.
Qed.

Lemma same_reader_good (n : nat) (p : upb_Token) (t t' : upb_Tokenizer) :
  same_reader t t' -> previous t' = previous t -> good n p t -> good n p t'.
Proof.
  intros Hs Hp (Hwf & Hn & Hprev). split; [|split].
  - eapply same_reader_wf; eassumption.
  - rewrite (same_reader_unread _ _ Hs). assumption.
  - congruence.
Qed.

Lemma append_to_record_target_frame (data : list char) (t : upb_Tokenizer) :
  same_reader t (append_to_record_target data t) /\
  previous (append_to_record_target data t) = previous t.
Proof.
  unfold append_to_record_target.
  destruct (record_target t) as [[|]|]; repeat split.
Qed.

Lemma ReportError_frame (l c : Z) (m : error_message) (t : upb_Tokenizer) :
  same_reader t (ReportError l c m t) /\ previous (ReportError l c m t) = previous t.
Proof. repeat split. Qed.

Lemma AddError_frame (m : error_message) (t : upb_Tokenizer) :
  same_reader t (AddError m t) /\ previous (AddError m t) = previous t.
Proof. repeat split. Qed.

Lemma RecordTo_frame (target : record_target_ptr) (t : upb_Tokenizer) :
  same_reader t (RecordTo target t) /\ previous (RecordTo target t) = previous t.
Proof. repeat split. Qed.

Lemma StopRecording_frame (t : upb_Tokenizer) :
  same_reader t (StopRecording t) /\ previous (StopRecording t) = previous t.
Proof.
  unfold StopRecording, append_to_record_target.
  destruct (record_target t) as [[|]|]; repeat split.
Qed.

Lemma StartToken_frame (t : upb_Tokenizer) :
  same_reader t (StartToken t) /\ previous (StartToken t) = previous t.
Proof. repeat split. Qed.

Lemma EndToken_frame (t : upb_Tokenizer) :
  same_reader t (EndToken t) /\ previous (EndToken t) = previous t.
Proof.
  unfold EndToken, StopRecording, append_to_record_target.
  destruct (record_target t) as [[|]|]; repeat split.
Qed.

(** *** NextChar keeps the reader invariant and consumes a byte *)

Lemma wf_not_eof (t : upb_Tokenizer) :
  wf t -> current_char t <> 0 -> read_error t = false.
Proof.
  intros [_ H] Hc. destruct (read_error t); [|reflexivity].
  destruct (H eq_refl) as [H0 _]. contradiction.
Qed.

Lemma Refresh_wf (t : upb_Tokenizer) :
  (read_error t = true -> buffer_size t = 0 /\ 0 <= buffer_pos t) ->
  wf (Refresh t).
Proof.
  destruct t as [? ? inp ? ? ? ? ? eof ? ? target ? ? ? ? ? ? ? ?].
  destruct inp as [|data rest], target as [[|]|], eof;
    unfold Refresh, wf, append_to_record_target, upb_ZeroCopyInputStream_Next;
    reduce_state; intros H;
    split_cases; reduce_state; split; intros; try discriminate;
    repeat split; try lia; try reflexivity; try (apply H; reflexivity).
Qed.

Lemma NextChar_wf (t : upb_Tokenizer) : wf t -> wf (NextChar t).
Proof.
  destruct t as [cur prev inp errs c buf size pos eof ln col target start cont
                 o1 o2 o3 o4 o5 o6].
  unfold NextChar, wf. reduce_state. intros [Hok Heof].
  destruct (c =? 10); [|destruct (c =? 9)]; reduce_state;
    (destruct (pos + 1 <? size) eqn:Elt; reduce_state;
     [ apply Z.ltb_lt in Elt; split; intros Hr;
       [ destruct (Hok Hr) as (H1 & H2 & H3); repeat split; (lia || reflexivity)
       | destruct (Heof Hr) as (H1 & H2 & H3); lia ]
     | apply Z.ltb_ge in Elt; apply Refresh_wf; reduce_state; intros Hr;
       destruct (Heof Hr) as (H1 & H2 & H3); lia ]).
Qed.

Lemma Refresh_unread (t : upb_Tokenizer) :
  read_error t = false ->
  (unread (Refresh t) <= length (concat (input t)))%nat.
Proof.
  destruct t as [? ? inp ? ? ? ? ? eof ? ? target ? ? ? ? ? ? ? ?].
  destruct inp as [|data rest], target as [[|]|], eof;
    unfold Refresh, unread, append_to_record_target, upb_ZeroCopyInputStream_Next;
    reduce_state; intros Hr; try discriminate;
    split_cases; reduce_state; simpl concat; rewrite ?length_app; lia.
Qed.

Lemma NextChar_unread (t : upb_Tokenizer) :
  wf t -> read_error t = false -> (unread (NextChar t) < unread t)%nat.
Proof.
  destruct t as [cur prev inp errs c buf size pos eof ln col target start cont
                 o1 o2 o3 o4 o5 o6].
  unfold NextChar, wf. reduce_state. intros [Hok _] Er.
  destruct (Hok Er) as (H1 & H2 & H3). subst eof.
  destruct (c =? 10); [|destruct (c =? 9)]; reduce_state;
    (destruct (pos + 1 <? size) eqn:Elt; reduce_state;
     [ apply Z.ltb_lt in Elt; unfold unread; reduce_state; lia
     | match goal with
       | |- (unread (Refresh ?t0) < _)%nat =>
           pose proof (Refresh_unread t0 eq_refl) as Hr
       end;
       reduce_state_in Hr; set (u := unread (Refresh _)) in *;
       unfold unread; reduce_state; lia ]).
Qed.

Lemma NextChar_eof (t : upb_Tokenizer) :
  wf t -> read_error t = true -> read_error (NextChar t) = true.
Proof.
  destruct t as [cur prev inp errs c buf size pos eof ln col target start cont
                 o1 o2 o3 o4 o5 o6].
  unfold NextChar, wf. reduce_state. intros [_ Heof] Er.
  destruct (Heof Er) as (H1 & H2 & H3). subst eof.
  destruct (c =? 10); [|destruct (c =? 9)]; reduce_state;
    (destruct (pos + 1 <? size) eqn:Elt; reduce_state;
     [ apply Z.ltb_lt in Elt; lia | unfold Refresh; reduce_state; reflexivity ]).
Qed.

Lemma NextChar_unread_le (t : upb_Tokenizer) :
  wf t -> (unread (NextChar t) <= unread t)%nat.
Proof.
  intros Hwf. destruct (read_error t) eqn:Er.
  - pose proof (NextChar_eof t Hwf Er) as Hr. unfold unread. rewrite Hr. lia.
  - pose proof (NextChar_unread t Hwf Er). lia.
Qed.

(** ** Termination and invariants of the scanner *)

Section Scanner.

Variable p : upb_Token.

Lemma good_mono (n n' : nat) (t : upb_Tokenizer) :
  (n <= n')%nat -> good n p t -> good n' p t.
Proof. intros Hle (H1 & H2 & H3). split; [|split]; [assumption | lia | assumption]. Qed.

Lemma consumed_good (n : nat) (t : upb_Tokenizer) : consumed n p t -> good n p t.
Proof. intros (n' & -> & H). apply good_mono with n'; [lia | assumption]. Qed.

Lemma good_frame (n : nat) (f : upb_Tokenizer -> upb_Tokenizer) (t : upb_Tokenizer) :
  frame f -> good n p t -> good n p (f t).
Proof.
  intros Hf Hg. destruct (Hf t) as [Hs Hp].
  eapply same_reader_good; eassumption.
Qed.

Lemma good_NextChar (n : nat) (t : upb_Tokenizer) :
  good n p t -> good n p (NextChar t).
Proof.
  intros (H1 & H2 & H3). split; [|split].
  - apply NextChar_wf. assumption.
  - pose proof (NextChar_unread_le t H1). lia.
  - rewrite NextChar_previous. assumption.
Qed.

Lemma consumed_NextChar (n : nat) (t : upb_Tokenizer) :
  good n p t -> read_error t = false -> consumed n p (NextChar t).
Proof.
  intros (H1 & H2 & H3) Er. pose proof (NextChar_unread t H1 Er) as Hlt.
  destruct n as [|n']; [lia|]. exists n'. split; [reflexivity|].
  split; [|split].
  - apply NextChar_wf. assumption.
  - lia.
  - rewrite NextChar_previous. assumption.
Qed.

Lemma consumed_NextChar_char (n : nat) (t : upb_Tokenizer) :
  good n p t -> current_char t <> 0 -> consumed n p (NextChar t).
Proof.
  intros Hg Hc. apply consumed_NextChar; [assumption|].
  apply wf_not_eof; [apply Hg | assumption].
Qed.

(** *** Rules *)

Lemma bind_eq {A B : Type} (m : M A) (k : A -> M B) (t t1 : upb_Tokenizer) (a : A) :
  m t = Some (a, t1) -> bind m k t = k a t1.
Proof. intros H. unfold bind. rewrite H. reflexivity. Qed.

Lemma runs_ret {A : Type} (a : A) (P : upb_Tokenizer -> Prop)
    (Q : A -> upb_Tokenizer -> Prop) :
  (forall t, P t -> Q a t) -> runs (ret a) P Q.
Proof. intros H t Ht. exists a, t. split; [reflexivity | apply H; assumption]. Qed.

Lemma runs_bind {A B : Type} (m : M A) (k : A -> M B) (P : upb_Tokenizer -> Prop)
    (R : A -> upb_Tokenizer -> Prop) (Q : B -> upb_Tokenizer -> Prop) :
  runs m P R -> (forall a, runs (k a) (R a) Q) -> runs (bind m k) P Q.
Proof.
  intros Hm Hk t Ht. destruct (Hm t Ht) as (a & t1 & E & Ha).
  destruct (Hk a t1 Ha) as (b & t2 & E2 & Hb).
  exists b, t2. rewrite (bind_eq _ _ _ _ _ E). split; assumption.
Qed.

Lemma runs_weaken {A : Type} (m : M A) (P P' : upb_Tokenizer -> Prop)
    (Q Q' : A -> upb_Tokenizer -> Prop) :
  runs m P' Q' -> (forall t, P t -> P' t) -> (forall a t, Q' a t -> Q a t) ->
  runs m P Q.
Proof.
  intros Hm HP HQ t Ht. destruct (Hm t (HP t Ht)) as (a & t1 & E & Ha).
  exists a, t1. split; [assumption | apply HQ; assumption].
Qed.

Lemma runs_lift (f : upb_Tokenizer -> upb_Tokenizer) (P : upb_Tokenizer -> Prop)
    (Q : unit -> upb_Tokenizer -> Prop) :
  (forall t, P t -> Q tt (f t)) -> runs (lift f) P Q.
Proof. intros H t Ht. exists tt, (f t). split; [reflexivity | apply H; assumption]. Qed.

Lemma runs_gets {A : Type} (f : upb_Tokenizer -> A) (P : upb_Tokenizer -> Prop)
    (Q : A -> upb_Tokenizer -> Prop) :
  (forall t, P t -> Q (f t) t) -> runs (gets f) P Q.
Proof. intros H t Ht. exists (f t), t. split; [reflexivity | apply H; assumption]. Qed.

Lemma keeps_ret {A : Type} (n : nat) (a : A) (Q : A -> upb_Tokenizer -> Prop) :
  (forall t, Q a t) -> keeps n p (ret a) Q.
Proof.
  intros HQ t Hg. exists a, t. split; [reflexivity | split; [assumption | apply HQ]].
Qed.

Lemma keeps_bind {A B : Type} (n : nat) (m : M A) (k : A -> M B)
    (Q : B -> upb_Tokenizer -> Prop) :
  keeps n p m any -> (forall a, keeps n p (k a) Q) -> keeps n p (bind m k) Q.
Proof.
  intros Hm Hk t Hg. destruct (Hm t Hg) as (a & t1 & E & Hg1 & Ha).
  destruct (Hk a t1 Hg1) as (b & t2 & E2 & Hg2 & Hb).
  exists b, t2. rewrite (bind_eq _ _ _ _ _ E). split; [assumption | split; assumption].
Qed.

Lemma keeps_any {A : Type} (n : nat) (m : M A) (Q : A -> upb_Tokenizer -> Prop) :
  keeps n p m Q -> keeps n p m any.
Proof.
  intros Hm t Hg. destruct (Hm t Hg) as (a & t1 & E & Hg1 & _).
  exists a, t1. split; [assumption | split; [assumption | exact I]].
Qed.

Lemma keeps_if {A : Type} (n : nat) (b : bool) (m1 m2 : M A)
    (Q : A -> upb_Tokenizer -> Prop) :
  keeps n p m1 Q -> keeps n p m2 Q -> keeps n p (if b then m1 else m2) Q.
Proof. destruct b; auto. Qed.

Lemma keeps_lift (n : nat) (f : upb_Tokenizer -> upb_Tokenizer) :
  frame f -> keeps n p (lift f) any.
Proof.
  intros Hf t Hg. exists tt, (f t). split; [reflexivity|].
  split; [apply good_frame; assumption | exact I].
Qed.

Lemma keeps_gets {A : Type} (n : nat) (f : upb_Tokenizer -> A) :
  keeps n p (gets f) any.
Proof.
  intros t Hg. exists (f t), t. split; [reflexivity | split; [assumption | exact I]].
Qed.

Lemma keeps_NextChar (n : nat) : keeps n p (lift NextChar) any.
Proof.
  intros t Hg. exists tt, (NextChar t). split; [reflexivity|].
  split; [apply good_NextChar; assumption | exact I].
Qed.

Lemma keeps_TryConsumeOne (n : nat) (f : char -> bool) :
  keeps n p (TryConsumeOne f) any.
Proof.
  intros t Hg. unfold TryConsumeOne. destruct (f (current_char t)).
  - exists true, (NextChar t). split; [reflexivity|].
    split; [apply good_NextChar; assumption | exact I].
  - exists false, t. split; [reflexivity | split; [assumption | exact I]].
Qed.

Lemma keeps_TryConsume (n : nat) (c : char) : keeps n p (TryConsume c) any.
Proof.
  intros t Hg. unfold TryConsume. destruct (current_char t =? c).
  - exists true, (NextChar t). split; [reflexivity|].
    split; [apply good_NextChar; assumption | exact I].
  - exists false, t. split; [reflexivity | split; [assumption | exact I]].
Qed.

Lemma keeps_orM (n : nat) (a b : M bool) :
  keeps n p a any -> keeps n p b any -> keeps n p (orM a b) any.
Proof.
  intros Ha Hb. unfold orM. apply keeps_bind; [assumption|].
  intros [|]; [apply keeps_ret; intros; exact I | assumption].
Qed.

Lemma keeps_andM (n : nat) (a b : M bool) :
  keeps n p a any -> keeps n p b any -> keeps n p (andM a b) any.
Proof.
  intros Ha Hb. unfold andM. apply keeps_bind; [assumption|].
  intros [|]; [assumption | apply keeps_ret; intros; exact I].
Qed.

Lemma keeps_notM (n : nat) (a : M bool) :
  keeps n p a any -> keeps n p (notM a) any.
Proof.
  intros Ha. unfold notM. apply keeps_bind; [assumption|].
  intros b. apply keeps_ret. intros; exact I.
Qed.

Lemma keeps_when (n : nat) (c : bool) (s : M unit) :
  keeps n p s any -> keeps n p (when c s) any.
Proof.
  intros Hs. unfold when. destruct c; [assumption | apply keeps_ret; intros; exact I].
Qed.


(** *** The state updates of the scanner leave the reader alone *)

Ltac frame_tac :=
  let t := fresh "t" in
  intros t;
  try unfold StartToken, EndToken, StopRecording, RecordTo, AddError, ReportError,
    append_to_record_target, set_current_type;
  split_cases; repeat split.

Lemma frame_AddError (m : error_message) : frame (AddError m).
Proof. frame_tac. Qed.

Lemma frame_ReportError (l c : Z) (m : error_message) : frame (ReportError l c m).
Proof. frame_tac. Qed.

Lemma frame_RecordTo (target : record_target_ptr) : frame (RecordTo target).
Proof. frame_tac. Qed.

Lemma frame_StopRecording : frame StopRecording.
Proof. frame_tac. Qed.

Lemma frame_StartToken : frame StartToken.
Proof. frame_tac. Qed.

Lemma frame_EndToken : frame EndToken.
Proof. frame_tac. Qed.

Lemma keeps_set_current_type (n : nat) (ty : upb_TokenType) :
  keeps n p (set_current_type ty) any.
Proof. apply keeps_lift. frame_tac. Qed.

(** *** The consuming loops *)

Lemma class_nonzero (f : char -> bool) (c : char) :
  f 0 = false -> f c = true -> c <> 0.
Proof. intros H0 Hc ->. congruence. Qed.

(** [ConsumeZeroOrMore] with an extra invariant [I] that consuming a byte of
    the class preserves. *)
Lemma ConsumeZeroOrMore_inv (I : upb_Tokenizer -> Prop) (f : char -> bool) :
  f 0 = false ->
  (forall t, wf t -> read_error t = false -> f (current_char t) = true ->
             I t -> I (NextChar t)) ->
  forall fuel n, (n < fuel)%nat ->
    runs (ConsumeZeroOrMore fuel f) (fun t => good n p t /\ I t)
         (fun _ t' => good n p t' /\ I t').
Proof.
  intros H0 HI. induction fuel as [|fuel IH]; intros n Hlt t [Hg Hi]; [lia|].
  cbn [ConsumeZeroOrMore]. unfold bind at 1, gets.
  destruct (f (current_char t)) eqn:Ef.
  - pose proof (class_nonzero _ _ H0 Ef) as Hc.
    pose proof (wf_not_eof _ (proj1 Hg) Hc) as Er.
    destruct (consumed_NextChar n t Hg Er) as (n' & -> & Hg').
    unfold bind, lift.
    destruct (IH n' ltac:(lia) (NextChar t)) as (a & t' & E & Hg'' & Hi'').
    { split; [assumption|]. apply HI; try assumption. apply Hg. }
    exists a, t'. split; [assumption|]. split; [|assumption].
    apply good_mono with n'; [lia | assumption].
  - exists tt, t. split; [reflexivity | split; assumption].
Qed.

Lemma keeps_ConsumeZeroOrMore (f : char -> bool) (fuel n : nat) :
  f 0 = false -> (n < fuel)%nat -> keeps n p (ConsumeZeroOrMore fuel f) any.
Proof.
  intros H0 Hlt t Hg.
  destruct (ConsumeZeroOrMore_inv (fun _ => True) f H0 (fun _ _ _ _ _ => I)
              fuel n Hlt t (conj Hg I)) as (a & t' & E & Hg' & _).
  exists a, t'. split; [assumption | split; [assumption | exact I]].
Qed.

Lemma ConsumeOneOrMore_loop_runs (f : char -> bool) :
  f 0 = false ->
  forall fuel n, (n < fuel)%nat ->
    runs (ConsumeOneOrMore_loop fuel f)
         (fun t => good n p t /\ f (current_char t) = true)
         (fun _ t' => good n p t').
Proof.
  intros H0. induction fuel as [|fuel IH]; intros n Hlt t [Hg Hc]; [lia|].
  cbn [ConsumeOneOrMore_loop]. unfold bind at 1, lift.
  destruct (consumed_NextChar_char n t Hg (class_nonzero _ _ H0 Hc)) as (n' & -> & Hg').
  unfold bind at 1, gets.
  destruct (f (current_char (NextChar t))) eqn:Ef.
  - destruct (IH n' ltac:(lia) (NextChar t) (conj Hg' Ef)) as (a & t' & E & Hg'').
    exists a, t'. split; [assumption|]. apply good_mono with n'; [lia | assumption].
  - exists tt, (NextChar t). split; [reflexivity|].
    apply good_mono with n'; [lia | assumption].
Qed.

Lemma keeps_ConsumeOneOrMore (f : char -> bool) (msg : error_message) (fuel n : nat) :
  f 0 = false -> (n < fuel)%nat -> keeps n p (ConsumeOneOrMore fuel f msg) any.
Proof.
  intros H0 Hlt t Hg. unfold ConsumeOneOrMore, bind, gets.
  destruct (f (current_char t)) eqn:Ef; simpl negb; cbv iota.
  - destruct (ConsumeOneOrMore_loop_runs f H0 fuel n Hlt t (conj Hg Ef))
      as (a & t' & E & Hg').
    exists a, t'. split; [assumption | split; [assumption | exact I]].
  - exists tt, (AddError msg t). split; [reflexivity|].
    split; [apply good_frame; [apply frame_AddError | assumption] | exact I].
Qed.

Ltac keeps_tac :=
  cbv beta;
  lazymatch goal with
  | |- keeps _ _ (bind _ _) _ => apply keeps_bind; [keeps_tac | intros ?; keeps_tac]
  | |- keeps _ _ (ret _) _ => apply keeps_ret; try (intros; exact I)
  | |- keeps _ _ (if _ then _ else _) _ => apply keeps_if; keeps_tac
  | |- keeps _ _ (match ?x with _ => _ end) _ => destruct x; keeps_tac
  | |- keeps _ _ (lift NextChar) _ => apply keeps_NextChar
  | |- keeps _ _ (lift _) _ => apply keeps_lift; frame_tac
  | |- keeps _ _ (gets _) _ => apply keeps_gets
  | |- keeps _ _ (LookingAt _) _ => apply keeps_gets
  | |- keeps _ _ (TryConsumeOne _) _ => apply keeps_TryConsumeOne
  | |- keeps _ _ (TryConsume _) _ => apply keeps_TryConsume
  | |- keeps _ _ (orM _ _) _ => apply keeps_orM; keeps_tac
  | |- keeps _ _ (andM _ _) _ => apply keeps_andM; keeps_tac
  | |- keeps _ _ (notM _) _ => apply keeps_notM; keeps_tac
  | |- keeps _ _ (when _ _) _ => apply keeps_when; keeps_tac
  | |- keeps _ _ (set_current_type _) _ => apply keeps_set_current_type
  | |- keeps _ _ (ConsumeZeroOrMore _ _) _ =>
      apply keeps_ConsumeZeroOrMore; [reflexivity | assumption]
  | |- keeps _ _ (ConsumeOneOrMore _ _ _) _ =>
      apply keeps_ConsumeOneOrMore; [reflexivity | assumption]
  | |- _ => idtac
  end.

Lemma keeps_ConsumeString_escape (n : nat) : keeps n p ConsumeString_escape any.
Proof. unfold ConsumeString_escape. keeps_tac. Qed.

Lemma keeps_ConsumeString (delimiter : char) :
  forall fuel n, (n < fuel)%nat -> keeps n p (ConsumeString fuel delimiter) any.
Proof.
  induction fuel as [|fuel IH]; intros n Hlt t Hg; [lia|].
  cbn [ConsumeString]. unfold bind at 1, gets.
  assert (Hrec : forall t1, consumed n p t1 ->
            exists a t', ConsumeString fuel delimiter t1 = Some (a, t') /\
                         good n p t' /\ any a t').
  { intros t1 (n' & -> & Hg1).
    destruct (IH n' ltac:(lia) t1 Hg1) as (a & t' & E & Hg' & _).
    exists a, t'. split; [assumption|].
    split; [apply good_mono with n'; [lia | assumption] | exact I]. }
  destruct (current_char t =? 0) eqn:E0.
  { exists tt, (AddError MsgUnexpectedEndOfString t). split; [reflexivity|].
    split; [apply good_frame; [apply frame_AddError | assumption] | exact I]. }
  apply Z.eqb_neq in E0.
  pose proof (consumed_NextChar_char n t Hg E0) as Hc.
  destruct (current_char t =? 10).
  { unfold bind at 1, gets. destruct (allow_multiline_strings t); simpl negb; cbv iota.
    - unfold bind, lift. apply Hrec. assumption.
    - exists tt, (AddError MsgStringCrossesLine t). split; [reflexivity|].
      split; [apply good_frame; [apply frame_AddError | assumption] | exact I]. }
  destruct (current_char t =? 92).
  { unfold bind at 1, lift.
    destruct Hc as (n' & -> & Hg1).
    destruct (keeps_ConsumeString_escape n' (NextChar t) Hg1) as (a & t2 & E2 & Hg2 & _).
    rewrite (bind_eq _ _ _ _ _ E2).
    destruct (IH n' ltac:(lia) t2 Hg2) as (b & t' & E & Hg' & _).
    exists b, t'. split; [assumption|].
    split; [apply good_mono with n'; [lia | assumption] | exact I]. }
  destruct (current_char t =? delimiter).
  { exists tt, (NextChar t). split; [reflexivity|].
    split; [apply consumed_good; assumption | exact I]. }
  unfold bind, lift. apply Hrec. assumption.
Qed.

Lemma keeps_ConsumeNumber (fuel n : nat) (z d : bool) :
  (n < fuel)%nat ->
  keeps n p (ConsumeNumber fuel z d)
        (fun ty _ => ty = UPB_TOKENTYPE_FLOAT \/ ty = UPB_TOKENTYPE_INTEGER).
Proof.
  intros Hlt. unfold ConsumeNumber. keeps_tac.
  intros _. match goal with |- context [if ?b then _ else _] => destruct b end; auto.
Qed.

Lemma keeps_ConsumeLineComment_loop :
  forall fuel n, (n < fuel)%nat -> keeps n p (ConsumeLineComment_loop fuel) any.
Proof.
  induction fuel as [|fuel IH]; intros n Hlt t Hg; [lia|].
  cbn [ConsumeLineComment_loop]. unfold bind at 1, gets.
  destruct (current_char t =? 0) eqn:E0; cbn [negb andb]; cbv iota.
  { exists tt, t. split; [reflexivity | split; [assumption | exact I]]. }
  apply Z.eqb_neq in E0.
  destruct (negb (current_char t =? 10)).
  - destruct (consumed_NextChar_char n t Hg E0) as (n' & -> & Hg1).
    unfold bind, lift.
    destruct (IH n' ltac:(lia) _ Hg1) as (a & t' & E & Hg' & _).
    exists a, t'. split; [assumption|].
    split; [apply good_mono with n'; [lia | assumption] | exact I].
  - exists tt, t. split; [reflexivity | split; [assumption | exact I]].
Qed.

Lemma keeps_ConsumeLineComment (fuel n : nat) (has_content : bool) :
  (n < fuel)%nat -> keeps n p (ConsumeLineComment fuel has_content) any.
Proof.
  intros Hlt. unfold ConsumeLineComment. keeps_tac.
  apply keeps_ConsumeLineComment_loop. assumption.
Qed.

(** *** Symbolic execution of the scanner monad *)

Lemma bind_ret {A B : Type} (a : A) (k : A -> M B) (t : upb_Tokenizer) :
  bind (ret a) k t = k a t.
Proof. reflexivity. Qed.

Lemma bind_gets {A B : Type} (f : upb_Tokenizer -> A) (k : A -> M B)
    (t : upb_Tokenizer) :
  bind (gets f) k t = k (f t) t.
Proof. reflexivity. Qed.

Lemma bind_lift {B : Type} (f : upb_Tokenizer -> upb_Tokenizer) (k : unit -> M B)
    (t : upb_Tokenizer) :
  bind (lift f) k t = k tt (f t).
Proof. reflexivity. Qed.

Lemma bind_bind {A B C : Type} (m : M A) (k : A -> M B) (h : B -> M C)
    (t : upb_Tokenizer) :
  bind (bind m k) h t = bind m (fun a => bind (k a) h) t.
Proof. unfold bind. destruct (m t) as [[a t1]|]; reflexivity. Qed.

Lemma bind_if {A B : Type} (b : bool) (m1 m2 : M A) (k : A -> M B)
    (t : upb_Tokenizer) :
  bind (if b then m1 else m2) k t = if b then bind m1 k t else bind m2 k t.
Proof. destruct b; reflexivity. Qed.

Lemma bind_TryConsume_true {B : Type} (c : char) (k : bool -> M B)
    (t : upb_Tokenizer) :
  current_char t = c -> bind (TryConsume c) k t = k true (NextChar t).
Proof. intros H. unfold bind, TryConsume. rewrite H, Z.eqb_refl. reflexivity. Qed.

Lemma bind_TryConsume_false {B : Type} (c : char) (k : bool -> M B)
    (t : upb_Tokenizer) :
  current_char t <> c -> bind (TryConsume c) k t = k false t.
Proof.
  intros H. apply Z.eqb_neq in H. unfold bind, TryConsume. rewrite H. reflexivity.
Qed.

Lemma bind_TryConsumeOne_true {B : Type} (f : char -> bool) (k : bool -> M B)
    (t : upb_Tokenizer) :
  f (current_char t) = true -> bind (TryConsumeOne f) k t = k true (NextChar t).
Proof. intros H. unfold bind, TryConsumeOne. rewrite H. reflexivity. Qed.

Lemma bind_TryConsumeOne_false {B : Type} (f : char -> bool) (k : bool -> M B)
    (t : upb_Tokenizer) :
  f (current_char t) = false -> bind (TryConsumeOne f) k t = k false t.
Proof. intros H. unfold bind, TryConsumeOne. rewrite H. reflexivity. Qed.

Lemma bind_andM {B : Type} (a b : M bool) (k : bool -> M B) (t : upb_Tokenizer) :
  bind (andM a b) k t = bind a (fun x => if x then bind b k else k false) t.
Proof. unfold andM, bind, ret. destruct (a t) as [[[|] t1]|]; reflexivity. Qed.

Lemma bind_orM {B : Type} (a b : M bool) (k : bool -> M B) (t : upb_Tokenizer) :
  bind (orM a b) k t = bind a (fun x => if x then k true else bind b k) t.
Proof. unfold orM, bind, ret. destruct (a t) as [[[|] t1]|]; reflexivity. Qed.

(** Running a computation that keeps the invariant for a smaller bound. *)
Lemma keeps_run {A : Type} (n n' : nat) (m : M A)
    (Q : A -> upb_Tokenizer -> Prop) (t : upb_Tokenizer) :
  keeps n' p m Q -> good n' p t -> (n' <= n)%nat ->
  exists a t', m t = Some (a, t') /\ good n p t' /\ Q a t'.
Proof.
  intros Hm Hg Hle. destruct (Hm t Hg) as (a & t' & E & Hg' & HQ).
  exists a, t'. split; [assumption|].
  split; [apply good_mono with n'; assumption | assumption].
Qed.

Lemma keeps_run_consumed {A : Type} (n : nat) (m : M A)
    (Q : A -> upb_Tokenizer -> Prop) (t : upb_Tokenizer) :
  consumed n p t -> (forall n', n = S n' -> keeps n' p m Q) ->
  exists a t', m t = Some (a, t') /\ good n p t' /\ Q a t'.
Proof.
  intros (n' & -> & Hg) Hm. apply keeps_run with n'; [apply Hm; reflexivity | assumption | lia].
Qed.

(** *** Comments *)

Lemma ConsumeBlockComment_skip_runs :
  forall fuel n, (n < fuel)%nat ->
    runs (ConsumeBlockComment_skip fuel) (good n p)
         (fun _ t' => good n p t' /\
                      (current_char t' = 0 \/ current_char t' = ch "*" \/
                       current_char t' = ch "/" \/ current_char t' = 10)).
Proof.
  induction fuel as [|fuel IH]; intros n Hlt t Hg; [lia|].
  cbn [ConsumeBlockComment_skip]. rewrite bind_gets.
  destruct (current_char t =? 0) eqn:E0; cbn [negb andb]; cbv iota.
  { apply Z.eqb_eq in E0. exists tt, t. split; [reflexivity|]. auto. }
  destruct (current_char t =? ch "*") eqn:E1; cbn [negb andb]; cbv iota.
  { apply Z.eqb_eq in E1. exists tt, t. split; [reflexivity|]. auto. }
  destruct (current_char t =? ch "/") eqn:E2; cbn [negb andb]; cbv iota.
  { apply Z.eqb_eq in E2. exists tt, t. split; [reflexivity|]. auto. }
  destruct (current_char t =? 10) eqn:E3; cbn [negb andb]; cbv iota.
  { apply Z.eqb_eq in E3. exists tt, t. split; [reflexivity|]. auto. }
  apply Z.eqb_neq in E0. rewrite bind_lift.
  destruct (consumed_NextChar_char n t Hg E0) as (n' & -> & Hg1).
  destruct (IH n' ltac:(lia) _ Hg1) as (a & t' & E & Hg' & Hc).
  exists a, t'. split; [assumption|].
  split; [apply good_mono with n'; [lia | assumption] | assumption].
Qed.

Lemma keeps_ConsumeBlockComment_skip (fuel n : nat) :
  (n < fuel)%nat -> keeps n p (ConsumeBlockComment_skip fuel) any.
Proof.
  intros Hlt t Hg.
  destruct (ConsumeBlockComment_skip_runs fuel n Hlt t Hg) as (a & t' & E & Hg' & _).
  exists a, t'. split; [assumption | split; [assumption | exact I]].
Qed.

Lemma keeps_ConsumeBlockComment_loop (has_content : bool) (l c : Z) :
  forall fuel n, (n < fuel)%nat ->
    keeps n p (ConsumeBlockComment_loop fuel has_content l c) any.
Proof.
  induction fuel as [|fuel IH]; intros n Hlt t Hg; [lia|].
  cbn [ConsumeBlockComment_loop].
  destruct (ConsumeBlockComment_skip_runs (S fuel) n Hlt t Hg)
    as ([] & t1 & E1 & Hg1 & Hc1).
  rewrite (bind_eq _ _ _ _ _ E1). clear E1 t Hg.
  assert (Hrec : forall n', n = S n' ->
            keeps n' p (ConsumeBlockComment_loop fuel has_content l c) any)
    by (intros n' ->; apply IH; lia).
  assert (Hlt' : forall n', n = S n' -> (n' < S fuel)%nat) by (intros; lia).
  destruct (Z.eq_dec (current_char t1) 10) as [E10 | N10].
  { rewrite (bind_TryConsume_true _ _ _ E10). cbv iota.
    apply keeps_run_consumed.
    - apply consumed_NextChar_char; [assumption | rewrite E10; discriminate].
    - intros n' Hn. specialize (Hrec n' Hn). specialize (Hlt' n' Hn).
      keeps_tac. assumption. }
  rewrite (bind_TryConsume_false _ _ _ N10). cbv iota. rewrite bind_andM.
  destruct (Z.eq_dec (current_char t1) (ch "*")) as [Es | Ns].
  { rewrite (bind_TryConsume_true _ _ _ Es). cbv iota.
    apply keeps_run_consumed.
    - apply consumed_NextChar_char; [assumption | rewrite Es; discriminate].
    - intros n' Hn. specialize (Hrec n' Hn). specialize (Hlt' n' Hn).
      keeps_tac; assumption. }
  rewrite (bind_TryConsume_false _ _ _ Ns). cbv iota. rewrite bind_andM.
  destruct (Z.eq_dec (current_char t1) (ch "/")) as [Esl | Nsl].
  { rewrite (bind_TryConsume_true _ _ _ Esl). cbv iota.
    apply keeps_run_consumed.
    - apply consumed_NextChar_char; [assumption | rewrite Esl; discriminate].
    - intros n' Hn. specialize (Hrec n' Hn). specialize (Hlt' n' Hn).
      keeps_tac; assumption. }
  rewrite (bind_TryConsume_false _ _ _ Nsl). cbv iota. rewrite bind_gets.
  assert (E0 : current_char t1 = 0) by (destruct Hc1 as [|[|[|]]]; congruence).
  rewrite E0. change (0 =? 0) with true. cbv iota.
  apply keeps_run with n; [keeps_tac | assumption | lia].
Qed.

Lemma keeps_ConsumeBlockComment (fuel n : nat) (has_content : bool) :
  (n < fuel)%nat -> keeps n p (ConsumeBlockComment fuel has_content) any.
Proof.
  intros Hlt. unfold ConsumeBlockComment. keeps_tac.
  apply keeps_ConsumeBlockComment_loop. assumption.
Qed.

Lemma TryConsumeCommentStart_runs (n : nat) :
  runs TryConsumeCommentStart (good n p)
       (fun status t' =>
          match status with
          | LINE_COMMENT | BLOCK_COMMENT => consumed n p t'
          | SLASH_NOT_COMMENT =>
              good n p t' /\ tok_type (current t') = UPB_TOKENTYPE_SYMBOL
          | NO_COMMENT => good n p t'
          end).
Proof.
  intros t Hg. unfold TryConsumeCommentStart. rewrite bind_gets.
  assert (Hnext : forall t1, consumed n p t1 -> consumed n p (NextChar t1)).
  { intros t1 (n' & -> & Hg1). exists n'. split; [reflexivity|].
    apply good_NextChar. assumption. }
  destruct (comment_style t).
  - destruct (Z.eq_dec (current_char t) (ch "/")) as [Esl | Nsl].
    + rewrite (bind_TryConsume_true _ _ _ Esl). cbv iota.
      assert (Hc : consumed n p (NextChar t))
        by (apply consumed_NextChar_char; [assumption | rewrite Esl; discriminate]).
      set (t1 := NextChar t) in *.
      destruct (Z.eq_dec (current_char t1) (ch "/")) as [E2 | N2].
      { rewrite (bind_TryConsume_true _ _ _ E2). cbv iota.
        exists LINE_COMMENT, (NextChar t1). split; [reflexivity | auto]. }
      rewrite (bind_TryConsume_false _ _ _ N2). cbv iota.
      destruct (Z.eq_dec (current_char t1) (ch "*")) as [E3 | N3].
      { rewrite (bind_TryConsume_true _ _ _ E3). cbv iota.
        exists BLOCK_COMMENT, (NextChar t1). split; [reflexivity | auto]. }
      rewrite (bind_TryConsume_false _ _ _ N3). cbv iota.
      rewrite !bind_lift. eexists SLASH_NOT_COMMENT, _. split; [reflexivity|].
      split; [|reflexivity].
      apply consumed_good in Hc.
      eapply same_reader_good; [| |exact Hc]; repeat split.
    + rewrite (bind_TryConsume_false _ _ _ Nsl). cbv iota. rewrite bind_ret. cbv iota.
      exists NO_COMMENT, t. split; [reflexivity | assumption].
  - rewrite bind_ret. cbv iota.
    destruct (Z.eq_dec (current_char t) (ch "#")) as [Eh | Nh].
    + rewrite (bind_TryConsume_true _ _ _ Eh). cbv iota.
      exists LINE_COMMENT, (NextChar t). split; [reflexivity|].
      apply consumed_NextChar_char; [assumption | rewrite Eh; discriminate].
    + rewrite (bind_TryConsume_false _ _ _ Nh). cbv iota.
      exists NO_COMMENT, t. split; [reflexivity | assumption].
Qed.

(** *** Whitespace, control characters and tokens *)

Lemma tok_type_EndToken (t : upb_Tokenizer) :
  tok_type (current (EndToken t)) = tok_type (current t).
Proof.
  unfold EndToken, StopRecording, append_to_record_target.
  destruct (record_target t) as [[|]|]; reflexivity.
Qed.

Lemma whitespace_or_newline_runs (fuel n : nat) :
  (n < fuel)%nat ->
  runs (orM (TryConsumeWhitespace fuel) TryConsumeNewline) (good n p)
       (fun report t' =>
          good n p t' /\
          (report = true ->
           tok_type (current t') = UPB_TOKENTYPE_WHITESPACE \/
           tok_type (current t') = UPB_TOKENTYPE_NEWLINE)).
Proof.
  intros Hlt t Hg.
  assert (Hnl : forall t1, good n p t1 ->
    exists a t', TryConsumeNewline t1 = Some (a, t') /\ good n p t' /\
      (a = true -> tok_type (current t') = UPB_TOKENTYPE_NEWLINE)).
  { intros t1 Hg1. unfold TryConsumeNewline. rewrite !bind_gets.
    destruct (negb (report_whitespace t1) || negb (report_newlines t1)).
    - exists false, t1. split; [reflexivity|]. split; [assumption | discriminate].
    - destruct (Z.eq_dec (current_char t1) 10) as [E | N].
      + rewrite (bind_TryConsume_true _ _ _ E). cbv iota.
        unfold set_current_type. rewrite bind_lift.
        eexists true, _. split; [reflexivity|]. split; [|reflexivity].
        apply good_frame; [frame_tac | apply good_NextChar; assumption].
      + rewrite (bind_TryConsume_false _ _ _ N). cbv iota.
        exists false, t1. split; [reflexivity|]. split; [assumption | discriminate]. }
  assert (Hws : forall f, f 0 = false -> forall t1, good n p t1 ->
    forall k : unit -> M bool,
      (k = (fun _ => ret true) \/ k = (fun _ => gets report_whitespace)) ->
    exists a t', (ConsumeZeroOrMore fuel f ;;
                  set_current_type UPB_TOKENTYPE_WHITESPACE ;; k tt) t1 = Some (a, t') /\
      good n p t' /\ tok_type (current t') = UPB_TOKENTYPE_WHITESPACE).
  { intros f H0 t1 Hg1 k Hk.
    destruct (keeps_ConsumeZeroOrMore f fuel n H0 Hlt t1 Hg1) as ([] & t2 & E2 & Hg2 & _).
    rewrite (bind_eq _ _ _ _ _ E2). unfold set_current_type. rewrite bind_lift.
    destruct Hk as [-> | ->]; eexists _, _; (split; [reflexivity|]);
      (split; [apply good_frame; [frame_tac | assumption] | reflexivity]). }
  unfold orM. unfold TryConsumeWhitespace. rewrite bind_bind, bind_gets.
  destruct (report_newlines t).
  - rewrite bind_bind.
    destruct (WhitespaceNoNewline (current_char t)) eqn:Ew.
    + rewrite (bind_TryConsumeOne_true _ _ _ Ew). cbv iota.
      destruct (Hws WhitespaceNoNewline eq_refl (NextChar t) (good_NextChar _ _ Hg)
                  (fun _ => ret true)
                  (or_introl eq_refl)) as (a & t' & E & Hg' & Hty).
      rewrite !bind_bind. unfold bind at 1.
      unfold bind at 1 in E. 
      destruct (ConsumeZeroOrMore fuel WhitespaceNoNewline (NextChar t)) as [[[] t2]|];
        [|discriminate].
      unfold set_current_type in *. rewrite bind_bind, bind_lift, bind_ret.
      rewrite bind_lift in E. injection E as <- <-.
      eexists true, _. split; [reflexivity|]. split; [assumption | auto].
    + rewrite (bind_TryConsumeOne_false _ _ _ Ew). cbv iota. rewrite bind_ret. cbv iota.
      destruct (Hnl t Hg) as (a & t' & E & Hg' & Hty).
      exists a, t'. split; [assumption|]. split; [assumption | auto].
  - rewrite bind_bind.
    destruct (Whitespace (current_char t)) eqn:Ew.
    + rewrite (bind_TryConsumeOne_true _ _ _ Ew). cbv iota.
      destruct (Hws Whitespace eq_refl (NextChar t) (good_NextChar _ _ Hg)
                  (fun _ => gets report_whitespace) (or_intror eq_refl))
        as (a & t' & E & Hg' & Hty).
      rewrite !bind_bind. unfold bind at 1.
      unfold bind at 1 in E.
      destruct (ConsumeZeroOrMore fuel Whitespace (NextChar t)) as [[[] t2]|];
        [|discriminate].
      unfold set_current_type in *. rewrite bind_bind, bind_lift, bind_gets.
      rewrite bind_lift in E. unfold gets in E. injection E as <- <-.
      match goal with
      | |- context [if ?b then _ else _] => destruct b
      end.
      * eexists true, _. split; [reflexivity|]. split; [assumption | auto].
      * destruct (Hnl _ Hg') as (a & t' & E & Hg'' & Hty').
        exists a, t'. split; [assumption|]. split; [assumption | auto].
    + rewrite (bind_TryConsumeOne_false _ _ _ Ew). cbv iota. rewrite bind_ret. cbv iota.
      destruct (Hnl t Hg) as (a & t' & E & Hg' & Hty).
      exists a, t'. split; [assumption|]. split; [assumption | auto].
Qed.

Lemma keeps_Next_skip_unprintable :
  forall fuel n, (n < fuel)%nat -> keeps n p (Next_skip_unprintable fuel) any.
Proof.
  induction fuel as [|fuel IH]; intros n Hlt t Hg; [lia|].
  cbn [Next_skip_unprintable]. rewrite bind_orM.
  assert (Hrec : forall t1, consumed n p t1 ->
            exists a t', Next_skip_unprintable fuel t1 = Some (a, t') /\
                         good n p t' /\ any a t').
  { intros t1 Hc. apply keeps_run_consumed; [assumption|].
    intros n' ->. apply IH. lia. }
  destruct (Unprintable (current_char t)) eqn:Eu.
  - rewrite (bind_TryConsumeOne_true _ _ _ Eu). cbv iota.
    apply Hrec. apply consumed_NextChar_char; [assumption|].
    eapply class_nonzero; [|exact Eu]. reflexivity.
  - rewrite (bind_TryConsumeOne_false _ _ _ Eu). cbv iota.
    rewrite bind_andM, bind_gets.
    destruct (read_error t) eqn:Er; cbn [negb]; cbv iota.
    + exists tt, t. split; [reflexivity | split; [assumption | exact I]].
    + destruct (Z.eq_dec (current_char t) 0) as [E0 | N0].
      * rewrite (bind_TryConsume_true _ _ _ E0). cbv iota.
        apply Hrec. apply consumed_NextChar; assumption.
      * rewrite (bind_TryConsume_false _ _ _ N0). cbv iota.
        exists tt, t. split; [reflexivity | split; [assumption | exact I]].
Qed.

(** *** The recorded text of a token *)

Lemma wrap64_le (x : Z) : 0 <= x -> wrap64 x <= x.
Proof. intros H. unfold wrap64. apply Z.mod_le; lia. Qed.

Lemma NextChar_recorded (t : upb_Tokenizer) :
  wf t -> read_error t = false -> recording t ->
  recording (NextChar t) /\
  recorded_text (NextChar t) = recorded_text t ++ [current_char t].
Proof.
  destruct t as [cur prev inp errs c buf size pos eof ln col target start cont
                 o1 o2 o3 o4 o5 o6].
  unfold wf, recording, recorded_text. reduce_state.
  intros [Hok _] Er (Ht & Hs). subst eof target.
  destruct (Hok eq_refl) as (Hpos & Hsize & Hc). clear Hok.
  assert (Hsnoc := mem_range_snoc buf start pos Hs ltac:(lia)).
  pose proof (wrap64_le start ltac:(lia)) as Hw.
  unfold NextChar. reduce_state.
  destruct (c =? 10); [|destruct (c =? 9)]; reduce_state;
    (destruct (pos + 1 <? size) eqn:Elt; reduce_state;
     [ split; [split; [reflexivity | lia]|];
       rewrite Hsnoc, Hc, app_assoc; reflexivity
     | apply Z.ltb_ge in Elt;
       assert (Hflush : (wrap64 start <? size) = true) by (apply Z.ltb_lt; lia);
       assert (Hsz : size = pos + 1) by lia;
       unfold Refresh, append_to_record_target, upb_String_Append; reduce_state;
       rewrite Hflush; cbn [andb]; cbv iota; reduce_state;
       destruct inp as [|data rest]; unfold upb_ZeroCopyInputStream_Next;
       reduce_state;
       [ change (0 >? 0) with false
       | destruct (Z.of_nat (length data) >? 0) ]; reduce_state;
       (split; [split; [reflexivity | lia]|]);
       rewrite Hsz, Hsnoc, Hc; unfold mem_range;
       change (Z.to_nat (0 - 0)) with 0%nat; cbn [firstn];
       rewrite app_nil_r, app_assoc; reflexivity ]).
Qed.

Lemma StartToken_recorded (t : upb_Tokenizer) :
  wf t -> recording (StartToken t) /\ recorded_text (StartToken t) = [].
Proof.
  destruct t as [cur prev inp errs c buf size pos eof ln col target start cont
                 o1 o2 o3 o4 o5 o6].
  unfold wf, recording, recorded_text, StartToken, RecordTo.
  reduce_state. intros [Hok Heof]. unfold upb_String_Clear, mem_range.
  rewrite Z.sub_diag. change (Z.to_nat 0) with 0%nat. cbn [firstn app].
  split; [|reflexivity]. split; [reflexivity|].
  destruct eof;
    [destruct (Heof eq_refl) as (? & ? & ?) | destruct (Hok eq_refl) as (? & ? & ?)];
    lia.
Qed.

Lemma EndToken_text (t : upb_Tokenizer) :
  recording t -> tok_text (current (EndToken t)) = recorded_text t.
Proof.
  intros [Ht _]. unfold EndToken, StopRecording, append_to_record_target, recorded_text.
  rewrite Ht. reflexivity.
Qed.

(** The run of alphanumeric bytes consumed after the first letter is what
    the recording holds. *)
Lemma ConsumeZeroOrMore_identifier (c0 : char) (fuel n : nat) :
  (n < fuel)%nat ->
  runs (ConsumeZeroOrMore fuel Alphanumeric)
       (fun t => good n p t /\
                 (recording t /\
                  exists cs, recorded_text t = c0 :: cs /\
                             Forall (fun c => Alphanumeric c = true) cs))
       (fun _ t' => good n p t' /\
                    (recording t' /\
                     exists cs, recorded_text t' = c0 :: cs /\
                                Forall (fun c => Alphanumeric c = true) cs)).
Proof.
  intros Hlt. apply ConsumeZeroOrMore_inv; [reflexivity | | assumption].
  intros t Hwf Er Hc (Hrec & cs & Htext & Hall).
  destruct (NextChar_recorded t Hwf Er Hrec) as [Hrec' Htext'].
  split; [assumption|]. exists (cs ++ [current_char t]). split.
  - rewrite Htext', Htext. reflexivity.
  - apply Forall_app. split; [assumption | constructor; [assumption | constructor]].
Qed.

Lemma keeps_number_type (fuel n : nat) (z d : bool) :
  (n < fuel)%nat ->
  keeps n p (ty <- ConsumeNumber fuel z d ;; set_current_type ty)
        (fun _ t' => tok_type (current t') <> UPB_TOKENTYPE_IDENTIFIER).
Proof.
  intros Hlt t Hg.
  destruct (keeps_ConsumeNumber fuel n z d Hlt t Hg) as (ty & t1 & E & Hg1 & Hty).
  rewrite (bind_eq _ _ _ _ _ E). unfold set_current_type, lift.
  eexists tt, _. split; [reflexivity|]. split.
  - apply good_frame; [frame_tac | assumption].
  - reduce_state. destruct Hty as [-> | ->]; discriminate.
Qed.

Lemma keeps_set_type_other (n : nat) (ty : upb_TokenType) :
  ty <> UPB_TOKENTYPE_IDENTIFIER ->
  keeps n p (set_current_type ty)
        (fun _ t' => tok_type (current t') <> UPB_TOKENTYPE_IDENTIFIER).
Proof.
  intros Hty t Hg. unfold set_current_type, lift.
  eexists tt, _. split; [reflexivity|]. split.
  - apply good_frame; [frame_tac | assumption].
  - reduce_state. assumption.
Qed.

Ltac keeps_token :=
  cbv beta;
  lazymatch goal with
  | |- keeps _ _ (bind (ConsumeNumber _ _ _) _) _ =>
      apply keeps_number_type; assumption
  | |- keeps _ _ (bind _ _) _ => apply keeps_bind; [keeps_tac | intros ?; keeps_token]
  | |- keeps _ _ (if _ then _ else _) _ => apply keeps_if; keeps_token
  | |- keeps _ _ (set_current_type _) _ => apply keeps_set_type_other; discriminate
  | |- _ => idtac
  end.

Lemma Next_token_runs (fuel n : nat) :
  (n < fuel)%nat ->
  runs (Next_token fuel) (good n p)
       (fun b t' => good n p t' /\ b = true /\ identifier_ok t').
Proof.
  intros Hlt t Hg. unfold Next_token. rewrite bind_lift.
  destruct (StartToken_recorded t (proj1 Hg)) as [Hrec0 Htext0].
  assert (Hg0 : good n p (StartToken t))
    by (apply good_frame; [apply frame_StartToken | assumption]).
  set (t0 := StartToken t) in *. rewrite bind_bind.
  destruct (Letter (current_char t0)) eqn:EL.
  - rewrite (bind_TryConsumeOne_true _ _ _ EL). cbv iota. rewrite bind_bind.
    assert (Er : read_error t0 = false).
    { apply wf_not_eof; [apply Hg0|]. eapply class_nonzero; [|exact EL]. reflexivity. }
    destruct (NextChar_recorded t0 (proj1 Hg0) Er Hrec0) as [Hrec1 Htext1].
    rewrite Htext0 in Htext1. cbn [app] in Htext1.
    destruct (ConsumeZeroOrMore_identifier (current_char t0) fuel n Hlt (NextChar t0))
      as ([] & t2 & E2 & Hg2 & Hrec2 & cs & Htext2 & Hall2).
    { split; [apply good_NextChar; assumption|]. split; [assumption|].
      exists []. split; [assumption | constructor]. }
    rewrite (bind_eq _ _ _ _ _ E2). unfold set_current_type. rewrite !bind_lift.
    eexists true, _. split; [reflexivity|]. split; [|split; [reflexivity|]].
    + apply good_frame; [apply frame_EndToken|].
      apply good_frame; [frame_tac | assumption].
    + intros _. rewrite EndToken_text by exact Hrec2.
      exists (current_char t0), cs. split; [|split; assumption].
      exact Htext2.
  - rewrite (bind_TryConsumeOne_false _ _ _ EL). cbv iota.
    match goal with
    | |- exists a t', bind ?body ?rest t0 = _ /\ _ =>
        assert (Hbody : keeps n p body
                  (fun _ t' => tok_type (current t') <> UPB_TOKENTYPE_IDENTIFIER))
    end.
    { keeps_token.
      - apply keeps_ConsumeString. assumption.
      - apply keeps_ConsumeString. assumption. }
    destruct (Hbody t0 Hg0) as (a & t2 & E2 & Hg2 & Hty).
    rewrite (bind_eq _ _ _ _ _ E2). rewrite bind_lift.
    eexists true, _. split; [reflexivity|]. split; [|split; [reflexivity|]].
    + apply good_frame; [apply frame_EndToken | assumption].
    + intros Hid. rewrite tok_type_EndToken in Hid. contradiction.
Qed.

(** *** The main loop *)

Lemma Next_eof_runs (n : nat) :
  runs Next_eof (fun t => good n p t /\ read_error t = true)
       (fun b t' => good n p t' /\ next_post b t').
Proof.
  intros t [Hg Er]. unfold Next_eof, set_current_type. rewrite !bind_lift.
  eexists false, _. split; [reflexivity|]. split; [|split].
  - eapply same_reader_good; [| |exact Hg]; repeat split.
  - intros _. split; [exact Er | reflexivity].
  - intros H. discriminate H.
Qed.

Lemma Next_loop_runs :
  forall fuel n, (n < fuel)%nat ->
    runs (Next_loop fuel) (good n p) (fun b t' => good n p t' /\ next_post b t').
Proof.
  induction fuel as [|fuel IH]; intros n Hlt t Hg; [lia|].
  cbn [Next_loop].
  destruct (read_error t) eqn:Er; [apply Next_eof_runs; split; assumption|].
  assert (Hrec : forall t1, consumed n p t1 ->
            exists b t', Next_loop fuel t1 = Some (b, t') /\
                         good n p t' /\ next_post b t').
  { intros t1 (n' & -> & Hg1).
    destruct (IH n' ltac:(lia) t1 Hg1) as (b & t' & E & Hg' & Hpost).
    exists b, t'. split; [assumption|].
    split; [apply good_mono with n'; [lia | assumption] | assumption]. }
  rewrite bind_lift.
  assert (Hg0 : good n p (StartToken t))
    by (apply good_frame; [apply frame_StartToken | assumption]).
  destruct (whitespace_or_newline_runs (S fuel) n Hlt _ Hg0)
    as (report & t1 & E1 & Hg1 & Hty1).
  rewrite (bind_eq _ _ _ _ _ E1). rewrite bind_lift.
  assert (Hg2 : good n p (EndToken t1))
    by (apply good_frame; [apply frame_EndToken | assumption]).
  destruct report.
  { eexists true, _. split; [reflexivity|]. split; [assumption|]. split.
    - discriminate.
    - intros Hid. rewrite tok_type_EndToken in Hid.
      destruct (Hty1 eq_refl) as [H | H]; rewrite H in Hid; discriminate. }
  destruct (TryConsumeCommentStart_runs n _ Hg2) as (status & t3 & E3 & Hpost3).
  rewrite (bind_eq _ _ _ _ _ E3).
  destruct status.
  - (* LINE_COMMENT *)
    destruct Hpost3 as (n' & -> & Hg3).
    destruct (keeps_ConsumeLineComment (S fuel) n' false ltac:(lia) t3 Hg3)
      as ([] & t4 & E4 & Hg4 & _).
    rewrite (bind_eq _ _ _ _ _ E4). apply Hrec. exists n'. split; [reflexivity | assumption].
  - (* BLOCK_COMMENT *)
    destruct Hpost3 as (n' & -> & Hg3).
    destruct (keeps_ConsumeBlockComment (S fuel) n' false ltac:(lia) t3 Hg3)
      as ([] & t4 & E4 & Hg4 & _).
    rewrite (bind_eq _ _ _ _ _ E4). apply Hrec. exists n'. split; [reflexivity | assumption].
  - (* SLASH_NOT_COMMENT *)
    destruct Hpost3 as [Hg3 Hty3].
    exists true, t3. split; [reflexivity|]. split; [assumption|]. split.
    + discriminate.
    + intros Hid. rewrite Hty3 in Hid. discriminate.
  - (* NO_COMMENT *)
    rewrite bind_gets.
    destruct (read_error t3) eqn:Er3; [apply Next_eof_runs; split; assumption|].
    rewrite bind_gets.
    destruct (Unprintable (current_char t3) || (current_char t3 =? 0)).
    + rewrite !bind_lift.
      assert (Hc : consumed n p (NextChar (AddError MsgInvalidControlCharacters t3))).
      { apply consumed_NextChar; [|exact Er3].
        apply good_frame; [apply frame_AddError | assumption]. }
      destruct Hc as (n' & -> & Hg4).
      destruct (keeps_Next_skip_unprintable (S fuel) n' ltac:(lia) _ Hg4)
        as ([] & t5 & E5 & Hg5 & _).
      rewrite (bind_eq _ _ _ _ _ E5). apply Hrec. exists n'. split; [reflexivity | assumption].
    + destruct (Next_token_runs (S fuel) n Hlt t3 Hpost3) as (b & t' & E & Hg' & -> & Hid).
      exists true, t'. split; [assumption|]. split; [assumption|]. split.
      * discriminate.
      * assumption.
Qed.

End Scanner.

(** ** upb_Tokenizer_Next as a whole *)

Lemma upb_Token_Copy_eq (des src : upb_Token) : upb_Token_Copy des src = src.
Proof. destruct src. reflexivity. Qed.

Lemma New_wf (data : list char) (input : list (list char)) :
  wf (upb_Tokenizer_New data input).
Proof.
  unfold upb_Tokenizer_New. cbv zeta.
  destruct (Z.of_nat (length data) =? 0) eqn:E; cbn [negb]; cbv iota.
  - apply Refresh_wf. reduce_state. discriminate.
  - apply Z.eqb_neq in E. unfold wf. reduce_state.
    split; intros H; [|discriminate]. repeat split; try lia.
Qed.

(** [upb_Tokenizer_Next] returns from every state of the reader invariant
    and keeps it; the unread bytes do not grow, [previous] is the old
    [current], a false result leaves the END token, and an IDENTIFIER token
    has the shape of an identifier. *)
Lemma Next_total (t : upb_Tokenizer) :
  wf t ->
  exists b t',
    upb_Tokenizer_Next t = Some (b, t') /\ wf t' /\
    (unread t' <= unread t)%nat /\ previous t' = current t /\ next_post b t'.
Proof.
  intros Hwf. unfold upb_Tokenizer_Next. rewrite bind_lift.
  set (t0 := set_previous (upb_Token_Copy (previous t) (current t)) t).
  assert (Hg0 : good (unread t) (current t) t0).
  { split; [|split].
    - eapply same_reader_wf; [|exact Hwf]. repeat split.
    - rewrite (same_reader_unread t t0) by (repeat split). lia.
    - subst t0. reduce_state. apply upb_Token_Copy_eq. }
  destruct (Next_loop_runs (current t) (S (unread t)) (unread t) ltac:(lia) t0 Hg0)
    as (b & t' & E & (Hwf' & Hu & Hp) & Hpost).
  exists b, t'. split; [assumption|]. split; [assumption|].
  split; [assumption|]. split; assumption.
Qed.

(** ** The claims on the scanner *)

(** The counters of a fresh tokenizer, and their growth per byte. *)
Lemma New_line_column (data : list char) (stream : list (list char)) :
  line (upb_Tokenizer_New data stream) = 0 /\
  column (upb_Tokenizer_New data stream) = 0.
Proof.
  unfold upb_Tokenizer_New. cbv zeta.
  destruct (Z.of_nat (length data) =? 0); cbn [negb]; cbv iota.
  - match goal with
    | |- line (Refresh ?u) = _ /\ _ =>
        rewrite (proj1 (Refresh_position u)), (proj1 (proj2 (Refresh_position u)))
    end.
    split; reflexivity.
  - split; reflexivity.
Qed.

Lemma NextChar_counters_grow (t : upb_Tokenizer) (n : Z) :
  0 <= line t <= n -> 0 <= column t <= 8 * n -> 8 * (n + 1) <= INT_MAX - 7 ->
  0 <= line (NextChar t) <= n + 1 /\ 0 <= column (NextChar t) <= 8 * (n + 1).
Proof.
  intros Hl Hc Hn. destruct (NextChar_line_column t) as [El Ec].
  rewrite El, Ec. unfold kTabWidth, INT_MAX in *.
  rewrite Z.rem_mod_nonneg by lia.
  destruct (current_char t =? 10); [|destruct (current_char t =? 9)];
    rewrite wrap_int_small
      by (unfold INT_MIN, INT_MAX; Z.div_mod_to_equations; lia);
    split; try lia; Z.div_mod_to_equations; lia.
Qed.

(** C4.  [line] and [column] are [int] counters.  For every byte [NextChar]
    consumes while they are below the largest [int] (so that the addition
    does not overflow): a newline sets the column to 0 and increments the
    line; a tab moves the column to the next multiple of 8 and keeps the
    line; any other byte adds 1 to the column and keeps the line; columns do
    not become negative.  The counters of a tokenizer made by
    [upb_Tokenizer_New] are in that range: after [n] bytes, with 8 (n + 1)
    not above INT_MAX - 7, the line is at most [n] and the column at most
    8 n.  So the identifier A of the input tab A starts at column 8, that of
    tab tab A at column 16, and the C of AB tab C at column 8. *)
Theorem NextChar_counts_lines_and_columns :
  (forall t, 0 <= column t ->
     (current_char t = 10 -> INT_MIN <= line t < INT_MAX ->
      column (NextChar t) = 0 /\ line (NextChar t) = line t + 1) /\
     (current_char t = 9 -> column t < INT_MAX - 7 ->
      line (NextChar t) = line t /\
      column t < column (NextChar t) <= column t + 8 /\
      column (NextChar t) mod 8 = 0) /\
     (current_char t <> 10 -> current_char t <> 9 -> column t < INT_MAX ->
      line (NextChar t) = line t /\ column (NextChar t) = column t + 1) /\
     (column t < INT_MAX - 7 -> 0 <= column (NextChar t))) /\
  (forall data stream n,
     8 * (Z.of_nat n + 1) <= INT_MAX - 7 ->
     0 <= line (Nat.iter n NextChar (upb_Tokenizer_New data stream)) <= Z.of_nat n /\
     0 <= column (Nat.iter n NextChar (upb_Tokenizer_New data stream))
       <= 8 * Z.of_nat n) /\
  map text_and_column (tokens_of 3 (upb_Tokenizer_New (9 :: bytes "A") []))
  = [(bytes "A", 8)] /\
  map text_and_column (tokens_of 3 (upb_Tokenizer_New (9 :: 9 :: bytes "A") []))
  = [(bytes "A", 16)] /\
  map text_and_column (tokens_of 3 (upb_Tokenizer_New (bytes "AB" ++ 9 :: bytes "C") []))
  = [(bytes "AB", 0); (bytes "C", 8)].
Proof.
  split; [|split; [|repeat split; vm_compute; reflexivity]].
  - intros t Hcol. destruct (NextChar_line_column t) as [Hl Hc].
    rewrite Hl, Hc. unfold kTabWidth.
    rewrite Z.rem_mod_nonneg by lia.
    split; [|split; [|split]].
    + intros E10 Hline. rewrite E10. change (10 =? 10) with true. cbv iota.
      rewrite wrap_int_small by (unfold INT_MIN, INT_MAX in *; lia).
      split; reflexivity.
    + intros E9 Hb. rewrite E9. change (9 =? 10) with false.
      change (9 =? 9) with true. cbv iota.
      rewrite wrap_int_small
        by (unfold INT_MIN, INT_MAX in *; Z.div_mod_to_equations; lia).
      split; [reflexivity|]. split; Z.div_mod_to_equations; lia.
    + intros N10 N9 Hb. apply Z.eqb_neq in N10, N9. rewrite N10, N9.
      rewrite wrap_int_small by (unfold INT_MIN, INT_MAX in *; lia).
      split; reflexivity.
    + intros Hb. destruct (current_char t =? 10); [lia|].
      destruct (current_char t =? 9);
        rewrite wrap_int_small
          by (unfold INT_MIN, INT_MAX in *; Z.div_mod_to_equations; lia);
        Z.div_mod_to_equations; lia.
  - intros data stream n. induction n as [|n IH]; intros Hn.
    + change (Nat.iter 0 NextChar (upb_Tokenizer_New data stream))
        with (upb_Tokenizer_New data stream).
      destruct (New_line_column data stream) as [-> ->].
      cbn [Z.of_nat]. lia.
    + rewrite Nat.iter_succ.
      destruct IH as [IHl IHc]; [lia|].
      replace (Z.of_nat (S n)) with (Z.of_nat n + 1) by lia.
      apply NextChar_counters_grow; [exact IHl | exact IHc | lia].
Qed.

Lemma NextChar_counts_lines_and_columns_witness :
  line (NextChar (upb_Tokenizer_New (9 :: bytes "A") [])) =
  line (upb_Tokenizer_New (9 :: bytes "A") []) /\
  column (upb_Tokenizer_New (9 :: bytes "A") []) <
  column (NextChar (upb_Tokenizer_New (9 :: bytes "A") [])) <=
  column (upb_Tokenizer_New (9 :: bytes "A") []) + 8 /\
  column (NextChar (upb_Tokenizer_New (9 :: bytes "A") [])) mod 8 = 0.
Proof.
  apply (proj1 (proj2 (proj1 NextChar_counts_lines_and_columns
                         (upb_Tokenizer_New (9 :: bytes "A") [])
                         ltac:(vm_compute; discriminate)))).
  - reflexivity.
  - vm_compute. reflexivity.
Defined.

(** C5.  From every state of the reader invariant a call of
    [upb_Tokenizer_Next] returns (true or false), and afterwards the
    previous token is the token that was current before the call: the two
    are equal as values, text bytes included, and so is each of the
    [Previous] accessors. *)
Theorem Next_previous_is_old_current :
  forall t, wf t ->
    exists b t',
      upb_Tokenizer_Next t = Some (b, t') /\ wf t' /\
      previous t' = current t /\
      upb_Tokenizer_PreviousType t' = upb_Tokenizer_CurrentType t /\
      upb_Tokenizer_PreviousLine t' = upb_Tokenizer_CurrentLine t /\
      upb_Tokenizer_PreviousColumn t' = upb_Tokenizer_CurrentColumn t /\
      upb_Tokenizer_PreviousEndColumn t' = upb_Tokenizer_CurrentEndColumn t /\
      upb_Tokenizer_PreviousTextData t' = upb_Tokenizer_CurrentTextData t /\
      upb_Tokenizer_PreviousTextSize t' = upb_Tokenizer_CurrentTextSize t.
Proof.
  intros t Hwf. destruct (Next_total t Hwf) as (b & t' & E & Hwf' & _ & Hp & _).
  exists b, t'. split; [assumption|]. split; [assumption|]. split; [assumption|].
  unfold upb_Tokenizer_PreviousType, upb_Tokenizer_PreviousLine,
    upb_Tokenizer_PreviousColumn, upb_Tokenizer_PreviousEndColumn,
    upb_Tokenizer_PreviousTextData, upb_Tokenizer_PreviousTextSize.
  rewrite Hp. repeat split.
Qed.

Lemma Next_previous_is_old_current_witness :
  exists b t',
    upb_Tokenizer_Next (upb_Tokenizer_New (bytes "a b") []) = Some (b, t') /\ wf t' /\
    previous t' = current (upb_Tokenizer_New (bytes "a b") []) /\
    upb_Tokenizer_PreviousType t' =
    upb_Tokenizer_CurrentType (upb_Tokenizer_New (bytes "a b") []) /\
    upb_Tokenizer_PreviousLine t' =
    upb_Tokenizer_CurrentLine (upb_Tokenizer_New (bytes "a b") []) /\
    upb_Tokenizer_PreviousColumn t' =
    upb_Tokenizer_CurrentColumn (upb_Tokenizer_New (bytes "a b") []) /\
    upb_Tokenizer_PreviousEndColumn t' =
    upb_Tokenizer_CurrentEndColumn (upb_Tokenizer_New (bytes "a b") []) /\
    upb_Tokenizer_PreviousTextData t' =
    upb_Tokenizer_CurrentTextData (upb_Tokenizer_New (bytes "a b") []) /\
    upb_Tokenizer_PreviousTextSize t' =
    upb_Tokenizer_CurrentTextSize (upb_Tokenizer_New (bytes "a b") []).
Proof.
  apply (Next_previous_is_old_current (upb_Tokenizer_New (bytes "a b") [])).
  apply New_wf.
Defined.





(** ** Identifiers *)

Lemma AllInClass_loop_spec (f : char -> bool) (text : list char) (n : nat) :
  forall i,
    AllInClass_loop f text i n = true <->
    (forall j, 0 <= j < Z.of_nat n -> f (at_ text (i + j)) = true).
Proof.
  induction n as [|n IH]; intros i; cbn [AllInClass_loop].
  - split; [intros _ j Hj; lia | reflexivity].
  - destruct (f (at_ text i)) eqn:E; cbn [negb]; cbv iota.
    + rewrite IH. split.
      * intros H j Hj. destruct (Z.eq_dec j 0) as [-> | Hne].
        -- rewrite Z.add_0_r. assumption.
        -- replace (i + j) with (i + 1 + (j - 1)) by lia. apply H. lia.
      * intros H j Hj. replace (i + 1 + j) with (i + (j + 1)) by lia. apply H. lia.
    + split; [discriminate|]. intros H.
      specialize (H 0 ltac:(lia)). rewrite Z.add_0_r in H. congruence.
Qed.

Lemma at_skipn_1 (text : list char) (j : Z) :
  0 <= j -> at_ (skipn 1 text) j = at_ text (j + 1).
Proof.
  intros Hj. unfold at_.
  destruct (j <? 0) eqn:E1; [lia|]. destruct (j + 1 <? 0) eqn:E2; [lia|].
  rewrite nth_skipn. f_equal. lia.
Qed.

Lemma IsIdentifier_iff (text : list char) (size : Z) :
  0 <= size ->
  upb_Tokenizer_IsIdentifier text size = true <->
  0 < size /\ Letter (at_ text 0) = true /\
  forall i, 1 <= i < size -> Alphanumeric (at_ text i) = true.
Proof.
  intros Hsize. unfold upb_Tokenizer_IsIdentifier, AllInClass.
  destruct (size =? 0) eqn:E0.
  { apply Z.eqb_eq in E0. split; [discriminate | lia]. }
  apply Z.eqb_neq in E0.
  destruct (Letter (at_ text 0)) eqn:EL; cbn [negb]; cbv iota.
  - destruct (AllInClass_loop Alphanumeric (skipn 1 text) 0 (Z.to_nat (size - 1)))
      eqn:EA; cbn [negb]; cbv iota.
    + pose proof (proj1 (AllInClass_loop_spec _ _ _ _) EA) as EA'.
      clear EA. rename EA' into EA.
      split; [intros _|reflexivity]. split; [lia|]. split; [reflexivity|].
      intros i Hi. specialize (EA (i - 1) ltac:(lia)).
      rewrite at_skipn_1 in EA by lia.
      replace (0 + (i - 1) + 1) with i in EA by lia. exact EA.
    + split; [discriminate|]. intros (_ & _ & H).
      assert (Hall : AllInClass_loop Alphanumeric (skipn 1 text) 0
                       (Z.to_nat (size - 1)) = true).
      { apply AllInClass_loop_spec. intros j Hj. rewrite at_skipn_1 by lia.
        apply H. lia. }
      congruence.
  - split; [discriminate|]. intros (_ & H & _). discriminate H.
Qed.

Lemma identifier_shape_IsIdentifier (text : list char) :
  identifier_shape text ->
  upb_Tokenizer_IsIdentifier text (upb_String_Size text) = true.
Proof.
  intros (c & cs & -> & HL & Hall). unfold upb_String_Size.
  apply IsIdentifier_iff; [lia|]. split; [simpl length; lia|].
  split; [exact HL|]. intros i Hi. unfold at_.
  destruct (i <? 0) eqn:E; [lia|].
  replace (Z.to_nat i) with (S (Z.to_nat (i - 1))) by lia. cbn [nth].
  rewrite Forall_forall in Hall. apply Hall, nth_In. simpl length in Hi. lia.
Qed.

(** C8.  If [upb_Tokenizer_Next], called on a state of the reader invariant,
    leaves a token of type IDENTIFIER, the text of that token is a letter or
    underscore followed by letters, digits and underscores, and
    [upb_Tokenizer_IsIdentifier] applied to the text and its length returns
    true.  For a size that is not negative, [IsIdentifier(text, size)] holds
    exactly when the size is positive, the first byte is a letter or
    underscore, and the bytes after it are alphanumeric or underscores.  The
    input foo_1 followed by a blank gives such a token. *)
Theorem IDENTIFIER_tokens_are_identifiers :
  (forall t b t',
     wf t -> upb_Tokenizer_Next t = Some (b, t') ->
     upb_Tokenizer_CurrentType t' = UPB_TOKENTYPE_IDENTIFIER ->
     identifier_shape (upb_Tokenizer_CurrentTextData t') /\
     upb_Tokenizer_IsIdentifier (upb_Tokenizer_CurrentTextData t')
                                (upb_Tokenizer_CurrentTextSize t') = true) /\
  (forall text size, 0 <= size ->
     upb_Tokenizer_IsIdentifier text size = true <->
     0 < size /\ Letter (at_ text 0) = true /\
     forall i, 1 <= i < size -> Alphanumeric (at_ text i) = true) /\
  map (fun k => (tok_type k, tok_text k))
      (tokens_of 3 (upb_Tokenizer_New (bytes "foo_1 ") []))
  = [(UPB_TOKENTYPE_IDENTIFIER, bytes "foo_1")].
Proof.
  split; [|split; [exact IsIdentifier_iff | vm_compute; reflexivity]].
  intros t b t' Hwf E Hty.
  destruct (Next_total t Hwf) as (b0 & t0 & E0 & _ & _ & _ & _ & Hid).
  rewrite E in E0. injection E0 as <- <-.
  unfold upb_Tokenizer_CurrentType, upb_Tokenizer_CurrentTextData,
    upb_Tokenizer_CurrentTextSize in *.
  specialize (Hid Hty). split; [exact Hid|].
  apply identifier_shape_IsIdentifier. exact Hid.
Qed.

Lemma IDENTIFIER_tokens_are_identifiers_witness :
  identifier_shape
    (upb_Tokenizer_CurrentTextData
       (set_current (mkToken UPB_TOKENTYPE_IDENTIFIER 0 0 1 (bytes "a"))
          (set_previous upb_Token_Init
             (set_column 1 (set_read_error true
                (set_current_char 0 (set_buffer_size 0 (set_buffer []
                   (upb_Tokenizer_New (bytes "a") []))))))))) /\
  upb_Tokenizer_IsIdentifier
    (upb_Tokenizer_CurrentTextData
       (set_current (mkToken UPB_TOKENTYPE_IDENTIFIER 0 0 1 (bytes "a"))
          (set_previous upb_Token_Init
             (set_column 1 (set_read_error true
                (set_current_char 0 (set_buffer_size 0 (set_buffer []
                   (upb_Tokenizer_New (bytes "a") [])))))))))
    (upb_Tokenizer_CurrentTextSize
       (set_current (mkToken UPB_TOKENTYPE_IDENTIFIER 0 0 1 (bytes "a"))
          (set_previous upb_Token_Init
             (set_column 1 (set_read_error true
                (set_current_char 0 (set_buffer_size 0 (set_buffer []
                   (upb_Tokenizer_New (bytes "a") []))))))))) = true.
Proof.
  apply (proj1 IDENTIFIER_tokens_are_identifiers
           (upb_Tokenizer_New (bytes "a") []) true).
  - apply New_wf.
  - vm_compute. reflexivity.
  - reflexivity.
Defined.

(** * Further properties of the code *)

(** ** The digit table and the character classes *)

Lemma DigitValue_mod (c : char) : DigitValue c = DigitValue (c mod 256).
Proof.
  unfold DigitValue. change 255 with (Z.ones 8).
  rewrite !Z.land_ones by lia. change (2 ^ 8) with 256.
  rewrite Z.mod_mod by lia. reflexivity.
Qed.

(** X1.  [DigitValue] reads the table at [digit & 0xFF], so it depends on
    the byte only (a signed and an unsigned [char] give the same value), and
    the table holds: the value of a decimal digit, 10 to 35 for the letters
    a to z and, alike, for A to Z, and 36 for every other byte. *)
Theorem DigitValue_closed_form :
  forall c,
    DigitValue c = DigitValue (c mod 256) /\
    DigitValue (c mod 256) =
    (let b := c mod 256 in
     if (ch "0" <=? b) && (b <=? ch "9") then b - ch "0"
     else if (ch "a" <=? b) && (b <=? ch "z") then b - ch "a" + 10
     else if (ch "A" <=? b) && (b <=? ch "Z") then b - ch "A" + 10
     else 36).
Proof.
  intros c. split; [apply DigitValue_mod|].
  assert (Hb : 0 <= c mod 256 < 256) by (apply Z.mod_pos_bound; lia).
  revert Hb. generalize (c mod 256). intros b Hb. cbv zeta.
  apply Z.eqb_eq.
  apply (all_bytes_spec
           (fun b => DigitValue b =?
              (if (ch "0" <=? b) && (b <=? ch "9") then b - ch "0"
               else if (ch "a" <=? b) && (b <=? ch "z") then b - ch "a" + 10
               else if (ch "A" <=? b) && (b <=? ch "Z") then b - ch "A" + 10
               else 36))); [vm_compute; reflexivity | assumption].
Qed.

(** X2.  On bytes, the digit classes of the scanner are the digit values the
    literal parsers accept: an octal digit has a value below 8, a decimal
    digit below 10, a hex digit below 16 (and conversely), and a byte is
    alphanumeric exactly when its value is below 36 or it is the
    underscore. *)
Theorem digit_classes_match_DigitValue :
  forall c, 0 <= c < 256 ->
    (OctalDigit c = true <-> DigitValue c < 8) /\
    (Digit c = true <-> DigitValue c < 10) /\
    (HexDigit c = true <-> DigitValue c < 16) /\
    (Alphanumeric c = true <-> DigitValue c < 36 \/ c = ch "_").
Proof.
  intros c Hc.
  assert (H : (Bool.eqb (OctalDigit c) (DigitValue c <? 8) &&
               Bool.eqb (Digit c) (DigitValue c <? 10) &&
               Bool.eqb (HexDigit c) (DigitValue c <? 16) &&
               Bool.eqb (Alphanumeric c) ((DigitValue c <? 36) || (c =? ch "_")))
              = true).
  { revert c Hc.
    apply (all_bytes_spec
             (fun c => Bool.eqb (OctalDigit c) (DigitValue c <? 8) &&
                       Bool.eqb (Digit c) (DigitValue c <? 10) &&
                       Bool.eqb (HexDigit c) (DigitValue c <? 16) &&
                       Bool.eqb (Alphanumeric c)
                                ((DigitValue c <? 36) || (c =? ch "_")))).
    vm_compute. reflexivity. }
  apply andb_prop in H. destruct H as [H H4].
  apply andb_prop in H. destruct H as [H H3].
  apply andb_prop in H. destruct H as [H1 H2].
  apply Bool.eqb_prop in H1, H2, H3, H4.
  rewrite H1, H2, H3, H4, orb_true_iff, !Z.ltb_lt, Z.eqb_eq.
  repeat split; auto.
Qed.

Lemma digit_classes_match_DigitValue_witness :
  (OctalDigit (ch "7") = true <-> DigitValue (ch "7") < 8) /\
  (Digit (ch "7") = true <-> DigitValue (ch "7") < 10) /\
  (HexDigit (ch "7") = true <-> DigitValue (ch "7") < 16) /\
  (Alphanumeric (ch "7") = true <-> DigitValue (ch "7") < 36 \/ ch "7" = ch "_").
Proof.
  apply (digit_classes_match_DigitValue (ch "7")). vm_compute. split; [discriminate | reflexivity].
Defined.

Ltac bool_to_prop :=
  rewrite ?andb_true_iff, ?orb_true_iff, ?negb_true_iff, ?Z.leb_le, ?Z.ltb_lt,
    ?Z.eqb_eq, ?Z.eqb_neq in *.

Ltac class_unfold :=
  unfold OctalDigit, Digit, HexDigit, Alphanumeric, Letter, Whitespace,
    WhitespaceNoNewline, Unprintable, Escape in *;
  change (ch "x") with 120 in *; change (ch "u") with 117 in *;
  change (ch "U") with 85 in *.

Ltac class_implies :=
  apply implb_true_iff; class_unfold; intros H; bool_to_prop; lia.

Ltac class_disjoint :=
  apply not_true_is_false; class_unfold; intros H; bool_to_prop; lia.

(** X3.  How the character classes lie in each other, for every value of
    the argument: octal digits are digits, digits are hex digits, hex digits
    and letters are alphanumeric, and alphanumeric is letter or digit; no
    byte is both a letter and a digit; [Whitespace] is
    [WhitespaceNoNewline] plus the newline; every whitespace byte but the
    blank is also [Unprintable], which shares no byte with the
    alphanumerics; an [Escape] byte is neither an octal digit nor one of x,
    u and U, the escapes [upb_Parse_StringAppend] tests first; and no class
    holds the NUL byte that stands for the end of the input. *)
Theorem character_class_relations :
  forall c,
    implb (OctalDigit c) (Digit c) = true /\
    implb (Digit c) (HexDigit c) = true /\
    implb (HexDigit c) (Alphanumeric c) = true /\
    Alphanumeric c = Letter c || Digit c /\
    Letter c && Digit c = false /\
    Whitespace c = WhitespaceNoNewline c || (c =? 10) /\
    implb (Whitespace c && negb (c =? 32)) (Unprintable c) = true /\
    Unprintable c && Alphanumeric c = false /\
    implb (Escape c) (negb (OctalDigit c) && negb (c =? ch "x") &&
                      negb (c =? ch "u") && negb (c =? ch "U")) = true /\
    (c = 0 ->
     Whitespace c || WhitespaceNoNewline c || Unprintable c || Digit c ||
     OctalDigit c || HexDigit c || Letter c || Alphanumeric c || Escape c = false).
Proof.
  intros c.
  split; [class_implies|]. split; [class_implies|]. split; [class_implies|].
  split; [apply eq_true_iff_eq; class_unfold; bool_to_prop; lia|].
  split; [class_disjoint|].
  split; [apply eq_true_iff_eq; class_unfold; bool_to_prop; lia|].
  split; [class_implies|].
  split; [class_disjoint|].
  split; [|intros ->; reflexivity].
  apply implb_true_iff. intros H.
  unfold Escape in H. rewrite !orb_true_iff, !Z.eqb_eq in H.
  repeat destruct H as [H | H]; subst c; reflexivity.
Qed.

(** ** ghtonl *)

Lemma ghtonl_value (x : Z) :
  ghtonl x =
  byte_of 0 x * 2 ^ 24 + byte_of 1 x * 2 ^ 16 + byte_of 2 x * 2 ^ 8 + byte_of 3 x.
Proof.
  assert (H0 : wrap32 (Z.shiftl (Z.land x 255) 24) = byte_of 0 x * 2 ^ 24).
  { change 255 with (Z.shiftl (Z.ones 8) 0). rewrite field_shift by lia.
    unfold byte_of. change (8 * 0) with 0. reflexivity. }
  assert (H1 : wrap32 (Z.shiftl (Z.land x 65280) 8) = byte_of 1 x * 2 ^ 16).
  { change 65280 with (Z.shiftl (Z.ones 8) 8). rewrite field_shift by lia.
    unfold byte_of. reflexivity. }
  assert (H2 : Z.shiftr (Z.land x 16711680) 8 = byte_of 2 x * 2 ^ 8).
  { change 16711680 with (Z.shiftl (Z.ones 8) 16).
    rewrite land_shifted_ones, Z.land_ones, !Z.shiftr_div_pow2 by lia.
    unfold byte_of. change (8 * 2) with 16.
    change (2 ^ 8) with 256. change (2 ^ 16) with 65536.
    Z.div_mod_to_equations; lia. }
  assert (H3 : Z.shiftr (Z.land x 4278190080) 24 = byte_of 3 x).
  { change 4278190080 with (Z.shiftl (Z.ones 8) 24).
    rewrite land_shifted_ones, Z.land_ones, !Z.shiftr_div_pow2 by lia.
    unfold byte_of. change (8 * 3) with 24.
    change (2 ^ 8) with 256. change (2 ^ 24) with 16777216.
    Z.div_mod_to_equations; lia. }
  assert (Hb : forall i, 0 <= byte_of i x < 256)
    by (intros i; apply Z.mod_pos_bound; lia).
  pose proof (Hb 0) as B0. pose proof (Hb 1) as B1.
  pose proof (Hb 2) as B2. pose proof (Hb 3) as B3.
  unfold ghtonl. rewrite H0, H1, H2, H3.
  rewrite (lor_high_low (byte_of 0 x) (byte_of 1 x * 2 ^ 16) 24)
    by (change (2 ^ 16) with 65536; change (2 ^ 24) with 16777216; lia).
  replace (byte_of 0 x * 2 ^ 24 + byte_of 1 x * 2 ^ 16)
    with ((byte_of 0 x * 2 ^ 8 + byte_of 1 x) * 2 ^ 16)
    by (change (2 ^ 24) with (2 ^ 8 * 2 ^ 16); ring).
  rewrite (lor_high_low _ (byte_of 2 x * 2 ^ 8) 16)
    by (change (2 ^ 16) with 65536; change (2 ^ 8) with 256; lia).
  replace ((byte_of 0 x * 2 ^ 8 + byte_of 1 x) * 2 ^ 16 + byte_of 2 x * 2 ^ 8)
    with (((byte_of 0 x * 2 ^ 8 + byte_of 1 x) * 2 ^ 8 + byte_of 2 x) * 2 ^ 8)
    by (change (2 ^ 16) with (2 ^ 8 * 2 ^ 8); ring).
  rewrite (lor_high_low _ (byte_of 3 x) 8) by (change (2 ^ 8) with 256; lia).
  change (2 ^ 24) with (2 ^ 8 * 2 ^ 8 * 2 ^ 8). change (2 ^ 16) with (2 ^ 8 * 2 ^ 8).
  ring.
Qed.

Lemma bytes_value (x : Z) :
  0 <= x < 2 ^ 32 ->
  x = byte_of 3 x * 2 ^ 24 + byte_of 2 x * 2 ^ 16 + byte_of 1 x * 2 ^ 8 + byte_of 0 x.
Proof.
  intros Hx. unfold byte_of.
  change (2 ^ (8 * 0)) with 1. change (2 ^ (8 * 1)) with 256.
  change (2 ^ (8 * 2)) with 65536. change (2 ^ (8 * 3)) with 16777216.
  change (2 ^ 24) with 16777216. change (2 ^ 16) with 65536. change (2 ^ 8) with 256.
  change (2 ^ 32) with 4294967296 in Hx.
  Z.div_mod_to_equations; lia.
Qed.

(** X4.  [ghtonl] reverses the four bytes of a [uint32_t]: byte [i] of the
    result is byte [3 - i] of the argument, the result is a [uint32_t]
    again, and applying [ghtonl] twice gives the argument back. *)
Theorem ghtonl_reverses_bytes :
  forall x, 0 <= x < 2 ^ 32 ->
    0 <= ghtonl x < 2 ^ 32 /\
    (forall i, 0 <= i <= 3 -> byte_of i (ghtonl x) = byte_of (3 - i) x) /\
    ghtonl (ghtonl x) = x.
Proof.
  intros x Hx.
  assert (Hb : forall i y, 0 <= byte_of i y < 256)
    by (intros i y; apply Z.mod_pos_bound; lia).
  assert (Hrange : forall y, 0 <= ghtonl y < 2 ^ 32).
  { intros y. rewrite ghtonl_value.
    pose proof (Hb 0 y). pose proof (Hb 1 y). pose proof (Hb 2 y). pose proof (Hb 3 y).
    change (2 ^ 24) with 16777216. change (2 ^ 16) with 65536. change (2 ^ 8) with 256.
    change (2 ^ 32) with 4294967296. lia. }
  assert (Hbytes : forall y i, 0 <= i <= 3 -> byte_of i (ghtonl y) = byte_of (3 - i) y).
  { intros y i Hi. pose proof (memory_bytes32_ghtonl y) as E.
    rewrite memory_bytes32_bytes in E. injection E as E0 E1 E2 E3.
    assert (Ei : i = 0 \/ i = 1 \/ i = 2 \/ i = 3) by lia.
    destruct Ei as [-> | [-> | [-> | ->]]]; assumption. }
  split; [apply Hrange|]. split; [apply Hbytes|].
  rewrite ghtonl_value.
  rewrite !Hbytes by lia.
  change (3 - 0) with 3. change (3 - 1) with 2. change (3 - 2) with 1.
  change (3 - 3) with 0. symmetry. apply bytes_value. assumption.
Qed.

Lemma ghtonl_reverses_bytes_witness :
  0 <= ghtonl 0x00E282AC < 2 ^ 32 /\
  (forall i, 0 <= i <= 3 -> byte_of i (ghtonl 0x00E282AC) = byte_of (3 - i) 0x00E282AC) /\
  ghtonl (ghtonl 0x00E282AC) = 0x00E282AC.
Proof.
  apply (ghtonl_reverses_bytes 0x00E282AC). vm_compute. split; [discriminate | reflexivity].
Defined.

(** ** AppendUTF8 and AssembleUTF16 *)

Lemma utf8_encode_decode (cp : Z) (rest : list char) :
  0 <= cp <= 0x10FFFF -> utf8_decode (utf8_encode cp ++ rest) = Some (cp, rest).
Proof.
  intros Hcp. unfold utf8_encode.
  destruct (Z.leb_spec cp 0x7F) as [H1 | H1].
  { cbn [app utf8_decode]. destruct (Z.ltb_spec cp 0x80); [reflexivity | lia]. }
  destruct (Z.leb_spec cp 0x7FF) as [H2 | H2].
  { cbn [app utf8_decode]. unfold utf8_continuation.
    assert (Ha : 0 <= cp / 64 < 32) by (Z.div_mod_to_equations; lia).
    assert (Hb : 0 <= cp mod 64 < 64) by (Z.div_mod_to_equations; lia).
    repeat match goal with
           | |- context [?a <? ?b] => destruct (Z.ltb_spec a b); try lia
           | |- context [?a <=? ?b] => destruct (Z.leb_spec a b); try lia
           end.
    cbn [andb]. f_equal. f_equal. Z.div_mod_to_equations; lia. }
  destruct (Z.leb_spec cp 0xFFFF) as [H3 | H3].
  { cbn [app utf8_decode]. unfold utf8_continuation.
    assert (Ha : 0 <= cp / 4096 < 16) by (Z.div_mod_to_equations; lia).
    assert (Hb : 0 <= (cp / 64) mod 64 < 64) by (Z.div_mod_to_equations; lia).
    assert (Hc : 0 <= cp mod 64 < 64) by (Z.div_mod_to_equations; lia).
    repeat match goal with
           | |- context [?a <? ?b] => destruct (Z.ltb_spec a b); try lia
           | |- context [?a <=? ?b] => destruct (Z.leb_spec a b); try lia
           end.
    cbn [andb]. f_equal. f_equal. Z.div_mod_to_equations; lia. }
  cbn [app utf8_decode]. unfold utf8_continuation.
  assert (Ha : 0 <= cp / 262144 < 8) by (Z.div_mod_to_equations; lia).
  assert (Hb : 0 <= (cp / 4096) mod 64 < 64) by (Z.div_mod_to_equations; lia).
  assert (Hc : 0 <= (cp / 64) mod 64 < 64) by (Z.div_mod_to_equations; lia).
  assert (Hd : 0 <= cp mod 64 < 64) by (Z.div_mod_to_equations; lia).
  repeat match goal with
         | |- context [?a <? ?b] => destruct (Z.ltb_spec a b); try lia
         | |- context [?a <=? ?b] => destruct (Z.leb_spec a b); try lia
         end.
  cbn [andb]. f_equal. f_equal. Z.div_mod_to_equations; lia.
Qed.

(** X5.  Round trip of [AppendUTF8]: for a code point up to 0x10FFFF the
    bytes it appends, whatever follows them, are read back by a UTF-8
    decoder as that code point, with the following bytes left over.  So
    different code points get different byte sequences, and none is a
    prefix of another. *)
Theorem AppendUTF8_decodes :
  forall cp out rest,
    0 <= cp <= 0x10FFFF ->
    exists enc,
      AppendUTF8 cp out = out ++ enc /\
      utf8_decode (enc ++ rest) = Some (cp, rest).
Proof.
  intros cp out rest Hcp. exists (utf8_encode cp).
  split; [apply AppendUTF8_encodes; assumption|].
  apply utf8_encode_decode. assumption.
Qed.

Lemma AppendUTF8_decodes_witness :
  exists enc,
    AppendUTF8 0x20AC [ch "a"] = [ch "a"] ++ enc /\
    utf8_decode (enc ++ [ch "b"]) = Some (0x20AC, [ch "b"]).
Proof.
  apply (AppendUTF8_decodes 0x20AC [ch "a"] [ch "b"]). lia.
Defined.





Lemma surrogate_ranges (hi lo : Z) :
  IsHeadSurrogate hi = true -> IsTrailSurrogate lo = true ->
  0xD800 <= hi <= 0xDBFF /\ 0xDC00 <= lo <= 0xDFFF.
Proof.
  unfold IsHeadSurrogate, IsTrailSurrogate, kMinHeadSurrogate, kMaxHeadSurrogate,
    kMinTrailSurrogate, kMaxTrailSurrogate.
  rewrite !andb_true_iff, !Z.geb_le, !Z.ltb_lt. lia.
Qed.

(** X7.  [AssembleUTF16] inverts the UTF-16 split of a code point into
    surrogates.  For a head and a trail surrogate (what [IsHeadSurrogate]
    and [IsTrailSurrogate] accept) the result lies in 0x10000..0x10FFFF and
    its UTF-16 surrogates are the two arguments; so distinct pairs give
    distinct code points.  No value is both a head and a trail
    surrogate. *)
Theorem AssembleUTF16_inverts_split :
  forall hi lo,
    IsHeadSurrogate hi = true -> IsTrailSurrogate lo = true ->
    0x10000 <= AssembleUTF16 hi lo <= 0x10FFFF /\
    utf16_head (AssembleUTF16 hi lo) = hi /\
    utf16_trail (AssembleUTF16 hi lo) = lo /\
    IsTrailSurrogate hi = false /\ IsHeadSurrogate lo = false.
Proof.
  intros hi lo Hhi Hlo.
  destruct (surrogate_ranges hi lo Hhi Hlo) as [Rh Rl].
  destruct (AssembleUTF16_value hi lo Rh Rl) as [E R].
  rewrite Z.shiftl_mul_pow2 in E by lia. change (2 ^ 10) with 1024 in E.
  split; [assumption|]. rewrite E. unfold utf16_head, utf16_trail.
  split; [Z.div_mod_to_equations; lia|]. split; [Z.div_mod_to_equations; lia|].
  unfold IsHeadSurrogate, IsTrailSurrogate, kMinHeadSurrogate, kMaxHeadSurrogate,
    kMinTrailSurrogate, kMaxTrailSurrogate.
  split; apply not_true_is_false; rewrite andb_true_iff, Z.geb_le, Z.ltb_lt; lia.
Qed.

Lemma AssembleUTF16_inverts_split_witness :
  0x10000 <= AssembleUTF16 0xD83D 0xDE00 <= 0x10FFFF /\
  utf16_head (AssembleUTF16 0xD83D 0xDE00) = 0xD83D /\
  utf16_trail (AssembleUTF16 0xD83D 0xDE00) = 0xDE00 /\
  IsTrailSurrogate 0xD83D = false /\ IsHeadSurrogate 0xDE00 = false.
Proof.
  apply (AssembleUTF16_inverts_split 0xD83D 0xDE00); reflexivity.
Defined.

(** X8.  Conversely, every code point of 0x10000..0x10FFFF is assembled
    from its UTF-16 surrogates, which [IsHeadSurrogate] and
    [IsTrailSurrogate] accept: [AssembleUTF16] reaches exactly the
    supplementary planes. *)
Theorem AssembleUTF16_of_split :
  forall cp,
    0x10000 <= cp <= 0x10FFFF ->
    IsHeadSurrogate (utf16_head cp) = true /\
    IsTrailSurrogate (utf16_trail cp) = true /\
    AssembleUTF16 (utf16_head cp) (utf16_trail cp) = cp.
Proof.
  intros cp Hcp.
  assert (Rh : 0xD800 <= utf16_head cp <= 0xDBFF)
    by (unfold utf16_head; Z.div_mod_to_equations; lia).
  assert (Rl : 0xDC00 <= utf16_trail cp <= 0xDFFF)
    by (unfold utf16_trail; Z.div_mod_to_equations; lia).
  destruct (AssembleUTF16_value _ _ Rh Rl) as [E _].
  rewrite Z.shiftl_mul_pow2 in E by lia. change (2 ^ 10) with 1024 in E.
  split; [|split].
  - unfold IsHeadSurrogate, kMinHeadSurrogate, kMaxHeadSurrogate.
    rewrite andb_true_iff, Z.geb_le, Z.ltb_lt. lia.
  - unfold IsTrailSurrogate, kMinTrailSurrogate, kMaxTrailSurrogate.
    rewrite andb_true_iff, Z.geb_le, Z.ltb_lt. lia.
  - rewrite E. unfold utf16_head, utf16_trail. Z.div_mod_to_equations; lia.
Qed.

Lemma AssembleUTF16_of_split_witness :
  IsHeadSurrogate (utf16_head 0x1F600) = true /\
  IsTrailSurrogate (utf16_trail 0x1F600) = true /\
  AssembleUTF16 (utf16_head 0x1F600) (utf16_trail 0x1F600) = 0x1F600.
Proof.
  apply (AssembleUTF16_of_split 0x1F600). lia.
Defined.

(** ** upb_Parse_StringAppend as a whole *)











(** ** Plain text and escapes in string literals *)

Lemma strlen_nul_free (text : list char) :
  nul_free text -> strlen text = Z.of_nat (length text).
Proof.
  induction 1 as [|c rest Hc Hrest IH]; [reflexivity|].
  rewrite strlen_cons. destruct (Z.eqb_spec c 0); [contradiction|].
  rewrite IH. cbn [length]. lia.
Qed.

(** The decoding loop on a tail without backslash and NUL. *)
Lemma StringAppend_loop_plain (q : char) (rest : list char) :
  forall pre fuel output,
    nul_free rest -> Forall (fun c => c <> 92) rest ->
    (length rest <= fuel)%nat ->
    StringAppend_loop fuel ((q :: pre) ++ rest) (Z.of_nat (length (q :: pre))) output =
    Some (output ++ drop_closing_quote q rest).
Proof.
  induction rest as [|c rest IH]; intros pre fuel output Hnul Hbs Hfuel.
  - pose proof (at_app_r (q :: pre) [] 0 ltac:(lia)) as E.
    rewrite Z.add_0_r in E. change (at_ [] 0) with 0 in E.
    cbn [drop_closing_quote]. rewrite (app_nil_r output).
    destruct fuel; cbn [StringAppend_loop]; rewrite E; reflexivity.
  - destruct fuel as [|fuel]; [cbn [length] in Hfuel; lia|].
    inversion Hnul as [|? ? Hc Hnul']. subst.
    inversion Hbs as [|? ? Hc92 Hbs']. subst.
    rewrite StringAppend_loop_S.
    pose proof (at_app_r (q :: pre) (c :: rest) 0 ltac:(lia)) as E0.
    rewrite Z.add_0_r in E0. change (at_ (c :: rest) 0) with c in E0.
    pose proof (at_app_r (q :: pre) (c :: rest) 1 ltac:(lia)) as E1.
    rewrite E0. destruct (Z.eqb_spec c 0); [contradiction|].
    unfold StringAppend_step. rewrite E0, E1.
    destruct (Z.eqb_spec c 92); [contradiction|]. cbn [andb].
    change (at_ ((q :: pre) ++ c :: rest) 0) with q.
    assert (Enext : Z.of_nat (length (q :: pre)) + 1 = Z.of_nat (length (q :: pre ++ [c])))
      by (cbn [length]; rewrite length_app; cbn [length]; lia).
    assert (Etext : (q :: pre) ++ c :: rest = (q :: pre ++ [c]) ++ rest)
      by (cbn [app]; rewrite <- app_assoc; reflexivity).
    destruct rest as [|d rest].
    + change (at_ [c] 1) with 0. change (0 =? 0) with true.
      cbn [drop_closing_quote]. rewrite andb_true_r.
      destruct (c =? q); cbn [fst snd]; rewrite Enext, Etext;
        rewrite (IH (pre ++ [c]) fuel _ Hnul' Hbs' ltac:(cbn [length] in *; lia));
        cbn [drop_closing_quote]; rewrite app_nil_r; reflexivity.
    + change (at_ (c :: d :: rest) 1) with d.
      inversion Hnul' as [|? ? Hd _]. subst.
      destruct (Z.eqb_spec d 0); [contradiction|]. rewrite andb_false_r.
      cbn [fst snd]. rewrite Enext, Etext.
      rewrite (IH (pre ++ [c]) fuel _ Hnul' Hbs' ltac:(cbn [length] in *; lia)).
      unfold upb_String_PushBack. rewrite <- app_assoc. reflexivity.
Qed.

(** X11.  A string token text without a backslash is copied byte by byte:
    [upb_Parse_StringAppend] skips the first byte (the opening quote),
    appends every following byte, and leaves out the last byte exactly when
    it equals the first one (the closing quote); a text that is not
    terminated by its quote is copied to its end. *)
Theorem StringAppend_copies_plain_text :
  forall q body output,
    q <> 0 -> nul_free body -> Forall (fun c => c <> 92) body ->
    upb_Parse_StringAppend (q :: body) output =
    Some (output ++ drop_closing_quote q body) /\
    drop_closing_quote q (body ++ [q]) = body /\
    (last body 0 <> q -> drop_closing_quote q body = body).
Proof.
  intros q body output Hq Hnul Hbs. split; [|split].
  - unfold upb_Parse_StringAppend.
    assert (Hlen : strlen (q :: body) = 1 + Z.of_nat (length body)).
    { rewrite strlen_cons. destruct (Z.eqb_spec q 0); [contradiction|].
      rewrite strlen_nul_free by assumption. reflexivity. }
    rewrite Hlen. destruct (Z.eqb_spec (1 + Z.of_nat (length body)) 0); [lia|].
    apply (StringAppend_loop_plain q body [] _ output Hnul Hbs). lia.
  - clear. induction body as [|c rest IH]; cbn [app drop_closing_quote].
    + rewrite Z.eqb_refl. reflexivity.
    + destruct (rest ++ [q]) eqn:E; [destruct rest; discriminate|].
      f_equal. exact IH.
  - clear. induction body as [|c rest IH]; intros Hlast; [reflexivity|].
    cbn [drop_closing_quote]. destruct rest as [|d rest].
    + cbn [last] in Hlast. destruct (Z.eqb_spec c q); [contradiction | reflexivity].
    + f_equal. apply IH. exact Hlast.
Qed.

Lemma StringAppend_copies_plain_text_witness :
  upb_Parse_StringAppend (34 :: bytes "it's" ++ [34]) [] =
  Some ([] ++ drop_closing_quote 34 (bytes "it's" ++ [34])) /\
  drop_closing_quote 34 ((bytes "it's" ++ [34]) ++ [34]) = bytes "it's" ++ [34] /\
  (last (bytes "it's" ++ [34]) 0 <> 34 ->
   drop_closing_quote 34 (bytes "it's" ++ [34]) = bytes "it's" ++ [34]).
Proof.
  apply (StringAppend_copies_plain_text 34 (bytes "it's" ++ [34]) []).
  - discriminate.
  - repeat constructor; discriminate.
  - repeat constructor; discriminate.
Defined.

(** X12.  Simple escapes.  At a backslash followed by one of the eleven
    [Escape] bytes, one iteration of the decoding loop consumes both bytes
    and appends [TranslateEscape] of the second, which maps different escape
    bytes to different bytes; at a backslash followed by any other byte that
    is not NUL, not an octal digit and not x, u or U it appends a question
    mark; and a backslash directly before the terminating NUL is appended
    as it is. *)
Theorem StringAppend_step_simple_escape :
  forall text ptr output c,
    at_ text ptr = 92 -> at_ text (ptr + 1) = c ->
    (Escape c = true ->
     StringAppend_step text ptr output = (ptr + 1, output ++ [TranslateEscape c]) /\
     forall c', Escape c' = true -> TranslateEscape c' = TranslateEscape c -> c' = c) /\
    (Escape c = false -> c <> 0 -> OctalDigit c = false ->
     c <> ch "x" -> c <> ch "u" -> c <> ch "U" ->
     StringAppend_step text ptr output = (ptr + 1, output ++ [ch "?"])) /\
    (c = 0 -> at_ text 0 <> 92 ->
     StringAppend_step text ptr output = (ptr, output ++ [92])).
Proof.
  intros text ptr output c Hb Hc. split; [|split].
  - intros He.
    assert (Hcases : c = 97 \/ c = 98 \/ c = 102 \/ c = 110 \/ c = 114 \/ c = 116 \/
                     c = 118 \/ c = 92 \/ c = 63 \/ c = 39 \/ c = 34).
    { unfold Escape in He. rewrite !orb_true_iff, !Z.eqb_eq in He. tauto. }
    split.
    + unfold StringAppend_step. rewrite Hb, Hc. clear Hb Hc.
      repeat destruct Hcases as [-> | Hcases]; try subst c; reflexivity.
    + intros c' He' Ht. clear Hb Hc.
      assert (Hcases' : c' = 97 \/ c' = 98 \/ c' = 102 \/ c' = 110 \/ c' = 114 \/
                        c' = 116 \/ c' = 118 \/ c' = 92 \/ c' = 63 \/ c' = 39 \/ c' = 34).
      { unfold Escape in He'. rewrite !orb_true_iff, !Z.eqb_eq in He'. tauto. }
      repeat destruct Hcases as [-> | Hcases]; try subst c;
        repeat destruct Hcases' as [-> | Hcases']; try subst c';
        first [reflexivity | discriminate Ht].
  - intros He H0 Ho Hx Hu HU.
    unfold StringAppend_step, upb_String_PushBack. rewrite Hb, Hc, Ho.
    change (92 =? 92) with true.
    destruct (Z.eqb_spec c 0); [contradiction|]. cbn [andb negb]. cbv zeta.
    destruct (Z.eqb_spec c (ch "x")); [contradiction|].
    destruct (Z.eqb_spec c (ch "u")); [contradiction|].
    destruct (Z.eqb_spec c (ch "U")); [contradiction|]. cbn [orb].
    f_equal. f_equal. f_equal.
    unfold Escape in He. rewrite !orb_false_iff in He.
    unfold TranslateEscape.
    repeat match goal with
           | H : _ /\ _ |- _ => destruct H
           end.
    repeat match goal with
           | H : (c =? ?k) = false |- _ => rewrite H; clear H
           end.
    reflexivity.
  - intros -> Hq. unfold StringAppend_step, upb_String_PushBack. rewrite Hb, Hc.
    change (0 =? 0) with true. cbn [negb]. rewrite andb_false_r, andb_true_r.
    destruct (Z.eqb_spec 92 (at_ text 0)) as [E | _]; [|reflexivity].
    exfalso. apply Hq. symmetry. exact E.
Qed.

Lemma StringAppend_step_simple_escape_witness :
  (Escape (ch "n") = true ->
   StringAppend_step (34 :: 92 :: bytes "n") 1 [] = (1 + 1, [] ++ [TranslateEscape (ch "n")]) /\
   forall c', Escape c' = true -> TranslateEscape c' = TranslateEscape (ch "n") ->
              c' = ch "n") /\
  (Escape (ch "n") = false -> ch "n" <> 0 -> OctalDigit (ch "n") = false ->
   ch "n" <> ch "x" -> ch "n" <> ch "u" -> ch "n" <> ch "U" ->
   StringAppend_step (34 :: 92 :: bytes "n") 1 [] = (1 + 1, [] ++ [ch "?"])) /\
  (ch "n" = 0 -> at_ (34 :: 92 :: bytes "n") 0 <> 92 ->
   StringAppend_step (34 :: 92 :: bytes "n") 1 [] = (1, [] ++ [92])).
Proof.
  apply (StringAppend_step_simple_escape (34 :: 92 :: bytes "n") 1 [] (ch "n"));
    reflexivity.
Defined.

Lemma DigitValue_Digit (c : char) : Digit c = true -> DigitValue c = c - 48.
Proof.
  unfold Digit. rewrite andb_true_iff, !Z.leb_le. intros H.
  assert (E : c = 48 \/ c = 49 \/ c = 50 \/ c = 51 \/ c = 52 \/ c = 53 \/ c = 54 \/
              c = 55 \/ c = 56 \/ c = 57) by lia.
  repeat destruct E as [-> | E]; try subst c; reflexivity.
Qed.

Lemma OctalDigit_value (c : char) :
  OctalDigit c = true -> DigitValue c = c - 48 /\ 0 <= c - 48 < 8.
Proof.
  intros H. split.
  - apply DigitValue_Digit. unfold OctalDigit, Digit in *.
    rewrite andb_true_iff, !Z.leb_le in *. lia.
  - unfold OctalDigit in H. rewrite andb_true_iff, !Z.leb_le in H. lia.
Qed.

Lemma HexDigit_value (c : char) : HexDigit c = true -> 0 <= DigitValue c < 16.
Proof.
  unfold HexDigit. rewrite !orb_true_iff, !andb_true_iff, !Z.leb_le. intros H.
  assert (E : c = 48 \/ c = 49 \/ c = 50 \/ c = 51 \/ c = 52 \/ c = 53 \/ c = 54 \/
              c = 55 \/ c = 56 \/ c = 57 \/ c = 97 \/ c = 98 \/ c = 99 \/ c = 100 \/
              c = 101 \/ c = 102 \/ c = 65 \/ c = 66 \/ c = 67 \/ c = 68 \/ c = 69 \/
              c = 70) by lia.
  repeat destruct E as [-> | E]; try subst c; vm_compute; (split; [discriminate | reflexivity]).
Qed.

(** X13.  Octal escapes.  At a backslash followed by an octal digit, one
    iteration of the decoding loop takes up to three octal digits (a fourth
    one is left for the next iteration), and appends their base-8 value
    reduced to a byte: three digits can give up to 511, of which the low
    eight bits are kept. *)
Theorem StringAppend_step_octal_escape :
  forall text ptr output d1 d2 d3,
    at_ text ptr = 92 -> at_ text (ptr + 1) = d1 ->
    at_ text (ptr + 2) = d2 -> at_ text (ptr + 3) = d3 ->
    OctalDigit d1 = true ->
    StringAppend_step text ptr output =
    (if OctalDigit d2
     then if OctalDigit d3
          then (ptr + 3, output ++ [((d1 - 48) * 64 + (d2 - 48) * 8 + (d3 - 48)) mod 256])
          else (ptr + 2, output ++ [(d1 - 48) * 8 + (d2 - 48)])
     else (ptr + 1, output ++ [d1 - 48])).
Proof.
  intros text ptr output d1 d2 d3 Hb H1 H2 H3 Ho1.
  replace (ptr + 2) with (ptr + 1 + 1) in H2 by lia.
  replace (ptr + 3) with (ptr + 1 + 1 + 1) in H3 by lia.
  unfold StringAppend_step, upb_String_PushBack. rewrite Hb. cbv zeta.
  rewrite H1, Ho1.
  destruct (OctalDigit_value d1 Ho1) as [V1 R1].
  assert (N1 : (d1 =? 0) = false) by (apply Z.eqb_neq; lia).
  rewrite N1. change (92 =? 92) with true. cbn [andb negb]. cbv iota.
  rewrite !H2. destruct (OctalDigit d2) eqn:Ho2; cbv beta iota.
  - destruct (OctalDigit_value d2 Ho2) as [V2 R2].
    rewrite !H3. destruct (OctalDigit d3) eqn:Ho3; cbv beta iota.
    + destruct (OctalDigit_value d3 Ho3) as [V3 R3].
      rewrite V1, V2, V3. f_equal; [lia|]. do 3 f_equal. lia.
    + rewrite V1, V2. f_equal; [lia|]. do 2 f_equal.
      rewrite Z.mod_small by lia. reflexivity.
  - rewrite H2, Ho2, V1. cbv beta iota. do 2 f_equal.
    rewrite Z.mod_small by lia. reflexivity.
Qed.

Lemma StringAppend_step_octal_escape_witness :
  StringAppend_step (34 :: 92 :: bytes "7777") 1 [] =
  (if OctalDigit (ch "7")
   then if OctalDigit (ch "7")
        then (1 + 3, [] ++ [((ch "7" - 48) * 64 + (ch "7" - 48) * 8 + (ch "7" - 48)) mod 256])
        else (1 + 2, [] ++ [(ch "7" - 48) * 8 + (ch "7" - 48)])
   else (1 + 1, [] ++ [ch "7" - 48])).
Proof.
  apply (StringAppend_step_octal_escape (34 :: 92 :: bytes "7777") 1 []
           (ch "7") (ch "7") (ch "7")); reflexivity.
Defined.

(** X14.  Hex escapes.  At a backslash followed by x, one iteration of the
    decoding loop takes up to two hex digits and appends their base-16
    value, which fits a byte; a third hex digit is left for the next
    iteration; and with no hex digit after the x it appends a NUL byte and
    consumes the backslash and the x only. *)
Theorem StringAppend_step_hex_escape :
  forall text ptr output h1 h2,
    at_ text ptr = 92 -> at_ text (ptr + 1) = ch "x" ->
    at_ text (ptr + 2) = h1 -> at_ text (ptr + 3) = h2 ->
    StringAppend_step text ptr output =
    (if HexDigit h1
     then if HexDigit h2
          then (ptr + 3, output ++ [DigitValue h1 * 16 + DigitValue h2])
          else (ptr + 2, output ++ [DigitValue h1])
     else (ptr + 1, output ++ [0])) /\
    (HexDigit h1 = true -> HexDigit h2 = true ->
     0 <= DigitValue h1 * 16 + DigitValue h2 < 256).
Proof.
  intros text ptr output h1 h2 Hb Hx H1 H2. split.
  - replace (ptr + 2) with (ptr + 1 + 1) in H1 by lia.
    replace (ptr + 3) with (ptr + 1 + 1 + 1) in H2 by lia.
    unfold StringAppend_step, upb_String_PushBack. rewrite Hb. cbv zeta.
    rewrite Hx. change (92 =? 92) with true.
    change (ch "x" =? 0) with false. change (OctalDigit (ch "x")) with false.
    change (ch "x" =? ch "x") with true. cbn [andb negb]. cbv iota.
    rewrite !H1. destruct (HexDigit h1) eqn:E1; cbv beta iota.
    + pose proof (HexDigit_value h1 E1) as V1.
      rewrite !H2. destruct (HexDigit h2) eqn:E2; cbv beta iota.
      * pose proof (HexDigit_value h2 E2) as V2.
        f_equal; [lia|]. do 2 f_equal. rewrite Z.mod_small by lia. reflexivity.
      * f_equal; [lia|]. do 2 f_equal. rewrite Z.mod_small by lia. reflexivity.
    + rewrite H1, E1. reflexivity.
  - intros E1 E2. pose proof (HexDigit_value h1 E1). pose proof (HexDigit_value h2 E2).
    lia.
Qed.

Lemma StringAppend_step_hex_escape_witness :
  StringAppend_step (34 :: 92 :: bytes "x4g") 1 [] =
  (if HexDigit (ch "4")
   then if HexDigit (ch "g")
        then (1 + 3, [] ++ [DigitValue (ch "4") * 16 + DigitValue (ch "g")])
        else (1 + 2, [] ++ [DigitValue (ch "4")])
   else (1 + 1, [] ++ [0])) /\
  (HexDigit (ch "4") = true -> HexDigit (ch "g") = true ->
   0 <= DigitValue (ch "4") * 16 + DigitValue (ch "g") < 256).
Proof.
  apply (StringAppend_step_hex_escape (34 :: 92 :: bytes "x4g") 1 [] (ch "4") (ch "g"));
    reflexivity.
Defined.

(** ** upb_Parse_Integer: the result and the bound *)

Lemma Parse_Integer_seed_range (base : Z) (ptr : list char) :
  forall ptr' result,
    Parse_Integer_seed base ptr = Some (ptr', result) -> 0 <= result <= 36.
Proof.
  induction ptr as [|c rest IH]; intros ptr' result H; cbn [Parse_Integer_seed] in H.
  - injection H as <- <-. lia.
  - destruct (c =? 0); [injection H as <- <-; lia|]. cbv zeta in H.
    destruct (DigitValue c >=? base); [discriminate|].
    destruct (negb (DigitValue c =? 0)).
    + injection H as <- <-. apply DigitValue_range.
    + eapply IH. eassumption.
Qed.

Lemma Parse_Integer_accum_range (base ovf : Z) (ptr : list char) :
  forall result v,
    0 <= result < 2 ^ 64 ->
    Parse_Integer_accum base ovf ptr result = Some v -> 0 <= v < 2 ^ 64.
Proof.
  induction ptr as [|c rest IH]; intros result v Hr H; cbn [Parse_Integer_accum] in H.
  - injection H as <-. assumption.
  - destruct (c =? 0); [injection H as <-; assumption|]. cbv zeta in H.
    destruct ((DigitValue c <? 0) || (DigitValue c >=? base)); [discriminate|].
    destruct (result >=? ovf); [discriminate|].
    destruct (wrap64 (result * base + DigitValue c) <? base); [discriminate|].
    eapply IH; [|eassumption]. unfold wrap64. apply Z.mod_pos_bound. reflexivity.
Qed.

(** X15.  Whatever the text, a value [upb_Parse_Integer] returns is a
    [uint64_t] and is at most [max_value]; [max_value] is only an upper
    bound: with any other bound the text parses to the same value if the
    bound is not below it, and is rejected if it is. *)
Theorem Parse_Integer_respects_max_value :
  forall text max_value v,
    upb_Parse_Integer text max_value = Some v ->
    0 <= v <= UINT64_MAX /\ v <= max_value /\
    forall other,
      upb_Parse_Integer text other = if v <=? other then Some v else None.
Proof.
  intros text max_value v H. unfold upb_Parse_Integer in *.
  destruct (Parse_Integer_prefix text) as [[base ovf] ptr].
  destruct (Parse_Integer_seed base ptr) as [[ptr' result]|] eqn:Es; [|discriminate].
  pose proof (Parse_Integer_seed_range _ _ _ _ Es) as Hs.
  destruct (Parse_Integer_accum base ovf ptr' result) as [r|] eqn:Ea; [|discriminate].
  assert (Hr0 : 0 <= result < 2 ^ 64)
    by (change (2 ^ 64) with 18446744073709551616; lia).
  pose proof (Parse_Integer_accum_range _ _ _ _ _ Hr0 Ea) as Hr.
  destruct (Z.gtb_spec r max_value); [discriminate|]. injection H as <-.
  unfold UINT64_MAX. change (2 ^ 64) with 18446744073709551616 in Hr.
  split; [lia|]. split; [lia|]. intros other.
  destruct (Z.gtb_spec r other), (Z.leb_spec r other); try lia; reflexivity.
Qed.

Lemma Parse_Integer_respects_max_value_witness :
  0 <= 255 <= UINT64_MAX /\ 255 <= 1000 /\
  forall other,
    upb_Parse_Integer (bytes "0377") other = if 255 <=? other then Some 255 else None.
Proof.
  apply (Parse_Integer_respects_max_value (bytes "0377") 1000 255). reflexivity.
Defined.

(** ** The reader delivers the input in order *)

Lemma skipn_nth_cons (l : list char) (k : nat) :
  (k < length l)%nat -> skipn k l = nth k l 0 :: skipn (S k) l.
Proof.
  revert k. induction l as [|x l IH]; intros k Hk; cbn [length] in Hk; [lia|].
  destruct k as [|k]; [reflexivity|]. cbn [skipn nth]. apply IH. lia.
Qed.

Lemma Refresh_pending (t : upb_Tokenizer) :
  read_error t = false -> chunks_ok t ->
  pending (Refresh t) = concat (input t) /\ chunks_ok (Refresh t).
Proof.
  destruct t as [cur prev inp errs c buf size pos eof ln col target start cont
                 o1 o2 o3 o4 o5 o6].
  unfold chunks_ok, pending. reduce_state. intros -> Hin.
  destruct inp as [|data rest].
  - destruct target as [[|]|];
      unfold Refresh, append_to_record_target, upb_ZeroCopyInputStream_Next;
      reduce_state; cbn [andb];
      try destruct (wrap64 start <? size); reduce_state;
      change (0 >? 0) with false; reduce_state; (split; [reflexivity | apply Forall_nil]).
  - inversion Hin as [|? ? Hdata Hrest]. subst.
    assert (Hpos : (Z.of_nat (length data) >? 0) = true)
      by (destruct data; [contradiction | reflexivity]).
    destruct target as [[|]|];
      unfold Refresh, append_to_record_target, upb_ZeroCopyInputStream_Next;
      reduce_state; cbn [andb];
      try destruct (wrap64 start <? size); reduce_state;
      rewrite Hpos; reduce_state; (split; [reflexivity | assumption]).
Qed.

Lemma NextChar_pending (t : upb_Tokenizer) :
  wf t -> chunks_ok t -> read_error t = false ->
  pending t = current_char t :: pending (NextChar t) /\ chunks_ok (NextChar t).
Proof.
  destruct t as [cur prev inp errs c buf size pos eof ln col target start cont
                 o1 o2 o3 o4 o5 o6].
  unfold wf, chunks_ok. reduce_state. intros [Hok _] Hin Er. subst eof.
  destruct (Hok eq_refl) as (Hpos & Hsize & Hc). clear Hok.
  assert (Hskip : skipn (Z.to_nat pos) buf = c :: skipn (Z.to_nat (pos + 1)) buf).
  { rewrite skipn_nth_cons by lia. rewrite Hc. unfold at_.
    destruct (Z.ltb_spec pos 0); [lia|]. do 2 f_equal. lia. }
  unfold NextChar. reduce_state.
  destruct (c =? 10); [|destruct (c =? 9)]; reduce_state;
    (destruct (pos + 1 <? size) eqn:Elt; reduce_state;
     [ unfold pending; reduce_state; rewrite Hskip; split; [reflexivity | assumption]
     | apply Z.ltb_ge in Elt;
       match goal with
       | |- context [Refresh ?t0] =>
           destruct (Refresh_pending t0 eq_refl Hin) as [Hp Hc']
       end;
       reduce_state_in Hp; split; [|exact Hc'];
       rewrite Hp; unfold pending at 1; reduce_state; rewrite Hskip;
       rewrite (skipn_all2 buf) by lia; reflexivity ]).
Qed.

Lemma pending_head (t : upb_Tokenizer) : wf t -> current_char t = hd 0 (pending t).
Proof.
  unfold wf, pending. intros [Hok Heof]. destruct (read_error t).
  - destruct (Heof eq_refl) as [E _]. rewrite E. reflexivity.
  - destruct (Hok eq_refl) as (Hpos & Hsize & Hc).
    rewrite skipn_nth_cons by lia. cbn [app hd]. rewrite Hc. unfold at_.
    destruct (Z.ltb_spec (buffer_pos t) 0); [lia | reflexivity].
Qed.

Lemma pending_nil (t : upb_Tokenizer) :
  wf t -> (pending t = [] <-> read_error t = true).
Proof.
  unfold wf, pending. intros [Hok _]. destruct (read_error t).
  - split; reflexivity.
  - destruct (Hok eq_refl) as (Hpos & Hsize & Hc).
    rewrite skipn_nth_cons by lia. split; discriminate.
Qed.

Lemma NextChar_input_eof (t : upb_Tokenizer) :
  read_error t = true -> input (NextChar t) = input t.
Proof.
  destruct t as [cur prev inp errs c buf size pos eof ln col target start cont
                 o1 o2 o3 o4 o5 o6].
  reduce_state. intros ->. unfold NextChar. reduce_state.
  destruct (c =? 10); [|destruct (c =? 9)]; reduce_state;
    (destruct (pos + 1 <? size); reduce_state; [reflexivity|]);
    unfold Refresh; reduce_state; reflexivity.
Qed.

Lemma Refresh_buffer (t : upb_Tokenizer) :
  (read_error t = true -> buffer t = []) ->
  read_error (Refresh t) = true -> buffer (Refresh t) = [].
Proof.
  destruct t as [cur prev inp errs c buf size pos eof ln col target start cont
                 o1 o2 o3 o4 o5 o6].
  reduce_state. intros Hb.
  destruct eof; [unfold Refresh; reduce_state; intros _; apply Hb; reflexivity|].
  destruct inp as [|data rest], target as [[|]|];
    unfold Refresh, append_to_record_target, upb_ZeroCopyInputStream_Next;
    reduce_state; cbn [andb];
    try destruct (wrap64 start <? size); reduce_state;
    try change (0 >? 0) with false; try destruct (Z.of_nat (length data) >? 0);
    reduce_state; intros H; first [reflexivity | discriminate H].
Qed.

Lemma NextChar_buffer (t : upb_Tokenizer) :
  (read_error t = true -> buffer t = []) ->
  read_error (NextChar t) = true -> buffer (NextChar t) = [].
Proof.
  destruct t as [cur prev inp errs c buf size pos eof ln col target start cont
                 o1 o2 o3 o4 o5 o6].
  reduce_state. intros Hb. unfold NextChar. reduce_state.
  destruct (c =? 10); [|destruct (c =? 9)]; reduce_state;
    (destruct (pos + 1 <? size); reduce_state;
     [exact Hb | apply Refresh_buffer; reduce_state; exact Hb]).
Qed.

(** One [NextChar] removes the first pending byte (none at the end). *)
Lemma NextChar_reader (t : upb_Tokenizer) :
  reader_ok t -> reader_ok (NextChar t) /\ pending (NextChar t) = tl (pending t).
Proof.
  intros (Hwf & Hin & Hbuf). pose proof (NextChar_wf t Hwf) as Hwf'.
  pose proof (NextChar_buffer t Hbuf) as Hbuf'.
  destruct (read_error t) eqn:Er.
  - pose proof (NextChar_eof t Hwf Er) as Er'.
    split; [split; [assumption|split; [|assumption]]|].
    + unfold chunks_ok. rewrite NextChar_input_eof by assumption. exact Hin.
    + apply (pending_nil _ Hwf') in Er'. apply (pending_nil _ Hwf) in Er.
      rewrite Er, Er'. reflexivity.
  - destruct (NextChar_pending t Hwf Hin Er) as [Hp Hin'].
    split; [split; [|split]; assumption|]. rewrite Hp. reflexivity.
Qed.

Lemma tl_skipn (k : nat) : forall l : list char, tl (skipn k l) = skipn (S k) l.
Proof.
  induction k as [|k IH]; intros [|x l]; try reflexivity.
  change (skipn (S k) (x :: l)) with (skipn k l).
  change (skipn (S (S k)) (x :: l)) with (skipn (S k) l). apply IH.
Qed.

Lemma hd_skipn (k : nat) : forall l : list char, hd 0 (skipn k l) = nth k l 0.
Proof.
  induction k as [|k IH]; intros [|x l]; try reflexivity.
  change (skipn (S k) (x :: l)) with (skipn k l).
  change (nth (S k) (x :: l) 0) with (nth k l 0). apply IH.
Qed.

Lemma NextChar_iter_reader (k : nat) (t : upb_Tokenizer) :
  reader_ok t ->
  reader_ok (Nat.iter k NextChar t) /\
  pending (Nat.iter k NextChar t) = skipn k (pending t).
Proof.
  intros Hok. induction k as [|k [IHok IHp]]; [split; [assumption | reflexivity]|].
  rewrite Nat.iter_succ. destruct (NextChar_reader _ IHok) as [Hok' Hp'].
  split; [assumption|]. rewrite Hp', IHp. apply tl_skipn.
Qed.

Lemma New_reader (data : list char) (stream : list (list char)) :
  Forall (fun chunk => chunk <> []) stream ->
  reader_ok (upb_Tokenizer_New data stream) /\
  pending (upb_Tokenizer_New data stream) = data ++ concat stream.
Proof.
  intros Hin. split; [split; [apply New_wf|split]|].
  - unfold upb_Tokenizer_New. cbv zeta.
    destruct (Z.of_nat (length data) =? 0); cbn [negb]; cbv iota.
    + apply Refresh_pending; [reflexivity | exact Hin].
    + exact Hin.
  - unfold upb_Tokenizer_New. cbv zeta.
    destruct (Z.of_nat (length data) =? 0); cbn [negb]; cbv iota.
    + apply Refresh_buffer. discriminate.
    + discriminate.
  - unfold upb_Tokenizer_New. cbv zeta.
    destruct (Z.eqb_spec (Z.of_nat (length data)) 0) as [E | E]; cbn [negb]; cbv iota.
    + destruct data; [|discriminate E].
      match goal with
      | |- pending (Refresh ?t0) = _ =>
          destruct (Refresh_pending t0 eq_refl Hin) as [Hp _]
      end.
      exact Hp.
    + reflexivity.
Qed.

(** X16.  The reader hands out the input byte by byte and in order,
    however it is cut into chunks: for a tokenizer made from the flat array
    [data] and a stream whose chunks are not empty, after [k] calls of
    [NextChar] the current character is byte [k] of the array followed by
    the chunks (NUL behind the last byte), and the read error is latched
    exactly when all bytes are consumed. *)
Theorem reader_delivers_bytes_in_order :
  forall data stream k,
    Forall (fun chunk => chunk <> []) stream ->
    current_char (Nat.iter k NextChar (upb_Tokenizer_New data stream)) =
    nth k (data ++ concat stream) 0 /\
    (read_error (Nat.iter k NextChar (upb_Tokenizer_New data stream)) = true <->
     (length (data ++ concat stream) <= k)%nat).
Proof.
  intros data stream k Hin.
  destruct (New_reader data stream Hin) as [Hok Hp].
  destruct (NextChar_iter_reader k _ Hok) as [(Hwf & _) Hpk].
  rewrite Hp in Hpk. split.
  - rewrite (pending_head _ Hwf), Hpk. apply hd_skipn.
  - rewrite <- (pending_nil _ Hwf), Hpk. split.
    + intros E. apply (f_equal (@length char)) in E.
      rewrite length_skipn in E. cbn [length] in E. lia.
    + intros Hle. apply skipn_all2. exact Hle.
Qed.

Lemma reader_delivers_bytes_in_order_witness :
  current_char (Nat.iter 3 NextChar
                  (upb_Tokenizer_New (bytes "ab") [bytes "c"; bytes "de"])) =
  nth 3 (bytes "ab" ++ concat [bytes "c"; bytes "de"]) 0 /\
  (read_error (Nat.iter 3 NextChar
                 (upb_Tokenizer_New (bytes "ab") [bytes "c"; bytes "de"])) = true <->
   (length (bytes "ab" ++ concat [bytes "c"; bytes "de"]) <= 3)%nat).
Proof.
  apply (reader_delivers_bytes_in_order (bytes "ab") [bytes "c"; bytes "de"] 3).
  repeat constructor; discriminate.
Defined.

(** ** What every scanner computation preserves *)

Section Steps.

Variable R : upb_Tokenizer -> upb_Tokenizer -> Prop.
Hypothesis R_refl : forall t, R t t.
Hypothesis R_trans : forall t1 t2 t3, R t1 t2 -> R t2 t3 -> R t1 t3.
Hypothesis R_NextChar : forall t, R t (NextChar t).
Hypothesis R_ReportError : forall l c m t, R t (ReportError l c m t).
Hypothesis R_set_type :
  forall ty t, R t (set_current (set_tok_type ty (current t)) t).

Lemma steps_ret {A : Type} (a : A) : steps R (ret a).
Proof. intros t a' t' H. injection H as _ <-. apply R_refl. Qed.

Lemma steps_gets {A : Type} (f : upb_Tokenizer -> A) : steps R (gets f).
Proof. intros t a' t' H. injection H as _ <-. apply R_refl. Qed.

Lemma steps_lift (f : upb_Tokenizer -> upb_Tokenizer) :
  (forall t, R t (f t)) -> steps R (lift f).
Proof. intros Hf t a' t' H. injection H as _ <-. apply Hf. Qed.

Lemma steps_out_of_fuel {A : Type} : steps R (@out_of_fuel A).
Proof. intros t a t' H. discriminate H. Qed.

Lemma steps_bind {A B : Type} (m : M A) (k : A -> M B) :
  steps R m -> (forall a, steps R (k a)) -> steps R (bind m k).
Proof.
  intros Hm Hk t b t' H. unfold bind in H.
  destruct (m t) as [[a t1]|] eqn:E; [|discriminate].
  eapply R_trans; [eapply Hm; exact E | eapply Hk; exact H].
Qed.

Lemma bind_inv {A B : Type} (m : M A) (k : A -> M B) (t : upb_Tokenizer)
    (b : B) (t' : upb_Tokenizer) :
  bind m k t = Some (b, t') ->
  exists a t1, m t = Some (a, t1) /\ k a t1 = Some (b, t').
Proof.
  unfold bind. destruct (m t) as [[a t1]|]; [|discriminate].
  intros H. exists a, t1. split; [reflexivity | exact H].
Qed.

Lemma steps_if {A : Type} (b : bool) (m1 m2 : M A) :
  steps R m1 -> steps R m2 -> steps R (if b then m1 else m2).
Proof. destruct b; auto. Qed.

Lemma steps_TryConsumeOne (f : char -> bool) : steps R (TryConsumeOne f).
Proof.
  intros t a t' H. unfold TryConsumeOne in H.
  destruct (f (current_char t)); injection H as _ <-; [apply R_NextChar | apply R_refl].
Qed.

Lemma steps_TryConsume (c : char) : steps R (TryConsume c).
Proof.
  intros t a t' H. unfold TryConsume in H.
  destruct (current_char t =? c); injection H as _ <-; [apply R_NextChar | apply R_refl].
Qed.

Lemma steps_orM (a b : M bool) : steps R a -> steps R b -> steps R (orM a b).
Proof.
  intros Ha Hb. unfold orM. apply steps_bind; [assumption|].
  intros [|]; [apply steps_ret | assumption].
Qed.

Lemma steps_andM (a b : M bool) : steps R a -> steps R b -> steps R (andM a b).
Proof.
  intros Ha Hb. unfold andM. apply steps_bind; [assumption|].
  intros [|]; [assumption | apply steps_ret].
Qed.

Lemma steps_notM (a : M bool) : steps R a -> steps R (notM a).
Proof.
  intros Ha. unfold notM. apply steps_bind; [assumption|]. intros x. apply steps_ret.
Qed.

Lemma steps_when (c : bool) (s : M unit) : steps R s -> steps R (when c s).
Proof. intros Hs. destruct c; [assumption | apply steps_ret]. Qed.

Lemma steps_when_false (s : M unit) : steps R (when false s).
Proof. exact (steps_ret tt). Qed.

Lemma R_AddError (m : error_message) (t : upb_Tokenizer) : R t (AddError m t).
Proof. apply R_ReportError. Qed.

Lemma steps_set_current_type (ty : upb_TokenType) : steps R (set_current_type ty).
Proof. apply steps_lift. intros t. apply R_set_type. Qed.

Ltac R_step :=
  first [ exact R_NextChar
        | apply R_AddError
        | apply R_ReportError
        | apply R_set_type
        | apply R_refl
        | match goal with
          | |- forall t, _ => intros ?; R_step
          | |- R _ (if ?c then _ else _) => destruct c; R_step
          end ].

Ltac steps_tac :=
  cbv beta;
  lazymatch goal with
  | |- steps _ (bind _ _) => apply steps_bind; [steps_tac | intros ?; steps_tac]
  | |- steps _ (if _ then _ else _) => apply steps_if; steps_tac
  | |- steps _ (ret _) => apply steps_ret
  | |- steps _ (gets _) => apply steps_gets
  | |- steps _ (LookingAt _) => apply steps_gets
  | |- steps _ out_of_fuel => apply steps_out_of_fuel
  | |- steps _ (TryConsumeOne _) => apply steps_TryConsumeOne
  | |- steps _ (TryConsume _) => apply steps_TryConsume
  | |- steps _ (orM _ _) => apply steps_orM; steps_tac
  | |- steps _ (andM _ _) => apply steps_andM; steps_tac
  | |- steps _ (notM _) => apply steps_notM; steps_tac
  | |- steps _ (when false _) => apply steps_when_false
  | |- steps _ (when _ _) => apply steps_when; steps_tac
  | |- steps _ (set_current_type _) => apply steps_set_current_type
  | |- steps _ (lift _) => apply steps_lift; R_step
  | |- steps _ (match ?x with _ => _ end) => destruct x; steps_tac
  | |- _ => try assumption
  end.

Lemma steps_ConsumeZeroOrMore (f : char -> bool) :
  forall fuel, steps R (ConsumeZeroOrMore fuel f).
Proof.
  induction fuel as [|fuel IH]; cbn [ConsumeZeroOrMore]; steps_tac.
Qed.

Lemma steps_ConsumeOneOrMore_loop (f : char -> bool) :
  forall fuel, steps R (ConsumeOneOrMore_loop fuel f).
Proof.
  induction fuel as [|fuel IH]; cbn [ConsumeOneOrMore_loop]; steps_tac.
Qed.

Lemma steps_ConsumeOneOrMore (fuel : nat) (f : char -> bool) (msg : error_message) :
  steps R (ConsumeOneOrMore fuel f msg).
Proof.
  unfold ConsumeOneOrMore. steps_tac. apply steps_ConsumeOneOrMore_loop.
Qed.

Lemma steps_ConsumeString_escape : steps R ConsumeString_escape.
Proof. unfold ConsumeString_escape. steps_tac. Qed.

Lemma steps_ConsumeString (delimiter : char) :
  forall fuel, steps R (ConsumeString fuel delimiter).
Proof.
  induction fuel as [|fuel IH]; cbn [ConsumeString]; steps_tac;
    apply steps_ConsumeString_escape.
Qed.

Lemma steps_ConsumeNumber (fuel : nat) (z d : bool) : steps R (ConsumeNumber fuel z d).
Proof.
  unfold ConsumeNumber. steps_tac;
    first [apply steps_ConsumeZeroOrMore | apply steps_ConsumeOneOrMore].
Qed.

Lemma steps_ConsumeLineComment_loop :
  forall fuel, steps R (ConsumeLineComment_loop fuel).
Proof.
  induction fuel as [|fuel IH]; cbn [ConsumeLineComment_loop]; steps_tac.
Qed.

Lemma steps_ConsumeLineComment (fuel : nat) : steps R (ConsumeLineComment fuel false).
Proof.
  unfold ConsumeLineComment. steps_tac. apply steps_ConsumeLineComment_loop.
Qed.

Lemma steps_ConsumeBlockComment_skip :
  forall fuel, steps R (ConsumeBlockComment_skip fuel).
Proof.
  induction fuel as [|fuel IH]; cbn [ConsumeBlockComment_skip]; steps_tac.
Qed.

Lemma steps_ConsumeBlockComment_loop (l c : Z) :
  forall fuel, steps R (ConsumeBlockComment_loop fuel false l c).
Proof.
  induction fuel as [|fuel IH]; [apply steps_out_of_fuel|].
  cbn [ConsumeBlockComment_loop]. steps_tac;
    first [apply steps_ConsumeBlockComment_skip | apply steps_ConsumeZeroOrMore].
Qed.

Lemma steps_ConsumeBlockComment (fuel : nat) : steps R (ConsumeBlockComment fuel false).
Proof.
  unfold ConsumeBlockComment. steps_tac. apply steps_ConsumeBlockComment_loop.
Qed.

Lemma steps_TryConsumeWhitespace (fuel : nat) : steps R (TryConsumeWhitespace fuel).
Proof.
  unfold TryConsumeWhitespace. steps_tac; apply steps_ConsumeZeroOrMore.
Qed.

Lemma steps_TryConsumeNewline : steps R TryConsumeNewline.
Proof. unfold TryConsumeNewline. steps_tac. Qed.

Lemma steps_whitespace_or_newline (fuel : nat) :
  steps R (orM (TryConsumeWhitespace fuel) TryConsumeNewline).
Proof.
  apply steps_orM; [apply steps_TryConsumeWhitespace | apply steps_TryConsumeNewline].
Qed.

Lemma steps_Next_skip_unprintable :
  forall fuel, steps R (Next_skip_unprintable fuel).
Proof.
  induction fuel as [|fuel IH]; cbn [Next_skip_unprintable]; steps_tac.
Qed.

Lemma TryConsumeOne_inv (f : char -> bool) (t : upb_Tokenizer) (a : bool)
    (t' : upb_Tokenizer) :
  TryConsumeOne f t = Some (a, t') ->
  (a = true /\ f (current_char t) = true /\ t' = NextChar t) \/
  (a = false /\ f (current_char t) = false /\ t' = t).
Proof.
  unfold TryConsumeOne. destruct (f (current_char t)); intros H; injection H as <- <-;
    [left | right]; repeat split.
Qed.

Lemma TryConsume_inv (c : char) (t : upb_Tokenizer) (a : bool) (t' : upb_Tokenizer) :
  TryConsume c t = Some (a, t') ->
  (a = true /\ current_char t = c /\ t' = NextChar t) \/
  (a = false /\ current_char t <> c /\ t' = t).
Proof.
  unfold TryConsume. destruct (Z.eqb_spec (current_char t) c); intros H;
    injection H as <- <-; [left | right]; repeat split; assumption.
Qed.

(** The branches of [Next_token]: each starts with a [NextChar]. *)
Lemma Next_token_branches (fuel : nat) :
  exists (A B C D E F G : M unit) (err : upb_Tokenizer -> upb_Tokenizer),
    Next_token fuel =
    (lift StartToken ;;
     (letter <- TryConsumeOne Letter ;;
      if letter then A
      else
        zero <- TryConsume (ch "0") ;;
        if zero then B
        else
          dot <- TryConsume (ch ".") ;;
          if dot then C
          else
            digit <- TryConsumeOne Digit ;;
            if digit then D
            else
              dquote <- TryConsume 34 ;;
              if dquote then E
              else
                squote <- TryConsume 39 ;;
                if squote then F
                else lift err ;; lift NextChar ;; G) ;;
     lift EndToken ;; ret true) /\
    steps R A /\ steps R B /\ steps R C /\ steps R D /\ steps R E /\
    steps R F /\ steps R G /\
    forall t, err t = t \/ exists l c m, err t = ReportError l c m t.
Proof.
  do 8 eexists. split; [reflexivity|].
  repeat match goal with |- _ /\ _ => split end;
    try (steps_tac;
         first [ apply steps_ConsumeZeroOrMore | apply steps_ConsumeNumber
               | apply steps_ConsumeString ]).
  intros t. cbv beta.
  destruct (negb (Z.land (current_char t) 128 =? 0)); [right; eauto | left; reflexivity].
Qed.

Lemma steps_Next_token (fuel : nat) : Next_token_split R fuel.
Proof.
  intros t b t' H.
  destruct (Next_token_branches fuel)
    as (A & B & C & D & E & F & G & err & Eq & HA & HB & HC & HD & HE & HF & HG & Herr).
  rewrite Eq in H. clear Eq.
  apply bind_inv in H. destruct H as ([] & ts & Es & H). injection Es as <-.
  apply bind_inv in H. destruct H as ([] & t1 & Hbody & H).
  apply bind_inv in H. destruct H as ([] & t2 & E2 & H).
  injection E2 as <-. injection H as <- <-.
  split; [reflexivity|].
  assert (Hgoal : forall X : M unit, steps R X ->
            X (NextChar (StartToken t)) = Some (tt, t1) ->
            exists t0 t3,
              (t0 = StartToken t \/ exists l c m, t0 = ReportError l c m (StartToken t)) /\
              R (NextChar t0) t3 /\ EndToken t1 = EndToken t3).
  { intros X HX HE1. exists (StartToken t), t1. split; [left; reflexivity|].
    split; [eapply HX; exact HE1 | reflexivity]. }
  apply bind_inv in Hbody. destruct Hbody as (a & u & Ht & Hbody).
  apply TryConsumeOne_inv in Ht. destruct Ht as [(-> & _ & ->) | (-> & _ & ->)];
    [exact (Hgoal A HA Hbody)|].
  apply bind_inv in Hbody. destruct Hbody as (a & u & Ht & Hbody).
  apply TryConsume_inv in Ht. destruct Ht as [(-> & _ & ->) | (-> & _ & ->)];
    [exact (Hgoal B HB Hbody)|].
  apply bind_inv in Hbody. destruct Hbody as (a & u & Ht & Hbody).
  apply TryConsume_inv in Ht. destruct Ht as [(-> & _ & ->) | (-> & _ & ->)];
    [exact (Hgoal C HC Hbody)|].
  apply bind_inv in Hbody. destruct Hbody as (a & u & Ht & Hbody).
  apply TryConsumeOne_inv in Ht. destruct Ht as [(-> & _ & ->) | (-> & _ & ->)];
    [exact (Hgoal D HD Hbody)|].
  apply bind_inv in Hbody. destruct Hbody as (a & u & Ht & Hbody).
  apply TryConsume_inv in Ht. destruct Ht as [(-> & _ & ->) | (-> & _ & ->)];
    [exact (Hgoal E HE Hbody)|].
  apply bind_inv in Hbody. destruct Hbody as (a & u & Ht & Hbody).
  apply TryConsume_inv in Ht. destruct Ht as [(-> & _ & ->) | (-> & _ & ->)];
    [exact (Hgoal F HF Hbody)|].
  apply bind_inv in Hbody. destruct Hbody as ([] & u & Ht & Hbody).
  injection Ht as <-.
  apply bind_inv in Hbody. destruct Hbody as ([] & u & Ht & Hbody).
  injection Ht as <-.
  exists (err (StartToken t)), t1. split; [|split; [eapply HG; exact Hbody | reflexivity]].
  destruct (Herr (StartToken t)) as [-> | H]; [left; reflexivity | right; exact H].
Qed.

Lemma steps_whitespace_split (fuel : nat) : whitespace_split R fuel.
Proof.
  intros t report t' H. split; [eapply steps_whitespace_or_newline; exact H|].
  intros ->. unfold orM in H.
  apply bind_inv in H. destruct H as (ws & t1 & Hws & H).
  assert (Hnl : forall u, TryConsumeNewline u = Some (true, t') ->
                          Whitespace (current_char u) = true /\ R (NextChar u) t').
  { intros u Hu. unfold TryConsumeNewline in Hu.
    apply bind_inv in Hu. destruct Hu as (w & u1 & E1 & Hu). injection E1 as <- <-.
    apply bind_inv in Hu. destruct Hu as (n & u1 & E1 & Hu). injection E1 as <- <-.
    destruct (negb (report_whitespace u) || negb (report_newlines u));
      [discriminate Hu|].
    apply bind_inv in Hu. destruct Hu as (nl & u1 & E1 & Hu).
    apply TryConsume_inv in E1. destruct E1 as [(-> & Ec & ->) | (-> & _ & ->)];
      [|discriminate Hu].
    split; [rewrite Ec; reflexivity|].
    assert (Hs : steps R (set_current_type UPB_TOKENTYPE_NEWLINE ;; ret true))
      by steps_tac.
    exact (Hs _ _ _ Hu). }
  unfold TryConsumeWhitespace in Hws.
  apply bind_inv in Hws. destruct Hws as (newlines & u & E & Hws). injection E as <- <-.
  destruct (report_newlines t).
  - apply bind_inv in Hws. destruct Hws as (w & u & E & Hws).
    apply TryConsumeOne_inv in E. destruct E as [(-> & Ec & ->) | (-> & _ & ->)].
    + split.
      * unfold Whitespace, WhitespaceNoNewline in *.
        rewrite !orb_true_iff in *. tauto.
      * destruct ws.
        -- injection H as <-.
           assert (Hs : steps R (ConsumeZeroOrMore fuel WhitespaceNoNewline ;;
                                 set_current_type UPB_TOKENTYPE_WHITESPACE ;;
                                 ret true))
             by (steps_tac; apply steps_ConsumeZeroOrMore).
           exact (Hs _ _ _ Hws).
        -- exfalso. apply bind_inv in Hws. destruct Hws as (x1 & u1 & _ & Hws).
           apply bind_inv in Hws. destruct Hws as (x2 & u2 & _ & Hws).
           discriminate Hws.
    + injection Hws as <- <-. apply Hnl. exact H.
  - apply bind_inv in Hws. destruct Hws as (w & u & E & Hws).
    apply TryConsumeOne_inv in E. destruct E as [(-> & Ec & ->) | (-> & _ & ->)].
    + split; [exact Ec|].
      assert (Hrest : R (NextChar t) t1).
      { assert (Hs : steps R (ConsumeZeroOrMore fuel Whitespace ;;
                              set_current_type UPB_TOKENTYPE_WHITESPACE ;;
                              gets report_whitespace))
          by (steps_tac; apply steps_ConsumeZeroOrMore).
        exact (Hs _ _ _ Hws). }
      destruct ws.
      * injection H as <-. exact Hrest.
      * eapply R_trans; [exact Hrest|]. eapply steps_TryConsumeNewline. exact H.
    + injection Hws as <- <-. apply Hnl. exact H.
Qed.

(** *** The whole of [upb_Tokenizer_Next] *)

Hypothesis R_set_current : forall k t, R t (set_current k t).
Hypothesis R_set_previous : forall k t, R t (set_previous k t).
Hypothesis R_RecordTo : forall target t, R t (RecordTo target t).
Hypothesis R_StopRecording : forall t, R t (StopRecording t).

Lemma R_StartToken (t : upb_Tokenizer) : R t (StartToken t).
Proof.
  unfold StartToken. cbv zeta.
  eapply R_trans; [|apply R_RecordTo].
  do 3 (eapply R_trans; [|apply R_set_current]).
  apply R_set_current.
Qed.

Lemma R_EndToken (t : upb_Tokenizer) : R t (EndToken t).
Proof.
  unfold EndToken. cbv zeta.
  eapply R_trans; [apply R_StopRecording | apply R_set_current].
Qed.

Lemma steps_Next_eof : steps R Next_eof.
Proof.
  unfold Next_eof.
  repeat (apply steps_bind; [|intros ?]);
    first [ apply steps_ret | apply steps_set_current_type
          | apply steps_lift; intros ?; apply R_set_current ].
Qed.

Lemma steps_TryConsumeCommentStart : steps R TryConsumeCommentStart.
Proof.
  unfold TryConsumeCommentStart.
  apply steps_bind; [apply steps_gets|]. intros style.
  apply steps_bind; [destruct style; steps_tac|]. intros cpp.
  apply steps_if.
  - apply steps_bind; [steps_tac|]. intros lc. apply steps_if; [steps_tac|].
    apply steps_bind; [steps_tac|]. intros bc. apply steps_if; [steps_tac|].
    repeat (apply steps_bind; [|intros ?]);
      first [ apply steps_ret | apply steps_lift; intros ?; apply R_set_current ].
  - apply steps_bind; [destruct style; steps_tac|]. intros sh. steps_tac.
Qed.

Lemma steps_Next_loop : forall fuel, steps R (Next_loop fuel).
Proof.
  induction fuel as [|fuel IH]; intros t b t' H; cbn [Next_loop] in H.
  - destruct (read_error t); [eapply steps_Next_eof; exact H | discriminate].
  - destruct (read_error t); [eapply steps_Next_eof; exact H|].
    revert H. generalize t b t'. change (steps R) with (@steps R bool).
    match goal with
    | |- forall t0 b0 t1, ?m t0 = Some (b0, t1) -> R t0 t1 => change (steps R m)
    end.
    apply steps_bind; [apply steps_lift; apply R_StartToken|]. intros _.
    apply steps_bind; [apply steps_whitespace_or_newline|]. intros report.
    apply steps_bind; [apply steps_lift; apply R_EndToken|]. intros _.
    apply steps_if; [apply steps_ret|].
    apply steps_bind; [apply steps_TryConsumeCommentStart|]. intros status.
    destruct status.
    + apply steps_bind; [apply steps_ConsumeLineComment | intros _; exact IH].
    + apply steps_bind; [apply steps_ConsumeBlockComment | intros _; exact IH].
    + apply steps_ret.
    + apply steps_bind; [apply steps_gets|]. intros eof.
      apply steps_if; [apply steps_Next_eof|].
      apply steps_bind; [apply steps_gets|]. intros c.
      apply steps_if.
      * apply steps_bind; [steps_tac|]. intros _.
        apply steps_bind; [steps_tac|]. intros _.
        apply steps_bind; [apply steps_Next_skip_unprintable | intros _; exact IH].
      * intros t0 b0 t1 H0.
        destruct (steps_Next_token (S fuel) t0 b0 t1 H0)
          as (_ & u0 & u1 & Hu0 & HR & ->).
        eapply R_trans; [|apply R_EndToken].
        eapply R_trans; [|exact HR].
        eapply R_trans; [|apply R_NextChar].
        destruct Hu0 as [-> | (l & c0 & m & ->)]; [apply R_StartToken|].
        eapply R_trans; [apply R_StartToken | apply R_ReportError].
Qed.

Lemma steps_Next (t : upb_Tokenizer) (b : bool) (t' : upb_Tokenizer) :
  upb_Tokenizer_Next t = Some (b, t') -> R t t'.
Proof.
  unfold upb_Tokenizer_Next. rewrite bind_lift. intros H.
  eapply R_trans; [apply R_set_previous|]. eapply steps_Next_loop. exact H.
Qed.

End Steps.

(** ** Options, error reports and the reader position *)

Lemma Refresh_options_errors (t : upb_Tokenizer) :
  error_collector (Refresh t) = error_collector t /\
  allow_f_after_float (Refresh t) = allow_f_after_float t /\
  comment_style (Refresh t) = comment_style t /\
  require_space_after_number (Refresh t) = require_space_after_number t /\
  allow_multiline_strings (Refresh t) = allow_multiline_strings t /\
  report_whitespace (Refresh t) = report_whitespace t /\
  report_newlines (Refresh t) = report_newlines t.
Proof.
  destruct t as [? ? inp ? ? ? ? ? eof ? ? target ? ? ? ? ? ? ? ?].
  destruct inp as [|data rest], target as [[|]|], eof;
    unfold Refresh, append_to_record_target, upb_ZeroCopyInputStream_Next;
    reduce_state; split_cases; reduce_state; repeat split.
Qed.

Lemma NextChar_options_errors (t : upb_Tokenizer) :
  error_collector (NextChar t) = error_collector t /\
  allow_f_after_float (NextChar t) = allow_f_after_float t /\
  comment_style (NextChar t) = comment_style t /\
  require_space_after_number (NextChar t) = require_space_after_number t /\
  allow_multiline_strings (NextChar t) = allow_multiline_strings t /\
  report_whitespace (NextChar t) = report_whitespace t /\
  report_newlines (NextChar t) = report_newlines t.
Proof.
  unfold NextChar. cbv zeta.
  match goal with
  | |- context [if ?c then set_current_char ?x ?t1 else Refresh ?t2] =>
      destruct c;
      [|destruct (Refresh_options_errors t2) as (-> & -> & -> & -> & -> & -> & ->)]
  end;
    destruct (current_char t =? 10); try destruct (current_char t =? 9);
    repeat split.
Qed.

Lemma keeps_options_and_errors_refl (t : upb_Tokenizer) :
  keeps_options_and_errors t t.
Proof. split; [exists []; symmetry; apply app_nil_r | repeat split]. Qed.

Lemma keeps_options_and_errors_trans (t1 t2 t3 : upb_Tokenizer) :
  keeps_options_and_errors t1 t2 -> keeps_options_and_errors t2 t3 ->
  keeps_options_and_errors t1 t3.
Proof.
  intros ((l1 & E1) & a1 & a2 & a3 & a4 & a5 & a6)
         ((l2 & E2) & b1 & b2 & b3 & b4 & b5 & b6).
  split; [exists (l1 ++ l2); rewrite E2, E1; symmetry; apply app_assoc|].
  repeat split; congruence.
Qed.

Lemma keeps_options_and_errors_same (t t' : upb_Tokenizer) :
  error_collector t' = error_collector t /\
  allow_f_after_float t' = allow_f_after_float t /\
  comment_style t' = comment_style t /\
  require_space_after_number t' = require_space_after_number t /\
  allow_multiline_strings t' = allow_multiline_strings t /\
  report_whitespace t' = report_whitespace t /\
  report_newlines t' = report_newlines t ->
  keeps_options_and_errors t t'.
Proof.
  intros (E & H). split; [|exact H]. exists []. rewrite E. symmetry. apply app_nil_r.
Qed.

Lemma StopRecording_options_errors (t : upb_Tokenizer) :
  keeps_options_and_errors t (StopRecording t).
Proof.
  apply keeps_options_and_errors_same.
  unfold StopRecording, append_to_record_target.
  destruct (record_target t) as [[|]|]; repeat split.
Qed.

(** [upb_Tokenizer_Next] keeps the options and only appends error
    reports. *)
Lemma Next_options_errors (t : upb_Tokenizer) (b : bool) (t' : upb_Tokenizer) :
  upb_Tokenizer_Next t = Some (b, t') -> keeps_options_and_errors t t'.
Proof.
  apply (steps_Next keeps_options_and_errors).
  - apply keeps_options_and_errors_refl.
  - apply keeps_options_and_errors_trans.
  - intros t0. apply keeps_options_and_errors_same. apply NextChar_options_errors.
  - intros l c m t0. split; [eexists; reflexivity | repeat split].
  - intros ty t0. apply keeps_options_and_errors_same. repeat split.
  - intros k t0. apply keeps_options_and_errors_same. repeat split.
  - intros k t0. apply keeps_options_and_errors_same. repeat split.
  - intros target t0. apply keeps_options_and_errors_same. repeat split.
  - apply StopRecording_options_errors.
Qed.

(** X17.  What [upb_Tokenizer_Next] never does: from every state of the
    reader invariant it returns, and in the state it leaves the six options
    are what they were and the error collector holds the reports it held
    before, in the same order, followed by the new ones: no report is
    dropped or reordered. *)
Theorem Next_keeps_options_and_errors :
  forall t, wf t ->
    exists b t',
      upb_Tokenizer_Next t = Some (b, t') /\
      (exists reported, error_collector t' = error_collector t ++ reported) /\
      allow_f_after_float t' = allow_f_after_float t /\
      comment_style t' = comment_style t /\
      require_space_after_number t' = require_space_after_number t /\
      allow_multiline_strings t' = allow_multiline_strings t /\
      report_whitespace t' = report_whitespace t /\
      report_newlines t' = report_newlines t.
Proof.
  intros t Hwf. destruct (Next_total t Hwf) as (b & t' & E & _).
  exists b, t'. split; [exact E|]. exact (Next_options_errors t b t' E).
Qed.

Lemma Next_keeps_options_and_errors_witness :
  exists b t',
    upb_Tokenizer_Next (upb_Tokenizer_New (bytes "0x 1e") []) = Some (b, t') /\
    (exists reported,
       error_collector t' =
       error_collector (upb_Tokenizer_New (bytes "0x 1e") []) ++ reported) /\
    allow_f_after_float t' = allow_f_after_float (upb_Tokenizer_New (bytes "0x 1e") []) /\
    comment_style t' = comment_style (upb_Tokenizer_New (bytes "0x 1e") []) /\
    require_space_after_number t' =
    require_space_after_number (upb_Tokenizer_New (bytes "0x 1e") []) /\
    allow_multiline_strings t' =
    allow_multiline_strings (upb_Tokenizer_New (bytes "0x 1e") []) /\
    report_whitespace t' = report_whitespace (upb_Tokenizer_New (bytes "0x 1e") []) /\
    report_newlines t' = report_newlines (upb_Tokenizer_New (bytes "0x 1e") []).
Proof.
  apply (Next_keeps_options_and_errors (upb_Tokenizer_New (bytes "0x 1e") [])).
  apply New_wf.
Defined.

(** ** The text of a token is a slice of the input *)

Lemma same_reader_ok (t t' : upb_Tokenizer) :
  same_reader t t' -> reader_ok t -> reader_ok t' /\ pending t' = pending t.
Proof.
  intros Hs (Hwf & Hin & Hbuf). pose proof (same_reader_wf _ _ Hs Hwf) as Hwf'.
  destruct Hs as (a1 & a2 & a3 & a4 & a5 & a6).
  unfold reader_ok, chunks_ok, pending. rewrite a1, a2, a3, a6.
  split; [split; [exact Hwf' | split; assumption] | reflexivity].
Qed.

Lemma consumes_refl (t : upb_Tokenizer) : consumes t t.
Proof. intros H. split; [assumption | exists []; reflexivity]. Qed.

Lemma consumes_trans (t1 t2 t3 : upb_Tokenizer) :
  consumes t1 t2 -> consumes t2 t3 -> consumes t1 t3.
Proof.
  intros H12 H23 H1. destruct (H12 H1) as (H2 & s1 & E1).
  destruct (H23 H2) as (H3 & s2 & E2). split; [assumption|].
  exists (s1 ++ s2). rewrite E1, E2. apply app_assoc.
Qed.

Lemma consumes_same (t t' : upb_Tokenizer) : same_reader t t' -> consumes t t'.
Proof.
  intros Hs H. destruct (same_reader_ok _ _ Hs H) as [H' E].
  split; [assumption | exists []; rewrite E; reflexivity].
Qed.

Lemma consumes_NextChar (t : upb_Tokenizer) : consumes t (NextChar t).
Proof.
  intros H. destruct (NextChar_reader t H) as [H' E]. split; [assumption|].
  rewrite E. destruct (pending t) as [|c rest]; [exists [] | exists [c]]; reflexivity.
Qed.

Lemma records_refl (t : upb_Tokenizer) : records t t.
Proof.
  intros H Hr. split; [assumption|]. split; [assumption|].
  exists []. split; [reflexivity | symmetry; apply app_nil_r].
Qed.

Lemma records_trans (t1 t2 t3 : upb_Tokenizer) :
  records t1 t2 -> records t2 t3 -> records t1 t3.
Proof.
  intros H12 H23 H1 R1. destruct (H12 H1 R1) as (H2 & R2 & s1 & E1 & T1).
  destruct (H23 H2 R2) as (H3 & R3 & s2 & E2 & T2).
  split; [assumption|]. split; [assumption|].
  exists (s1 ++ s2). split.
  - rewrite E1, E2. apply app_assoc.
  - rewrite T2, T1. symmetry. apply app_assoc.
Qed.

Lemma NextChar_recorded_eof (t : upb_Tokenizer) :
  read_error t = true -> buffer t = [] -> recording t ->
  recording (NextChar t) /\ recorded_text (NextChar t) = recorded_text t.
Proof.
  destruct t as [cur prev inp errs c buf size pos eof ln col target start cont
                 o1 o2 o3 o4 o5 o6].
  unfold recording, recorded_text. reduce_state. intros -> -> (Ht & Hs). subst target.
  unfold NextChar. reduce_state.
  destruct (c =? 10); [|destruct (c =? 9)]; reduce_state;
    (destruct (pos + 1 <? size); reduce_state;
     [|unfold Refresh; reduce_state];
     (split; [split; [reflexivity | lia]|]);
     unfold mem_range; rewrite !skipn_nil, !firstn_nil; reflexivity).
Qed.

Lemma records_NextChar (t : upb_Tokenizer) : records t (NextChar t).
Proof.
  intros H Hr. destruct (NextChar_reader t H) as [H' E].
  destruct H as (Hwf & Hin & Hbuf). split; [assumption|].
  destruct (read_error t) eqn:Er.
  - destruct (NextChar_recorded_eof t Er (Hbuf eq_refl) Hr) as [Hr' T].
    split; [assumption|]. exists []. split.
    + apply (pending_nil _ Hwf) in Er. rewrite E, Er. reflexivity.
    + rewrite T. symmetry. apply app_nil_r.
  - destruct (NextChar_recorded t Hwf Er Hr) as [Hr' T].
    destruct (NextChar_pending t Hwf Hin Er) as [P _].
    split; [assumption|]. exists [current_char t]. split; assumption.
Qed.

Lemma records_same (t t' : upb_Tokenizer) :
  same_reader t t' -> record_target t' = record_target t ->
  record_start t' = record_start t -> tok_text (current t') = tok_text (current t) ->
  records t t'.
Proof.
  intros Hs Ht Hst Htext H Hr. destruct (same_reader_ok _ _ Hs H) as [H' E].
  destruct Hs as (a1 & a2 & a3 & a4 & a5 & a6).
  split; [assumption|]. split.
  - unfold recording in *. rewrite Ht, Hst, a3. exact Hr.
  - exists []. split; [rewrite E; reflexivity|].
    unfold recorded_text. rewrite Htext, Hst, a2, a3. symmetry. apply app_nil_r.
Qed.

(** Every consumer of the scanner only consumes pending bytes. *)
Lemma consumes_steps :
  (forall fuel, steps consumes (ConsumeLineComment fuel false)) /\
  (forall fuel, steps consumes (ConsumeBlockComment fuel false)) /\
  (forall fuel, steps consumes (Next_skip_unprintable fuel)).
Proof.
  assert (H1 : forall l c m t, consumes t (ReportError l c m t))
    by (intros; apply consumes_same; repeat split).
  assert (H2 : forall ty t, consumes t (set_current (set_tok_type ty (current t)) t))
    by (intros; apply consumes_same; repeat split).
  split; [|split]; intros fuel.
  - apply steps_ConsumeLineComment;
      first [ exact consumes_refl | exact consumes_trans | exact consumes_NextChar
            | exact H1 | exact H2 ].
  - apply steps_ConsumeBlockComment;
      first [ exact consumes_refl | exact consumes_trans | exact consumes_NextChar
            | exact H1 | exact H2 ].
  - apply steps_Next_skip_unprintable;
      first [ exact consumes_refl | exact consumes_trans | exact consumes_NextChar
            | exact H1 | exact H2 ].
Qed.

(** While a token is recorded, what is consumed is what is recorded. *)
Lemma records_steps (fuel : nat) :
  whitespace_split records fuel /\ Next_token_split records fuel.
Proof.
  assert (H1 : forall l c m t, records t (ReportError l c m t))
    by (intros; apply records_same; repeat split).
  assert (H2 : forall ty t, records t (set_current (set_tok_type ty (current t)) t))
    by (intros; apply records_same; repeat split).
  split.
  - apply steps_whitespace_split;
      first [ exact records_refl | exact records_trans | exact records_NextChar
            | exact H1 | exact H2 ].
  - apply steps_Next_token;
      first [ exact records_refl | exact records_trans | exact records_NextChar
            | exact H1 | exact H2 ].
Qed.

Lemma StartToken_reader (t : upb_Tokenizer) :
  reader_ok t ->
  reader_ok (StartToken t) /\ pending (StartToken t) = pending t /\
  recording (StartToken t) /\ recorded_text (StartToken t) = [] /\
  read_error (StartToken t) = read_error t /\
  current_char (StartToken t) = current_char t.
Proof.
  intros H. destruct (same_reader_ok _ _ (proj1 (StartToken_frame t)) H) as [H' E].
  destruct (StartToken_recorded t (proj1 H)) as [Hr T].
  split; [exact H'|]. split; [exact E|]. split; [exact Hr|]. split; [exact T|].
  split; reflexivity.
Qed.

Lemma EndToken_reader (t : upb_Tokenizer) :
  reader_ok t -> recording t ->
  reader_ok (EndToken t) /\ pending (EndToken t) = pending t /\
  tok_text (current (EndToken t)) = recorded_text t /\
  read_error (EndToken t) = read_error t.
Proof.
  intros H Hr. pose proof (proj1 (EndToken_frame t)) as Hs.
  destruct (same_reader_ok _ _ Hs H) as [H' E].
  split; [assumption|]. split; [assumption|].
  split; [apply EndToken_text; assumption | apply Hs].
Qed.

Lemma Next_eof_reader (t : upb_Tokenizer) (b : bool) (t' : upb_Tokenizer) :
  Next_eof t = Some (b, t') ->
  b = false /\ same_reader t t' /\ tok_text (current t') = [].
Proof.
  unfold Next_eof, set_current_type. rewrite !bind_lift. intros H.
  injection H as <- <-. repeat split.
Qed.

Lemma reader_ok_not_eof (t : upb_Tokenizer) :
  reader_ok t -> read_error t = false ->
  exists rest, pending t = current_char t :: rest /\
               pending (NextChar t) = rest /\ reader_ok (NextChar t).
Proof.
  intros H Er. destruct (NextChar_reader t H) as [H' E].
  destruct H as (Hwf & Hin & Hbuf).
  destruct (NextChar_pending t Hwf Hin Er) as [P _].
  exists (pending (NextChar t)). split; [exact P | split; [reflexivity | exact H']].
Qed.

(** The comment test at the head of a token: what it consumes, and the
    slash it leaves as a token. *)
Lemma TryConsumeCommentStart_reader (t : upb_Tokenizer) (status : NextCommentStatus)
    (t' : upb_Tokenizer) :
  TryConsumeCommentStart t = Some (status, t') -> reader_ok t ->
  reader_ok t' /\
  exists s, pending t = s ++ pending t' /\
            (status = SLASH_NOT_COMMENT -> tok_text (current t') = s /\ s <> []).
Proof.
  intros H Hok. unfold TryConsumeCommentStart in H. rewrite bind_gets in H.
  assert (Hstep : forall u, reader_ok u -> current_char u <> 0 ->
            reader_ok (NextChar u) /\ pending u = [current_char u] ++ pending (NextChar u)).
  { intros u Hu Hc.
    destruct (reader_ok_not_eof u Hu (wf_not_eof u (proj1 Hu) Hc)) as (rest & P & P' & Hu').
    split; [assumption|]. rewrite P, P'. reflexivity. }
  assert (Hnone : reader_ok t /\
            exists s, pending t = s ++ pending t /\
                      (NO_COMMENT = SLASH_NOT_COMMENT -> tok_text (current t) = s /\ s <> [])).
  { split; [assumption|]. exists []. split; [reflexivity | discriminate]. }
  destruct (comment_style t).
  - apply bind_inv in H. destruct H as (cpp & u & E & H).
    apply TryConsume_inv in E. destruct E as [(-> & Ec & ->) | (-> & _ & ->)].
    + destruct (Hstep t Hok ltac:(rewrite Ec; discriminate)) as [Hok1 P1].
      apply bind_inv in H. destruct H as (lc & u & E & H).
      apply TryConsume_inv in E. destruct E as [(-> & Ec2 & ->) | (-> & _ & ->)].
      { injection H as <- <-.
        destruct (Hstep _ Hok1 ltac:(rewrite Ec2; discriminate)) as [Hok2 P2].
        split; [assumption|]. eexists. split; [|discriminate].
        rewrite P1, P2. apply app_assoc. }
      apply bind_inv in H. destruct H as (bc & u & E & H).
      apply TryConsume_inv in E. destruct E as [(-> & Ec3 & ->) | (-> & _ & ->)].
      { injection H as <- <-.
        destruct (Hstep _ Hok1 ltac:(rewrite Ec3; discriminate)) as [Hok3 P3].
        split; [assumption|]. eexists. split; [|discriminate].
        rewrite P1, P3. apply app_assoc. }
      rewrite !bind_lift in H. injection H as <- <-.
      match goal with
      | |- reader_ok ?u /\ _ =>
          assert (Hs : same_reader (NextChar t) u) by (repeat split)
      end.
      destruct (same_reader_ok _ _ Hs Hok1) as [Hok' E'].
      split; [assumption|]. exists [ch "/"]. rewrite E', P1, Ec.
      split; [reflexivity|]. intros _. split; [reflexivity | discriminate].
    + rewrite bind_ret in H. injection H as <- <-. exact Hnone.
  - rewrite bind_ret in H. cbv iota in H.
    apply bind_inv in H. destruct H as (sh & u & E & H).
    apply TryConsume_inv in E. destruct E as [(-> & Ec & ->) | (-> & _ & ->)].
    + injection H as <- <-.
      destruct (Hstep t Hok ltac:(rewrite Ec; discriminate)) as [Hok1 P1].
      split; [assumption|]. eexists. split; [exact P1 | discriminate].
    + injection H as <- <-. exact Hnone.
Qed.

Lemma Next_loop_text :
  forall fuel t b t',
    Next_loop fuel t = Some (b, t') -> reader_ok t -> token_from_input t b t'.
Proof.
  assert (Heof : forall t b t', Next_eof t = Some (b, t') -> reader_ok t ->
                    read_error t = true -> token_from_input t b t').
  { intros t b t' H Hok Er. destruct (Next_eof_reader _ _ _ H) as (-> & Hs & Htext).
    destruct (same_reader_ok _ _ Hs Hok) as [Hok' E].
    apply (pending_nil _ (proj1 Hok)) in Er.
    split; [assumption|]. rewrite Htext, E, Er.
    split; [exists []; reflexivity|]. split; [discriminate | intros _; split; reflexivity]. }
  assert (Hskip : forall t u b t', token_from_input u b t' ->
            (exists s, pending t = s ++ pending u) -> token_from_input t b t').
  { intros t u b t' (Hok' & (sk & E) & Ht & Hf) (s & Es).
    split; [assumption|]. split; [|split; assumption].
    exists (s ++ sk). rewrite Es, E. apply app_assoc. }
  induction fuel as [|fuel IH]; intros t b t' H Hok; cbn [Next_loop] in H.
  { destruct (read_error t) eqn:Er; [eapply Heof; eassumption | discriminate]. }
  destruct (read_error t) eqn:Er; [eapply Heof; eassumption|].
  destruct (records_steps (S fuel)) as [Hws Htok].
  destruct consumes_steps as (Hline & Hblock & Hunp).
  apply bind_inv in H. destruct H as ([] & u & E & H). injection E as <-.
  destruct (StartToken_reader t Hok) as (Hok0 & P0 & R0 & T0 & Er0 & C0).
  apply bind_inv in H. destruct H as (report & t1 & E1 & H).
  destruct (Hws _ _ _ E1) as [Hrec Hrep].
  destruct (Hrec Hok0 R0) as (Hok1 & R1 & s1 & P1 & T1).
  rewrite T0 in T1. cbn [app] in T1.
  apply bind_inv in H. destruct H as ([] & u & E & H). injection E as <-.
  destruct (EndToken_reader t1 Hok1 R1) as (Hok2 & P2 & T2 & Er2).
  destruct report.
  { injection H as <- <-. split; [assumption|].
    rewrite T2, T1, P2, <- P0, P1.
    split; [exists []; reflexivity|]. split; [|discriminate]. intros _.
    destruct (Hrep eq_refl) as [Hc Hrec'].
    assert (Hc0 : current_char (StartToken t) <> 0)
      by (intros E0; rewrite E0 in Hc; discriminate Hc).
    destruct (reader_ok_not_eof _ Hok0 (wf_not_eof _ (proj1 Hok0) Hc0))
      as (rest & Pa & Pb & Hoka).
    destruct (records_NextChar _ Hok0 R0) as (Hokn & Rn & _).
    destruct (Hrec' Hokn Rn) as (_ & _ & s' & P' & _).
    rewrite Pb in P'. rewrite Pa in P1. intros ->. cbn [app] in P1.
    rewrite <- P1 in P'. apply (f_equal (@length char)) in P'.
    rewrite length_app in P'. cbn [length] in P'. lia. }
  assert (Pt : exists s, pending t = s ++ pending (EndToken t1))
    by (exists s1; rewrite P2, <- P0, P1; reflexivity).
  apply bind_inv in H. destruct H as (status & t3 & E3 & H).
  destruct (TryConsumeCommentStart_reader _ _ _ E3 Hok2) as (Hok3 & s3 & P3 & Hslash).
  assert (Pt3 : exists s, pending t = s ++ pending t3).
  { destruct Pt as (s & Es). exists (s ++ s3). rewrite Es, P3. apply app_assoc. }
  destruct status.
  - apply bind_inv in H. destruct H as ([] & t4 & E4 & H).
    destruct (Hline _ _ _ _ E4 Hok3) as (Hok4 & s4 & P4).
    apply (Hskip t t4); [apply IH; assumption|].
    destruct Pt3 as (s & Es). exists (s ++ s4). rewrite Es, P4. apply app_assoc.
  - apply bind_inv in H. destruct H as ([] & t4 & E4 & H).
    destruct (Hblock _ _ _ _ E4 Hok3) as (Hok4 & s4 & P4).
    apply (Hskip t t4); [apply IH; assumption|].
    destruct Pt3 as (s & Es). exists (s ++ s4). rewrite Es, P4. apply app_assoc.
  - injection H as <- <-. destruct (Hslash eq_refl) as [Htext Hne].
    split; [assumption|]. rewrite Htext. split; [|split; [intros _; assumption | discriminate]].
    destruct Pt as (s & Es). exists s. rewrite Es, P3. reflexivity.
  - rewrite bind_gets in H.
    destruct (read_error t3) eqn:Er3;
      [apply (Hskip t t3); [eapply Heof; eassumption | assumption]|].
    rewrite bind_gets in H.
    destruct (Unprintable (current_char t3) || (current_char t3 =? 0)).
    + rewrite !bind_lift in H.
      apply bind_inv in H. destruct H as ([] & t5 & E5 & H).
      assert (Hc4 : consumes t3 (NextChar (AddError MsgInvalidControlCharacters t3))).
      { eapply consumes_trans; [|apply consumes_NextChar].
        apply consumes_same. repeat split. }
      destruct (Hc4 Hok3) as (Hok4 & s4 & P4).
      destruct (Hunp _ _ _ _ E5 Hok4) as (Hok5 & s5 & P5).
      apply (Hskip t t5); [apply IH; assumption|].
      destruct Pt3 as (s & Es). exists (s ++ s4 ++ s5).
      rewrite Es, P4, P5, <- !app_assoc. reflexivity.
    + destruct (Htok _ _ _ H) as (-> & u0 & u1 & Hu0 & Hrec3 & ->).
      destruct (StartToken_reader t3 Hok3) as (Hoks & Ps & Rs & Ts & Ers & Cs).
      assert (Hu : reader_ok u0 /\ pending u0 = pending t3 /\ recording u0 /\
                   recorded_text u0 = [] /\ read_error u0 = false).
      { destruct Hu0 as [-> | (l & c & m & ->)].
        - rewrite Ers. split; [exact Hoks|]. split; [exact Ps|].
          split; [exact Rs|]. split; [exact Ts | exact Er3].
        - assert (Hs : same_reader (StartToken t3) (ReportError l c m (StartToken t3)))
            by (repeat split).
          destruct (same_reader_ok _ _ Hs Hoks) as [Hok' E'].
          split; [assumption|]. split; [rewrite E'; assumption|].
          split; [exact Rs|]. split; [exact Ts|]. rewrite <- Er3. exact Ers. }
      destruct Hu as (Hoku & Pu & Ru & Tu & Eru).
      destruct (records_NextChar u0 Hoku Ru) as (Hokn & Rn & sn & Pn & Tn).
      destruct (reader_ok_not_eof u0 Hoku Eru) as (rest & Pa & Pb & _).
      destruct (Hrec3 Hokn Rn) as (Hok1' & R1' & s' & P' & T').
      destruct (EndToken_reader u1 Hok1' R1') as (Hoke & Pe & Te & _).
      split; [assumption|]. rewrite Te, T', Tn, Tu, Pe. cbn [app].
      assert (Esn : sn = [current_char u0]).
      { rewrite Pa, <- Pb in Pn.
        apply (f_equal (@length char)) in Pn as Hl. rewrite length_app in Hl.
        cbn [length] in Hl. destruct sn as [|x [|y sn]]; cbn [length] in Hl; try lia.
        cbn [app] in Pn. injection Pn as <-. reflexivity. }
      subst sn. cbn [app].
      split; [|split; [discriminate | discriminate]].
      destruct Pt3 as (s & Es). exists s.
      rewrite Es, <- Pu, Pa, <- Pb, P'. reflexivity.
Qed.

Lemma Next_text (t : upb_Tokenizer) :
  reader_ok t ->
  exists b t', upb_Tokenizer_Next t = Some (b, t') /\ token_from_input t b t'.
Proof.
  intros Hok. destruct (Next_total t (proj1 Hok)) as (b & t' & E & _).
  exists b, t'. split; [exact E|].
  unfold upb_Tokenizer_Next in E. rewrite bind_lift in E.
  match type of E with
  | Next_loop _ ?t0 = _ => assert (Hs : same_reader t t0) by (repeat split)
  end.
  destruct (same_reader_ok _ _ Hs Hok) as [Hok0 P0].
  pose proof (Next_loop_text _ _ _ _ E Hok0) as H. unfold token_from_input in *.
  rewrite P0 in H. exact H.
Qed.

(** X18.  The text of a token is the input itself.  From a state of the
    reader invariant whose stream has no empty chunk, [upb_Tokenizer_Next]
    returns, and the bytes that were pending before the call are: some
    skipped bytes, then exactly the text of the current token, then the
    bytes still pending after the call, across all refills of the buffer.
    A call that returns true leaves a text that is not empty; a call that
    returns false leaves an empty text and nothing pending.  A tokenizer
    made by [upb_Tokenizer_New] is in such a state, with the array followed
    by the chunks of the stream pending. *)
Theorem Next_token_text_is_input_slice :
  (forall t, reader_ok t ->
     exists b t',
       upb_Tokenizer_Next t = Some (b, t') /\ reader_ok t' /\
       (exists skipped,
          pending t = skipped ++ upb_Tokenizer_CurrentTextData t' ++ pending t') /\
       (b = true -> upb_Tokenizer_CurrentTextData t' <> []) /\
       (b = false -> upb_Tokenizer_CurrentTextData t' = [] /\ pending t' = [])) /\
  (forall data stream,
     Forall (fun chunk => chunk <> []) stream ->
     reader_ok (upb_Tokenizer_New data stream) /\
     pending (upb_Tokenizer_New data stream) = data ++ concat stream).
Proof.
  split; [|exact New_reader].
  intros t Hok. destruct (Next_text t Hok) as (b & t' & E & H).
  exists b, t'. split; [exact E | exact H].
Qed.

Lemma Next_token_text_is_input_slice_witness :
  exists b t',
    upb_Tokenizer_Next (upb_Tokenizer_New (bytes " /* c */ ab") [bytes "c+"]) =
    Some (b, t') /\ reader_ok t' /\
    (exists skipped,
       pending (upb_Tokenizer_New (bytes " /* c */ ab") [bytes "c+"]) =
       skipped ++ upb_Tokenizer_CurrentTextData t' ++ pending t') /\
    (b = true -> upb_Tokenizer_CurrentTextData t' <> []) /\
    (b = false -> upb_Tokenizer_CurrentTextData t' = [] /\ pending t' = []).
Proof.
  apply (proj1 Next_token_text_is_input_slice
           (upb_Tokenizer_New (bytes " /* c */ ab") [bytes "c+"])).
  apply New_reader. repeat constructor; discriminate.
Defined.

Lemma tokens_of_S (n : nat) (t : upb_Tokenizer) :
  tokens_of (S n) t =
  match upb_Tokenizer_Next t with
  | Some (true, t') => current t' :: tokens_of n t'
  | _ => []
  end.
Proof. reflexivity. Qed.

Lemma Next_true_shrinks (t : upb_Tokenizer) (t' : upb_Tokenizer) :
  reader_ok t -> upb_Tokenizer_Next t = Some (true, t') ->
  reader_ok t' /\
  (length (tok_text (current t')) + length (pending t') <= length (pending t))%nat /\
  (length (pending t') < length (pending t))%nat.
Proof.
  intros Hok E. destruct (Next_text t Hok) as (b & t1 & E1 & H).
  rewrite E in E1. injection E1 as <- <-.
  destruct H as (Hok' & (sk & P) & Hne & _). specialize (Hne eq_refl).
  split; [assumption|].
  apply (f_equal (@length char)) in P. rewrite !length_app in P.
  destruct (tok_text (current t')); [contradiction|]. cbn [length] in *. lia.
Qed.

(** X19.  The token stream is no longer than the input.  From a state of
    the reader invariant whose stream has no empty chunk, however many
    calls are made, [upb_Tokenizer_Next] returns true at most as often as
    bytes are pending, the texts of the tokens have together at most that
    many bytes, and asking for more tokens than there are pending bytes
    gives no further token: the scanner reaches the end of the input. *)
Theorem token_stream_is_bounded_by_input :
  forall n t,
    reader_ok t ->
    (length (tokens_of n t) <= length (pending t))%nat /\
    (length (concat (map tok_text (tokens_of n t))) <= length (pending t))%nat /\
    ((length (pending t) < n)%nat ->
     tokens_of n t = tokens_of (S (length (pending t))) t).
Proof.
  intros n t Hok. split; [|split].
  - revert t Hok. induction n as [|n IH]; intros t Hok; [cbn; lia|].
    rewrite tokens_of_S.
    destruct (upb_Tokenizer_Next t) as [[[|] t']|] eqn:E; try (cbn; lia).
    destruct (Next_true_shrinks t t' Hok E) as (Hok' & _ & Hlt).
    specialize (IH t' Hok'). cbn [length]. lia.
  - revert t Hok. induction n as [|n IH]; intros t Hok; [cbn; lia|].
    rewrite tokens_of_S.
    destruct (upb_Tokenizer_Next t) as [[[|] t']|] eqn:E; try (cbn; lia).
    destruct (Next_true_shrinks t t' Hok E) as (Hok' & Hle & _).
    specialize (IH t' Hok'). cbn [map concat]. rewrite length_app. lia.
  - assert (H : forall k t, reader_ok t -> (length (pending t) < k)%nat ->
                forall m, (k <= m)%nat -> tokens_of m t = tokens_of k t).
    { clear. induction k as [|k IH]; intros t Hok Hlt m Hm; [lia|].
      destruct m as [|m]; [lia|]. rewrite !tokens_of_S.
      destruct (upb_Tokenizer_Next t) as [[[|] t']|] eqn:E; try reflexivity.
      destruct (Next_true_shrinks t t' Hok E) as (Hok' & _ & Hlt').
      f_equal. apply IH; [assumption | lia | lia]. }
    intros Hlt. apply H; [assumption | lia | lia].
Qed.

Lemma token_stream_is_bounded_by_input_witness :
  (length (tokens_of 9 (upb_Tokenizer_New (bytes "a+b") [])) <=
   length (pending (upb_Tokenizer_New (bytes "a+b") [])))%nat /\
  (length (concat (map tok_text (tokens_of 9 (upb_Tokenizer_New (bytes "a+b") [])))) <=
   length (pending (upb_Tokenizer_New (bytes "a+b") [])))%nat /\
  ((length (pending (upb_Tokenizer_New (bytes "a+b") [])) < 9)%nat ->
   tokens_of 9 (upb_Tokenizer_New (bytes "a+b") []) =
   tokens_of (S (length (pending (upb_Tokenizer_New (bytes "a+b") []))))
             (upb_Tokenizer_New (bytes "a+b") [])).
Proof.
  apply (token_stream_is_bounded_by_input 9 (upb_Tokenizer_New (bytes "a+b") [])).
  apply New_reader. constructor.
Defined.

(** ** The scanner on an identifier *)

Lemma Refresh_token_fields (t : upb_Tokenizer) :
  tok_type (current (Refresh t)) = tok_type (current t) /\
  tok_line (current (Refresh t)) = tok_line (current t) /\
  tok_column (current (Refresh t)) = tok_column (current t) /\
  tok_end_column (current (Refresh t)) = tok_end_column (current t).
Proof.
  destruct t as [cur ? inp ? ? ? ? ? eof ? ? target ? ? ? ? ? ? ? ?].
  destruct inp as [|data rest], target as [[|]|], eof;
    unfold Refresh, append_to_record_target, upb_ZeroCopyInputStream_Next;
    reduce_state; split_cases; reduce_state; repeat split.
Qed.

Lemma NextChar_token_fields (t : upb_Tokenizer) :
  tok_type (current (NextChar t)) = tok_type (current t) /\
  tok_line (current (NextChar t)) = tok_line (current t) /\
  tok_column (current (NextChar t)) = tok_column (current t) /\
  tok_end_column (current (NextChar t)) = tok_end_column (current t).
Proof.
  unfold NextChar. cbv zeta.
  match goal with
  | |- context [if ?c then set_current_char ?x ?t1 else Refresh ?t2] =>
      destruct c; [|destruct (Refresh_token_fields t2) as (-> & -> & -> & ->)]
  end;
    destruct (current_char t =? 10); try destruct (current_char t =? 9);
    repeat split.
Qed.

Lemma EndToken_fields (t : upb_Tokenizer) :
  tok_type (current (EndToken t)) = tok_type (current t) /\
  tok_line (current (EndToken t)) = tok_line (current t) /\
  tok_column (current (EndToken t)) = tok_column (current t) /\
  tok_end_column (current (EndToken t)) = column t /\
  line (EndToken t) = line t /\ column (EndToken t) = column t.
Proof.
  unfold EndToken, StopRecording, append_to_record_target.
  destruct (record_target t) as [[|]|]; repeat split.
Qed.

Lemma StartToken_fields (t : upb_Tokenizer) :
  tok_line (current (StartToken t)) = line t /\
  tok_column (current (StartToken t)) = column t /\
  line (StartToken t) = line t /\ column (StartToken t) = column t.
Proof. repeat split. Qed.

Lemma Letter_facts (c : char) :
  Letter c = true ->
  c <> 0 /\ c <> 10 /\ c <> 9 /\ Whitespace c = false /\ c <> ch "/" /\
  c <> ch "#" /\ Unprintable c || (c =? 0) = false /\ Alphanumeric c = true.
Proof.
  intros H. unfold Letter in H. rewrite !orb_true_iff, !andb_true_iff, !Z.leb_le, Z.eqb_eq in H.
  change (ch "/") with 47. change (ch "#") with 35.
  unfold Whitespace, Unprintable, Alphanumeric.
  split; [lia|]. split; [lia|]. split; [lia|].
  split; [repeat (apply orb_false_iff; split); apply Z.eqb_neq; lia|].
  split; [lia|]. split; [lia|]. split.
  - apply orb_false_iff. split; [|apply Z.eqb_neq; lia].
    apply andb_false_iff. left. apply Z.ltb_ge. lia.
  - rewrite !orb_true_iff, !andb_true_iff, !Z.leb_le, Z.eqb_eq. lia.
Qed.

Lemma Alphanumeric_facts (c : char) :
  Alphanumeric c = true -> c <> 0 /\ c <> 10 /\ c <> 9.
Proof.
  intros H. unfold Alphanumeric in H.
  rewrite !orb_true_iff, !andb_true_iff, !Z.leb_le, Z.eqb_eq in H. lia.
Qed.

(** Not at a whitespace byte, the whitespace and newline tests consume
    nothing. *)
Lemma whitespace_none (fuel : nat) (u : upb_Tokenizer) :
  Whitespace (current_char u) = false ->
  orM (TryConsumeWhitespace fuel) TryConsumeNewline u = Some (false, u).
Proof.
  intros Hws.
  assert (Hn : WhitespaceNoNewline (current_char u) = false /\ current_char u <> 10).
  { unfold Whitespace, WhitespaceNoNewline in *. rewrite !orb_false_iff in *.
    rewrite !Z.eqb_neq in *. tauto. }
  destruct Hn as [Hn H10].
  assert (Hnl : TryConsumeNewline u = Some (false, u)).
  { unfold TryConsumeNewline. rewrite !bind_gets.
    destruct (negb (report_whitespace u) || negb (report_newlines u)); [reflexivity|].
    rewrite (bind_TryConsume_false _ _ _ H10). reflexivity. }
  unfold orM, TryConsumeWhitespace. rewrite bind_bind, bind_gets.
  destruct (report_newlines u).
  - rewrite bind_bind, (bind_TryConsumeOne_false _ _ _ Hn). cbv iota.
    rewrite bind_ret. exact Hnl.
  - rewrite bind_bind, (bind_TryConsumeOne_false _ _ _ Hws). cbv iota.
    rewrite bind_ret. exact Hnl.
Qed.

(** Not at a slash or a hash, no comment starts. *)
Lemma comment_none (u : upb_Tokenizer) :
  current_char u <> ch "/" -> current_char u <> ch "#" ->
  TryConsumeCommentStart u = Some (NO_COMMENT, u).
Proof.
  intros Hs Hh. unfold TryConsumeCommentStart. rewrite bind_gets.
  destruct (comment_style u).
  - rewrite (bind_TryConsume_false _ _ _ Hs). cbv iota. rewrite bind_ret. reflexivity.
  - rewrite bind_ret. cbv iota. rewrite (bind_TryConsume_false _ _ _ Hh). reflexivity.
Qed.

(** At a letter, [Next_token] takes the identifier branch. *)
Lemma Next_token_letter (fuel : nat) (t : upb_Tokenizer) :
  Letter (current_char t) = true ->
  Next_token fuel t =
  (ConsumeZeroOrMore fuel Alphanumeric ;;
   set_current_type UPB_TOKENTYPE_IDENTIFIER ;;
   lift EndToken ;; ret true) (NextChar (StartToken t)).
Proof.
  intros HL. unfold Next_token. rewrite bind_lift, bind_bind.
  rewrite bind_TryConsumeOne_true by exact HL. cbv iota.
  rewrite !bind_bind. reflexivity.
Qed.

(** The run of alphanumeric bytes [ConsumeZeroOrMore] consumes, recorded
    and counted in the column. *)
Lemma ConsumeZeroOrMore_Alphanumeric :
  forall fuel t a t',
    ConsumeZeroOrMore fuel Alphanumeric t = Some (a, t') ->
    reader_ok t -> recording t ->
    reader_ok t' /\ recording t' /\
    Alphanumeric (current_char t') = false /\
    line t' = line t /\
    tok_line (current t') = tok_line (current t) /\
    tok_column (current t') = tok_column (current t) /\
    exists s,
      pending t = s ++ pending t' /\ recorded_text t' = recorded_text t ++ s /\
      Forall (fun c => Alphanumeric c = true) s /\
      (INT_MIN <= column t -> column t + Z.of_nat (length s) <= INT_MAX ->
       column t' = column t + Z.of_nat (length s)).
Proof.
  induction fuel as [|fuel IH]; intros t a t' H Hok Hr; [discriminate H|].
  cbn [ConsumeZeroOrMore] in H. rewrite bind_gets in H.
  destruct (Alphanumeric (current_char t)) eqn:Ea.
  - rewrite bind_lift in H.
    destruct (Alphanumeric_facts _ Ea) as (H0 & H10 & H9).
    pose proof (wf_not_eof t (proj1 Hok) H0) as Er.
    destruct (reader_ok_not_eof t Hok Er) as (rest & Pa & Pb & Hok1).
    destruct (NextChar_recorded t (proj1 Hok) Er Hr) as [Hr1 T1].
    destruct (NextChar_line_column t) as [L1 C1].
    destruct (NextChar_token_fields t) as (_ & TL & TC & _).
    apply Z.eqb_neq in H10, H9. rewrite H10 in L1, C1. rewrite H9 in C1.
    destruct (IH _ _ _ H Hok1 Hr1)
      as (Hok' & Hr' & Hex & L' & TL' & TC' & s & P' & T' & Hall & C').
    split; [assumption|]. split; [assumption|]. split; [assumption|].
    split; [congruence|]. split; [congruence|]. split; [congruence|].
    exists (current_char t :: s). split; [|split; [|split]].
    + rewrite Pa, <- Pb, P'. reflexivity.
    + rewrite T', T1, <- app_assoc. reflexivity.
    + constructor; assumption.
    + intros Hlo Hhi. cbn [length] in Hhi.
      rewrite wrap_int_small in C1 by lia.
      rewrite C' by (rewrite C1; lia). rewrite C1. cbn [length]. lia.
  - injection H as _ <-.
    split; [assumption|]. split; [assumption|]. split; [assumption|].
    split; [reflexivity|]. split; [reflexivity|]. split; [reflexivity|].
    exists []. split; [reflexivity|]. split; [symmetry; apply app_nil_r|].
    split; [constructor | intros _ _; cbn [length]; lia].
Qed.

Lemma token_eta (k : upb_Token) (ty : upb_TokenType) (l c e : Z) (text : list char) :
  tok_type k = ty -> tok_line k = l -> tok_column k = c -> tok_end_column k = e ->
  tok_text k = text -> k = mkToken ty l c e text.
Proof. destruct k. cbn. intros -> -> -> -> ->. reflexivity. Qed.

(** At a letter, a call of [upb_Tokenizer_Next] scans an identifier. *)
Lemma Next_at_letter (t : upb_Tokenizer) :
  reader_ok t -> Letter (current_char t) = true ->
  exists t' name,
    upb_Tokenizer_Next t = Some (true, t') /\ reader_ok t' /\
    current t' = mkToken UPB_TOKENTYPE_IDENTIFIER (line t) (column t)
                         (column t') name /\
    pending t = name ++ pending t' /\
    identifier_shape name /\
    Alphanumeric (current_char t') = false /\
    line t' = line t /\
    (INT_MIN <= column t -> column t + Z.of_nat (length name) <= INT_MAX ->
     column t' = column t + Z.of_nat (length name)).
Proof.
  intros Hok HL.
  destruct (Next_total t (proj1 Hok)) as (b & t' & E & _).
  pose proof E as Enext.
  unfold upb_Tokenizer_Next in E. rewrite bind_lift in E.
  match type of E with
  | Next_loop _ ?x = _ =>
      set (t0 := x) in *; assert (Hs0 : same_reader t t0) by (repeat split)
  end.
  destruct (same_reader_ok _ _ Hs0 Hok) as [Hok0 P0].
  assert (C0 : current_char t0 = current_char t) by reflexivity.
  assert (LC0 : line t0 = line t /\ column t0 = column t) by (split; reflexivity).
  destruct (Letter_facts _ HL) as (H0 & H10 & H9 & Hws & Hsl & Hh & Hun & Hal).
  cbn [Next_loop] in E.
  rewrite (wf_not_eof t0 (proj1 Hok0)) in E by (rewrite C0; exact H0).
  rewrite bind_lift in E.
  destruct (StartToken_reader t0 Hok0) as (Hok1 & P1 & R1 & T1 & Er1 & C1).
  rewrite (bind_eq _ _ _ _ _ (whitespace_none _ _ ltac:(rewrite C1, C0; exact Hws))) in E.
  rewrite bind_lift in E. cbv iota in E.
  destruct (EndToken_reader _ Hok1 R1) as (Hok2 & P2 & T2 & Er2).
  assert (C2 : current_char (EndToken (StartToken t0)) = current_char t).
  { rewrite <- C0, <- C1. symmetry. apply (proj1 (EndToken_frame (StartToken t0))). }
  rewrite (bind_eq _ _ _ _ _ (comment_none _ ltac:(rewrite C2; exact Hsl)
                                           ltac:(rewrite C2; exact Hh))) in E.
  cbv iota in E. rewrite bind_gets in E.
  rewrite (wf_not_eof _ (proj1 Hok2)) in E by (rewrite C2; exact H0).
  rewrite bind_gets, C2, Hun in E.
  rewrite Next_token_letter in E by (rewrite C2; exact HL).
  set (u := EndToken (StartToken t0)) in *.
  destruct (StartToken_reader u Hok2) as (Hok3 & P3 & R3 & T3 & Er3 & C3).
  assert (Er3' : read_error (StartToken u) = false).
  { apply wf_not_eof; [apply Hok3|]. rewrite C3, C2. exact H0. }
  destruct (reader_ok_not_eof _ Hok3 Er3') as (rest & Pa & Pb & Hok4).
  destruct (NextChar_recorded _ (proj1 Hok3) Er3' R3) as [R4 T4].
  destruct (NextChar_line_column (StartToken u)) as [L4 C4].
  destruct (NextChar_token_fields (StartToken u)) as (_ & TL4 & TC4 & _).
  rewrite C3, C2 in L4, C4, Pa, T4.
  apply Z.eqb_neq in H10, H9. rewrite H10 in L4, C4. rewrite H9 in C4.
  rewrite T3 in T4. cbn [app] in T4.
  apply bind_inv in E. destruct E as ([] & t5 & E5 & E).
  destruct (ConsumeZeroOrMore_Alphanumeric _ _ _ _ E5 Hok4 R4)
    as (Hok5 & R5 & Hex & L5 & TL5 & TC5 & s & P5 & T5 & Hall & C5).
  unfold set_current_type in E. rewrite !bind_lift in E. injection E as <- <-.
  set (t6 := set_current (set_tok_type UPB_TOKENTYPE_IDENTIFIER (current t5)) t5).
  assert (Hs6 : same_reader t5 t6) by (repeat split).
  destruct (same_reader_ok _ _ Hs6 Hok5) as [Hok6 P6].
  assert (R6 : recording t6) by exact R5.
  destruct (EndToken_reader t6 Hok6 R6) as (Hok7 & P7 & T7 & _).
  destruct (EndToken_fields t6) as (Y1 & Y2 & Y3 & Y4 & Y5 & Y6).
  assert (Elc : line u = line t /\ column u = column t).
  { destruct (EndToken_fields (StartToken t0)) as (_ & _ & _ & _ & Ye & Yf).
    subst u. rewrite Ye, Yf. exact LC0. }
  destruct Elc as [Lu Cu].
  destruct (StartToken_fields u) as (S1 & S2 & S3 & S4).
  clearbody u t0.
  exists (EndToken t6), (current_char t :: s).
  split; [exact Enext|]. split; [assumption|].
  split; [|split; [|split; [|split; [|split]]]].
  - apply token_eta.
    + rewrite Y1. reflexivity.
    + rewrite Y2. change (tok_line (current t6)) with (tok_line (current t5)).
      rewrite TL5, TL4, S1. exact Lu.
    + rewrite Y3. change (tok_column (current t6)) with (tok_column (current t5)).
      rewrite TC5, TC4, S2. exact Cu.
    + rewrite Y4, Y6. reflexivity.
    + rewrite T7. change (recorded_text t6) with (recorded_text t5).
      rewrite T5, T4. reflexivity.
  - rewrite P7, P6, <- P0, <- P1, <- P2, <- P3, Pa, <- Pb, P5. reflexivity.
  - exists (current_char t), s. split; [reflexivity | split; assumption].
  - match goal with
    | |- Alphanumeric (current_char ?x) = false =>
        replace (current_char x) with (current_char t5); [exact Hex|]
    end.
    transitivity (current_char t6); [reflexivity|].
    symmetry. apply (proj1 (EndToken_frame t6)).
  - rewrite Y5. change (line t6) with (line t5). rewrite L5, L4, S3. exact Lu.
  - intros Hlo Hhi. cbn [length] in Hhi.
    rewrite S4, Cu in C4. rewrite wrap_int_small in C4 by lia.
    rewrite Y6. change (column t6) with (column t5).
    rewrite C5 by (rewrite C4; lia). rewrite C4. cbn [length]. lia.
Qed.

Lemma longest_prefix_unique (f : char -> bool) (a : list char) :
  forall a' b b',
    a ++ b = a' ++ b' ->
    Forall (fun c => f c = true) a -> Forall (fun c => f c = true) a' ->
    (b = [] \/ f (hd 0 b) = false) -> (b' = [] \/ f (hd 0 b') = false) ->
    a = a' /\ b = b'.
Proof.
  induction a as [|x a IH]; intros a' b b' E Ha Ha' Hb Hb'.
  - destruct a' as [|x' a']; [split; [reflexivity | exact E]|].
    cbn [app] in E. subst b. inversion Ha' as [|? ? Hx' _]. subst.
    destruct Hb as [Hb | Hb]; [discriminate Hb|]. cbn [hd] in Hb. congruence.
  - destruct a' as [|x' a'].
    + cbn [app] in E. subst b'. inversion Ha as [|? ? Hx _]. subst.
      destruct Hb' as [Hb' | Hb']; [discriminate Hb'|]. cbn [hd] in Hb'. congruence.
    + cbn [app] in E. injection E as <- E.
      inversion Ha. inversion Ha'. subst.
      destruct (IH a' b b' E) as [-> ->]; try assumption. split; reflexivity.
Qed.

(** X20.  The scanner accepts what [upb_Tokenizer_IsIdentifier] accepts.
    When the current character is a letter or an underscore,
    [upb_Tokenizer_Next] returns true with an IDENTIFIER token that starts
    at the reader position, ends at the new reader position in the same
    line, as many columns further as it has bytes (as long as the [int]
    column does not overflow), and whose text is the longest run of
    alphanumeric bytes at the head of the pending input.  So for every text
    that [upb_Tokenizer_IsIdentifier] accepts, a tokenizer made from that
    text followed by anything that does not start with an alphanumeric byte
    gives exactly that text as its first token. *)
Theorem Next_scans_identifiers :
  (forall t,
     reader_ok t -> Letter (current_char t) = true ->
     exists t' name,
       upb_Tokenizer_Next t = Some (true, t') /\
       current t' = mkToken UPB_TOKENTYPE_IDENTIFIER (line t) (column t)
                            (column t') name /\
       pending t = name ++ pending t' /\
       identifier_shape name /\
       Alphanumeric (current_char t') = false /\
       line t' = line t /\
       (INT_MIN <= column t -> column t + Z.of_nat (length name) <= INT_MAX ->
        column t' = column t + Z.of_nat (length name))) /\
  (forall name rest,
     upb_Tokenizer_IsIdentifier name (Z.of_nat (length name)) = true ->
     Alphanumeric (hd 0 rest) = false ->
     Z.of_nat (length name) <= INT_MAX ->
     exists t',
       upb_Tokenizer_Next (upb_Tokenizer_New (name ++ rest) []) = Some (true, t') /\
       current t' = mkToken UPB_TOKENTYPE_IDENTIFIER 0 0 (Z.of_nat (length name)) name /\
       pending t' = rest).
Proof.
  split.
  - intros t Hok HL.
    destruct (Next_at_letter t Hok HL)
      as (t' & name & E & _ & Hc & P & Hs & Hex & Hl & Hcol).
    exists t', name. split; [exact E|]. split; [exact Hc|]. split; [exact P|].
    split; [exact Hs|]. split; [exact Hex|]. split; [exact Hl | exact Hcol].
  - intros name rest Hid Hrest Hmax.
    apply IsIdentifier_iff in Hid; [|lia]. destruct Hid as (Hlen & HL & Hall).
    destruct name as [|c cs]; [cbn in Hlen; lia|].
    change (at_ (c :: cs) 0) with c in HL.
    assert (Hcs : Forall (fun x => Alphanumeric x = true) cs).
    { apply Forall_forall. intros x Hx. apply (In_nth _ _ 0) in Hx.
      destruct Hx as (i & Hi & <-).
      assert (Hrange : 1 <= Z.of_nat (S i) < Z.of_nat (length (c :: cs)))
        by (unfold char in *; change (length (c :: cs)) with (S (length cs)); lia).
      specialize (Hall (Z.of_nat (S i)) Hrange).
      unfold at_ in Hall. destruct (Z.ltb_spec (Z.of_nat (S i)) 0); [lia|].
      rewrite Nat2Z.id in Hall. exact Hall. }
    destruct (New_reader ((c :: cs) ++ rest) [] ltac:(constructor)) as [Hok P].
    cbn [concat] in P. rewrite app_nil_r in P.
    set (t := upb_Tokenizer_New ((c :: cs) ++ rest) []) in *.
    assert (Hc : current_char t = c)
      by (rewrite (pending_head _ (proj1 Hok)), P; reflexivity).
    assert (Hpos : line t = 0 /\ column t = 0) by (split; reflexivity).
    destruct Hpos as [Hl Hcol].
    destruct (Next_at_letter t Hok ltac:(rewrite Hc; exact HL))
      as (t' & name & E & Hok' & Hcur & Pn & (c' & cs' & -> & HL' & Hall') & Hex
          & _ & Hcol').
    rewrite P in Pn.
    destruct (longest_prefix_unique Alphanumeric (c :: cs) (c' :: cs') rest (pending t') Pn)
      as [En Er].
    + constructor; [|assumption]. apply (Letter_facts c HL).
    + constructor; [|assumption]. apply (Letter_facts c' HL').
    + right. exact Hrest.
    + right. rewrite <- (pending_head _ (proj1 Hok')). exact Hex.
    + exists t'. split; [exact E|]. rewrite <- En in Hcol'.
      rewrite Hcol in Hcol'.
      rewrite Hcur, Hl, Hcol, <- En, Hcol' by (unfold INT_MIN; lia).
      split; [reflexivity | symmetry; exact Er].
Qed.

Lemma Next_scans_identifiers_witness :
  exists t',
    upb_Tokenizer_Next (upb_Tokenizer_New (bytes "x_1" ++ bytes "+y") []) =
    Some (true, t') /\
    current t' =
    mkToken UPB_TOKENTYPE_IDENTIFIER 0 0 (Z.of_nat (length (bytes "x_1"))) (bytes "x_1") /\
    pending t' = bytes "+y".
Proof.
  apply (proj2 Next_scans_identifiers (bytes "x_1") (bytes "+y"));
    [reflexivity | reflexivity | vm_compute; discriminate].
Defined.

(** ** The scanner on numbers and strings, and the literal parsers *)

(** The run of bytes of a class [ConsumeZeroOrMore] consumes in one line:
    recorded, counted in the column, without any error report. *)
Lemma ConsumeZeroOrMore_run (f : char -> bool) :
  (forall c, f c = true -> c <> 0 /\ c <> 10 /\ c <> 9) ->
  forall fuel t a t',
    ConsumeZeroOrMore fuel f t = Some (a, t') ->
    reader_ok t -> recording t ->
    reader_ok t' /\ recording t' /\
    f (current_char t') = false /\
    line t' = line t /\
    tok_line (current t') = tok_line (current t) /\
    tok_column (current t') = tok_column (current t) /\
    error_collector t' = error_collector t /\
    exists s,
      pending t = s ++ pending t' /\ recorded_text t' = recorded_text t ++ s /\
      Forall (fun c => f c = true) s /\
      (INT_MIN <= column t -> column t + Z.of_nat (length s) <= INT_MAX ->
       column t' = column t + Z.of_nat (length s)).
Proof.
  intros Hf. induction fuel as [|fuel IH]; intros t a t' H Hok Hr; [discriminate H|].
  cbn [ConsumeZeroOrMore] in H. rewrite bind_gets in H.
  destruct (f (current_char t)) eqn:Ea.
  - rewrite bind_lift in H.
    destruct (Hf _ Ea) as (H0 & H10 & H9).
    pose proof (wf_not_eof t (proj1 Hok) H0) as Er.
    destruct (reader_ok_not_eof t Hok Er) as (rest & Pa & Pb & Hok1).
    destruct (NextChar_recorded t (proj1 Hok) Er Hr) as [Hr1 T1].
    destruct (NextChar_line_column t) as [L1 C1].
    destruct (NextChar_token_fields t) as (_ & TL & TC & _).
    destruct (NextChar_options_errors t) as (Ee & _).
    apply Z.eqb_neq in H10, H9. rewrite H10 in L1, C1. rewrite H9 in C1.
    destruct (IH _ _ _ H Hok1 Hr1)
      as (Hok' & Hr' & Hex & L' & TL' & TC' & Ee' & s & P' & T' & Hall & C').
    split; [assumption|]. split; [assumption|]. split; [assumption|].
    split; [congruence|]. split; [congruence|]. split; [congruence|].
    split; [congruence|].
    exists (current_char t :: s). split; [|split; [|split]].
    + rewrite Pa, <- Pb, P'. reflexivity.
    + rewrite T', T1, <- app_assoc. reflexivity.
    + constructor; assumption.
    + intros Hlo Hhi. cbn [length] in Hhi.
      rewrite wrap_int_small in C1 by lia.
      rewrite C' by (rewrite C1; lia). rewrite C1. cbn [length]. lia.
  - injection H as _ <-.
    split; [assumption|]. split; [assumption|]. split; [assumption|].
    split; [reflexivity|]. split; [reflexivity|]. split; [reflexivity|].
    split; [reflexivity|].
    exists []. split; [reflexivity|]. split; [symmetry; apply app_nil_r|].
    split; [constructor | intros _ _; cbn [length]; lia].
Qed.

(** Where no whitespace, comment or control character is skipped,
    [upb_Tokenizer_Next] is [Next_token]. *)
Lemma Next_reaches_token (t : upb_Tokenizer) :
  reader_ok t ->
  Whitespace (current_char t) = false ->
  current_char t <> ch "/" -> current_char t <> ch "#" ->
  Unprintable (current_char t) || (current_char t =? 0) = false ->
  exists u,
    upb_Tokenizer_Next t = Next_token (S (unread t)) u /\
    reader_ok u /\ pending u = pending t /\ current_char u = current_char t /\
    read_error u = false /\ line u = line t /\ column u = column t /\
    error_collector u = error_collector t /\
    allow_multiline_strings u = allow_multiline_strings t.
Proof.
  intros Hok Hws Hsl Hh Hun.
  assert (H0 : current_char t <> 0).
  { intros E0. rewrite E0 in Hun. discriminate Hun. }
  unfold upb_Tokenizer_Next. rewrite bind_lift.
  set (t0 := set_previous (upb_Token_Copy (previous t) (current t)) t).
  assert (Hs0 : same_reader t t0) by (repeat split).
  destruct (same_reader_ok _ _ Hs0 Hok) as [Hok0 P0].
  assert (C0 : current_char t0 = current_char t) by reflexivity.
  assert (LC0 : line t0 = line t /\ column t0 = column t /\
                error_collector t0 = error_collector t /\
                allow_multiline_strings t0 = allow_multiline_strings t)
    by (repeat split).
  clearbody t0.
  cbn [Next_loop].
  rewrite (wf_not_eof t0 (proj1 Hok0)) by (rewrite C0; exact H0).
  rewrite bind_lift.
  destruct (StartToken_reader t0 Hok0) as (Hok1 & P1 & R1 & T1 & Er1 & C1).
  rewrite (bind_eq _ _ _ _ _ (whitespace_none _ _ ltac:(rewrite C1, C0; exact Hws))).
  rewrite bind_lift. cbv iota.
  destruct (EndToken_reader _ Hok1 R1) as (Hok2 & P2 & T2 & Er2).
  destruct (EndToken_fields (StartToken t0)) as (_ & _ & _ & _ & Ye & Yf).
  destruct (StartToken_fields t0) as (_ & _ & S3 & S4).
  assert (Ee : error_collector (EndToken (StartToken t0)) = error_collector t0).
  { unfold EndToken, StopRecording, append_to_record_target.
    destruct (record_target (StartToken t0)) as [[|]|]; reflexivity. }
  assert (Ea : allow_multiline_strings (EndToken (StartToken t0)) =
               allow_multiline_strings t0).
  { unfold EndToken, StopRecording, append_to_record_target.
    destruct (record_target (StartToken t0)) as [[|]|]; reflexivity. }
  assert (C2 : current_char (EndToken (StartToken t0)) = current_char t).
  { rewrite <- C0, <- C1. symmetry. apply (proj1 (EndToken_frame (StartToken t0))). }
  set (u := EndToken (StartToken t0)) in *. clearbody u.
  rewrite (bind_eq _ _ _ _ _ (comment_none _ ltac:(rewrite C2; exact Hsl)
                                           ltac:(rewrite C2; exact Hh))).
  cbv iota. rewrite bind_gets.
  pose proof (wf_not_eof _ (proj1 Hok2) ltac:(rewrite C2; exact H0)) as Eru.
  rewrite Eru. rewrite bind_gets, C2, Hun.
  exists u. split; [reflexivity|]. split; [assumption|].
  split; [rewrite P2, P1; exact P0|]. split; [exact C2|]. split; [exact Eru|].
  destruct LC0 as (L0 & Cl0 & E0 & A0).
  split; [rewrite Ye, S3; exact L0|]. split; [rewrite Yf, S4; exact Cl0|].
  split; [rewrite Ee; exact E0 | rewrite Ea; exact A0].
Qed.

(** The state after [StartToken] and the first [NextChar] of a token that
    starts with a byte that is neither a newline nor a tab. *)
Lemma first_byte_of_token (u : upb_Tokenizer) :
  reader_ok u -> read_error u = false ->
  current_char u <> 10 -> current_char u <> 9 ->
  reader_ok (NextChar (StartToken u)) /\ recording (NextChar (StartToken u)) /\
  pending u = current_char u :: pending (NextChar (StartToken u)) /\
  recorded_text (NextChar (StartToken u)) = [current_char u] /\
  line (NextChar (StartToken u)) = line u /\
  column (NextChar (StartToken u)) = wrap_int (column u + 1) /\
  tok_line (current (NextChar (StartToken u))) = line u /\
  tok_column (current (NextChar (StartToken u))) = column u /\
  error_collector (NextChar (StartToken u)) = error_collector u.
Proof.
  intros Hok Er H10 H9.
  destruct (StartToken_reader u Hok) as (Hok3 & P3 & R3 & T3 & Er3 & C3).
  rewrite Er in Er3.
  destruct (reader_ok_not_eof _ Hok3 Er3) as (rest & Pa & Pb & Hok4).
  destruct (NextChar_recorded _ (proj1 Hok3) Er3 R3) as [R4 T4].
  destruct (NextChar_line_column (StartToken u)) as [L4 C4].
  destruct (NextChar_token_fields (StartToken u)) as (_ & TL4 & TC4 & _).
  destruct (NextChar_options_errors (StartToken u)) as (Ee & _).
  destruct (StartToken_fields u) as (S1 & S2 & S3 & S4).
  rewrite C3 in L4, C4, Pa, T4.
  apply Z.eqb_neq in H10, H9. rewrite H10 in L4, C4. rewrite H9 in C4.
  rewrite T3 in T4. cbn [app] in T4.
  split; [assumption|]. split; [assumption|].
  split; [rewrite <- P3, Pa, Pb; reflexivity|]. split; [exact T4|].
  split; [rewrite L4; exact S3|]. split; [rewrite C4, S4; reflexivity|].
  split; [rewrite TL4; exact S1|]. split; [rewrite TC4; exact S2|].
  rewrite Ee. reflexivity.
Qed.

(** The state [EndToken] leaves, with the type set before. *)
Lemma finish_token (ty : upb_TokenType) (t5 : upb_Tokenizer) (l c e : Z)
    (text : list char) :
  reader_ok t5 -> recording t5 ->
  tok_line (current t5) = l -> tok_column (current t5) = c -> column t5 = e ->
  recorded_text t5 = text ->
  reader_ok (EndToken (set_current (set_tok_type ty (current t5)) t5)) /\
  current (EndToken (set_current (set_tok_type ty (current t5)) t5)) =
  mkToken ty l c e text /\
  pending (EndToken (set_current (set_tok_type ty (current t5)) t5)) = pending t5 /\
  error_collector (EndToken (set_current (set_tok_type ty (current t5)) t5)) =
  error_collector t5 /\
  current_char (EndToken (set_current (set_tok_type ty (current t5)) t5)) =
  current_char t5.
Proof.
  intros Hok5 R5 Hl Hc He Ht.
  set (t6 := set_current (set_tok_type ty (current t5)) t5).
  assert (Hs6 : same_reader t5 t6) by (repeat split).
  destruct (same_reader_ok _ _ Hs6 Hok5) as [Hok6 P6].
  assert (R6 : recording t6) by exact R5.
  assert (F6 : tok_type (current t6) = ty /\ tok_line (current t6) = l /\
               tok_column (current t6) = c /\ column t6 = e /\
               recorded_text t6 = text /\ error_collector t6 = error_collector t5 /\
               current_char t6 = current_char t5).
  { subst t6. repeat split; assumption. }
  clearbody t6. destruct F6 as (F1 & F2 & F3 & F4 & F5 & F6 & F7).
  destruct (EndToken_reader t6 Hok6 R6) as (Hok7 & P7 & T7 & _).
  destruct (EndToken_fields t6) as (Y1 & Y2 & Y3 & Y4 & _ & _).
  split; [assumption|]. split; [|split; [|split]].
  - apply token_eta; congruence.
  - rewrite P7. exact P6.
  - rewrite <- F6. unfold EndToken, StopRecording, append_to_record_target.
    destruct (record_target t6) as [[|]|]; reflexivity.
  - rewrite <- F7. apply (proj1 (EndToken_frame t6)).
Qed.

Lemma Digit_facts (c : char) :
  Digit c = true ->
  c <> 0 /\ c <> 10 /\ c <> 9 /\ Whitespace c = false /\ c <> ch "/" /\
  c <> ch "#" /\ Unprintable c || (c =? 0) = false /\ Letter c = false /\
  c <> ch "." /\ DigitValue c = c - 48 /\ 0 <= c - 48 < 10.
Proof.
  intros H. pose proof (DigitValue_Digit c H) as Hv.
  unfold Digit in H. rewrite andb_true_iff, !Z.leb_le in H.
  change (ch "/") with 47. change (ch "#") with 35. change (ch ".") with 46.
  unfold Whitespace, Unprintable, Letter.
  split; [lia|]. split; [lia|]. split; [lia|].
  split; [repeat (apply orb_false_iff; split); apply Z.eqb_neq; lia|].
  split; [lia|]. split; [lia|]. split; [|split; [|split; [lia|split; [exact Hv | lia]]]].
  - apply orb_false_iff. split; [|apply Z.eqb_neq; lia].
    apply andb_false_iff. left. apply Z.ltb_ge. lia.
  - apply not_true_is_false.
    rewrite !orb_true_iff, !andb_true_iff, !Z.leb_le, Z.eqb_eq. lia.
Qed.

Lemma not_Alphanumeric_facts (c : char) :
  Alphanumeric c = false ->
  Letter c = false /\ Digit c = false /\ c <> ch "e" /\ c <> ch "E" /\
  c <> ch "f" /\ c <> ch "F" /\ c <> ch "x" /\ c <> ch "X".
Proof.
  intros H. apply not_true_iff_false in H. unfold Alphanumeric in H.
  rewrite !orb_true_iff, !andb_true_iff, !Z.leb_le, Z.eqb_eq in H.
  change (ch "e") with 101. change (ch "E") with 69. change (ch "f") with 102.
  change (ch "F") with 70. change (ch "x") with 120. change (ch "X") with 88.
  unfold Letter, Digit.
  split; [|split; [|lia]]; apply not_true_is_false;
    rewrite ?orb_true_iff, ?andb_true_iff, ?Z.leb_le, ?Z.eqb_eq; lia.
Qed.

(** At a digit that is not 0 or after one, [ConsumeNumber] takes a run of
    digits that ends before a byte that is neither alphanumeric nor a dot as
    an integer, without any error report. *)
Lemma ConsumeNumber_decimal (fuel : nat) (u : upb_Tokenizer) (ty : upb_TokenType)
    (u' : upb_Tokenizer) (ds rest : list char) :
  ConsumeNumber fuel false false u = Some (ty, u') ->
  reader_ok u -> recording u ->
  pending u = ds ++ rest -> Forall (fun c => Digit c = true) ds ->
  Alphanumeric (hd 0 rest) = false -> hd 0 rest <> ch "." ->
  ty = UPB_TOKENTYPE_INTEGER /\ reader_ok u' /\ recording u' /\
  pending u' = rest /\ recorded_text u' = recorded_text u ++ ds /\
  line u' = line u /\
  (INT_MIN <= column u -> column u + Z.of_nat (length ds) <= INT_MAX ->
   column u' = column u + Z.of_nat (length ds)) /\
  tok_line (current u') = tok_line (current u) /\
  tok_column (current u') = tok_column (current u) /\
  error_collector u' = error_collector u.
Proof.
  intros H Hok Hr P Hds Hrest Hdot. unfold ConsumeNumber in H.
  rewrite bind_ret in H. cbv beta iota in H.
  apply bind_inv in H. destruct H as (is_float & u2 & Ef & H).
  rewrite bind_ret in Ef. cbv beta iota in Ef.
  apply bind_inv in Ef. destruct Ef as (fl0 & u3 & E0 & Ef).
  apply bind_inv in E0. destruct E0 as ([] & u4 & Eczm & E0).
  destruct (ConsumeZeroOrMore_run Digit (fun c Hc => conj (proj1 (Digit_facts c Hc))
              (conj (proj1 (proj2 (Digit_facts c Hc)))
                    (proj1 (proj2 (proj2 (Digit_facts c Hc))))))
              _ _ _ _ Eczm Hok Hr)
    as (Hok4 & R4 & Hex & L4 & TL4 & TC4 & Ee4 & s & P4 & T4 & Hall & C4).
  destruct (not_Alphanumeric_facts _ Hrest) as (NL & ND & Ne & NE & Nf & NF & _).
  rewrite P in P4.
  destruct (longest_prefix_unique Digit ds s rest (pending u4) P4 Hds Hall)
    as [Es Er].
  { right. exact ND. }
  { right. rewrite <- (pending_head _ (proj1 Hok4)). exact Hex. }
  subst s. assert (Hc4 : current_char u4 = hd 0 rest)
    by (rewrite (pending_head _ (proj1 Hok4)), Er; reflexivity).
  rewrite (bind_TryConsume_false _ _ _ ltac:(rewrite Hc4; exact Hdot)) in E0.
  cbv iota in E0. injection E0 as <- <-.
  rewrite bind_orM in Ef.
  rewrite (bind_TryConsume_false _ _ _ ltac:(rewrite Hc4; exact Ne)) in Ef.
  cbv iota in Ef.
  rewrite (bind_TryConsume_false _ _ _ ltac:(rewrite Hc4; exact NE)) in Ef.
  cbv iota in Ef. rewrite bind_ret, bind_gets in Ef.
  assert (Eff : is_float = false /\ u2 = u4).
  { destruct (allow_f_after_float u4).
    - rewrite bind_orM in Ef.
      rewrite (bind_TryConsume_false _ _ _ ltac:(rewrite Hc4; exact Nf)) in Ef.
      cbv iota in Ef.
      rewrite (bind_TryConsume_false _ _ _ ltac:(rewrite Hc4; exact NF)) in Ef.
      cbv iota in Ef. injection Ef as <- <-. split; reflexivity.
    - rewrite bind_ret in Ef. injection Ef as <- <-. split; reflexivity. }
  destruct Eff as [-> ->].
  unfold LookingAt in H. rewrite !bind_gets in H. rewrite Hc4, NL in H.
  cbn [andb] in H. cbv iota in H.
  rewrite bind_bind, bind_gets, Hc4 in H.
  destruct (Z.eqb_spec (hd 0 rest) (ch ".")) as [Ed | _]; [contradiction|].
  rewrite !bind_ret in H. injection H as <- <-.
  split; [reflexivity|]. split; [assumption|]. split; [assumption|].
  split; [symmetry; exact Er|]. split; [exact T4|]. split; [exact L4|].
  split; [exact C4|]. split; [exact TL4|]. split; [exact TC4 | exact Ee4].
Qed.

(** At a digit that is not 0, [Next_token] takes the number branch. *)
Lemma Next_token_digit (fuel : nat) (t : upb_Tokenizer) :
  Digit (current_char t) = true -> current_char t <> ch "0" ->
  Next_token fuel t =
  ((ty <- ConsumeNumber fuel false false ;; set_current_type ty) ;;
   lift EndToken ;; ret true) (NextChar (StartToken t)).
Proof.
  intros HD H0. destruct (Digit_facts _ HD) as (_ & _ & _ & _ & _ & _ & _ & NL & Nd & _).
  unfold Next_token. rewrite bind_lift, bind_bind.
  rewrite bind_TryConsumeOne_false by exact NL. cbv iota.
  rewrite bind_bind, bind_TryConsume_false by exact H0. cbv iota.
  rewrite bind_bind, bind_TryConsume_false by exact Nd. cbv iota.
  rewrite bind_bind, bind_TryConsumeOne_true by exact HD. cbv iota.
  reflexivity.
Qed.

(** The value [upb_Parse_Integer] gives a decimal literal. *)
Lemma Parse_Integer_decimal (digits : list char) (max_value : Z) :
  Forall (fun c => Digit c = true) digits -> hd 0 digits <> ch "0" ->
  0 <= max_value <= UINT64_MAX ->
  upb_Parse_Integer digits max_value =
  if digits_value 10 digits <=? max_value then Some (digits_value 10 digits) else None.
Proof.
  intros Hds H0 Hmax.
  assert (Hnul : nul_free digits).
  { eapply Forall_impl; [|exact Hds]. intros c Hc. apply (Digit_facts c Hc). }
  assert (Hall : Forall (fun c => DigitValue c < 10) digits).
  { eapply Forall_impl; [|exact Hds]. intros c Hc.
    destruct (Digit_facts c Hc) as (_ & _ & _ & _ & _ & _ & _ & _ & _ & Hv & Hr). lia. }
  unfold upb_Parse_Integer, Parse_Integer_prefix.
  replace (at_ digits 0) with (hd 0 digits) by (destruct digits; reflexivity).
  destruct (Z.eqb_spec (hd 0 digits) (ch "0")) as [E | _]; [contradiction|].
  pose proof (seed_accum_exact 10 ltac:(lia) digits Hnul) as Hsa.
  destruct (Parse_Integer_seed 10 digits) as [[ptr result]|].
  - destruct (Parse_Integer_accum 10 (UINT64_MAX / 10 + 1) ptr result) as [r|].
    + destruct (Hsa r) as [Hr _]. destruct (Hr eq_refl) as (_ & Hfit & ->).
      destruct (Z.gtb_spec (digits_value 10 digits) max_value),
               (Z.leb_spec (digits_value 10 digits) max_value); try lia; reflexivity.
    + destruct (Z.leb_spec (digits_value 10 digits) max_value) as [Hle | _];
        [|reflexivity].
      destruct (Hsa (digits_value 10 digits)) as [_ Hr].
      discriminate Hr. split; [assumption|]. split; [lia | reflexivity].
  - destruct (Z.leb_spec (digits_value 10 digits) max_value) as [Hle | _];
      [|reflexivity].
    destruct (Hsa (digits_value 10 digits)) as [_ Hr].
    discriminate Hr. split; [assumption|]. split; [lia | reflexivity].
Qed.

(** X21.  From the scanner to [upb_Parse_Integer].  When the pending input
    starts with a run of decimal digits whose first digit is not 0, and the
    run ends at the end of the input or before a byte that is neither
    alphanumeric nor a dot, [upb_Tokenizer_Next] returns true with an INTEGER
    token whose text is exactly that run, from the reader position to the
    new reader position (as many columns further as the run has digits, as
    long as the [int] column does not overflow), it reports no error, and
    [upb_Parse_Integer] applied to the text of the token gives the decimal
    value of the run if it is at most [max_value] and fails otherwise. *)
Theorem Next_scans_decimal_integers :
  forall t digits rest max_value,
    reader_ok t -> pending t = digits ++ rest ->
    Forall (fun c => Digit c = true) digits ->
    digits <> [] -> hd 0 digits <> ch "0" ->
    Alphanumeric (hd 0 rest) = false -> hd 0 rest <> ch "." ->
    0 <= max_value <= UINT64_MAX ->
    exists t',
      upb_Tokenizer_Next t = Some (true, t') /\
      current t' = mkToken UPB_TOKENTYPE_INTEGER (line t) (column t)
                           (column t') digits /\
      pending t' = rest /\
      error_collector t' = error_collector t /\
      (INT_MIN <= column t -> column t + Z.of_nat (length digits) <= INT_MAX ->
       column t' = column t + Z.of_nat (length digits)) /\
      upb_Parse_Integer (upb_Tokenizer_CurrentTextData t') max_value =
      if digits_value 10 digits <=? max_value
      then Some (digits_value 10 digits) else None.
Proof.
  intros t digits rest max_value Hok P Hds Hne H0 Hrest Hdot Hmax.
  destruct digits as [|d ds]; [contradiction|]. cbn [hd] in H0.
  inversion Hds as [|? ? Hd Hds']. subst.
  assert (Hc : current_char t = d)
    by (rewrite (pending_head _ (proj1 Hok)), P; reflexivity).
  destruct (Digit_facts d Hd) as (D0 & D10 & D9 & Dws & Dsl & Dh & Dun & _).
  destruct (Next_reaches_token t Hok)
    as (u & E & Hoku & Pu & Cu & Eru & Lu & Colu & Eu & _);
    try (rewrite Hc; assumption).
  rewrite Hc in Cu.
  rewrite Next_token_digit in E by (rewrite Cu; assumption).
  destruct (first_byte_of_token u Hoku Eru)
    as (Hok4 & R4 & P4 & T4 & L4 & C4 & TL4 & TC4 & E4);
    try (rewrite Cu; assumption).
  rewrite Cu in P4, T4. rewrite Pu, P in P4. cbn [app] in P4. injection P4 as P4.
  destruct (Next_total t (proj1 Hok)) as (b & t' & En & _).
  rewrite En in E. symmetry in E.
  apply bind_inv in E. destruct E as ([] & t5 & E5 & E).
  apply bind_inv in E5. destruct E5 as (ty & u5 & Ecn & E5).
  destruct (ConsumeNumber_decimal _ _ _ _ ds rest Ecn Hok4 R4 (eq_sym P4) Hds' Hrest Hdot)
    as (-> & Hok5 & R5 & P5 & T5 & L5 & C5 & TL5 & TC5 & Ee5).
  unfold set_current_type in E5. injection E5 as <-.
  rewrite !bind_lift in E. injection E as <- <-.
  destruct (finish_token UPB_TOKENTYPE_INTEGER u5 (line t) (column t)
              (column u5) (d :: ds) Hok5 R5)
    as (Hok' & Hcur & Pend & Eerr & _).
  { rewrite TL5, TL4. exact Lu. }
  { rewrite TC5, TC4. exact Colu. }
  { reflexivity. }
  { rewrite T5, T4. reflexivity. }
  destruct (EndToken_fields
              (set_current (set_tok_type UPB_TOKENTYPE_INTEGER (current u5)) u5))
    as (_ & _ & _ & _ & _ & Yf).
  change (column (set_current (set_tok_type UPB_TOKENTYPE_INTEGER (current u5)) u5))
    with (column u5) in Yf.
  eexists. split; [exact En|]. rewrite Yf. split; [exact Hcur|].
  split; [rewrite Pend; exact P5|]. split; [rewrite Eerr, Ee5, E4; exact Eu|].
  split.
  - intros Hlo Hhi. cbn [length] in Hhi.
    rewrite Colu in C4. rewrite wrap_int_small in C4 by lia.
    rewrite C5 by (rewrite C4; lia). rewrite C4. cbn [length]. lia.
  - unfold upb_Tokenizer_CurrentTextData. rewrite Hcur. cbn [tok_text].
    apply Parse_Integer_decimal; [assumption | exact H0 | assumption].
Qed.

Lemma Next_scans_decimal_integers_witness :
  exists t',
    upb_Tokenizer_Next (upb_Tokenizer_New (bytes "42;") []) = Some (true, t') /\
    current t' =
    mkToken UPB_TOKENTYPE_INTEGER (line (upb_Tokenizer_New (bytes "42;") []))
            (column (upb_Tokenizer_New (bytes "42;") []))
            (column t') (bytes "42") /\
    pending t' = bytes ";" /\
    error_collector t' = error_collector (upb_Tokenizer_New (bytes "42;") []) /\
    (INT_MIN <= column (upb_Tokenizer_New (bytes "42;") []) ->
     column (upb_Tokenizer_New (bytes "42;") []) + Z.of_nat (length (bytes "42"))
     <= INT_MAX ->
     column t' =
     column (upb_Tokenizer_New (bytes "42;") []) + Z.of_nat (length (bytes "42"))) /\
    upb_Parse_Integer (upb_Tokenizer_CurrentTextData t') 100 =
    if digits_value 10 (bytes "42") <=? 100
    then Some (digits_value 10 (bytes "42")) else None.
Proof.
  apply (Next_scans_decimal_integers (upb_Tokenizer_New (bytes "42;") [])
           (bytes "42") (bytes ";") 100).
  - apply New_reader. constructor.
  - reflexivity.
  - repeat constructor.
  - discriminate.
  - discriminate.
  - reflexivity.
  - discriminate.
  - unfold UINT64_MAX. lia.
Defined.

(** One byte of a token that is neither NUL nor a newline: consumed,
    recorded, in the same line, without any error report. *)
Lemma NextChar_in_token (t : upb_Tokenizer) :
  reader_ok t -> recording t -> current_char t <> 0 -> current_char t <> 10 ->
  reader_ok (NextChar t) /\ recording (NextChar t) /\
  pending t = current_char t :: pending (NextChar t) /\
  recorded_text (NextChar t) = recorded_text t ++ [current_char t] /\
  line (NextChar t) = line t /\
  tok_line (current (NextChar t)) = tok_line (current t) /\
  tok_column (current (NextChar t)) = tok_column (current t) /\
  error_collector (NextChar t) = error_collector t.
Proof.
  intros Hok Hr H0 H10.
  pose proof (wf_not_eof t (proj1 Hok) H0) as Er.
  destruct (reader_ok_not_eof t Hok Er) as (rest & Pa & Pb & Hok1).
  destruct (NextChar_recorded t (proj1 Hok) Er Hr) as [Hr1 T1].
  destruct (NextChar_line_column t) as [L1 _].
  destruct (NextChar_token_fields t) as (_ & TL & TC & _).
  destruct (NextChar_options_errors t) as (Ee & _).
  apply Z.eqb_neq in H10. rewrite H10 in L1.
  split; [assumption|]. split; [assumption|].
  split; [rewrite Pa, Pb; reflexivity|]. split; [exact T1|].
  split; [exact L1|]. split; [exact TL|]. split; [exact TC | exact Ee].
Qed.

(** [ConsumeString] on a body without NUL, newline, backslash and quote,
    followed by the closing quote. *)
Lemma ConsumeString_plain (q : char) (rest : list char) :
  q <> 0 -> q <> 10 -> q <> 92 ->
  forall body fuel u a u',
    ConsumeString fuel q u = Some (a, u') ->
    reader_ok u -> recording u ->
    pending u = body ++ q :: rest ->
    Forall (fun c => c <> 0 /\ c <> 10 /\ c <> 92 /\ c <> q) body ->
    reader_ok u' /\ recording u' /\ pending u' = rest /\
    recorded_text u' = recorded_text u ++ body ++ [q] /\
    line u' = line u /\
    tok_line (current u') = tok_line (current u) /\
    tok_column (current u') = tok_column (current u) /\
    error_collector u' = error_collector u.
Proof.
  intros Q0 Q10 Q92.
  induction body as [|c body IH]; intros fuel u a u' H Hok Hr P Hb;
    (destruct fuel as [|fuel]; [discriminate H|]);
    cbn [ConsumeString] in H; rewrite bind_gets in H;
    pose proof (pending_head _ (proj1 Hok)) as Hc; rewrite P in Hc; cbn [app hd] in Hc.
  - rewrite Hc in H.
    destruct (Z.eqb_spec q 0); [contradiction|].
    destruct (Z.eqb_spec q 10); [contradiction|].
    destruct (Z.eqb_spec q 92); [contradiction|].
    rewrite Z.eqb_refl in H. injection H as _ <-.
    destruct (NextChar_in_token u Hok Hr) as (Hok1 & R1 & P1 & T1 & L1 & TL1 & TC1 & E1);
      try (rewrite Hc; assumption).
    rewrite P, Hc in P1. cbn [app] in P1. injection P1 as P1. rewrite Hc in T1.
    split; [assumption|]. split; [assumption|]. split; [symmetry; exact P1|].
    split; [exact T1|]. split; [exact L1|]. split; [exact TL1|].
    split; [exact TC1 | exact E1].
  - destruct (Forall_inv Hb) as (C0 & C10 & C92 & Cq).
    pose proof (Forall_inv_tail Hb) as Hb'.
    rewrite Hc in H.
    destruct (Z.eqb_spec c 0); [contradiction|].
    destruct (Z.eqb_spec c 10); [contradiction|].
    destruct (Z.eqb_spec c 92); [contradiction|].
    destruct (Z.eqb_spec c q); [contradiction|].
    rewrite bind_lift in H.
    destruct (NextChar_in_token u Hok Hr) as (Hok1 & R1 & P1 & T1 & L1 & TL1 & TC1 & E1);
      try (rewrite Hc; assumption).
    rewrite P, Hc in P1. cbn [app] in P1. injection P1 as P1. rewrite Hc in T1.
    destruct (IH _ _ _ _ H Hok1 R1 (eq_sym P1) Hb')
      as (Hok' & R' & P' & T' & L' & TL' & TC' & E').
    split; [assumption|]. split; [assumption|]. split; [exact P'|].
    split; [rewrite T', T1, <- app_assoc; reflexivity|].
    split; [congruence|]. split; [congruence|]. split; congruence.
Qed.

(** At a quote, [Next_token] takes the string branch with that quote as the
    delimiter. *)
Lemma Next_token_quote (fuel : nat) (t : upb_Tokenizer) (q : char) :
  q = 34 \/ q = 39 -> current_char t = q ->
  Next_token fuel t =
  ((ConsumeString fuel q ;; set_current_type UPB_TOKENTYPE_STRING) ;;
   lift EndToken ;; ret true) (NextChar (StartToken t)).
Proof.
  intros Hq Hc.
  assert (Hcs : current_char (StartToken t) = q)
    by exact Hc.
  unfold Next_token. rewrite bind_lift, bind_bind.
  rewrite bind_TryConsumeOne_false by (rewrite Hcs; destruct Hq; subst q; reflexivity).
  cbv iota.
  rewrite bind_bind, bind_TryConsume_false
    by (rewrite Hcs; destruct Hq; subst q; discriminate).
  cbv iota.
  rewrite bind_bind, bind_TryConsume_false
    by (rewrite Hcs; destruct Hq; subst q; discriminate).
  cbv iota.
  rewrite bind_bind, bind_TryConsumeOne_false
    by (rewrite Hcs; destruct Hq; subst q; reflexivity).
  cbv iota.
  destruct Hq as [Hq | Hq]; subst q.
  - rewrite bind_bind, bind_TryConsume_true by exact Hcs. cbv iota. reflexivity.
  - rewrite bind_bind, bind_TryConsume_false by (rewrite Hcs; discriminate).
    cbv iota.
    rewrite bind_bind, bind_TryConsume_true by exact Hcs. cbv iota. reflexivity.
Qed.

Lemma drop_closing_quote_snoc (q : char) (body : list char) :
  drop_closing_quote q (body ++ [q]) = body.
Proof.
  induction body as [|c rest IH]; cbn [app drop_closing_quote].
  - rewrite Z.eqb_refl. reflexivity.
  - destruct (rest ++ [q]) eqn:E; [destruct rest; discriminate|].
    f_equal. exact IH.
Qed.

(** [upb_Parse_String] on a quoted text without escapes. *)
Lemma Parse_String_plain (q : char) (body : list char) (output : upb_String) :
  q <> 0 -> nul_free body -> Forall (fun c => c <> 92) body -> q <> 92 ->
  upb_Parse_String (q :: body ++ [q]) output = Some body.
Proof.
  intros Hq Hnul Hbs Hq92. unfold upb_Parse_String, upb_String_Clear, upb_Parse_StringAppend.
  assert (Hnul' : nul_free (body ++ [q])).
  { apply Forall_app. split; [assumption | repeat constructor; assumption]. }
  assert (Hbs' : Forall (fun c => c <> 92) (body ++ [q])).
  { apply Forall_app. split; [assumption | repeat constructor; assumption]. }
  assert (Hlen : strlen (q :: body ++ [q]) = 1 + Z.of_nat (length (body ++ [q]))).
  { rewrite strlen_cons. destruct (Z.eqb_spec q 0); [contradiction|].
    rewrite strlen_nul_free by assumption. reflexivity. }
  rewrite Hlen. destruct (Z.eqb_spec (1 + Z.of_nat (length (body ++ [q]))) 0); [lia|].
  rewrite (StringAppend_loop_plain q (body ++ [q]) [] _ [] Hnul' Hbs') by lia.
  cbn [app]. rewrite drop_closing_quote_snoc. reflexivity.
Qed.

(** X22.  From the scanner to [upb_Parse_String].  When the pending input
    starts with a quote (double or single), a body without NUL, newline,
    backslash and that quote, and the same quote again,
    [upb_Tokenizer_Next] returns true with a STRING token that starts at the
    reader position and whose text is the body with both quotes, it reports
    no error and stays in the line, and [upb_Parse_String] applied to the
    text of the token gives exactly the body, whatever the output held. *)
Theorem Next_scans_plain_strings :
  forall t q body rest output,
    reader_ok t -> q = 34 \/ q = 39 ->
    pending t = q :: body ++ q :: rest ->
    Forall (fun c => c <> 0 /\ c <> 10 /\ c <> 92 /\ c <> q) body ->
    exists t',
      upb_Tokenizer_Next t = Some (true, t') /\
      tok_type (current t') = UPB_TOKENTYPE_STRING /\
      tok_text (current t') = q :: body ++ [q] /\
      tok_line (current t') = line t /\
      tok_column (current t') = column t /\
      tok_end_column (current t') = column t' /\
      line t' = line t /\
      pending t' = rest /\
      error_collector t' = error_collector t /\
      upb_Parse_String (upb_Tokenizer_CurrentTextData t') output = Some body.
Proof.
  intros t q body rest output Hok Hq P Hb.
  assert (Hc : current_char t = q)
    by (rewrite (pending_head _ (proj1 Hok)), P; reflexivity).
  assert (Q : q <> 0 /\ q <> 10 /\ q <> 9 /\ q <> 92 /\ Whitespace q = false /\
              q <> ch "/" /\ q <> ch "#" /\ Unprintable q || (q =? 0) = false).
  { destruct Hq; subst q; repeat split; discriminate. }
  destruct Q as (Q0 & Q10 & Q9 & Q92 & Qws & Qsl & Qh & Qun).
  destruct (Next_reaches_token t Hok) as (u & E & Hoku & Pu & Cu & Eru & Lu & Colu & Eu & _);
    try (rewrite Hc; assumption).
  rewrite Hc in Cu.
  rewrite (Next_token_quote _ _ q Hq Cu) in E.
  destruct (first_byte_of_token u Hoku Eru) as (Hok4 & R4 & P4 & T4 & L4 & C4 & TL4 & TC4 & E4);
    try (rewrite Cu; assumption).
  rewrite Cu in P4, T4. rewrite Pu, P in P4. injection P4 as P4.
  destruct (Next_total t (proj1 Hok)) as (b & t' & En & _).
  rewrite En in E. symmetry in E.
  apply bind_inv in E. destruct E as ([] & t5 & E5 & E).
  apply bind_inv in E5. destruct E5 as ([] & u5 & Ecs & E5).
  destruct (ConsumeString_plain q rest Q0 Q10 Q92 _ _ _ _ _ Ecs Hok4 R4 (eq_sym P4) Hb)
    as (Hok5 & R5 & P5 & T5 & L5 & TL5 & TC5 & Ee5).
  unfold set_current_type in E5. injection E5 as <-.
  rewrite !bind_lift in E. injection E as <- <-.
  destruct (finish_token UPB_TOKENTYPE_STRING u5 (line t) (column t)
              (column u5) (q :: body ++ [q]) Hok5 R5)
    as (Hok' & Hcur & Pend & Eerr & _).
  { rewrite TL5, TL4. exact Lu. }
  { rewrite TC5, TC4. exact Colu. }
  { reflexivity. }
  { rewrite T5, T4. reflexivity. }
  destruct (EndToken_fields (set_current (set_tok_type UPB_TOKENTYPE_STRING (current u5)) u5))
    as (_ & _ & _ & _ & Ye & Yf).
  eexists. split; [exact En|]. rewrite Hcur. cbn [tok_type tok_text tok_line tok_column tok_end_column].
  split; [reflexivity|]. split; [reflexivity|]. split; [reflexivity|].
  split; [reflexivity|]. split; [symmetry; exact Yf|].
  split; [rewrite Ye; change (line u5 = line t); rewrite L5, L4; exact Lu|].
  split; [rewrite Pend; exact P5|]. split; [rewrite Eerr, Ee5, E4; exact Eu|].
  unfold upb_Tokenizer_CurrentTextData. rewrite Hcur. cbn [tok_text].
  apply Parse_String_plain; try assumption.
  - eapply Forall_impl; [|exact Hb]. intros c Hcc. apply Hcc.
  - eapply Forall_impl; [|exact Hb]. intros c Hcc. apply Hcc.
Qed.

Lemma Next_scans_plain_strings_witness :
  exists t',
    upb_Tokenizer_Next (upb_Tokenizer_New (bytes "'a b' c") []) = Some (true, t') /\
    tok_type (current t') = UPB_TOKENTYPE_STRING /\
    tok_text (current t') = 39 :: bytes "a b" ++ [39] /\
    tok_line (current t') = line (upb_Tokenizer_New (bytes "'a b' c") []) /\
    tok_column (current t') = column (upb_Tokenizer_New (bytes "'a b' c") []) /\
    tok_end_column (current t') = column t' /\
    line t' = line (upb_Tokenizer_New (bytes "'a b' c") []) /\
    pending t' = bytes " c" /\
    error_collector t' = error_collector (upb_Tokenizer_New (bytes "'a b' c") []) /\
    upb_Parse_String (upb_Tokenizer_CurrentTextData t') (bytes "old") =
    Some (bytes "a b").
Proof.
  apply (Next_scans_plain_strings (upb_Tokenizer_New (bytes "'a b' c") [])
           39 (bytes "a b") (bytes " c") (bytes "old")).
  - apply New_reader. constructor.
  - right. reflexivity.
  - reflexivity.
  - repeat constructor; discriminate.
Defined.

(** ** Error reports of the scanner *)

(** [ConsumeString] on a body without NUL, newline, backslash and quote that
    ends at a NUL or the end of the input, or at a newline where strings
    must end in their line: the body is consumed, one error is added. *)
Lemma ConsumeString_unterminated (q : char) (rest : list char) :
  forall body fuel u a u',
    ConsumeString fuel q u = Some (a, u') ->
    reader_ok u -> recording u ->
    pending u = body ++ rest ->
    Forall (fun c => c <> 0 /\ c <> 10 /\ c <> 92 /\ c <> q) body ->
    hd 0 rest = 0 \/ (hd 0 rest = 10 /\ allow_multiline_strings u = false) ->
    reader_ok u' /\ recording u' /\ pending u' = rest /\
    recorded_text u' = recorded_text u ++ body /\
    line u' = line u /\
    tok_line (current u') = tok_line (current u) /\
    tok_column (current u') = tok_column (current u) /\
    error_collector u' =
    error_collector u ++
    [mkError (line u') (column u')
       (if hd 0 rest =? 0 then MsgUnexpectedEndOfString else MsgStringCrossesLine)].
Proof.
  induction body as [|c body IH]; intros fuel u a u' H Hok Hr P Hb Hend;
    (destruct fuel as [|fuel]; [discriminate H|]);
    cbn [ConsumeString] in H; rewrite bind_gets in H;
    pose proof (pending_head _ (proj1 Hok)) as Hc; rewrite P in Hc; cbn [app hd] in Hc.
  - rewrite Hc in H.
    assert (E : u' = AddError (if hd 0 rest =? 0 then MsgUnexpectedEndOfString
                               else MsgStringCrossesLine) u).
    { destruct Hend as [E0 | [E10 Ea]].
      - rewrite E0 in H |- *. cbn in H. injection H as _ <-. reflexivity.
      - rewrite E10 in H |- *. cbn [Z.eqb Pos.eqb] in H. cbv iota in H.
        rewrite bind_gets, Ea in H. cbn [negb] in H. cbv iota in H.
        injection H as _ <-. reflexivity. }
    subst u'.
    set (m := if hd 0 rest =? 0 then MsgUnexpectedEndOfString else MsgStringCrossesLine).
    assert (Hs : same_reader u (AddError m u)) by (repeat split).
    destruct (same_reader_ok _ _ Hs Hok) as [Hok' P'].
    split; [exact Hok'|]. split; [exact Hr|]. split; [rewrite P'; exact P|].
    split; [rewrite app_nil_r; reflexivity|]. repeat split.
  - destruct (Forall_inv Hb) as (C0 & C10 & C92 & Cq).
    pose proof (Forall_inv_tail Hb) as Hb'.
    rewrite Hc in H.
    destruct (Z.eqb_spec c 0); [contradiction|].
    destruct (Z.eqb_spec c 10); [contradiction|].
    destruct (Z.eqb_spec c 92); [contradiction|].
    destruct (Z.eqb_spec c q); [contradiction|].
    rewrite bind_lift in H.
    destruct (NextChar_in_token u Hok Hr) as (Hok1 & R1 & P1 & T1 & L1 & TL1 & TC1 & E1);
      try (rewrite Hc; assumption).
    rewrite P, Hc in P1. cbn [app] in P1. injection P1 as P1. rewrite Hc in T1.
    destruct (NextChar_options_errors u) as (_ & _ & _ & _ & Ea & _).
    destruct (IH _ _ _ _ H Hok1 R1 (eq_sym P1) Hb')
      as (Hok' & R' & P' & T' & L' & TL' & TC' & E').
    { destruct Hend as [E0 | [E10 Eal]]; [left; exact E0 | right].
      split; [exact E10 | rewrite Ea; exact Eal]. }
    split; [assumption|]. split; [assumption|]. split; [exact P'|].
    split; [rewrite T', T1, <- app_assoc; reflexivity|].
    split; [congruence|]. split; [congruence|]. split; [congruence|].
    rewrite E', E1. reflexivity.
Qed.

(** X23.  Unterminated string literals.  When the pending input starts
    with a quote and a body without NUL, newline, backslash and that quote,
    and the body ends at the end of the input or a NUL byte, or at a newline
    while strings may not cross lines, [upb_Tokenizer_Next] still returns
    true with a STRING token: its text is the opening quote and the body, the
    terminating byte is left unread, and exactly one error is added, at the
    position where the scan stopped: that the string ended unexpectedly, or
    that string literals cannot cross line boundaries. *)
Theorem Next_reports_unterminated_strings :
  forall t q body rest,
    reader_ok t -> q = 34 \/ q = 39 ->
    pending t = q :: body ++ rest ->
    Forall (fun c => c <> 0 /\ c <> 10 /\ c <> 92 /\ c <> q) body ->
    hd 0 rest = 0 \/ (hd 0 rest = 10 /\ allow_multiline_strings t = false) ->
    exists t',
      upb_Tokenizer_Next t = Some (true, t') /\
      tok_type (current t') = UPB_TOKENTYPE_STRING /\
      tok_text (current t') = q :: body /\
      tok_line (current t') = line t /\
      tok_column (current t') = column t /\
      line t' = line t /\
      pending t' = rest /\
      error_collector t' =
      error_collector t ++
      [mkError (line t') (column t')
         (if hd 0 rest =? 0 then MsgUnexpectedEndOfString else MsgStringCrossesLine)].
Proof.
  intros t q body rest Hok Hq P Hb Hend.
  assert (Hc : current_char t = q)
    by (rewrite (pending_head _ (proj1 Hok)), P; reflexivity).
  assert (Q : q <> 0 /\ q <> 10 /\ q <> 9 /\ q <> 92 /\ Whitespace q = false /\
              q <> ch "/" /\ q <> ch "#" /\ Unprintable q || (q =? 0) = false).
  { destruct Hq; subst q; repeat split; discriminate. }
  destruct Q as (Q0 & Q10 & Q9 & Q92 & Qws & Qsl & Qh & Qun).
  destruct (Next_reaches_token t Hok)
    as (u & E & Hoku & Pu & Cu & Eru & Lu & Colu & Eu & Au);
    try (rewrite Hc; assumption).
  rewrite Hc in Cu.
  rewrite (Next_token_quote _ _ q Hq Cu) in E.
  destruct (first_byte_of_token u Hoku Eru) as (Hok4 & R4 & P4 & T4 & L4 & C4 & TL4 & TC4 & E4);
    try (rewrite Cu; assumption).
  rewrite Cu in P4, T4. rewrite Pu, P in P4. injection P4 as P4.
  assert (A4 : allow_multiline_strings (NextChar (StartToken u)) =
               allow_multiline_strings t).
  { destruct (NextChar_options_errors (StartToken u)) as (_ & _ & _ & _ & Ea & _).
    rewrite Ea. exact Au. }
  destruct (Next_total t (proj1 Hok)) as (b & t' & En & _).
  rewrite En in E. symmetry in E.
  apply bind_inv in E. destruct E as ([] & t5 & E5 & E).
  apply bind_inv in E5. destruct E5 as ([] & u5 & Ecs & E5).
  destruct (ConsumeString_unterminated q rest _ _ _ _ _ Ecs Hok4 R4 (eq_sym P4) Hb)
    as (Hok5 & R5 & P5 & T5 & L5 & TL5 & TC5 & Ee5).
  { destruct Hend as [E0 | [E10 Eal]]; [left; exact E0 | right].
    split; [exact E10 | rewrite A4; exact Eal]. }
  unfold set_current_type in E5. injection E5 as <-.
  rewrite !bind_lift in E. injection E as <- <-.
  destruct (finish_token UPB_TOKENTYPE_STRING u5 (line t) (column t)
              (column u5) (q :: body) Hok5 R5)
    as (Hok' & Hcur & Pend & Eerr & _).
  { rewrite TL5, TL4. exact Lu. }
  { rewrite TC5, TC4. exact Colu. }
  { reflexivity. }
  { rewrite T5, T4. reflexivity. }
  destruct (EndToken_fields (set_current (set_tok_type UPB_TOKENTYPE_STRING (current u5)) u5))
    as (_ & _ & _ & _ & Ye & Yf).
  eexists. split; [exact En|]. rewrite Hcur.
  cbn [tok_type tok_text tok_line tok_column tok_end_column].
  split; [reflexivity|]. split; [reflexivity|]. split; [reflexivity|].
  split; [reflexivity|].
  split; [rewrite Ye; change (line u5 = line t); rewrite L5, L4; exact Lu|].
  split; [rewrite Pend; exact P5|].
  rewrite Eerr, Ee5, E4, Eu, Ye, Yf. reflexivity.
Qed.

Lemma Next_reports_unterminated_strings_witness :
  exists t',
    upb_Tokenizer_Next (upb_Tokenizer_New (bytes "'ab") []) = Some (true, t') /\
    tok_type (current t') = UPB_TOKENTYPE_STRING /\
    tok_text (current t') = 39 :: bytes "ab" /\
    tok_line (current t') = line (upb_Tokenizer_New (bytes "'ab") []) /\
    tok_column (current t') = column (upb_Tokenizer_New (bytes "'ab") []) /\
    line t' = line (upb_Tokenizer_New (bytes "'ab") []) /\
    pending t' = [] /\
    error_collector t' =
    error_collector (upb_Tokenizer_New (bytes "'ab") []) ++
    [mkError (line t') (column t')
       (if hd 0 (@nil char) =? 0 then MsgUnexpectedEndOfString
        else MsgStringCrossesLine)].
Proof.
  apply (Next_reports_unterminated_strings (upb_Tokenizer_New (bytes "'ab") [])
           39 (bytes "ab") []).
  - apply New_reader. constructor.
  - right. reflexivity.
  - reflexivity.
  - repeat constructor; discriminate.
  - left. reflexivity.
Defined.

(** At a byte that starts no word, number or string, [Next_token] takes
    the symbol branch; a dot not followed by a digit is a symbol too. *)
Lemma Next_token_symbol (fuel : nat) (t : upb_Tokenizer) :
  Letter (current_char t) = false -> Digit (current_char t) = false ->
  current_char t <> 34 -> current_char t <> 39 -> current_char t <> ch "." ->
  Next_token fuel t =
  (set_current_type UPB_TOKENTYPE_SYMBOL ;; lift EndToken ;; ret true)
    (NextChar (if negb (Z.land (current_char t) 128 =? 0)
               then ReportError (line t) (column t)
                      (MsgNonAsciiCodepoint (current_char t mod 256)) (StartToken t)
               else StartToken t)).
Proof.
  intros NL ND N34 N39 Ndot.
  assert (N0 : current_char t <> ch "0").
  { intros E0. rewrite E0 in ND. discriminate ND. }
  unfold Next_token. rewrite bind_lift, bind_bind.
  rewrite bind_TryConsumeOne_false by exact NL. cbv iota.
  rewrite bind_bind, bind_TryConsume_false by exact N0. cbv iota.
  rewrite bind_bind, bind_TryConsume_false by exact Ndot. cbv iota.
  rewrite bind_bind, bind_TryConsumeOne_false by exact ND. cbv iota.
  rewrite bind_bind, bind_TryConsume_false by exact N34. cbv iota.
  rewrite bind_bind, bind_TryConsume_false by exact N39. cbv iota.
  unfold bind, lift, set_current_type, ret. cbv beta iota.
  change (current_char (StartToken t)) with (current_char t).
  change (line (StartToken t)) with (line t).
  change (column (StartToken t)) with (column t).
  reflexivity.
Qed.

Lemma Next_token_dot (fuel : nat) (t : upb_Tokenizer) :
  current_char t = ch "." ->
  Digit (current_char (NextChar (StartToken t))) = false ->
  Next_token fuel t =
  (set_current_type UPB_TOKENTYPE_SYMBOL ;; lift EndToken ;; ret true)
    (NextChar (StartToken t)).
Proof.
  intros Hc ND.
  unfold Next_token. rewrite bind_lift, bind_bind.
  rewrite bind_TryConsumeOne_false
    by (change (Letter (current_char t) = false); rewrite Hc; reflexivity).
  cbv iota.
  rewrite bind_bind, bind_TryConsume_false
    by (change (current_char t <> ch "0"); rewrite Hc; discriminate).
  cbv iota.
  rewrite bind_bind, bind_TryConsume_true by exact Hc. cbv iota.
  rewrite bind_bind, bind_TryConsumeOne_false by exact ND. cbv iota.
  reflexivity.
Qed.

(** X24.  Symbols.  A byte that is not NUL, whitespace or a control
    character, starts no identifier, number or string, and is neither a
    slash nor a hash (where comments may start), is returned by
    [upb_Tokenizer_Next] as a SYMBOL token of exactly that one byte, one
    column wide (as long as the [int] column does not overflow); a dot
    counts when no digit follows it.  An error is added,
    at the position of the byte and naming it as an unsigned value, exactly
    when the byte has its high bit set. *)
Theorem Next_scans_symbols :
  forall t c rest,
    reader_ok t -> pending t = c :: rest ->
    c <> 0 -> Whitespace c = false -> Unprintable c = false ->
    Letter c = false -> Digit c = false ->
    c <> 34 -> c <> 39 -> c <> ch "/" -> c <> ch "#" ->
    (c = ch "." -> Digit (hd 0 rest) = false) ->
    exists t',
      upb_Tokenizer_Next t = Some (true, t') /\
      current t' = mkToken UPB_TOKENTYPE_SYMBOL (line t) (column t) (column t') [c] /\
      pending t' = rest /\ line t' = line t /\
      (INT_MIN <= column t < INT_MAX -> column t' = column t + 1) /\
      error_collector t' =
      if Z.land c 128 =? 0 then error_collector t
      else error_collector t ++
           [mkError (line t) (column t) (MsgNonAsciiCodepoint (c mod 256))].
Proof.
  intros t c rest Hok P C0 Cws Cun CL CD C34 C39 Csl Ch Cdot.
  assert (Hc : current_char t = c)
    by (rewrite (pending_head _ (proj1 Hok)), P; reflexivity).
  assert (C10 : c <> 10 /\ c <> 9).
  { unfold Whitespace in Cws. rewrite !orb_false_iff, !Z.eqb_neq in Cws. tauto. }
  destruct C10 as [C10 C9].
  assert (Cun0 : Unprintable c || (c =? 0) = false).
  { rewrite Cun. apply Z.eqb_neq in C0. rewrite C0. reflexivity. }
  destruct (Next_reaches_token t Hok)
    as (u & E & Hoku & Pu & Cu & Eru & Lu & Colu & Eu & _);
    try (rewrite Hc; assumption).
  rewrite Hc in Cu.
  destruct (StartToken_reader u Hoku) as (Hok3 & P3 & R3 & T3 & Er3 & C3).
  destruct (StartToken_fields u) as (S1 & S2 & S3 & S4).
  (* the state in which the byte is consumed *)
  assert (Hv : exists v,
             Next_token (S (unread t)) u =
             (set_current_type UPB_TOKENTYPE_SYMBOL ;; lift EndToken ;; ret true)
               (NextChar v) /\
             same_reader (StartToken u) v /\ recording v /\ recorded_text v = [] /\
             line v = line u /\ column v = column u /\
             tok_line (current v) = line u /\ tok_column (current v) = column u /\
             error_collector v =
             if Z.land c 128 =? 0 then error_collector u
             else error_collector u ++
                  [mkError (line u) (column u) (MsgNonAsciiCodepoint (c mod 256))]).
  { destruct (Z.eq_dec c (ch ".")) as [Ed | Nd].
    - exists (StartToken u). split.
      + apply Next_token_dot; [rewrite Cu; exact Ed|].
        assert (Er3' : read_error (StartToken u) = false)
          by (rewrite Er3; exact Eru).
        destruct (reader_ok_not_eof _ Hok3 Er3') as (r & Pa & Pb & Hok4).
        rewrite (pending_head _ (proj1 Hok4)), Pb.
        rewrite P3, Pu, P in Pa. injection Pa as _ <-. exact (Cdot Ed).
      + split; [repeat split|]. split; [exact R3|]. split; [exact T3|].
        split; [exact S3|]. split; [exact S4|]. split; [exact S1|]. split; [exact S2|].
        rewrite Ed. reflexivity.
    - eexists. split.
      + apply Next_token_symbol; rewrite Cu; assumption.
      + rewrite Cu. destruct (Z.land c 128 =? 0); cbn [negb]; cbv iota.
        * split; [repeat split|]. split; [exact R3|]. split; [exact T3|].
          split; [exact S3|]. split; [exact S4|]. split; [exact S1|].
          split; [exact S2 | reflexivity].
        * split; [repeat split|]. split; [exact R3|]. split; [exact T3|].
          split; [exact S3|]. split; [exact S4|]. split; [exact S1|].
          split; [exact S2 | reflexivity]. }
  destruct Hv as (v & Ev & Hsv & Rv & Tv & Lv & Colv & TLv & TCv & Eev).
  rewrite Ev in E. clear Ev.
  destruct (same_reader_ok _ _ Hsv Hok3) as [Hokv Pv].
  assert (Cv : current_char v = c).
  { destruct Hsv as (_ & _ & _ & _ & Hcc & _). rewrite Hcc, C3. exact Cu. }
  clear Hsv.
  destruct (NextChar_in_token v Hokv Rv) as (Hok4 & R4 & P4 & T4 & L4 & TL4 & TC4 & E4);
    try (rewrite Cv; assumption).
  destruct (NextChar_line_column v) as [_ C4].
  rewrite Cv in P4, T4, C4.
  apply Z.eqb_neq in C10, C9. rewrite C10, C9 in C4.
  rewrite Pv, P3, Pu, P in P4. injection P4 as P4. rewrite Tv in T4. cbn [app] in T4.
  unfold set_current_type in E. rewrite !bind_lift in E.
  destruct (finish_token UPB_TOKENTYPE_SYMBOL (NextChar v) (line t) (column t)
              (column (NextChar v)) [c] Hok4 R4)
    as (Hok' & Hcur & Pend & Eerr & _).
  { rewrite TL4, TLv. exact Lu. }
  { rewrite TC4, TCv. exact Colu. }
  { reflexivity. }
  { exact T4. }
  destruct (EndToken_fields (set_current (set_tok_type UPB_TOKENTYPE_SYMBOL
                                            (current (NextChar v))) (NextChar v)))
    as (_ & _ & _ & _ & Ye & Yf).
  change (column (set_current (set_tok_type UPB_TOKENTYPE_SYMBOL
                                 (current (NextChar v))) (NextChar v)))
    with (column (NextChar v)) in Yf.
  eexists. split; [exact E|]. rewrite Yf. split; [exact Hcur|].
  split; [rewrite Pend; symmetry; exact P4|].
  split; [rewrite Ye; change (line (NextChar v) = line t); rewrite L4, Lv; exact Lu|].
  split; [intros Hb; rewrite C4, Colv, Colu;
          apply wrap_int_small; unfold INT_MIN, INT_MAX in *; lia|].
  rewrite Eerr, E4, Eev, Eu, Lu, Colu. reflexivity.
Qed.

Lemma Next_scans_symbols_witness :
  exists t',
    upb_Tokenizer_Next (upb_Tokenizer_New [200; 43] []) = Some (true, t') /\
    current t' =
    mkToken UPB_TOKENTYPE_SYMBOL (line (upb_Tokenizer_New [200; 43] []))
            (column (upb_Tokenizer_New [200; 43] []))
            (column t') [200] /\
    pending t' = [43] /\ line t' = line (upb_Tokenizer_New [200; 43] []) /\
    (INT_MIN <= column (upb_Tokenizer_New [200; 43] []) < INT_MAX ->
     column t' = column (upb_Tokenizer_New [200; 43] []) + 1) /\
    error_collector t' =
    if Z.land 200 128 =? 0 then error_collector (upb_Tokenizer_New [200; 43] [])
    else error_collector (upb_Tokenizer_New [200; 43] []) ++
         [mkError (line (upb_Tokenizer_New [200; 43] []))
                  (column (upb_Tokenizer_New [200; 43] []))
                  (MsgNonAsciiCodepoint (200 mod 256))].
Proof.
  apply (Next_scans_symbols (upb_Tokenizer_New [200; 43] []) 200 [43]).
  - apply New_reader. constructor.
  - reflexivity.
  - discriminate.
  - reflexivity.
  - reflexivity.
  - reflexivity.
  - reflexivity.
  - discriminate.
  - discriminate.
  - discriminate.
  - discriminate.
  - discriminate.
Defined.
